(* ===== verification/_CoqProject ===== *)
-Q . S2P
Prelude.v
Model.v
Json.v
Path.v
Regex.v
Rules.v
Reference.v
Index.v
Project.v
Engine.v
Settings.v
Effects.v
Metrics.v
Ports.v
Task.v
Envelope.v
Buffer.v
Stream.v
Channels.v
Network.v
Cache.v
Pipeline.v
Interleave.v
Accounting.v
Source.v
Footprint.v
Weave.v
Objects.v
Batch.v
Handle.v
Concurrent.v
S3Store.v
Decode.v
Queue.v
Sources.v
Lambda.v
Local.v
Filterer.v
Cli.v
Backfill.v
Text.v
RuntimeApi.v
Wire.v
RefJson.v
Fixtures.v
Harness.v
Ministack.v
Corpus.v
