(* ===== verification/Prelude.v ===== *)
(** * cloudtrail-rs: a verification development

    cloudtrail-rs is a Lambda that copies CloudTrail objects from one S3 bucket to
    another and leaves out the records an exclusion rule matches.  An event names source
    objects; each is read, its records are evaluated against a compiled ruleset, and what
    survives is written, gzip-compressed, under the destination.  Around that core are a
    policy for everything that can go wrong with an object, partial-batch acknowledgement,
    a cached ruleset, and one metrics document per invocation.  Paths below are relative to
    src/crates/; core/ is the crate core/src/.

    ** Files and the code they model

    - Prelude: Rust's [Result] as a monad, strings, association lists, machine integers,
      tactics and hint databases.  No code of the program.
    - Model: core/model.rs and core/error.rs.  Error texts stay unrendered ([Msg]).
    - Json, Regex: the interfaces of serde_json and regex, and the laws of them in use.
    - Path: core/filter/path.rs.  [parse_path], [literal_path], [resolve], [visit_values].
    - Rules: core/config/rules.rs.  Wire structs, lowering, [RuleSet::parse].
    - Index: core/filter/index.rs.  [extract_literals], [Bits], [RuleIndex].
    - Project: core/filter/project.rs.  The path trie and the visitor over a document.
    - Engine: core/filter/engine.rs.  [Engine::new] and its three evaluators.
    - Settings: core/config/settings.rs.  Defaults, overrides, validation, [KeyFilter].
    - Effects: the monad of code that shares mutable state: a value, an error or a panic,
      which ends the process, and the weakest preconditions the later files reason with.
    - Metrics: core/metrics.rs and core/process/tally.rs.
    - Ports: core/ports.rs as type classes ([ObjectStore] with [StoreLaws], [EventDecoder],
      [ConfigSource]), with core/testing/mod.rs and core/process/discard.rs as instances.
    - Task: a future of the pipeline as the tree of its requests to the store and the
      counters, one branch per answer; [run] runs it alone, [poll] does one request of it.
    - Envelope: the two readings of the Records envelope, of core/process/buffer.rs and
      core/process/stream.rs.
    - Buffer: core/process/buffer.rs.  Stream: core/process/stream.rs.
    - Channels: any pipeline of tasks over bounded channels.  Network: [stream_run] as one, of
      the pump, the extraction, the processing block and the upload.
    - Cache: core/config/store.rs, as the module [ConfigStore].
    - Pipeline: core/pipeline.rs, all of it, from [handle] down to the store calls.
    - Decode: core/decode/ (s3, sns, sqs, eventbridge).
    - S3Store: aws/src/s3_store.rs, shown to be an instance of [StoreLaws].
    - Accounting, Source, Objects, Batch, Handle, Concurrent, Queue: the specifications and
      proofs of the pipeline; Accounting is what one object does to the counters, Source what
      the bytes of an object denote whichever mode reads them, Objects one object, Batch the
      three passes over a batch, Handle one invocation, Concurrent the same invocation at
      other concurrencies, Queue an invocation behind SQS.
    - Interleave, Footprint, Weave: the logs of requests that futures leave side by side.
      Interleave is one future among others and the store that replays its answers, Footprint
      what the future of an object may touch, Weave the log of a batch.
    - Reference: concrete instances of the third-party interfaces, for the witnesses.
    - Sources: core/config/uri.rs, core/config/file_source.rs, aws/src/s3_config.rs and
      aws/src/ssm_config.rs, instances of [ConfigSource] over a file system and two services.
    - Lambda: lambda-s3, lambda-sns, lambda-sqs and lambda-eventbridge (src/main.rs of each):
      the cold start of a container, its handler, and all the containers it can reach.
    - Local: [std::path] as far as it is used, [std::fs] as the class [LocalFs] with laws, and
      [LocalObjectStore] of cli/src/main.rs.
    - Filterer: [Filterer] of cli/src/main.rs, one object of the offline filter.  Backfill: the
      same between two buckets, from the theorems of Objects.
    - Cli: the four subcommands of cli/src/main.rs and [main].
    - Text: the functions of Rust's [str] that parse lines of text.  No code of the program.
    - RuntimeApi: testkit/src/runtime_api.rs, the stand-in for Lambda's runtime API: its queue,
      HTTP over a socket that delivers in pieces, its threads, and a client's session with it.
    - Wire: the structs core/decode/ deserializes, as readers of JSON trees.  RefJson: a parser
      and a writer of JSON, the instance that the witnesses about payloads run on.
    - Fixtures: testkit/src/fixtures.rs.  Corpus: core/testing/corpus.rs.  Ministack:
      testkit/src/ministack.rs, and the environment a child process is given.
    - Harness: a container of Lambda behind the API of RuntimeApi, fed with Fixtures.

    Calls go downwards.  A container ([Lambda.init]) owns a pipeline, and [invoke] runs
    [handle] with it: [handle] decodes the payload, asks [ConfigStore.get] for an engine,
    which reads its ruleset through a source of Sources, runs the passes of [run_batch] over
    the objects, and emits a snapshot; [process_object] picks a mode, and [buffer_run] or
    [stream_run] feeds each record to [evaluate_raw].  The command line reaches [buffer_run]
    and [stream_run] through [Filterer.process] instead, with no batch and no cache.  In the
    tests [container_call] is the function behind [FakeRuntimeApi.session]: an event leaves
    [next_event], reaches [invoke], and the answer comes back as an outcome.

    ** What the theorems show

    - Evaluation (Path, Project, Index, Engine): a record is dropped for the first rule, in
      document order, whose conditions all hold of the parsed record; projected parsing and
      the index change nothing of that, the index under the documented regex syntax.
      [index_misses_word_boundary] exhibits the escape for which it does.
    - Documents (Rules, Settings): exactly which rules and settings are accepted; an
      accepted ruleset compiles without a panic; the environment wins over the file.
    - Modes (Envelope, Buffer, Stream, Source): what each mode writes, byte for byte after
      decompression; that they agree; that an upload ends cleanly only on a written object;
      the memory bound of buffer mode.
    - Stream mode as it runs (Channels, Network): whatever the runtime steps first, the four
      tasks do not deadlock, stop after a bounded number of steps, and end as [stream_run] of
      Stream does for some [Schedule] ([stream_net_refines]).
    - Objects (Objects): the policy matrix; a failure leaves the destination as it was; the
      one panic is that of a gzip level above 9; a too large object is streamed when so
      configured.
    - Interleavings (Interleave, Footprint, Weave): what a future did among others it does
      alone against a lawful store that gives it the same answers ([scripted_run]), so that
      the theorems about one object hold of it in a batch; the counters of a batch are those
      of its objects.
    - Concurrency (Concurrent): what an invocation delivers in any interleaving; that at
      [object_concurrency = 1] it is the sequential loop, and at any other it decides, counts
      and writes the same; how many objects are in flight.
    - Invocations (Batch, Handle, Queue), with settings that validate: no I/O after a self-trigger; writes only to the
      destination and never over a source; the batch verdict and the failed ack ids; no
      SQS message is acknowledged undelivered; each object counted once; one snapshot;
      a dry run with a ruleset writes nothing.
    - State (Cache, Sources, Metrics): provenance and freshness of the cached ruleset, up to
      what the document held during the call ([reload_current]); the tag of a file never
      outlives its bytes ([file_tag_sound]); counters balance and do not depend on the order
      of the calls; EMF documents are complete.
    - Adapters (S3Store, Decode): a multipart upload implements the port and leaves nothing
      behind; notification keys round-trip; a notification is read in full.
    - Containers (Lambda): whatever a container has served, the rules document decides which
      records survive; the answer to the queue names every message not delivered; the parts
      of its uploads have the configured size, at least the 5 MiB S3 asks for.
    - Command line (Local, Filterer, Backfill, Cli): the offline filter does to an object what
      the pipeline does ([filter_mirrors_pipeline]), so that a backfill leaves what production
      would; a run attempts every object and reports every failure; enumeration ends and is
      complete; a batch writes under its root only; a local write is atomic; [validate] gates.
    - Tests (RuntimeApi, Fixtures, Harness, Ministack, Corpus): the API hands each event out
      once and frames requests exactly, so that its outcomes are the handler's answers in order
      ([session_answers]); the events of the fixtures decode to the objects they name, their
      declared survivors are those of the ruleset, and a container handed one leaves them at
      the destination ([notification_delivers]); a spawned binary loads [base_settings]; the
      corpus holds no account number but the documentation's.

    ** Modelling decisions

    - Third-party crates are parameters: classes of operations, and classes of laws that
      state documented behaviour.  Each law class has an instance in the development.
    - Bytes and text are both [string], a list of 8-bit characters.  Sizes are [N]; the
      counters of [Metrics] are machine words and wrap at 2^64, so the accounting theorems
      are congruences.  The other sums saturate or are checked where the code does so.
    - A reader is a finite list of chunks and how it ends.  Loops over input are structural
      or take a fuel computed from the length of the input, which the lemmas show to be
      enough; [list_keys] has an explicit fuel, since a service can paginate for ever, and
      [list_keys_serves] says that one page of fuel per page served is enough.
    - Stream mode is modelled twice.  In Stream a channel is its sequence of messages and each
      task a function of those; what is left of the scheduling is the argument [Schedule],
      over which the theorems quantify.  In Network the tasks wait at their sends and receives,
      with the capacities of the code, and are stepped in any order; a channel does what tokio
      documents, and the decoder and the upload, which are not of this code, are any that the
      laws [ExtractorLaws] and [UploaderLaws] describe.  A task drops its ends of the channels
      when it ends.  The theorem between the two is why [Schedule] is enough.
    - Time is an argument of the operations that read the clock.
    - Two settings that [Settings::validate] rejects would stop the handler, and are modelled:
      [enc_new] has no encoder for a gzip level above 9, where flate2 panics, in buffer mode
      when it compresses ([gzip_compress]; a worker's panic is an error, [join_worker]) and in
      stream mode when the processing block is first polled; and a window of no futures,
      [buffered(0)], never yields ([task_never]).  [runnable] is the hypothesis that settings
      are neither; [settings_valid_runnable] and [fitted_runnable] derive it from validation
      and of every container, [resolve_level] derives the level of the command line's.
    - The objects of a batch are futures that the runtime polls within a window of
      [object_concurrency] and whose results it yields in submission order ([run_work]).  The
      runtime's choices are an argument ([BatchSchedule]): a list of moves, each one request
      of one future or the taking of a result; what is left when they run out is run in
      order, so that every interleaving is a list of moves.  A request is one store operation
      or one increment, and is atomic: the body of a read is the object at that moment, and
      a write lands whole, which is what S3 promises.
    - [SteadyStore] is the hypothesis that a store answers a read by the object and a write by
      what is written; only [handle_concurrency_transparent] has it, with the hypothesis that
      the objects of the batch that share a destination are one object.
      [collision_depends_on_order] shows that the latter is needed.
    - S3 part numbers are unbounded where the code has [i32]: S3 itself refuses a part numbered
      above 10000, which [upload_part] may model as an error.  [S3Laws] idealises a write whose
      response is lost: a request that fails has changed no object.
    - [reliable] is the hypothesis that the bodies the store opens read to their end and the
      object, compressed and not, is shorter than 2^64 bytes.  The theorems about what is
      delivered have it; the theorems about failures hold of any store with [StoreLaws].
    - Other processes write the documents a source reads.  A file system is a history: what it
      holds at each moment, one moment per operation; [honest_mtimes] is the hypothesis that
      a file whose modification time is unchanged was not written in between.  S3 and the
      parameter store are services whose versions name their documents.
    - A local file is known by the components of its path ([LocalFsLaws]): no links, paths in
      UTF-8, Unix separators.  [mem_fs] is an instance.
    - The store of the offline filter reads from one side and writes to the other, each local
      or S3 ([sided_store]).  Its loops over directories and pages take a fuel; the outcome
      [None] is fuel that ran out, and [enumerate_complete] says that the nesting depth of the
      directories, or the number of pages, is enough.
    - A socket is the list of what its reads will return, timeouts and the stop of the server
      among them.  The API's threads are steps of a relation on the shared queue and the
      connections, each step one critical section of the code: an accept, a request read, an
      answer given.  [read_body] needs as many turns as the stream has arrivals left.
    - The readers of Wire look a field up by name, as [serde] documents, and [WireLaws] says that
      the derived deserializers do as they do; [json!] builds a map, which [json_object] keeps
      in key order.  [WriteLaws] says that written JSON parses back, of integers up to 2^64.
    - Log lines carry no state and are left out; what the command line prints is state.

    ** Not modelled

    A store operation of one object overlapping another's, and the cancellation of futures
    (nothing drops the futures of a batch); the construction of the SDK clients, the argument
    parser, the tracing set-up and the runtime crate's own loop, of which [RuntimeClientLaws]
    says what it sends and reads; the binding of a port and the starting and killing of a
    process in testkit/: library calls.  aws/src/http_client.rs and core/build_info.rs have no
    logic of their own. *)

From stdpp Require Export base gmap sets list strings pretty sorting.
From Stdlib Require Export Ascii.

(** ** Notations and global settings *)

(** stdpp blocks the computation of string concatenation; the development lets it
    reduce on constructors. *)
#[global] Arguments String.append : simpl nomatch.

Declare Scope ct_scope.
Delimit Scope ct_scope with ct.

(** ** Rust's [Result] *)

(** [Result<A, E>]; the error type comes first so that [result E] is a monad. *)
Inductive result (E A : Type) : Type :=
  | Ok (a : A)
  | Err (e : E).
Arguments Ok {E A} a.
Arguments Err {E A} e.

#[export] Instance result_ret {E} : MRet (result E) := fun A a => Ok a.
#[export] Instance result_bind {E} : MBind (result E) :=
  fun A B f r => match r with Ok a => f a | Err e => Err e end.
#[export] Instance result_fmap {E} : FMap (result E) :=
  fun A B f r => match r with Ok a => Ok (f a) | Err e => Err e end.

Definition map_err {E F A} (f : E -> F) (r : result E A) : result F A :=
  match r with Ok a => Ok a | Err e => Err (f e) end.

Definition ok_or {E A} (e : E) (o : option A) : result E A :=
  match o with Some a => Ok a | None => Err e end.

Definition is_ok {E A} (r : result E A) : bool :=
  match r with Ok _ => true | Err _ => false end.

(** [iter.map(f).collect::<Result<Vec<_>, _>>()]: the first error wins. *)
Fixpoint collect_results {E A B} (f : A -> result E B) (l : list A) : result E (list B) :=
  match l with
  | [] => Ok []
  | x :: l => y ← f x; ys ← collect_results f l; Ok (y :: ys)
  end.

(** [for x in l { f(x)? }]: run the checks in order, stop at the first error. *)
Fixpoint check_all {E A} (f : A -> result E unit) (l : list A) : result E unit :=
  match l with
  | [] => Ok tt
  | x :: l => _ ← f x; check_all f l
  end.

(** ** Strings: the slices of Rust's [str] the program uses

    A [str] is modelled by its UTF-8 bytes.  Every delimiter the program looks
    for is an ASCII character, which never occurs inside a multi-byte sequence,
    so searching bytes and searching characters find the same positions. *)

(** [s.split(c)]: never empty, [split("") = [""]]. *)
Fixpoint split_char (c : ascii) (s : string) : list string :=
  match s with
  | EmptyString => [EmptyString]
  | String a s' =>
      if decide (a = c) then EmptyString :: split_char c s'
      else match split_char c s' with
           | [] => [String a EmptyString]
           | p :: ps => String a p :: ps
           end
  end.

(** [s.find(c)]: the byte position of the first [c]. *)
Fixpoint find_char (c : ascii) (s : string) : option nat :=
  match s with
  | EmptyString => None
  | String a s' => if decide (a = c) then Some 0 else S <$> find_char c s'
  end.

(** [s.rfind(c)]. *)
Fixpoint rfind_char (c : ascii) (s : string) : option nat :=
  match s with
  | EmptyString => None
  | String a s' =>
      match rfind_char c s' with
      | Some i => Some (S i)
      | None => if decide (a = c) then Some 0 else None
      end
  end.

(** [s[..n]] and [s[n..]]; the program only slices inside the string. *)
Fixpoint str_take (n : nat) (s : string) : string :=
  match n, s with
  | S n, String a s' => String a (str_take n s')
  | _, _ => EmptyString
  end.

Fixpoint str_drop (n : nat) (s : string) : string :=
  match n, s with
  | S n, String _ s' => str_drop n s'
  | _, _ => s
  end.

(** [s[a..b]]. *)
Definition str_slice (a b : nat) (s : string) : string := str_take (b - a) (str_drop a s).

(** [s.split_once(c)]. *)
Definition split_once (c : ascii) (s : string) : option (string * string) :=
  i ← find_char c s; Some (str_take i s, str_drop (S i) s).

(** [s.strip_prefix(p)]. *)
Fixpoint strip_prefix (p s : string) : option string :=
  match p, s with
  | EmptyString, _ => Some s
  | String a p', String b s' => if decide (a = b) then strip_prefix p' s' else None
  | String _ _, EmptyString => None
  end.

(** [s.starts_with(p)]. *)
Definition starts_with (p s : string) : bool :=
  match strip_prefix p s with Some _ => true | None => false end.

(** [s.strip_suffix(c)] for a single character. *)
Fixpoint strip_suffix_char (c : ascii) (s : string) : option string :=
  match s with
  | EmptyString => None
  | String a EmptyString => if decide (a = c) then Some EmptyString else None
  | String a s' => String a <$> strip_suffix_char c s'
  end.

(** [s.contains(p)]. *)
Fixpoint str_contains (p s : string) : bool :=
  starts_with p s ||
  match s with EmptyString => false | String _ s' => str_contains p s' end.

(** Whether a character occurs in a string. *)
Fixpoint char_in (c : ascii) (s : string) : bool :=
  match s with
  | EmptyString => false
  | String a s' => bool_decide (a = c) || char_in c s'
  end.

(** Whether every character satisfies [p]. *)
Fixpoint str_all (p : ascii -> bool) (s : string) : bool :=
  match s with
  | EmptyString => true
  | String a s' => p a && str_all p s'
  end.

Definition str_is_empty (s : string) : bool :=
  match s with EmptyString => true | _ => false end.

(** [s.replace(c, d)] for single characters. *)
Fixpoint replace_char (c d : ascii) (s : string) : string :=
  match s with
  | EmptyString => EmptyString
  | String a s' => String (if decide (a = c) then d else a) (replace_char c d s')
  end.

(** [parts.join(sep)]. *)
Fixpoint str_join (sep : string) (l : list string) : string :=
  match l with
  | [] => EmptyString
  | [s] => s
  | s :: l => s +:+ sep +:+ str_join sep l
  end.

(** [char::is_ascii_alphanumeric]. *)
Definition is_ascii_digit (c : ascii) : bool :=
  let n := nat_of_ascii c in (48 <=? n) && (n <=? 57).
Definition is_ascii_alphanumeric (c : ascii) : bool :=
  let n := nat_of_ascii c in
  is_ascii_digit c || ((65 <=? n) && (n <=? 90)) || ((97 <=? n) && (n <=? 122)).

(** [str::parse] for an unsigned integer type with maximum [max]: an optional
    [+], then at least one digit, no overflow. *)
Definition digit_value (c : ascii) : option N :=
  if is_ascii_digit c then Some (N.of_nat (nat_of_ascii c - 48)) else None.

Fixpoint parse_digits (max acc : N) (s : string) : option N :=
  match s with
  | EmptyString => Some acc
  | String c s' =>
      d ← digit_value c;
      let acc' := (acc * 10 + d)%N in
      if (max <? acc')%N then None else parse_digits max acc' s'
  end.

Definition parse_uint (max : N) (s : string) : option N :=
  let digits := match s with String "+"%char s' => s' | _ => s end in
  match digits with EmptyString => None | _ => parse_digits max 0 digits end.

(** ** Machine integers *)

Definition U64_MAX : N := 18446744073709551615.
Definition U32_MAX : N := 4294967295.
(** [usize] on the 64-bit targets the program ships for. *)
Definition USIZE_MAX : N := U64_MAX.

Definition saturating_add_u64 (a b : N) : N := N.min U64_MAX (a + b).
Definition saturating_mul_u64 (a b : N) : N := N.min U64_MAX (a * b).
(** [AtomicU64::fetch_add] wraps. *)
Definition wrapping_add_u64 (a b : N) : N := ((a + b) mod (U64_MAX + 1))%N.

(** [n.div_ceil(d)] for [d > 0]. *)
Definition div_ceil (n d : nat) : nat := (n + d - 1) / d.

(** ** Lists *)

(** [slice::sort_by_key]: a stable sort, here by insertion from the right. *)
Section sort_by_key.
Context {A : Type} (key : A -> nat).

Fixpoint insert_by_key (x : A) (l : list A) : list A :=
  match l with
  | [] => [x]
  | y :: l' => if key x <=? key y then x :: l else y :: insert_by_key x l'
  end.

Definition sort_by_key (l : list A) : list A := foldr insert_by_key [] l.
End sort_by_key.

(** [iter().position(p)]. *)
Fixpoint position {A} (p : A -> bool) (l : list A) : option nat :=
  match l with
  | [] => None
  | x :: l => if p x then Some 0 else S <$> position p l
  end.

(** [iter().find(p)]. *)
Fixpoint find_first {A} (p : A -> bool) (l : list A) : option A :=
  match l with
  | [] => None
  | x :: l => if p x then Some x else find_first p l
  end.

(** Association lists, for maps whose order the program observes or that occur
    inside a recursive type. *)
Section alist.
Context {K V : Type} `{EqDecision K}.

Fixpoint alist_get (k : K) (l : list (K * V)) : option V :=
  match l with
  | [] => None
  | (k', v) :: l => if decide (k = k') then Some v else alist_get k l
  end.

(** Replace the value in place, or append the pair. *)
Fixpoint alist_insert (k : K) (v : V) (l : list (K * V)) : list (K * V) :=
  match l with
  | [] => [(k, v)]
  | (k', v') :: l => if decide (k = k') then (k', v) :: l else (k', v') :: alist_insert k v l
  end.

(** [f] applied to the value under [k], which starts as [d] when absent. *)
Fixpoint alist_upsert (k : K) (d : V) (f : V -> V) (l : list (K * V)) : list (K * V) :=
  match l with
  | [] => [(k, f d)]
  | (k', v') :: l =>
      if decide (k = k') then (k', f v') :: l else (k', v') :: alist_upsert k d f l
  end.
End alist.

(** ** Proof automation *)

(** Case on the matches and conditionals of the goal and the hypotheses. *)
Ltac case_all :=
  repeat (case_match || case_decide); simplify_eq/=.

(** Split boolean conjunctions and disjunctions in the context. *)
Ltac bools :=
  repeat match goal with
  | H : (_ && _) = true |- _ => apply andb_true_iff in H as [? ?]
  | H : (_ || _) = false |- _ => apply orb_false_iff in H as [? ?]
  | H : negb _ = true |- _ => apply negb_true_iff in H
  | H : negb _ = false |- _ => apply negb_false_iff in H
  | H : bool_decide _ = true |- _ => apply bool_decide_eq_true in H
  | H : bool_decide _ = false |- _ => apply bool_decide_eq_false in H
  end.

(** Unfold one successful step of a [result] computation in a hypothesis. *)
Ltac ok_inv H :=
  repeat first
    [ progress simplify_eq/=
    | match type of H with
      | (?r ≫= _) = Ok _ =>
          let E := fresh "E" in
          destruct r eqn:E; [cbn in H | discriminate H]
      | (match ?r with Ok _ => _ | Err _ => _ end) = Ok _ =>
          let E := fresh "E" in destruct r eqn:E; [cbn in H | discriminate H]
      end ].

(** ** Lemmas on results *)

Lemma result_bind_ok {E A B} (r : result E A) (f : A -> result E B) b :
  (r ≫= f) = Ok b <-> exists a, r = Ok a /\ f a = Ok b.
Proof. destruct r; cbn; split; [eauto|by intros (? & [= ->] & ?)|done|by intros (? & ? & ?)]. Qed.

Lemma map_err_ok {E F A} (f : E -> F) (r : result E A) a : map_err f r = Ok a <-> r = Ok a.
Proof. destruct r; cbn; [|done]. split; by intros [= ->]. Qed.

Lemma collect_results_Forall2 {E A B} (f : A -> result E B) l ys :
  collect_results f l = Ok ys <-> Forall2 (fun x y => f x = Ok y) l ys.
Proof.
  split.
  - revert ys. induction l as [|x l IH]; intros ys H; cbn in H; [by simplify_eq|].
    destruct (f x) eqn:E1; [cbn in H|done].
    destruct (collect_results f l) eqn:E2; [cbn in H|done]. simplify_eq. auto.
  - induction 1 as [|x y l ys H1 H2 IH]; cbn; [done|]. by rewrite H1; cbn; rewrite IH.
Qed.

Lemma collect_results_err {E A B} (f : A -> result E B) l e :
  collect_results f l = Err e -> exists x, x ∈ l /\ f x = Err e.
Proof.
  induction l as [|x l IH]; cbn; [done|].
  destruct (f x) eqn:E1; cbn; [|intros; simplify_eq; exists x; split; [left|done]].
  destruct (collect_results f l) eqn:E2; cbn; [done|]. intros; simplify_eq.
  destruct IH as (y & ? & ?); [done|]. exists y; split; [by right|done].
Qed.

Lemma check_all_ok {E A} (f : A -> result E unit) l :
  check_all f l = Ok tt <-> Forall (fun x => f x = Ok tt) l.
Proof.
  induction l as [|x l IH]; cbn; [by split; constructor|].
  rewrite Forall_cons, <-IH. destruct (f x) as [[]|]; cbn; split; [done|by intros [_ ?]|done|by intros [? _]].
Qed.

(** ** Lemmas on strings *)

Lemma str_app_nil_r s : s +:+ "" = s.
Proof. induction s as [|a s IH]; [done|]. cbn. by rewrite IH. Qed.

(** Induction that can look one character ahead. *)
Lemma str_ind2 (P : string -> Prop) :
  P "" -> (forall c, P (String c "")) ->
  (forall c d s, P s -> P (String d s) -> P (String c (String d s))) -> forall s, P s.
Proof.
  intros H0 H1 H2 s. enough (P s /\ forall c, P (String c s)) by tauto.
  induction s as [|d s [IH1 IH2]]; auto.
Qed.

Lemma str_app_assoc s t u : (s +:+ t) +:+ u = s +:+ (t +:+ u).
Proof. induction s as [|a s IH]; [done|]. cbn. by rewrite IH. Qed.

Lemma str_length_app s t : String.length (s +:+ t) = String.length s + String.length t.
Proof. induction s as [|a s IH]; [done|]. cbn. by rewrite IH. Qed.

Lemma str_length_drop n s : String.length (str_drop n s) = String.length s - n.
Proof.
  revert s. induction n as [|n IH]; intros [|a s]; cbn; auto.
Qed.

Lemma str_length_take n s : String.length (str_take n s) = Nat.min n (String.length s).
Proof. revert n. induction s as [|c s IH]; intros [|n]; cbn; auto. Qed.

Lemma str_take_drop n s : str_take n s +:+ str_drop n s = s.
Proof.
  revert s. induction n as [|n IH]; intros [|a s]; cbn; try done. by rewrite IH.
Qed.

Lemma str_take_app s t : str_take (String.length s) (s +:+ t) = s.
Proof. induction s as [|a s IH]; cbn; [by destruct t|]. by rewrite IH. Qed.

Lemma str_drop_app s t : str_drop (String.length s) (s +:+ t) = t.
Proof. induction s as [|a s IH]; cbn; [by destruct t|]. by rewrite IH. Qed.

Lemma str_drop_app_cons s c t : str_drop (S (String.length s)) (s +:+ String c t) = t.
Proof. induction s as [|a s IH]; [done|apply IH]. Qed.

Lemma char_in_app c s t : char_in c (s +:+ t) = char_in c s || char_in c t.
Proof. induction s as [|a s IH]; [done|]. cbn. by rewrite IH, orb_assoc. Qed.

Lemma find_char_app c s t :
  char_in c s = false -> find_char c (s +:+ t) = (fun i => String.length s + i) <$> find_char c t.
Proof.
  induction s as [|a s IH]; cbn; intros H; [by destruct (find_char c t)|]. bools.
  rewrite decide_False by done. rewrite IH by done. by destruct (find_char c t).
Qed.

Lemma find_char_here c s t :
  char_in c s = false -> find_char c (s +:+ String c t) = Some (String.length s).
Proof. intros H. rewrite find_char_app by done. cbn. rewrite decide_True by done. cbn. by rewrite Nat.add_0_r. Qed.

Lemma find_char_None c s : find_char c s = None <-> char_in c s = false.
Proof.
  induction s as [|a s IH]; cbn; [done|].
  destruct (decide (a = c)).
  - rewrite bool_decide_eq_true_2 by done. done.
  - rewrite bool_decide_eq_false_2 by done. cbn. rewrite <-IH. by destruct (find_char c s).
Qed.

Lemma find_char_Some c s i :
  find_char c s = Some i ->
  exists u v, s = u +:+ String c v /\ String.length u = i /\ char_in c u = false.
Proof.
  revert i. induction s as [|a s IH]; intros i H; cbn in *; [done|].
  destruct (decide (a = c)) as [->|Hne]; simplify_eq.
  - by exists "", s.
  - apply fmap_Some in H as (j & Hj & ->).
    destruct (IH _ Hj) as (u & v & -> & <- & Hu). exists (String a u), v. split; [done|].
    split; [done|]. cbn. by rewrite bool_decide_eq_false_2.
Qed.

Lemma split_char_ne c s : split_char c s <> [].
Proof. destruct s; cbn; [done|]. case_decide; [done|]. by destruct (split_char c s). Qed.

Lemma split_char_none c s : char_in c s = false -> split_char c s = [s].
Proof.
  induction s as [|a s IH]; cbn; intros H; [done|]. bools.
  rewrite decide_False by done. by rewrite IH.
Qed.

Lemma split_char_app c s t :
  char_in c s = false -> split_char c (s +:+ String c t) = s :: split_char c t.
Proof.
  induction s as [|a s IH]; cbn; intros H.
  - by rewrite decide_True.
  - bools. rewrite decide_False by done. by rewrite IH.
Qed.

Lemma split_char_pieces c s p : p ∈ split_char c s -> char_in c p = false.
Proof.
  revert p. induction s as [|a s IH]; cbn; intros p.
  - rewrite list_elem_of_singleton. by intros ->.
  - case_decide as Hac; [rewrite elem_of_cons; intros [->|]; auto|].
    destruct (split_char c s) as [|q qs] eqn:E.
    + rewrite list_elem_of_singleton. intros ->. cbn. by rewrite bool_decide_eq_false_2.
    + rewrite elem_of_cons. intros [->|Hp].
      * cbn. rewrite bool_decide_eq_false_2 by done. apply IH. left.
      * apply IH. by right.
Qed.

(** A piece has no character the whole string lacks. *)
Lemma split_char_sub c d s p :
  p ∈ split_char c s -> char_in d s = false -> char_in d p = false.
Proof.
  revert p. induction s as [|a s IH]; cbn; intros p.
  - rewrite list_elem_of_singleton. by intros ->.
  - intros Hp H. bools. case_decide.
    + apply elem_of_cons in Hp as [->|Hp]; auto.
    + destruct (split_char c s) as [|q qs] eqn:E.
      * apply list_elem_of_singleton in Hp as ->. cbn. by rewrite bool_decide_eq_false_2.
      * apply elem_of_cons in Hp as [->|Hp]; [|apply IH; [by right|done]].
        cbn. rewrite bool_decide_eq_false_2 by done. apply IH; [left|done].
Qed.

(** Splitting and joining are inverse. *)
Lemma str_join_split c s : str_join (String c "") (split_char c s) = s.
Proof.
  induction s as [|a s IH]; cbn; [done|].
  pose proof (split_char_ne c s). case_decide as Hac.
  - subst. cbn. destruct (split_char c s); [done|]. cbn in *. by rewrite IH.
  - destruct (split_char c s) as [|q [|r rs]]; [done|..]; cbn in *; by rewrite IH.
Qed.

Lemma strip_prefix_Some p s t : strip_prefix p s = Some t <-> s = p +:+ t.
Proof.
  revert s. induction p as [|a p IH]; intros [|b s]; cbn.
  - split; intros; by simplify_eq.
  - split; intros; by simplify_eq.
  - done.
  - case_decide as Hab; [|split; [done|intros; by simplify_eq]]. subst.
    rewrite IH. split; intros H; by simplify_eq.
Qed.

Lemma starts_with_spec p s : starts_with p s = true <-> exists t, s = p +:+ t.
Proof.
  unfold starts_with. destruct (strip_prefix p s) eqn:E.
  - apply strip_prefix_Some in E. naive_solver.
  - split; [done|]. intros (t & Ht). apply strip_prefix_Some in Ht. congruence.
Qed.

Lemma strip_suffix_char_Some c s t :
  strip_suffix_char c s = Some t <-> s = t +:+ String c "".
Proof.
  revert t. induction s as [|a s IH]; intros t; cbn.
  - split; [done|]. by destruct t.
  - destruct s as [|b s].
    + case_decide as Hac.
      * subst. split; [intros; by simplify_eq|]. destruct t as [|x [|]]; cbn; intros; by simplify_eq.
      * split; [done|]. destruct t as [|x [|]]; cbn; intros; by simplify_eq.
    + rewrite fmap_Some. split.
      * intros (u & Hu & ->). apply IH in Hu. cbn. by rewrite Hu.
      * intros H. destruct t as [|x t]; cbn in H; simplify_eq. exists t. split; [by apply IH|done].
Qed.

Lemma str_all_not_in p c s : str_all p s = true -> p c = false -> char_in c s = false.
Proof.
  intros Hs Hc. induction s as [|a s IH]; cbn in *; [done|]. bools.
  rewrite IH by done. rewrite bool_decide_eq_false_2; [done|]. intros ->. congruence.
Qed.

(** ** Decimal numbers: printing and parsing are inverse *)

Lemma digit_value_pretty d : (d < 10)%N -> digit_value (pretty_N_char d) = Some d.
Proof.
  intros H.
  assert (d ∈ ([0;1;2;3;4;5;6;7;8;9])%N) as Hd.
  { rewrite list_elem_of_In. cbn. lia. }
  revert d H Hd. refine (fun d _ Hd => _).
  repeat (apply elem_of_cons in Hd as [->|Hd]; [reflexivity|]). by apply not_elem_of_nil in Hd.
Qed.

Lemma digit_value_is_digit c d : digit_value c = Some d -> is_ascii_digit c = true.
Proof. unfold digit_value. by destruct (is_ascii_digit c). Qed.

Lemma pretty_N_go_digits x s :
  str_all is_ascii_digit s = true -> str_all is_ascii_digit (pretty_N_go x s) = true.
Proof.
  revert s. induction (N.lt_wf_0 x) as [x _ IH]. intros s Hs.
  destruct (decide (x = 0%N)) as [->|Hx]; [by rewrite pretty_N_go_0|].
  rewrite pretty_N_go_step by lia. apply IH.
  - apply N.div_lt; lia.
  - cbn. rewrite Hs, andb_true_r.
    eapply digit_value_is_digit, digit_value_pretty, N.mod_lt. done.
Qed.

Lemma pretty_N_digits (n : N) : str_all is_ascii_digit (pretty n) = true.
Proof. unfold pretty, pretty_N. case_decide; [done|]. by apply pretty_N_go_digits. Qed.

Lemma parse_digits_go max x s :
  (x <= max)%N -> parse_digits max 0 (pretty_N_go x s) = parse_digits max x s.
Proof.
  revert s. induction (N.lt_wf_0 x) as [x _ IH]. intros s Hx.
  destruct (decide (x = 0%N)) as [->|Hx0]; [by rewrite pretty_N_go_0|].
  rewrite pretty_N_go_step by lia.
  rewrite IH; [|apply N.div_lt; lia|].
  2:{ pose proof (N.div_lt x 10 ltac:(lia) ltac:(lia)). lia. }
  cbn. rewrite digit_value_pretty by (apply N.mod_lt; done). cbn.
  rewrite (N.mul_comm _ 10), <-N.div_mod by done.
  destruct (N.ltb_spec max x); [lia|done].
Qed.

Lemma pretty_N_cons (n : N) : exists c s, pretty n = String c s /\ is_ascii_digit c = true.
Proof.
  pose proof (pretty_N_digits n) as H. destruct (pretty n) as [|c s] eqn:E.
  - exfalso. unfold pretty, pretty_N in E. case_decide as Hn; [done|].
    pose proof (parse_digits_go n n "" ltac:(lia)) as Hp. rewrite E in Hp. cbn in Hp. congruence.
  - cbn in H. bools. eauto.
Qed.

(** [n.to_string().parse()] gives [n] back. *)
Lemma parse_uint_pretty max n : (n <= max)%N -> parse_uint max (pretty n) = Some n.
Proof.
  intros Hn. destruct (pretty_N_cons n) as (c & s & E & Hc).
  assert (parse_uint max (pretty n) = parse_digits max 0 (pretty n)) as ->.
  { rewrite E. unfold parse_uint. by destruct c as [[] [] [] [] [] [] [] []]. }
  clear E. unfold pretty, pretty_N. case_decide as H0; [|by rewrite parse_digits_go].
  subst. change ((if (max <? 0)%N then None else Some 0%N) = Some 0%N).
  destruct (N.ltb_spec max 0); [lia|done].
Qed.

Lemma parse_digits_bound max acc s n :
  parse_digits max acc s = Some n -> (acc <= max)%N -> (n <= max)%N.
Proof.
  revert acc. induction s as [|c s IH]; intros acc H Ha; cbn in H; [by simplify_eq|].
  destruct (digit_value c); cbn in H; [|done].
  destruct (N.ltb_spec max (acc * 10 + n0)); [done|]. by eapply IH.
Qed.

(** A parsed integer fits its type. *)
Lemma parse_uint_bound max s n : parse_uint max s = Some n -> (n <= max)%N.
Proof.
  unfold parse_uint. intros H. case_match; [done|].
  by apply parse_digits_bound in H; [|lia].
Qed.

(** ** Lemmas on lists *)

Section sort_by_key_facts.
Context {A : Type} (key : A -> nat).

Lemma insert_by_key_perm x l : insert_by_key key x l ≡ₚ x :: l.
Proof.
  induction l as [|y l IH]; cbn; [done|]. destruct (key x <=? key y); [done|].
  rewrite IH. apply Permutation_swap.
Qed.

Lemma sort_by_key_perm l : sort_by_key key l ≡ₚ l.
Proof. induction l as [|x l IH]; cbn; [done|]. by rewrite insert_by_key_perm, IH. Qed.
End sort_by_key_facts.

Lemma position_Some {A} (p : A -> bool) l i :
  position p l = Some i -> exists x, l !! i = Some x /\ p x = true.
Proof.
  revert i. induction l as [|x l IH]; intros i H; cbn in *; [done|].
  destruct (p x) eqn:E; simplify_eq; [by exists x|].
  apply fmap_Some in H as (j & Hj & ->). by apply IH.
Qed.

Lemma position_None {A} (p : A -> bool) l :
  position p l = None <-> Forall (fun x => p x = false) l.
Proof.
  induction l as [|x l IH]; cbn; [by split; [constructor|]|].
  rewrite Forall_cons, <-IH. destruct (p x); [by split; [|intros [? _]]|].
  destruct (position p l); by split; [|intros [_ ?]].
Qed.

Lemma find_first_Some {A} (p : A -> bool) l x :
  find_first p l = Some x -> x ∈ l /\ p x = true.
Proof.
  induction l as [|y l IH]; cbn; [done|].
  destruct (p y) eqn:E; intros; simplify_eq; [split; [left|done]|].
  destruct IH; [done|]. split; [by right|done].
Qed.

Lemma forallb_perm {A} (f : A -> bool) l k : l ≡ₚ k -> forallb f l = forallb f k.
Proof.
  induction 1; cbn; try congruence. by rewrite !andb_assoc, (andb_comm (f y)).
Qed.

Lemma forallb_Forall {A} (f : A -> bool) l : forallb f l = true <-> Forall (fun x => f x = true) l.
Proof.
  induction l as [|x l IH]; cbn; [by split; [constructor|]|].
  by rewrite Forall_cons, <-IH, andb_true_iff.
Qed.

Section alist_facts.
Context {K V : Type} `{EqDecision K}.
Implicit Types l : list (K * V).

Lemma alist_get_insert k k' v l :
  alist_get k' (alist_insert k v l) = if decide (k' = k) then Some v else alist_get k' l.
Proof.
  induction l as [|[k1 v1] l IH]; cbn; [done|].
  repeat (case_decide; subst; cbn); try done; by rewrite ?IH, ?decide_True, ?decide_False by done.
Qed.

Lemma alist_get_upsert k k' d f l :
  alist_get k' (alist_upsert k d f l) =
  if decide (k' = k) then Some (f (default d (alist_get k l))) else alist_get k' l.
Proof.
  induction l as [|[k1 v1] l IH]; cbn; [by case_decide|].
  repeat (case_decide; subst; cbn); try done.
  all: rewrite ?IH; by rewrite ?decide_True, ?decide_False by done.
Qed.

Lemma alist_get_elem k v l : alist_get k l = Some v -> (k, v) ∈ l.
Proof.
  induction l as [|[k1 v1] l IH]; cbn; [done|]. case_decide; intros; simplify_eq; [left|].
  right. auto.
Qed.
End alist_facts.

(** The lemmas that rewrite the common cases. *)
Create HintDb ct.
Create Rewrite HintDb ct.
#[export] Hint Rewrite str_app_nil_r str_app_assoc str_length_app str_length_drop
  str_take_app str_drop_app char_in_app : ct.
#[export] Hint Resolve insert_by_key_perm sort_by_key_perm : ct.
