(* ===== verification/Model.v ===== *)
(** * Plain data types and errors ([core/src/model.rs], [core/src/error.rs])

    The records and enumerations the components exchange.  Error messages are
    kept unrendered: [format!("t {x}")] is [Fmt "t {}" [x]], the template and its
    arguments, so that two errors are equal exactly when the code builds them
    from the same template and the same data. *)

From S2P Require Import Prelude.

(** An unrendered error message. *)
Inductive Msg : Type :=
  | Lit (s : string)
  | Fmt (template : string) (args : list Msg).

(** Bytes and UTF-8 text are both byte strings. *)
Abbreviation Bytes := string (only parsing).

(** ** [model.rs] *)

Record ObjectRef := mkObjectRef {
  or_bucket : string;
  or_key : string;
  or_size : option N;
}.

Record SourceItem := mkSourceItem {
  si_ack_id : option string;
  si_objects : list ObjectRef;
  si_decode_error : option Msg;
}.

Module SourceItem.
Definition new (ack_id : option string) (objects : list ObjectRef) : SourceItem :=
  {| si_ack_id := ack_id; si_objects := objects; si_decode_error := None |}.

Definition undecodable (ack_id : option string) (error : Msg) : SourceItem :=
  {| si_ack_id := ack_id; si_objects := []; si_decode_error := Some error |}.
End SourceItem.

Record PutMeta := mkPutMeta {
  content_type : string;
  content_encoding : string;
}.

Inductive VersionTag : Type :=
  | Etag (s : string)
  | Version (v : Z)
  | Mtime (nanos : N)
  | NoVersion.

Record MetricSnapshot := mkMetricSnapshot {
  ms_cold_start : bool;
  ms_objects_processed : N;
  ms_objects_skipped : N;
  ms_objects_failed : N;
  ms_objects_excluded_by_key : N;
  ms_unrecognized_objects : N;
  ms_objects_copied_unparsed : N;
  ms_records_in : N;
  ms_records_kept : N;
  ms_records_dropped : N;
  ms_bytes_in : N;
  ms_bytes_out : N;
  ms_config_load_errors : N;
  ms_parse_errors : N;
  ms_decode_errors : N;
  ms_items_without_objects : N;
  ms_rule_drops : list (string * N);
}.

Module MetricSnapshot.
Definition records_balance (s : MetricSnapshot) : bool :=
  bool_decide (ms_records_in s = ms_records_kept s + ms_records_dropped s)%N.
End MetricSnapshot.

(** ** [error.rs] *)

Inductive DecodeError : Type :=
  | InvalidPayload (m : Msg).

Inductive StoreError : Type :=
  | NotFound (bucket key : string)
  | Backend (m : Msg).

Inductive ConfigError : Type :=
  | CfgSource (m : Msg)
  | CfgParse (m : Msg).

Inductive CoreError : Type :=
  | CoreStore (e : StoreError)
  | CoreConfig (e : ConfigError)
  | CoreGzip (m : Msg)
  | CoreJson (m : Msg)
  | CoreInternal (m : Msg)
  | ObjectTooLarge (limit : N)
  | CoreDecode (e : DecodeError)
  | SelfTrigger (dest_bucket dest_key : string)
  | UnrecognizedObject (bucket key : string).

(** [DecodeError]'s [Display]. *)
Definition decode_error_to_string (e : DecodeError) : Msg :=
  match e with
  | InvalidPayload m => Fmt "failed to decode event payload: {0}" [m]
  end.

Module CoreError.
Definition is_unparsable_source (e : CoreError) : bool :=
  match e with CoreGzip _ | CoreJson _ => true | _ => false end.
End CoreError.

#[export] Instance ObjectRef_eq_dec : EqDecision ObjectRef.
Proof. solve_decision. Defined.
#[export] Instance VersionTag_eq_dec : EqDecision VersionTag.
Proof. solve_decision. Defined.
#[export] Instance PutMeta_eq_dec : EqDecision PutMeta.
Proof. solve_decision. Defined.
#[export] Instance MetricSnapshot_eq_dec : EqDecision MetricSnapshot.
Proof. solve_decision. Defined.
