(* ===== verification/Json.v ===== *)
(** * JSON documents: what the filter sees of [serde_json]

    [serde_json] is a third-party crate.  The development keeps its parser and
    its number type as parameters (the class [JsonCrate]) and models the two
    shapes the program itself takes apart:

    - [Doc]: the events the deserializer hands to a [Visitor], as a tree; an
      object keeps every key it was written with, duplicates included;
    - [Value]: [serde_json::Value], in which a later duplicate key replaced the
      earlier one.

    [value_of] is [Value]'s own [Deserialize] implementation. *)

From S2P Require Import Prelude.

(** ** Data *)

Inductive Doc {F : Type} : Type :=
  | DNull
  | DBool (b : bool)
  | DU64 (n : N)
  | DI64 (z : Z)
  | DF64 (f : F)
  | DStr (s : string)
  | DArr (items : list Doc)
  | DObj (fields : list (string * Doc)).
Arguments Doc F : clear implicits.

Inductive Value {Nu : Type} : Type :=
  | VNull
  | VBool (b : bool)
  | VNumber (n : Nu)
  | VString (s : string)
  | VArray (items : list Value)
  | VObject (fields : list (string * Value)).
Arguments Value Nu : clear implicits.

(** The parts of [serde_json] the program calls. *)
Class JsonCrate := {
  (** [f64]. *)
  F64 : Type;
  (** [serde_json::Number]. *)
  Number : Type;
  number_of_u64 : N -> Number;
  number_of_i64 : Z -> Number;
  number_from_f64 : F64 -> option Number;
  (** [Number]'s [Display]. *)
  number_to_string : Number -> string;
  (** [Deserializer::from_str(text)] driven to [end()] by a visitor that
      accepts every event; [Err] is the rendered [serde_json::Error]. *)
  json_from_str : string -> result string (Doc F64);
}.

(** What [serde_json] documents of [Number]: an integer displays as its decimal
    digits. *)
Class JsonLaws (J : JsonCrate) : Prop := {
  number_of_u64_to_string n : number_to_string (number_of_u64 n) = pretty n;
  number_of_i64_to_string z : number_to_string (number_of_i64 z) = pretty z;
}.

Section json.
Context {J : JsonCrate}.

(** [Map::get]. *)
Definition obj_get (k : string) (fields : list (string * Value Number)) :
    option (Value Number) :=
  alist_get k fields.

(** A map built by inserting the pairs in order: a later duplicate replaces
    the earlier value. *)
Definition obj_of_pairs (kvs : list (string * Value Number)) :
    list (string * Value Number) :=
  foldl (fun m kv => alist_insert kv.1 kv.2 m) [] kvs.

Fixpoint value_of (d : Doc F64) : Value Number :=
  match d with
  | DNull => VNull
  | DBool b => VBool b
  | DU64 n => VNumber (number_of_u64 n)
  | DI64 z => VNumber (number_of_i64 z)
  | DF64 f => match number_from_f64 f with Some n => VNumber n | None => VNull end
  | DStr s => VString s
  | DArr items => VArray (map value_of items)
  | DObj fields => VObject (obj_of_pairs (map (fun kv => (kv.1, value_of kv.2)) fields))
  end.

(** [serde_json::from_str::<Value>(text)]. *)
Definition from_str_value (text : string) : result string (Value Number) :=
  value_of <$> json_from_str text.

(** Rust's [bool::to_string]. *)
Definition bool_to_string (b : bool) : string := if b then "true" else "false".

(** ** Lemmas *)

(** Adding one more pair to a map under construction. *)
Lemma obj_of_pairs_snoc kvs k v :
  obj_of_pairs (kvs ++ [(k, v)]) = alist_insert k v (obj_of_pairs kvs).
Proof. unfold obj_of_pairs. by rewrite foldl_app. Qed.

Lemma obj_get_insert k k' v fields :
  obj_get k (alist_insert k' v fields) =
  if decide (k = k') then Some v else obj_get k fields.
Proof. apply alist_get_insert. Qed.
End json.

(** Induction over documents, with the hypothesis for the elements of arrays and
    the values of objects. *)
Lemma Doc_ind' {F} (P : Doc F -> Prop) :
  P DNull -> (forall b, P (DBool b)) -> (forall n, P (DU64 n)) -> (forall z, P (DI64 z)) ->
  (forall f, P (DF64 f)) -> (forall s, P (DStr s)) ->
  (forall items, Forall P items -> P (DArr items)) ->
  (forall fields, Forall (fun kv => P kv.2) fields -> P (DObj fields)) ->
  forall d, P d.
Proof.
  intros Hnull Hbool Hu Hi Hf Hs Harr Hobj.
  fix IH 1. intros [|b|n|z|f|s|items|fields];
    [exact Hnull|apply Hbool|apply Hu|apply Hi|apply Hf|apply Hs| |].
  - apply Harr. induction items as [|d items IHl]; constructor; [apply IH|done].
  - apply Hobj. induction fields as [|[k d] fields IHl]; constructor; [apply IH|done].
Qed.

(** The same for values. *)
Lemma Value_ind' {Nu} (P : Value Nu -> Prop) :
  P VNull -> (forall b, P (VBool b)) -> (forall n, P (VNumber n)) -> (forall s, P (VString s)) ->
  (forall items, Forall P items -> P (VArray items)) ->
  (forall fields, Forall (fun kv => P kv.2) fields -> P (VObject fields)) ->
  forall v, P v.
Proof.
  intros Hnull Hbool Hnum Hs Harr Hobj.
  fix IH 1. intros [|b|n|s|items|fields];
    [exact Hnull|apply Hbool|apply Hnum|apply Hs| |].
  - apply Harr. induction items as [|d items IHl]; constructor; [apply IH|done].
  - apply Hobj. induction fields as [|[k d] fields IHl]; constructor; [apply IH|done].
Qed.
