(* ===== verification/Path.v ===== *)
(** * Field paths ([core/src/filter/path.rs])

    Dotted paths with array subscripts: the parser, the v1 literal paths, and the
    traversal of a record.  [path_values] is the specification of the traversal:
    the scalars a path denotes, in document order. *)

From S2P Require Import Prelude Model Json.

(** ** Data *)

Inductive Segment : Type :=
  | Key (k : string)
  | Index (i : N)
  | Wildcard.

Record Path := mkPath { segments : list Segment }.

Inductive PathParseError : Type := MkPathParseError (m : Msg).

#[export] Instance Segment_eq_dec : EqDecision Segment.
Proof. solve_decision. Defined.
#[export] Instance Path_eq_dec : EqDecision Path.
Proof. solve_decision. Defined.

(** ** Parsing *)

(** One subscript: [*] or a [usize]. *)
Definition parse_subscript (s inner : string) : result PathParseError Segment :=
  if decide (inner = "*") then Ok Wildcard
  else match parse_uint USIZE_MAX inner with
       | Some i => Ok (Index i)
       | None =>
           Err (MkPathParseError (Fmt "invalid array subscript {inner:?} in {s:?}" [Lit inner; Lit s]))
       end.

(** The [while !rest.is_empty()] loop of [parse_path]; every round consumes at
    least the two brackets, so the length of [rest] is enough fuel
    ([parse_subscripts_unfold]). *)
Fixpoint parse_subscripts_fuel (fuel : nat) (s rest : string) :
    result PathParseError (list Segment) :=
  match fuel with
  | O => Ok []
  | S fuel =>
      if str_is_empty rest then Ok []
      else if negb (starts_with "[" rest) then
        Err (MkPathParseError (Fmt "unexpected text {rest:?} after subscript in {s:?}" [Lit rest; Lit s]))
      else match find_char "]" rest with
           | None => Err (MkPathParseError (Fmt "unclosed '[' in {s:?}" [Lit s]))
           | Some close =>
               seg ← parse_subscript s (str_slice 1 close rest);
               segs ← parse_subscripts_fuel fuel s (str_drop (close + 1) rest);
               Ok (seg :: segs)
           end
  end.

Definition parse_subscripts (s rest : string) : result PathParseError (list Segment) :=
  parse_subscripts_fuel (String.length rest) s rest.

(** One round of the [for part in s.split('.')] loop. *)
Definition parse_part (s part : string) : result PathParseError (list Segment) :=
  let '(name, rest) :=
    match find_char "[" part with
    | Some i => (str_take i part, str_drop i part)
    | None => (part, "")
    end in
  if str_is_empty name then Err (MkPathParseError (Fmt "empty path segment in {s:?}" [Lit s]))
  else subs ← parse_subscripts s rest; Ok (Key name :: subs).

Definition parse_path (s : string) : result PathParseError Path :=
  if str_is_empty s then Err (MkPathParseError (Lit "empty field path"))
  else parts ← collect_results (parse_part s) (split_char "." s);
       Ok (mkPath (concat parts)).

Definition literal_path (s : string) : Path := mkPath (map Key (split_char "." s)).

(** ** Traversal *)

Section traversal.
Context {J : JsonCrate}.

(** The text of a scalar leaf. *)
Definition scalar_text (v : Value Number) : option string :=
  match v with
  | VString s => Some s
  | VBool b => Some (bool_to_string b)
  | VNumber n => Some (number_to_string n)
  | VNull | VObject _ | VArray _ => None
  end.

(** [resolve]: the dotted walk of v1. *)
Fixpoint resolve_segments (v : Value Number) (segs : list string) : option (Value Number) :=
  match segs with
  | [] => Some v
  | k :: segs =>
      match v with
      | VObject fields => next ← obj_get k fields; resolve_segments next segs
      | _ => None
      end
  end.

Definition resolve (v : Value Number) (path : string) : option string :=
  leaf ← resolve_segments v (split_char "." path); scalar_text leaf.

(** [walk]: the callback [f] is an [FnMut], so it threads a state; the result
    says whether some call returned [true]. *)
Section walk.
Context {St : Type} (f : string -> St -> bool * St).

Fixpoint walk (segs : list Segment) (current : Value Number) (st : St) : bool * St :=
  match segs with
  | [] =>
      match scalar_text current with
      | Some s => f s st
      | None => (false, st)
      end
  | seg :: rest =>
      match seg, current with
      | Key k, VObject fields =>
          match obj_get k fields with
          | Some next => walk rest next st
          | None => (false, st)
          end
      | Index i, VArray items =>
          match items !! N.to_nat i with
          | Some next => walk rest next st
          | None => (false, st)
          end
      | Wildcard, VArray items =>
          (fix any (items : list (Value Number)) (st : St) : bool * St :=
             match items with
             | [] => (false, st)
             | next :: items =>
                 match walk rest next st with
                 | (true, st') => (true, st')
                 | (false, st') => any items st'
                 end
             end) items st
      | _, _ => (false, st)
      end
  end.
End walk.

Definition visit_values {St} (v : Value Number) (path : Path)
    (f : string -> St -> bool * St) (st : St) : bool * St :=
  walk f (segments path) v st.

(** [visit_values] with a callback that keeps no state. *)
Definition visit_any (v : Value Number) (path : Path) (f : string -> bool) : bool :=
  (visit_values v path (fun s (_ : unit) => (f s, tt)) tt).1.

(** ** Specification *)

(** Every scalar a path denotes, in document order. *)
Fixpoint path_values (segs : list Segment) (v : Value Number) : list string :=
  match segs with
  | [] => option_list (scalar_text v)
  | seg :: rest =>
      match seg, v with
      | Key k, VObject fields =>
          match obj_get k fields with Some next => path_values rest next | None => [] end
      | Index i, VArray items =>
          match items !! N.to_nat i with Some next => path_values rest next | None => [] end
      | Wildcard, VArray items => concat (map (path_values rest) items)
      | _, _ => []
      end
  end.

(** Call [f] on the values in order until it answers [true]. *)
Fixpoint run_until {St} (f : string -> St -> bool * St) (vs : list string) (st : St) : bool * St :=
  match vs with
  | [] => (false, st)
  | s :: vs => match f s st with (true, st') => (true, st') | (false, st') => run_until f vs st' end
  end.
End traversal.

Definition is_wildcard (s : Segment) : bool := match s with Wildcard => true | _ => false end.
Definition wildcard_free (p : Path) : bool := forallb (fun s => negb (is_wildcard s)) (segments p).

(** The canonical text of a path. *)
Definition render_segment (first : bool) (seg : Segment) : string :=
  match seg with
  | Key k => if first then k else "." +:+ k
  | Index i => "[" +:+ pretty i +:+ "]"
  | Wildcard => "[*]"
  end.

Fixpoint render_segments (first : bool) (segs : list Segment) : string :=
  match segs with
  | [] => ""
  | seg :: segs => render_segment first seg +:+ render_segments false segs
  end.

Definition render_path (p : Path) : string := render_segments true (segments p).

(** The keys and subscripts [parse_path] can produce. *)
Definition wf_segment (seg : Segment) : bool :=
  match seg with
  | Key k => negb (str_is_empty k) && negb (char_in "." k) && negb (char_in "[" k)
  | Index i => (i <=? USIZE_MAX)%N
  | Wildcard => true
  end.

Definition wf_path (p : Path) : bool :=
  match segments p with Key _ :: _ => forallb wf_segment (segments p) | _ => false end.

(** ** Lemmas: traversal *)

Section traversal_facts.
Context {J : JsonCrate}.

Lemma run_until_app {St} (f : string -> St -> bool * St) vs ws st :
  run_until f (vs ++ ws) st =
  match run_until f vs st with (true, st') => (true, st') | (false, st') => run_until f ws st' end.
Proof.
  revert st. induction vs as [|s vs IH]; intros st; cbn; [done|].
  destruct (f s st) as [[] st']; [done|]. apply IH.
Qed.

Lemma walk_run_until {St} (f : string -> St -> bool * St) segs v st :
  walk f segs v st = run_until f (path_values segs v) st.
Proof.
  revert v st. induction segs as [|seg rest IH]; intros v st; cbn.
  - destruct (scalar_text v); cbn; [|done]. by destruct (f _ st) as [[] ?].
  - destruct seg as [k|i|], v; try done.
    + destruct (obj_get k fields); [apply IH|done].
    + destruct (items !! N.to_nat i); [apply IH|done].
    + revert st. induction items as [|next items IHi]; intros st; cbn; [done|].
      rewrite run_until_app, IH. destruct (run_until f _ st) as [[] st']; [done|]. apply IHi.
Qed.

Lemma run_until_pure (f : string -> bool) vs :
  (run_until (fun s (_ : unit) => (f s, tt)) vs tt).1 = existsb f vs.
Proof. induction vs as [|s vs IH]; cbn; [done|]. by destruct (f s). Qed.

Lemma visit_any_existsb v p f : visit_any v p f = existsb f (path_values (segments p) v).
Proof. unfold visit_any, visit_values. by rewrite walk_run_until, run_until_pure. Qed.

Lemma path_values_literal segs v :
  path_values (map Key segs) v = option_list (resolve_segments v segs ≫= scalar_text).
Proof.
  revert v. induction segs as [|k segs IH]; intros v; cbn; [done|].
  destruct v; try done. destruct (obj_get k fields); cbn; [apply IH|done].
Qed.

Lemma path_values_wildcard_free segs v :
  forallb (fun s => negb (is_wildcard s)) segs = true -> length (path_values segs v) <= 1.
Proof.
  revert v. induction segs as [|seg rest IH]; intros v H; cbn in *.
  - destruct (scalar_text v); cbn; lia.
  - bools. destruct seg as [k|i|]; [| |done].
    + destruct v; cbn; try lia. destruct (obj_get k fields); cbn; [by apply IH|lia].
    + destruct v; cbn; try lia. destruct (items !! N.to_nat i); cbn; [by apply IH|lia].
Qed.

(** A wildcard-free path as a partial function. *)
Lemma path_values_option segs v :
  forallb (fun s => negb (is_wildcard s)) segs = true ->
  path_values segs v = option_list (head (path_values segs v)).
Proof.
  intros H. pose proof (path_values_wildcard_free segs v H) as Hl.
  destruct (path_values segs v) as [|a [|b l]]; cbn in *; [done|done|lia].
Qed.
End traversal_facts.

(** ** Lemmas: parsing *)

Lemma parse_subscripts_fuel_irrel fuel fuel' s rest :
  String.length rest <= fuel -> String.length rest <= fuel' ->
  parse_subscripts_fuel fuel s rest = parse_subscripts_fuel fuel' s rest.
Proof.
  revert fuel' rest. induction fuel as [|fuel IH]; intros fuel' rest H H'.
  - destruct rest; cbn in *; [|lia]. by destruct fuel'.
  - destruct fuel' as [|fuel']; [destruct rest; cbn in *; [done|lia]|].
    cbn. destruct (str_is_empty rest) eqn:He; [done|].
    destruct (starts_with "[" rest); cbn; [|done].
    destruct (find_char "]" rest) as [close|]; [|done].
    destruct (parse_subscript s _); cbn; [|done].
    assert (String.length (str_drop (close + 1) rest) < String.length rest) as Hlt.
    { rewrite str_length_drop. destruct rest; cbn in *; [done|lia]. }
    by rewrite (IH fuel') by lia.
Qed.

(** The fuel-free equation of the subscript loop. *)
Lemma parse_subscripts_unfold s rest :
  parse_subscripts s rest =
  if str_is_empty rest then Ok []
  else if negb (starts_with "[" rest) then
    Err (MkPathParseError (Fmt "unexpected text {rest:?} after subscript in {s:?}" [Lit rest; Lit s]))
  else match find_char "]" rest with
       | None => Err (MkPathParseError (Fmt "unclosed '[' in {s:?}" [Lit s]))
       | Some close =>
           seg ← parse_subscript s (str_slice 1 close rest);
           segs ← parse_subscripts s (str_drop (close + 1) rest);
           Ok (seg :: segs)
       end.
Proof.
  unfold parse_subscripts at 1. destruct rest as [|a rest]; [done|].
  cbn [parse_subscripts_fuel String.length]. unfold parse_subscripts.
  destruct (str_is_empty _); [done|]. destruct (starts_with "[" _); cbn [negb]; [|done].
  destruct (find_char "]" _) as [close|]; [|done].
  destruct (parse_subscript s _); cbn [mbind result_bind]; [|done].
  rewrite (parse_subscripts_fuel_irrel _ (String.length (str_drop (close + 1) (String a rest))));
    [done| |lia].
  rewrite str_length_drop. cbn. lia.
Qed.

(** A subscript between its brackets. *)
Lemma parse_subscripts_cons s inner rest :
  char_in "]" inner = false ->
  parse_subscripts s (("[" +:+ inner +:+ "]") +:+ rest) =
  (seg ← parse_subscript s inner; segs ← parse_subscripts s rest; Ok (seg :: segs)).
Proof.
  intros Hin. rewrite parse_subscripts_unfold.
  rewrite !str_app_assoc. cbn [String.append str_is_empty].
  change (starts_with "[" (String "[" (inner +:+ String "]" rest))) with true. cbn [negb].
  change (String "[" (inner +:+ String "]" rest)) with (String "[" inner +:+ String "]" rest).
  rewrite find_char_here; [|done].
  rewrite Nat.add_1_r. change (String.length (String "[" inner)) with (S (String.length inner)).
  change (String.append (String "[" inner) ?x) with (String "[" (inner +:+ x)).
  assert (str_slice 1 (S (String.length inner)) (String "[" (inner +:+ String "]" rest)) = inner) as ->.
  { unfold str_slice. rewrite Nat.sub_succ, Nat.sub_0_r. apply str_take_app. }
  change (str_drop (S ?n) (String "[" ?x)) with (str_drop n x).
  by rewrite str_drop_app_cons.
Qed.

Definition is_key (s : Segment) : bool := match s with Key _ => true | _ => false end.

(** A path as a list of parts: a key and its subscripts. *)
Definition part_segments (g : string * list Segment) : list Segment := Key g.1 :: g.2.
Definition render_part (g : string * list Segment) : string :=
  g.1 +:+ render_segments false g.2.

Definition wf_part (g : string * list Segment) : bool :=
  wf_segment (Key g.1) && forallb wf_segment g.2 && forallb (fun x => negb (is_key x)) g.2.

Lemma segments_parts segs :
  forallb wf_segment segs = true ->
  exists subs gs, segs = subs ++ concat (map part_segments gs) /\
    forallb wf_segment subs = true /\ forallb (fun x => negb (is_key x)) subs = true /\
    forallb wf_part gs = true.
Proof.
  induction segs as [|seg segs IH]; cbn; intros H; [by exists [], []|]. bools.
  destruct IH as (subs & gs & -> & Hw & Hk & Hg); [done|].
  destruct seg as [k|i|].
  - exists [], ((k, subs) :: gs). split; [done|]. split; [done|]. split; [done|].
    cbn [forallb]. unfold wf_part at 1. cbn [fst snd]. by rewrite Hw, Hk, H, Hg.
  - exists (Index i :: subs), gs. cbn in *. by rewrite H, Hw, Hk, Hg.
  - exists (Wildcard :: subs), gs. cbn. by rewrite Hw, Hk, Hg.
Qed.

Lemma wf_path_parts p :
  wf_path p = true ->
  exists g gs, segments p = concat (map part_segments (g :: gs)) /\ forallb wf_part (g :: gs) = true.
Proof.
  unfold wf_path. destruct (segments p) as [|[k|i|] segs]; try done.
  cbn [forallb]. intros H. bools.
  destruct (segments_parts segs) as (subs & gs & -> & Hw & Hk & Hg); [done|].
  exists (k, subs), gs. split; [done|]. cbn [forallb]. unfold wf_part at 1. cbn [fst snd].
  by rewrite Hw, Hk, H, Hg.
Qed.

Lemma render_subs_app subs segs :
  render_segments false (subs ++ segs) = render_segments false subs +:+ render_segments false segs.
Proof. induction subs as [|x subs IH]; cbn; [done|]. by rewrite IH, str_app_assoc. Qed.

Lemma render_parts g gs :
  render_segments true (concat (map part_segments (g :: gs))) =
  str_join "." (map render_part (g :: gs)).
Proof.
  revert g. induction gs as [|g' gs IH]; intros [k subs]; cbn.
  - by rewrite app_nil_r.
  - specialize (IH g'). cbn in IH. unfold render_part at 1. cbn.
    rewrite render_subs_app, str_app_assoc. cbn. by rewrite IH.
Qed.

Lemma subs_char_free c subs :
  is_ascii_digit c = false -> c <> "["%char -> c <> "]"%char -> c <> "*"%char ->
  forallb (fun x => negb (is_key x)) subs = true ->
  char_in c (render_segments false subs) = false.
Proof.
  intros Hd H1 H2 H3. induction subs as [|[k|i|] subs IH]; cbn; intros H; try done.
  - rewrite !char_in_app. cbn.
    rewrite (str_all_not_in _ _ _ (pretty_N_digits i) Hd), !bool_decide_eq_false_2 by done.
    cbn. by apply IH.
  - rewrite !bool_decide_eq_false_2 by done. by apply IH.
Qed.

Lemma render_part_no_dot g : wf_part g = true -> char_in "." (render_part g) = false.
Proof.
  destruct g as [k subs]. unfold wf_part, wf_segment, render_part. cbn [fst snd]. intros H. bools.
  rewrite char_in_app. rewrite subs_char_free by done. rewrite orb_false_r. done.
Qed.

Lemma split_render_parts g gs :
  forallb wf_part (g :: gs) = true ->
  split_char "." (str_join "." (map render_part (g :: gs))) = map render_part (g :: gs).
Proof.
  revert g. induction gs as [|g' gs IH]; intros g H; cbn [forallb] in H; bools.
  - cbn. by apply split_char_none, render_part_no_dot.
  - change (str_join "." (map render_part (g :: g' :: gs))) with
      (render_part g +:+ String "." (str_join "." (map render_part (g' :: gs)))).
    rewrite split_char_app by (by apply render_part_no_dot). rewrite IH; [done|].
    cbn [forallb]. by rewrite H0, H1.
Qed.

Lemma parse_render_subs s subs :
  forallb wf_segment subs = true -> forallb (fun x => negb (is_key x)) subs = true ->
  parse_subscripts s (render_segments false subs) = Ok subs.
Proof.
  induction subs as [|[k|i|] subs IH]; intros Hw Hk; cbn [forallb] in *; try done; bools.
  - cbn [render_segments render_segment]. rewrite parse_subscripts_cons.
    2:{ by eapply str_all_not_in; [apply pretty_N_digits|]. }
    unfold parse_subscript. rewrite decide_False.
    2:{ intros E. pose proof (pretty_N_digits i) as Hd. by rewrite E in Hd. }
    rewrite parse_uint_pretty by (by apply N.leb_le). cbn [mbind result_bind].
    by rewrite IH.
  - cbn [render_segments render_segment].
    change "[*]" with ("[" +:+ "*" +:+ "]"). rewrite parse_subscripts_cons by done.
    cbn [mbind result_bind parse_subscript]. unfold parse_subscript.
    rewrite decide_True by done. cbn [mbind result_bind]. by rewrite IH.
Qed.

Lemma render_subs_head subs :
  forallb (fun x => negb (is_key x)) subs = true ->
  subs = [] \/ exists t, render_segments false subs = String "[" t.
Proof. destruct subs as [|[k|i|] subs]; cbn; try done; eauto. Qed.

Lemma parse_render_part s g : wf_part g = true -> parse_part s (render_part g) = Ok (part_segments g).
Proof.
  destruct g as [k subs]. unfold wf_part, render_part, part_segments. cbn [fst snd].
  intros H. bools. pose proof H as Hk. unfold wf_segment in Hk. bools.
  unfold parse_part. pose proof (parse_render_subs s subs ltac:(done) ltac:(done)) as Hp.
  destruct (render_subs_head subs) as [->|[t Ht]]; [done|..].
  - cbn. rewrite str_app_nil_r. rewrite (proj2 (find_char_None _ _)) by done.
    by destruct (str_is_empty k).
  - rewrite Ht in *. rewrite find_char_here by done. rewrite str_take_app, str_drop_app.
    destruct (str_is_empty k); [done|]. by rewrite Hp.
Qed.

Lemma render_path_nonempty g gs :
  forallb wf_part (g :: gs) = true ->
  str_is_empty (str_join "." (map render_part (g :: gs))) = false.
Proof.
  cbn [forallb]. intros H. bools. destruct g as [k subs]. unfold wf_part, wf_segment in H.
  cbn [fst snd] in H. bools.
  destruct k as [|a k]; [done|]. by destruct gs.
Qed.

Lemma parse_subscript_wf s inner seg :
  parse_subscript s inner = Ok seg -> wf_segment seg = true /\ is_key seg = false.
Proof.
  unfold parse_subscript. case_decide; intros H'; simplify_eq; [done|].
  destruct (parse_uint USIZE_MAX inner) eqn:E; simplify_eq.
  split; [|done]. by apply N.leb_le, (parse_uint_bound _ inner).
Qed.

Lemma parse_subscripts_wf s rest segs :
  parse_subscripts s rest = Ok segs ->
  forallb wf_segment segs = true /\ forallb (fun x => negb (is_key x)) segs = true.
Proof.
  revert segs. remember (String.length rest) as n eqn:Hn. revert rest Hn.
  induction (lt_wf n) as [n _ IH]. intros rest -> segs. rewrite parse_subscripts_unfold.
  destruct (str_is_empty rest) eqn:He; [by intros; simplify_eq|].
  destruct (starts_with "[" rest); cbn [negb]; [|done].
  destruct (find_char "]" rest) as [close|]; [|done].
  intros H. apply result_bind_ok in H as (seg & Hseg & H).
  apply result_bind_ok in H as (segs' & Hsegs & H). simplify_eq.
  apply parse_subscript_wf in Hseg as [Hw Hk].
  destruct (IH (String.length (str_drop (close + 1) rest))) with (rest := str_drop (close + 1) rest)
    (segs := segs') as [Hw' Hk']; [|done|done|].
  - rewrite str_length_drop. destruct rest; cbn in *; [done|lia].
  - cbn. by rewrite Hw, Hw', Hk, Hk'.
Qed.

Lemma parse_part_wf s part segs :
  char_in "." part = false -> parse_part s part = Ok segs ->
  exists k subs, segs = Key k :: subs /\ forallb wf_segment segs = true.
Proof.
  intros Hdot. unfold parse_part.
  assert (exists name rest, (match find_char "[" part with
    | Some i => (str_take i part, str_drop i part) | None => (part, "") end) = (name, rest) /\
    char_in "." name = false /\ char_in "[" name = false) as (name & rest & -> & Hn & Hb).
  { destruct (find_char "[" part) as [i|] eqn:E.
    - apply find_char_Some in E as (u & v & -> & <- & Hu). rewrite str_take_app.
      eexists _, _. split; [done|]. split; [|done].
      rewrite char_in_app in Hdot. by bools.
    - apply find_char_None in E. by eexists _, _. }
  destruct (str_is_empty name) eqn:He; [done|]. intros H.
  apply result_bind_ok in H as (subs & Hs & H). simplify_eq.
  apply parse_subscripts_wf in Hs as [Hw _]. exists name, subs. split; [done|].
  cbn. by rewrite He, Hn, Hb, Hw.
Qed.

Lemma parse_parts_wf s parts pss :
  Forall (fun p => char_in "." p = false) parts -> parts <> [] ->
  collect_results (parse_part s) parts = Ok pss ->
  wf_path (mkPath (concat pss)) = true.
Proof.
  intros Hd Hne H. apply collect_results_Forall2 in H.
  assert (Forall (fun segs => exists k subs, segs = Key k :: subs /\ forallb wf_segment segs = true) pss)
    as Hall.
  { clear Hne. induction H as [|part segs parts pss Hp H IH]; [constructor|].
    apply Forall_cons in Hd as [Hd1 Hd2]. constructor; [by eapply parse_part_wf|auto]. }
  destruct H as [|part segs parts pss Hp _]; [done|].
  apply Forall_cons in Hall as [(k & subs & -> & Hw) Hall].
  unfold wf_path. cbn [segments concat app]. apply forallb_Forall. cbn.
  change (Key k :: subs ++ concat pss) with ((Key k :: subs) ++ concat pss).
  apply Forall_app. split; [by apply forallb_Forall|].
  apply Forall_concat. eapply Forall_impl; [done|]. intros x (? & ? & -> & ?).
  by apply forallb_Forall.
Qed.

(** ** Properties *)

(** [visit_values] calls the callback on exactly the scalars the path denotes,
    in document order, and stops at the first call that answers [true]. *)
Theorem visit_values_spec {J : JsonCrate} {St} v p (f : string -> St -> bool * St) st :
  visit_values v p f st = run_until f (path_values (segments p) v) st.
Proof. apply walk_run_until. Qed.

(** on a v1 path the traversal of the parsed path and the dotted [resolve] read
    the same scalar. *)
Theorem visit_values_literal_resolve {J : JsonCrate} v path f :
  visit_any v (literal_path path) f =
  match resolve v path with Some s => f s | None => false end.
Proof.
  rewrite visit_any_existsb. unfold resolve, literal_path. cbn [segments].
  rewrite path_values_literal. destruct (resolve_segments v _ ≫= scalar_text); cbn; [|done].
  apply orb_false_r.
Qed.

(** C37: every well-formed path is the parse of its canonical text. *)
Theorem parse_render_path p : wf_path p = true -> parse_path (render_path p) = Ok p.
Proof.
  intros H. destruct (wf_path_parts p H) as (g & gs & Hs & Hw).
  unfold render_path, parse_path. rewrite Hs, render_parts, render_path_nonempty by done.
  rewrite split_render_parts by done.
  assert (collect_results (parse_part (str_join "." (map render_part (g :: gs))))
            (map render_part (g :: gs)) = Ok (map part_segments (g :: gs))) as ->.
  { apply collect_results_Forall2. generalize (str_join "." (map render_part (g :: gs))).
    intros s. apply Forall2_fmap. apply Forall_Forall2_diag.
    eapply Forall_impl; [by apply forallb_Forall|]. intros x Hx. by apply parse_render_part. }
  cbn [mbind result_bind]. rewrite <-Hs. by destruct p.
Qed.

(** A path that parses starts with a key, and its keys are non-empty and free of
    [.] and [\[]; its indices fit [usize]. *)
Theorem parse_path_wf s p : parse_path s = Ok p -> wf_path p = true.
Proof.
  unfold parse_path. destruct (str_is_empty s); [done|]. intros H.
  apply result_bind_ok in H as (parts & Hp & H). simplify_eq.
  eapply parse_parts_wf; [|apply split_char_ne|done].
  apply Forall_forall. intros x. apply split_char_pieces.
Qed.

(** on text without [\[] the v2 parser and the v1 lowering agree whenever the v2
    parser accepts. *)
Theorem parse_path_literal s p :
  char_in "[" s = false -> parse_path s = Ok p -> p = literal_path s.
Proof.
  intros Hb. unfold parse_path, literal_path. destruct (str_is_empty s); [done|]. intros H.
  apply result_bind_ok in H as (pss & Hp & H). simplify_eq. f_equal.
  apply collect_results_Forall2 in Hp.
  assert (Forall (fun p => char_in "[" p = false) (split_char "." s)) as Hall.
  { apply Forall_forall. intros x Hx. by eapply split_char_sub. }
  induction Hp as [|part segs parts pss Hpart Hp IH]; [done|].
  apply Forall_cons in Hall as [H1 H2]. cbn [concat map]. rewrite IH by done.
  unfold parse_part in Hpart. rewrite (proj2 (find_char_None _ _) H1) in Hpart.
  destruct (str_is_empty part); [done|]. cbn in Hpart. by simplify_eq.
Qed.

(** ** Witnesses *)

Lemma parse_render_path_witness :
  parse_path "a.b[0][*].c" = Ok (mkPath [Key "a"; Key "b"; Index 0; Wildcard; Key "c"]).
Proof. apply (parse_render_path (mkPath [Key "a"; Key "b"; Index 0; Wildcard; Key "c"])). reflexivity. Defined.

Lemma parse_path_wf_witness : wf_path (mkPath [Key "a"; Index 12; Key "b"]) = true.
Proof. apply (parse_path_wf "a[12].b"). reflexivity. Defined.

Lemma parse_path_literal_witness : mkPath [Key "a"; Key "b"] = literal_path "a.b".
Proof. apply (parse_path_literal "a.b"); reflexivity. Defined.
