(* ===== verification/Regex.v ===== *)
(** * The [regex] crate: what the filter relies on

    The crate is third-party.  [RegexCrate] holds its operations and [RegexLaws]
    the part of its documented syntax that the rule index depends on: what an
    anchored pattern means when it is made of literal characters and documented
    escapes, with at most one flat alternation group. *)

From S2P Require Import Prelude.

Class RegexCrate := {
  (** A compiled pattern. *)
  Regex : Type;
  (** [RegexBuilder::new(pattern).size_limit(limit).build()]; [Err] is the
      rendered [regex::Error]. *)
  regex_build : N -> string -> result string Regex;
  regex_as_str : Regex -> string;
  regex_is_match : Regex -> string -> bool;
}.

(** The characters with a meaning of their own outside a character class. *)
Definition is_meta (c : ascii) : bool :=
  bool_decide (c ∈ ["."; "*"; "+"; "?"; "{"; "}"; "^"; "$"; "("; ")"; "["; "]"; "|"]%char).

(** The documented escapes of a literal: "\* applies to all ASCII except
    [0-9A-Za-z<>]". *)
Definition is_escapable (c : ascii) : bool :=
  (nat_of_ascii c <=? 127) && negb (is_ascii_alphanumeric c)
  && negb (bool_decide (c = "<"%char)) && negb (bool_decide (c = ">"%char)).

(** The text a pattern of literal characters and escapes stands for; [None] when
    the pattern is not of that form. *)
Fixpoint literal_of (p : string) : option string :=
  match p with
  | EmptyString => Some EmptyString
  | String c p' =>
      if decide (c = "\"%char) then
        match p' with
        | EmptyString => None
        | String e p'' => if is_escapable e then String e <$> literal_of p'' else None
        end
      else if is_meta c then None
      else String c <$> literal_of p'
  end.

Class RegexLaws (R : RegexCrate) : Prop := {
  (** [as_str] is the pattern the regex was built from. *)
  regex_build_as_str limit p r : regex_build limit p = Ok r -> regex_as_str r = p;
  (** [^literal$] matches exactly the literal. *)
  regex_anchored_literal r p s h :
    regex_as_str r = "^" +:+ p +:+ "$" -> literal_of p = Some s ->
    regex_is_match r h = bool_decide (h = s);
  (** [^pre(a|b|..)suf$] matches exactly [pre a suf], [pre b suf], ... *)
  regex_anchored_group r pre alts suf s ss t h :
    regex_as_str r = "^" +:+ pre +:+ "(" +:+ str_join "|" alts +:+ ")" +:+ suf +:+ "$" ->
    alts <> [] ->
    literal_of pre = Some s -> mapM literal_of alts = Some ss -> literal_of suf = Some t ->
    regex_is_match r h = bool_decide (h ∈ map (fun a => s +:+ a +:+ t) ss);
}.

(** Every escape of the pattern is a documented literal escape; in particular the
    pattern uses none of the word boundaries [\<] and [\>]. *)
Fixpoint escapes_documented (p : string) : bool :=
  match p with
  | EmptyString => true
  | String c p' =>
      if decide (c = "\"%char) then
        match p' with
        | EmptyString => true
        | String e p'' => (is_escapable e || is_ascii_alphanumeric e) && escapes_documented p''
        end
      else escapes_documented p'
  end.
