(* ===== verification/Rules.v ===== *)
(** * The exclusion rules document ([core/src/config/rules.rs])

    Wire structs, their lowering into [RuleSet] for both schema versions, and the
    structural validation.  The YAML parser, the derived deserializers of the wire
    structs and the [semver] parser are third-party or generated code and stay
    parameters ([RulesCrates]). *)

From S2P Require Import Prelude Model Path Regex.

(** [REGEX_SIZE_LIMIT = 1 << 20]. *)
Definition REGEX_SIZE_LIMIT : N := N.shiftl 1 20.

(** ** Data *)

Inductive MatchOp : Type :=
  | MRegex (pattern : string)
  | MEquals (s : string)
  | MAnyOf (v : list string)
  | MAbsent (b : bool).

Record Match := mkMatch {
  m_field : string;
  m_op : MatchOp;
  m_negate : bool;
}.

Record Rule := mkRule {
  r_name : string;
  r_matches : list Match;
}.

Record RuleSet {M : Type} := mkRuleSet {
  rs_version : string;
  rs_meta : option M;
  rs_rules : list Rule;
}.
Arguments RuleSet M : clear implicits.

Record WireRuleSet {Y M : Type} := mkWireRuleSet {
  wrs_version : string;
  wrs_meta : option M;
  wrs_rules : list Y;
}.
Arguments WireRuleSet Y M : clear implicits.

Record WireMatchV1 := mkWireMatchV1 { w1_field_name : string; w1_regex : string }.
Record WireRuleV1 := mkWireRuleV1 { w1_name : string; w1_matches : list WireMatchV1 }.

Record WireMatchV2 := mkWireMatchV2 {
  w2_field : string;
  w2_regex : option string;
  w2_equals : option string;
  w2_any_of : option (list string);
  w2_absent : option bool;
  w2_negate : bool;
}.
Record WireRuleV2 := mkWireRuleV2 { w2_name : string; w2_matches : list WireMatchV2 }.

(** [serde_yaml_ng] with the derived deserializers of the wire structs, and
    [semver::Version::parse(v).map(|v| v.major)]. *)
Class RulesCrates := {
  YamlValue : Type;
  YamlMapping : Type;
  yaml_rule_set : string -> result string (WireRuleSet YamlValue YamlMapping);
  yaml_rule_v1 : YamlValue -> result string WireRuleV1;
  yaml_rule_v2 : YamlValue -> result string WireRuleV2;
  semver_major : string -> result string N;
}.

(** ** Lowering *)

Definition into_match (m : WireMatchV2) (rule_name : string) : result ConfigError Match :=
  let ops1 := match w2_regex m with Some r => [MRegex r] | None => [] end in
  let ops2 := match w2_equals m with Some e => ops1 ++ [MEquals e] | None => ops1 end in
  ops3 ← match w2_any_of m with
         | Some [] =>
             Err (CfgParse (Fmt "rule {rule_name:?}: field {:?}: any_of must not be empty"
                              [Lit rule_name; Lit (w2_field m)]))
         | Some a => Ok (ops2 ++ [MAnyOf a])
         | None => Ok ops2
         end;
  let ops := match w2_absent m with Some b => ops3 ++ [MAbsent b] | None => ops3 end in
  match ops with
  | [op] => Ok (mkMatch (w2_field m) op (w2_negate m))
  | _ =>
      Err (CfgParse (Fmt "rule {rule_name:?}: field {:?}: expected exactly one of regex/equals/any_of/absent, found {}"
                       [Lit rule_name; Lit (w2_field m); Lit (pretty (length ops))]))
  end.

Definition lower_match_v1 (m : WireMatchV1) : Match :=
  mkMatch (w1_field_name m) (MRegex (w1_regex m)) false.

Section rules.
Context {R : RegexCrate} {Y : RulesCrates}.

Definition lower_rule_v1 (raw : YamlValue) : result ConfigError Rule :=
  r ← map_err (fun e => CfgParse (Fmt "invalid v1 rule: {e}" [Lit e])) (yaml_rule_v1 raw);
  Ok (mkRule (w1_name r) (map lower_match_v1 (w1_matches r))).

Definition lower_rule_v2 (raw : YamlValue) : result ConfigError Rule :=
  r ← map_err (fun e => CfgParse (Fmt "invalid v2 rule: {e}" [Lit e])) (yaml_rule_v2 raw);
  matches ← collect_results (fun m => into_match m (w2_name r)) (w2_matches r);
  Ok (mkRule (w2_name r) matches).

(** ** Validation *)

Definition validate_match (major : N) (rule_name : string) (m : Match) : result ConfigError unit :=
  _ ← (if decide (major = 1%N) then Ok tt
       else match parse_path (m_field m) with
            | Ok _ => Ok tt
            | Err (MkPathParseError e) =>
                Err (CfgParse (Fmt "rule {:?}: invalid field path {:?}: {e}"
                                 [Lit rule_name; Lit (m_field m); e]))
            end);
  match m_op m with
  | MRegex pattern =>
      match regex_build REGEX_SIZE_LIMIT pattern with
      | Ok _ => Ok tt
      | Err e =>
          Err (CfgParse (Fmt "rule {:?}: invalid regex {pattern:?}: {e}"
                           [Lit rule_name; Lit pattern; Lit e]))
      end
  | _ => Ok tt
  end.

(** The loop over the rules; [names] is the [HashSet] of the names seen. *)
Fixpoint validate_rules (major : N) (names : gset string) (rules : list Rule) :
    result ConfigError unit :=
  match rules with
  | [] => Ok tt
  | rule :: rules =>
      if str_is_empty (r_name rule) then Err (CfgParse (Lit "rule name must not be empty"))
      else if decide (r_name rule ∈ names) then
        Err (CfgParse (Fmt "duplicate rule name: {:?}" [Lit (r_name rule)]))
      else match r_matches rule with
           | [] => Err (CfgParse (Fmt "rule {:?} has no matches: an empty list would vacuously match, and drop, every record" [Lit (r_name rule)]))
           | _ =>
               _ ← check_all (validate_match major (r_name rule)) (r_matches rule);
               validate_rules major ({[r_name rule]} ∪ names) rules
           end
  end.

Definition validate (rs : RuleSet YamlMapping) (major : N) : result ConfigError unit :=
  validate_rules major ∅ (rs_rules rs).

Definition parse (bytes : string) : result ConfigError (RuleSet YamlMapping) :=
  wire ← map_err (fun e => CfgParse (Lit e)) (yaml_rule_set bytes);
  major ← map_err (fun e => CfgParse (Fmt "invalid version {:?}: {e}" [Lit (wrs_version wire); Lit e]))
            (semver_major (wrs_version wire));
  rules ← (if decide (major = 1%N) then collect_results lower_rule_v1 (wrs_rules wire)
           else if decide (major = 2%N) then collect_results lower_rule_v2 (wrs_rules wire)
           else Err (CfgParse (Fmt "unsupported rules version {} (major {other}): major version must be 1 or 2"
                                 [Lit (wrs_version wire); Lit (pretty major)])));
  let parsed := mkRuleSet _ (wrs_version wire) (wrs_meta wire) rules in
  _ ← validate parsed major;
  Ok parsed.
End rules.

(** ** Diagnostics *)

Definition quoted (s : string) : string := String "034"%char (s +:+ String "034"%char "").

Definition describe_op (op : MatchOp) : string :=
  match op with
  | MRegex p => "regex " +:+ quoted p
  | MEquals s => "equals " +:+ quoted s
  | MAnyOf v => "any_of [" +:+ str_join ", " (map quoted v) +:+ "]"
  | MAbsent b => "absent " +:+ (if b then "true" else "false")
  end.

Definition describe_field (matches : list Match) (field : string) : option string :=
  m ← match find_first (fun m => negb (m_negate m) && bool_decide (m_field m = field)) matches with
      | Some m => Some m
      | None => find_first (fun m => bool_decide (m_field m = field)) matches
      end;
  let described := describe_op (m_op m) in
  let described := if m_negate m then "negated " +:+ described else described in
  Some (field +:+ " " +:+ described).

Definition index_key_description {M} (rs : RuleSet M) (rule_idx : nat) : option string :=
  rule ← rs_rules rs !! rule_idx;
  match omap (describe_field (r_matches rule)) ["eventSource"; "eventName"] with
  | [] => None
  | parts => Some (str_join ", " parts)
  end.

(** ** Specification *)

(** The operators a v2 match names, in the order the code collects them. *)
Definition operators (m : WireMatchV2) : list MatchOp :=
  option_list (MRegex <$> w2_regex m) ++ option_list (MEquals <$> w2_equals m)
  ++ option_list (MAnyOf <$> w2_any_of m) ++ option_list (MAbsent <$> w2_absent m).

Section valid.
Context {R : RegexCrate} {Y : RulesCrates}.

(** What the validation promises of one condition. *)
Record match_valid (major : N) (m : Match) : Prop := {
  mv_path : major <> 1%N -> exists p, parse_path (m_field m) = Ok p;
  mv_regex pattern : m_op m = MRegex pattern -> exists r, regex_build REGEX_SIZE_LIMIT pattern = Ok r;
}.

Record rule_valid (major : N) (r : Rule) : Prop := {
  rv_name : r_name r <> "";
  rv_matches : r_matches r <> [];
  rv_each : Forall (match_valid major) (r_matches r);
}.

Record rule_set_valid (major : N) (rs : RuleSet YamlMapping) : Prop := {
  rsv_version : semver_major (rs_version rs) = Ok major;
  rsv_major : major = 1%N \/ major = 2%N;
  rsv_names : NoDup (map r_name (rs_rules rs));
  rsv_rules : Forall (rule_valid major) (rs_rules rs);
}.

(** ** Lemmas *)

Lemma validate_match_ok major name m :
  validate_match major name m = Ok tt <-> match_valid major m.
Proof.
  unfold validate_match. split.
  - intros H. apply result_bind_ok in H as (u & Hp & H). split.
    + intros Hm. rewrite decide_False in Hp by done.
      destruct (parse_path (m_field m)) as [p|[e]]; [by exists p|done].
    + intros pattern Ho. rewrite Ho in H.
      destruct (regex_build REGEX_SIZE_LIMIT pattern) as [r|]; [by exists r|done].
  - intros [Hp Hr]. apply result_bind_ok. exists tt. split.
    + case_decide; [done|]. by destruct (Hp ltac:(done)) as [p ->].
    + destruct (m_op m) as [pattern| | |]; try done. by destruct (Hr pattern eq_refl) as [r ->].
Qed.

Lemma validate_rules_ok major names rules :
  validate_rules major names rules = Ok tt <->
  Forall (rule_valid major) rules /\ NoDup (map r_name rules) /\
  Forall (fun r => r_name r ∉ names) rules.
Proof.
  revert names. induction rules as [|r rules IH]; intros names; cbn.
  { by repeat split; constructor. }
  rewrite !Forall_cons, NoDup_cons.
  destruct (str_is_empty (r_name r)) eqn:He.
  { split; [done|]. intros ([[Hn _ _] _] & _). by destruct (r_name r). }
  assert (r_name r <> "") as Hne by (by intros E; rewrite E in He).
  case_decide as Hin.
  { split; [done|]. by intros (_ & _ & ? & _). }
  destruct (r_matches r) as [|m ms] eqn:Em.
  { split; [done|]. intros ([[_ Hm _] _] & _). by rewrite Em in Hm. }
  rewrite <-Em. rewrite result_bind_ok. split.
  - intros ([] & Hc & H). apply IH in H as (H1 & H2 & H3). apply check_all_ok in Hc.
    assert (r_name r ∉ map r_name rules) as Hr.
    { rewrite list_elem_of_fmap. intros (r' & Hr' & Hin').
      rewrite Forall_forall in H3. apply (H3 r'); [done|]. rewrite <-Hr'. set_solver. }
    split_and!; try done.
    + split; [done|by rewrite Em|]. eapply Forall_impl; [done|]. intros x. by apply validate_match_ok.
    + eapply Forall_impl; [done|]. set_solver.
  - intros ([[_ _ Hv] H1] & [Hr H2] & _ & H3). exists tt. split.
    + apply check_all_ok. eapply Forall_impl; [done|]. intros x. by apply validate_match_ok.
    + apply IH. split_and!; try done. apply Forall_forall. intros r' Hr'.
      rewrite Forall_forall in H3. specialize (H3 r' Hr').
      assert (r_name r' <> r_name r).
      { intros E. apply Hr. rewrite <-E. apply list_elem_of_fmap. eauto. }
      set_solver.
Qed.

Lemma validate_ok rs major :
  validate rs major = Ok tt <->
  Forall (rule_valid major) (rs_rules rs) /\ NoDup (map r_name (rs_rules rs)).
Proof.
  unfold validate. rewrite validate_rules_ok. split; [tauto|]. intros [? ?]. split_and!; try done.
  apply Forall_forall. set_solver.
Qed.

Lemma parse_rule_set_valid bytes rs :
  parse bytes = Ok rs -> exists major, rule_set_valid major rs.
Proof.
  unfold parse. intros H. apply result_bind_ok in H as (wire & Hw & H).
  apply result_bind_ok in H as (major & Hm & H). apply result_bind_ok in H as (rules & Hr & H).
  apply result_bind_ok in H as ([] & Hv & H). simplify_eq.
  apply validate_ok in Hv as [Hv1 Hv2]. exists major. split; cbn in *; try done.
  - by destruct (semver_major (wrs_version wire)); cbn in *; simplify_eq.
  - repeat case_decide; [by left|by right|done].
Qed.
End valid.

(** ** Properties *)

(** C34: a document that [RuleSet::parse] accepts has a supported major version, distinct
    and non-empty rule names, at least one condition per rule, patterns that compile
    under the size limit and, from version 2 on, field paths that parse. *)
Theorem parse_accepts_only_valid {R : RegexCrate} {Y : RulesCrates} bytes rs :
  parse bytes = Ok rs -> exists major, rule_set_valid major rs.
Proof. apply parse_rule_set_valid. Qed.

(** A v2 match is accepted exactly when it names one operator, and [any_of] is not
    empty; the result carries that operator. *)
Theorem into_match_spec m rule_name mt :
  into_match m rule_name = Ok mt <->
  w2_any_of m <> Some [] /\ exists op, operators m = [op] /\ mt = mkMatch (w2_field m) op (w2_negate m).
Proof.
  unfold into_match, operators.
  destruct (w2_regex m), (w2_equals m), (w2_any_of m) as [[|]|], (w2_absent m); cbn;
    (split; [intros H; simplify_eq; eauto|intros (H & op & Hop & ->); by simplify_eq]).
Qed.
