(* ===== verification/Reference.v ===== *)
(** * Concrete instances of the third-party interfaces

    The witnesses evaluate the development on concrete inputs, so every interface that
    stands for a third-party crate has a concrete instance here that satisfies its laws:
    a matcher for the literal fragment of the regex syntax, and table-driven parsers. *)

From S2P Require Import Prelude Model Json Path Regex Rules.

(** ** A matcher for the literal fragment *)

Module RefRegex.
Inductive zone := Before | Inside | After.

(** The language of [rest$], given what was read: the literal [pre] before the group,
    the finished alternatives [alts], and the literal [cur] being read. *)
Fixpoint lang (z : zone) (pre : string) (alts : list string) (cur s : string) :
    option (list string) :=
  match s with
  | EmptyString => None
  | String c s' =>
      if decide (c = "$"%char /\ s' = "") then
        match z with
        | Before => Some [cur]
        | Inside => None
        | After => Some (map (fun a => pre +:+ a +:+ cur) alts)
        end
      else if decide (c = "\"%char) then
        match s' with
        | EmptyString => None
        | String e s'' => if is_escapable e then lang z pre alts (cur +:+ String e "") s'' else None
        end
      else if negb (is_meta c) then lang z pre alts (cur +:+ String c "") s'
      else match z with
           | Before => if decide (c = "("%char) then lang Inside cur [] "" s' else None
           | Inside =>
               if decide (c = "|"%char) then lang Inside pre (alts ++ [cur]) "" s'
               else if decide (c = ")"%char) then lang After pre (alts ++ [cur]) "" s' else None
           | After => None
           end
  end.

Definition matches (pattern h : string) : bool :=
  match strip_prefix "^" pattern ≫= lang Before "" [] "" with
  | Some l => bool_decide (h ∈ l)
  | None => false
  end.
End RefRegex.

(** Patterns longer than the limit do not compile. *)
#[export] Instance ref_regex : RegexCrate := {|
  Regex := string;
  regex_build limit p :=
    if (limit <? N.of_nat (String.length p))%N then Err "compiled regex exceeds size limit" else Ok p;
  regex_as_str p := p;
  regex_is_match := RefRegex.matches;
|}.

(** ** Table-driven parsers *)

(** Numbers are kept as their text. *)
Definition table_json (table : list (string * Doc string)) : JsonCrate := {|
  F64 := string;
  Number := string;
  number_of_u64 n := pretty n;
  number_of_i64 z := pretty z;
  number_from_f64 f := Some f;
  number_to_string s := s;
  json_from_str text := ok_or "expected value" (alist_get text table);
|}.

(** A YAML document is the key of its wire structs; a version is [M.m.p] with one-digit
    numbers. *)
Definition table_rules (table : list (string * WireRuleSet WireRuleV2 unit)) : RulesCrates := {|
  YamlValue := WireRuleV2;
  YamlMapping := unit;
  yaml_rule_set bytes := ok_or "missing field version" (alist_get bytes table);
  yaml_rule_v1 raw :=
    Ok (mkWireRuleV1 (w2_name raw)
          (map (fun m => mkWireMatchV1 (w2_field m) (default "" (w2_regex m))) (w2_matches raw)));
  yaml_rule_v2 raw := Ok raw;
  semver_major v :=
    match v with
    | String d (String "." (String _ (String "." (String _ EmptyString)))) =>
        ok_or "invalid version" (digit_value d)
    | _ => Err "invalid version"
    end;
|}.

(** ** The laws *)

Lemma literal_of_char' c p s :
  literal_of (String c p) = Some s -> c <> "\"%char ->
  is_meta c = false /\ exists s', literal_of p = Some s' /\ s = String c s'.
Proof.
  cbn. intros H Hc. rewrite decide_False in H by done. destruct (is_meta c); [done|].
  apply fmap_Some in H as (s' & ? & ->). eauto.
Qed.

Lemma lang_literal z pre alts cur p s rest :
  literal_of p = Some s ->
  RefRegex.lang z pre alts cur (p +:+ rest) = RefRegex.lang z pre alts (cur +:+ s) rest.
Proof.
  revert cur s. induction p as [|c|c d p IH1 IH2] using str_ind2; intros cur s H.
  - cbn in H. simplify_eq. by rewrite str_app_nil_r.
  - destruct (decide (c = "\"%char)) as [->|Hc]; [done|].
    apply literal_of_char' in H as (Hm & s' & Hs & ->); [|done]. cbn in Hs. simplify_eq.
    cbn. rewrite decide_False by (by intros [-> _]). by rewrite decide_False, Hm by done.
  - destruct (decide (c = "\"%char)) as [->|Hc].
    + cbn in H. rewrite decide_True in H by done. destruct (is_escapable d) eqn:Hd; [|done].
      apply fmap_Some in H as (s' & Hs & ->).
      change ((String "\" (String d p)) +:+ rest) with (String "\" (String d (p +:+ rest))).
      cbn [RefRegex.lang]. rewrite decide_False by (by intros [? _]).
      rewrite decide_True, Hd, (IH1 _ s') by done. by rewrite str_app_assoc.
    + apply literal_of_char' in H as (Hm & s' & Hs & ->); [|done].
      change (String c (String d p) +:+ rest) with (String c (String d p +:+ rest)).
      cbn [RefRegex.lang]. rewrite decide_False by (by intros [-> _]).
      rewrite decide_False, Hm by done. cbn [negb]. rewrite (IH2 _ s') by done.
      by rewrite str_app_assoc.
Qed.

Lemma lang_alternatives pre acc alts ss rest :
  alts <> [] -> mapM literal_of alts = Some ss ->
  RefRegex.lang RefRegex.Inside pre acc "" (str_join "|" alts +:+ String ")" rest) =
  RefRegex.lang RefRegex.After pre (acc ++ ss) "" rest.
Proof.
  intros Hne H. apply mapM_Some in H. revert acc Hne.
  induction H as [|alt s alts ss Hs H IH]; intros acc Hne; [done|].
  destruct alts as [|alt' alts].
  - apply Forall2_nil_inv_l in H as ->. cbn [str_join]. rewrite (lang_literal _ _ _ _ _ s) by done.
    cbn [RefRegex.lang String.append]. by rewrite decide_False by (by intros [? _]).
  - change (str_join "|" (alt :: alt' :: alts)) with (alt +:+ String "|" (str_join "|" (alt' :: alts))).
    rewrite str_app_assoc, (lang_literal _ _ _ _ _ s) by done.
    change (String "|" ?x +:+ ?y) with (String "|" (x +:+ y)). cbn [RefRegex.lang].
    rewrite decide_False by (by intros [? _]). cbn. rewrite IH by done. by rewrite <-app_assoc.
Qed.

#[export] Instance ref_regex_laws : RegexLaws ref_regex.
Proof.
  split.
  - cbn. intros limit p r. case_match; intros; by simplify_eq.
  - cbn. intros r p s h -> Hs. unfold RefRegex.matches. cbn [strip_prefix].
    rewrite decide_True by done. cbn [mbind option_bind].
    rewrite (lang_literal _ _ _ _ p s) by done. cbn. apply bool_decide_ext.
    apply list_elem_of_singleton.
  - cbn. intros r pre alts suf s ss t h -> Hne Hs Hss Ht. unfold RefRegex.matches. cbn [strip_prefix].
    rewrite decide_True by done. cbn [mbind option_bind].
    rewrite (lang_literal _ _ _ _ pre s) by done. cbn [RefRegex.lang String.append].
    rewrite decide_False by (by intros [? _]). cbn.
    rewrite (lang_alternatives _ _ _ ss) by done.
    rewrite (lang_literal _ _ _ _ suf t) by done. cbn. by apply bool_decide_ext.
Qed.

Lemma table_json_laws table : JsonLaws (table_json table).
Proof. by split. Qed.
#[export] Hint Resolve table_json_laws : typeclass_instances.
