(* ===== verification/Index.v ===== *)
(** * Rule index ([core/src/filter/index.rs])

    [extract_literals] reads the finite set of strings an anchored pattern can
    match off the pattern; [Bits] is a bitset of rule numbers in [u64] words;
    [RuleIndex] narrows the candidate rules of a record by the values of
    [eventSource] and [eventName]. *)

From stdpp Require Import gmap.
From S2P Require Import Prelude Regex Reference.

(** ** Literal extraction *)

(** [find_unescaped_parens], the scan from byte [i] with its [escaped] flag. *)
Fixpoint find_unescaped_parens_from (i : nat) (escaped : bool) (s : string) : list (nat * ascii) :=
  match s with
  | EmptyString => []
  | String c s' =>
      if escaped then find_unescaped_parens_from (S i) false s'
      else if decide (c = "\"%char) then find_unescaped_parens_from (S i) true s'
      else if decide (c = "("%char \/ c = ")"%char) then
        (i, c) :: find_unescaped_parens_from (S i) false s'
      else find_unescaped_parens_from (S i) false s'
  end.

Definition find_unescaped_parens (s : string) : list (nat * ascii) :=
  find_unescaped_parens_from 0 false s.

Fixpoint unescape_literal (s : string) : option string :=
  match s with
  | EmptyString => Some EmptyString
  | String c s' =>
      if decide (c = "\"%char) then
        match s' with
        | EmptyString => None
        | String escaped s'' =>
            if is_ascii_alphanumeric escaped then None
            else String escaped <$> unescape_literal s''
        end
      else if decide (c ∈ ["."; "*"; "+"; "?"; "{"; "}"; "^"; "$"; "("; ")"; "["; "]"; "|"]%char)
      then None
      else String c <$> unescape_literal s'
  end.

Definition extract_literals (pattern : string) : option (list string) :=
  if str_contains "(?" pattern then None
  else
    unanchored ← strip_prefix "^" pattern;
    inner ← strip_suffix_char "$" unanchored;
    match find_unescaped_parens inner with
    | [] => lit ← unescape_literal inner; Some [lit]
    | [(open, "("%char); (close, ")"%char)] =>
        prefix ← unescape_literal (str_take open inner);
        let body := str_slice (open + 1) close inner in
        suffix ← unescape_literal (str_drop (close + 1) inner);
        if str_contains "\|" body then None
        else mapM (fun alt => alt ← unescape_literal alt; Some (prefix +:+ alt +:+ suffix))
               (split_char "|" body)
    | _ => None
    end.

(** ** Bitsets *)

(** [Vec<u64>] words; an index outside the words is a panic in [set], which the
    callers exclude ([Bits.fits]), and [false] in [contains]. *)
Record Bits := mkBits { words : list N }.

Module Bits.
Definition new (len : nat) : Bits := mkBits (replicate (div_ceil len 64) 0%N).

(** [1u64 << (idx % 64)]. *)
Definition mask (idx : nat) : N := N.shiftl 1 (N.of_nat (idx mod 64)).

Definition set (idx : nat) (b : Bits) : Bits :=
  mkBits (alter (fun w => N.lor w (mask idx)) (idx / 64) (words b)).

Definition contains (idx : nat) (b : Bits) : bool :=
  match words b !! (idx / 64) with
  | Some w => negb (N.land w (mask idx) =? 0)%N
  | None => false
  end.

Definition all_set (len : nat) : Bits := foldl (fun b idx => set idx b) (new len) (seq 0 len).

(** The [zip] of [union_from] stops at the shorter side. *)
Fixpoint union_words (a b : list N) : list N :=
  match a, b with
  | x :: a, y :: b => N.lor x y :: union_words a b
  | a, _ => a
  end.

Definition union_from (a b : Bits) : Bits := mkBits (union_words (words a) (words b)).

(** [set idx] does not panic. *)
Definition fits (idx : nat) (b : Bits) : Prop := idx / 64 < length (words b).
End Bits.

(** ** The index *)

Record RuleKeys := mkRuleKeys {
  event_source : option (list string);
  event_name : option (list string);
}.

#[export] Instance RuleKeys_eq_dec : EqDecision RuleKeys.
Proof. solve_decision. Defined.

Record Candidates := mkCandidates { cand_source : Bits; cand_name : Bits }.

Definition candidates_permits (c : Candidates) (idx : nat) : bool :=
  Bits.contains idx (cand_source c) && Bits.contains idx (cand_name c).

Record RuleIndex := mkRuleIndex {
  by_event_source : gmap string Bits;
  any_event_source : Bits;
  by_event_name : gmap string Bits;
  any_event_name : Bits;
  all_rules : Bits;
  always : list nat;
  rule_count : nat;
}.

Module RuleIndex.
(** One dimension of the first pass for one rule. *)
Definition add_dimension (rule_count rule_idx : nat) (k : option (list string))
    (st : gmap string Bits * Bits) : gmap string Bits * Bits :=
  match k with
  | Some literals =>
      (foldl (fun m lit =>
                <[lit := Bits.set rule_idx (default (Bits.new rule_count) (m !! lit))]> m)
             st.1 literals, st.2)
  | None => (st.1, Bits.set rule_idx st.2)
  end.

Record pass := mkPass {
  p_source : gmap string Bits * Bits;
  p_name : gmap string Bits * Bits;
  p_always : list nat;
}.

Definition add_rule (rule_count : nat) (st : pass) (rule_idx : nat) (k : RuleKeys) : pass :=
  mkPass (add_dimension rule_count rule_idx (event_source k) (p_source st))
         (add_dimension rule_count rule_idx (event_name k) (p_name st))
         (match event_source k, event_name k with
          | None, None => p_always st ++ [rule_idx]
          | _, _ => p_always st
          end).

(** [for (rule_idx, k) in keys.iter().enumerate()]. *)
Fixpoint add_rules (rule_count : nat) (st : pass) (rule_idx : nat) (keys : list RuleKeys) : pass :=
  match keys with
  | [] => st
  | k :: keys => add_rules rule_count (add_rule rule_count st rule_idx k) (S rule_idx) keys
  end.

Definition build (keys : list RuleKeys) : RuleIndex :=
  let rule_count := length keys in
  let st := add_rules rule_count
              (mkPass (∅, Bits.new rule_count) (∅, Bits.new rule_count) []) 0 keys in
  {| by_event_source := (fun bits => Bits.union_from bits (p_source st).2) <$> (p_source st).1;
     any_event_source := (p_source st).2;
     by_event_name := (fun bits => Bits.union_from bits (p_name st).2) <$> (p_name st).1;
     any_event_name := (p_name st).2;
     all_rules := Bits.all_set rule_count;
     always := p_always st;
     rule_count := rule_count |}.

Definition source_bits (ix : RuleIndex) (es : option string) : Bits :=
  match es with
  | None => all_rules ix
  | Some es => default (any_event_source ix) (by_event_source ix !! es)
  end.

Definition name_bits (ix : RuleIndex) (en : option string) : Bits :=
  match en with
  | None => all_rules ix
  | Some en => default (any_event_name ix) (by_event_name ix !! en)
  end.

Definition candidates_for (ix : RuleIndex) (es en : option string) : Candidates :=
  mkCandidates (source_bits ix es) (name_bits ix en).
End RuleIndex.

(** ** Specification *)

(** Whether a rule with keys [k] in one dimension can match a record whose value
    there is [v]: an absent value and an absent key constrain nothing. *)
Definition key_admits (k : option (list string)) (v : option string) : bool :=
  match k, v with
  | Some literals, Some v => bool_decide (v ∈ literals)
  | _, _ => true
  end.

(** ** Lemmas: bitsets *)

Module BitsFacts.
Lemma mask_testbit idx k : N.testbit (Bits.mask idx) k = bool_decide (k = N.of_nat (idx mod 64)).
Proof.
  unfold Bits.mask. rewrite N.shiftl_1_l.
  destruct (decide (k = N.of_nat (idx mod 64))) as [->|Hne].
  - rewrite bool_decide_eq_true_2 by done. apply N.pow2_bits_true.
  - rewrite bool_decide_eq_false_2 by done. by apply N.pow2_bits_false.
Qed.

(** The word test of [contains] reads one bit. *)
Lemma land_mask w idx :
  negb (N.land w (Bits.mask idx) =? 0)%N = N.testbit w (N.of_nat (idx mod 64)).
Proof.
  destruct (N.testbit w (N.of_nat (idx mod 64))) eqn:E.
  - apply negb_true_iff, N.eqb_neq. intros H0.
    assert (N.testbit (N.land w (Bits.mask idx)) (N.of_nat (idx mod 64)) = false) as H
      by (by rewrite H0, N.bits_0).
    rewrite N.land_spec, mask_testbit, bool_decide_eq_true_2, E in H by done. done.
  - apply negb_false_iff, N.eqb_eq, N.bits_inj_0. intros k.
    rewrite N.land_spec, mask_testbit.
    destruct (decide (k = N.of_nat (idx mod 64))) as [->|Hne]; [by rewrite E|].
    by rewrite bool_decide_eq_false_2, andb_false_r.
Qed.

Lemma contains_testbit idx b :
  Bits.contains idx b =
  match words b !! (idx / 64) with
  | Some w => N.testbit w (N.of_nat (idx mod 64))
  | None => false
  end.
Proof. unfold Bits.contains. destruct (words b !! _); [apply land_mask|done]. Qed.

Lemma same_slot i j : i / 64 = j / 64 -> i mod 64 = j mod 64 -> i = j.
Proof.
  intros H1 H2. rewrite (Nat.div_mod_eq i 64), (Nat.div_mod_eq j 64). congruence.
Qed.

Lemma contains_set i j b :
  Bits.fits i b -> Bits.contains j (Bits.set i b) = bool_decide (i = j) || Bits.contains j b.
Proof.
  intros Hf. rewrite !contains_testbit. unfold Bits.set. cbn [words].
  destruct (decide (i / 64 = j / 64)) as [Hq|Hq].
  - rewrite Hq, list_lookup_alter_eq. unfold Bits.fits in Hf. rewrite Hq in Hf.
    destruct (lookup_lt_is_Some_2 _ _ Hf) as [w Hw]. rewrite Hw. cbn.
    rewrite N.lor_spec, mask_testbit, orb_comm. f_equal.
    apply bool_decide_ext. split; [|by intros ->].
    intros H%Nat2N.inj. symmetry in H. by apply same_slot.
  - rewrite list_lookup_alter_ne by done.
    rewrite bool_decide_eq_false_2; [done|]. by intros ->.
Qed.

Lemma fits_set i j b : Bits.fits i (Bits.set j b) <-> Bits.fits i b.
Proof. unfold Bits.fits, Bits.set. cbn. by rewrite length_alter. Qed.

Lemma contains_new i len : Bits.contains i (Bits.new len) = false.
Proof.
  rewrite contains_testbit. unfold Bits.new. cbn [words].
  destruct (replicate _ _ !! _) eqn:E; [|done].
  apply lookup_replicate in E as [-> _]. apply N.bits_0.
Qed.

Lemma fits_new i len : i < len -> Bits.fits i (Bits.new len).
Proof.
  intros H. unfold Bits.fits, Bits.new, div_ceil. cbn [words]. rewrite length_replicate.
  apply Nat.Div0.div_lt_upper_bound.
  pose proof (Nat.div_mod_eq (len + 64 - 1) 64).
  pose proof (Nat.mod_upper_bound (len + 64 - 1) 64 ltac:(done)). lia.
Qed.

Lemma all_set_from i len n k b :
  (forall j, j < len -> Bits.fits j b) -> n + k <= len ->
  Bits.contains i (foldl (fun b idx => Bits.set idx b) b (seq n k)) =
  bool_decide (n <= i < n + k) || Bits.contains i b.
Proof.
  revert n b. induction k as [|k IH]; intros n b Hf Hle; cbn [seq foldl].
  - by rewrite bool_decide_eq_false_2 by lia.
  - rewrite IH; [|intros; apply fits_set; auto|lia].
    rewrite contains_set by (apply Hf; lia). rewrite orb_assoc. f_equal.
    repeat case_bool_decide; try done; lia.
Qed.

Lemma contains_all_set i len : Bits.contains i (Bits.all_set len) = bool_decide (i < len).
Proof.
  unfold Bits.all_set. rewrite (all_set_from _ len) by (auto using fits_new; lia).
  rewrite contains_new, orb_false_r. apply bool_decide_ext. lia.
Qed.

Lemma contains_union_words i xs ys :
  length ys <= length xs ->
  Bits.contains i (mkBits (Bits.union_words xs ys)) =
  Bits.contains i (mkBits xs) || Bits.contains i (mkBits ys).
Proof.
  rewrite !contains_testbit. cbn [words]. generalize (i / 64) as q.
  revert ys. induction xs as [|x xs IH]; intros [|y ys] q Hl; cbn in *; try lia.
  - done.
  - by rewrite orb_false_r.
  - destruct q as [|q]; cbn; [apply N.lor_spec|]. apply IH. lia.
Qed.

Lemma contains_union i a b :
  length (words b) <= length (words a) ->
  Bits.contains i (Bits.union_from a b) = Bits.contains i a || Bits.contains i b.
Proof. intros H. destruct a, b. by apply contains_union_words. Qed.

Lemma length_set i b : length (words (Bits.set i b)) = length (words b).
Proof. apply length_alter. Qed.
End BitsFacts.

(** ** Lemmas: building the index *)

Module RuleIndexFacts.
Import BitsFacts.

(** The invariant of one dimension after the rules in [seen]: every bitset has
    the width of [rc] rules, a bucket holds the rules that list its literal,
    and [any] the rules without a key. *)
Record dim_inv (rc : nat) (seen : list (option (list string))) (st : gmap string Bits * Bits) :
    Prop := {
  di_any_len : length (words st.2) = div_ceil rc 64;
  di_any i : Bits.contains i st.2 = bool_decide (seen !! i = Some None);
  di_len lit b : st.1 !! lit = Some b -> length (words b) = div_ceil rc 64;
  di_bucket lit i :
    Bits.contains i (default (Bits.new rc) (st.1 !! lit)) = true <->
    exists literals, seen !! i = Some (Some literals) /\ lit ∈ literals;
}.

Lemma fits_len rc i b : length (words b) = div_ceil rc 64 -> i < rc -> Bits.fits i b.
Proof.
  intros Hb Hi. pose proof (fits_new i rc Hi) as Hf.
  unfold Bits.fits in *. rewrite Hb. unfold Bits.new in Hf. cbn in Hf.
  by rewrite length_replicate in Hf.
Qed.

Lemma add_literals rc n literals (m : gmap string Bits) :
  n < rc ->
  (forall lit b, m !! lit = Some b -> length (words b) = div_ceil rc 64) ->
  let m' := foldl (fun m lit => <[lit := Bits.set n (default (Bits.new rc) (m !! lit))]> m)
              m literals in
  (forall lit b, m' !! lit = Some b -> length (words b) = div_ceil rc 64) /\
  (forall lit i, Bits.contains i (default (Bits.new rc) (m' !! lit)) =
     bool_decide (i = n /\ lit ∈ literals) || Bits.contains i (default (Bits.new rc) (m !! lit))).
Proof.
  intros Hn. revert m. induction literals as [|l literals IH]; intros m Hlen; cbn.
  - split; [done|]. intros lit i. rewrite bool_decide_eq_false_2; [done|].
    intros [_ H]. by apply not_elem_of_nil in H.
  - set (b0 := default (Bits.new rc) (m !! l)).
    assert (length (words b0) = div_ceil rc 64) as Hb0.
    { subst b0. destruct (m !! l) eqn:E; cbn; [by eapply Hlen|]. by rewrite length_replicate. }
    destruct (IH (<[l := Bits.set n b0]> m)) as [IH1 IH2].
    { intros lit b. rewrite lookup_insert. case_decide; [|apply Hlen].
      intros; simplify_eq. by rewrite length_set. }
    split; [done|]. intros lit i. rewrite IH2, lookup_insert.
    destruct (decide (l = lit)) as [->|Hne]; cbn.
    + rewrite contains_set by (by eapply fits_len). fold b0. rewrite orb_assoc. f_equal.
      rewrite <-bool_decide_or. apply bool_decide_ext. set_solver.
    + f_equal. apply bool_decide_ext. set_solver.
Qed.

Lemma lookup_snoc {A} (l : list A) x i y :
  (l ++ [x]) !! i = Some y <-> l !! i = Some y \/ i = length l /\ x = y.
Proof.
  rewrite lookup_app_Some. split; intros [H|H]; auto.
  - destruct H as [Hle H]. apply list_lookup_singleton_Some in H as [? ->]. right. split; [lia|done].
  - destruct H as [-> ->]. right. split; [done|]. by rewrite Nat.sub_diag.
Qed.

Lemma add_dimension_inv rc seen k st :
  length seen < rc -> dim_inv rc seen st ->
  dim_inv rc (seen ++ [k]) (RuleIndex.add_dimension rc (length seen) k st).
Proof.
  intros Hn [Hal Ha Hl Hb]. destruct k as [literals|]; unfold RuleIndex.add_dimension.
  - destruct (add_literals rc (length seen) literals st.1 Hn Hl) as [H1 H2].
    constructor; cbn; [done| |done|].
    + intros i. rewrite Ha. apply bool_decide_ext. rewrite lookup_snoc. naive_solver.
    + intros lit i. rewrite H2, orb_true_iff, Hb, bool_decide_eq_true. split.
      * intros [[-> H]|(ls & H & ?)]; [exists literals|exists ls]; rewrite lookup_snoc; auto.
      * intros (ls & H%lookup_snoc & ?). destruct H as [?|[-> [= ->]]]; eauto.
  - constructor; cbn [fst snd]; [by rewrite length_set| |done|].
    + intros i. rewrite contains_set by (by eapply fits_len). rewrite Ha, <-bool_decide_or.
      apply bool_decide_ext. rewrite lookup_snoc. naive_solver.
    + intros lit i. rewrite Hb. split; intros (ls & H & ?); exists ls.
      * rewrite lookup_snoc. auto.
      * apply lookup_snoc in H as [?|[_ ?]]; [auto|done].
Qed.

Lemma dim_inv_nil rc : dim_inv rc [] (∅, Bits.new rc).
Proof.
  constructor; cbn.
  - by rewrite length_replicate.
  - intros i. rewrite contains_new. by rewrite bool_decide_eq_false_2.
  - by intros lit b; rewrite lookup_empty.
  - intros lit i. rewrite lookup_empty. cbn. rewrite contains_new.
    split; [done|]. by intros (? & ? & ?).
Qed.

Definition unconstrained (k : RuleKeys) : bool :=
  match event_source k, event_name k with None, None => true | _, _ => false end.

(** The unconstrained rules among [keys], in ascending order. *)
Definition always_of (keys : list RuleKeys) : list nat :=
  filter (fun i => from_option unconstrained false (keys !! i) = true) (seq 0 (length keys)).

(** The invariant of the whole first pass. *)
Record pass_inv (rc : nat) (seen : list RuleKeys) (st : RuleIndex.pass) : Prop := {
  pi_source : dim_inv rc (map event_source seen) (RuleIndex.p_source st);
  pi_name : dim_inv rc (map event_name seen) (RuleIndex.p_name st);
  pi_always : RuleIndex.p_always st = always_of seen;
}.

Lemma filter_ext_seq (P Q : nat -> Prop) `{forall i, Decision (P i)} `{forall i, Decision (Q i)} n :
  (forall i, i < n -> P i <-> Q i) -> filter P (seq 0 n) = filter Q (seq 0 n).
Proof.
  intros HPQ. induction n as [|n IH]; [done|].
  rewrite seq_S, !filter_app, IH by auto. f_equal. rewrite !filter_cons.
  pose proof (HPQ n ltac:(lia)). cbn [Nat.add]. repeat case_decide; tauto.
Qed.

Lemma always_of_snoc keys k :
  always_of (keys ++ [k]) =
  if unconstrained k then always_of keys ++ [length keys] else always_of keys.
Proof.
  unfold always_of. rewrite length_app. cbn [length]. rewrite Nat.add_1_r, seq_S, filter_app.
  cbn [Nat.add]. rewrite filter_cons, filter_nil, list_lookup_middle by done. cbn [from_option].
  rewrite (filter_ext_seq _ (fun i => from_option unconstrained false (keys !! i) = true)).
  2:{ intros i Hi. by rewrite lookup_app_l. }
  destruct (unconstrained k); [by rewrite decide_True|].
  rewrite decide_False by done. by rewrite app_nil_r.
Qed.

Lemma add_rule_inv rc seen k st :
  length seen < rc -> pass_inv rc seen st ->
  pass_inv rc (seen ++ [k]) (RuleIndex.add_rule rc st (length seen) k).
Proof.
  intros Hn [Hs Hm Ha]. constructor; cbn; rewrite ?map_app; cbn.
  - rewrite <-(length_map event_source seen) in *. by apply add_dimension_inv.
  - rewrite <-(length_map event_name seen) in *. by apply add_dimension_inv.
  - rewrite always_of_snoc, Ha. unfold unconstrained. by destruct (event_source k), (event_name k).
Qed.

Lemma add_rules_inv rc seen keys st :
  length seen + length keys <= rc -> pass_inv rc seen st ->
  pass_inv rc (seen ++ keys) (RuleIndex.add_rules rc st (length seen) keys).
Proof.
  revert seen st. induction keys as [|k keys IH]; intros seen st Hle H; cbn in *.
  - by rewrite app_nil_r.
  - rewrite cons_middle, app_assoc.
    specialize (IH (seen ++ [k]) (RuleIndex.add_rule rc st (length seen) k)).
    rewrite length_app in IH. cbn in IH. rewrite Nat.add_1_r in IH.
    apply IH; [lia|]. apply add_rule_inv; [lia|done].
Qed.

(** The first pass over all rules. *)
Lemma build_pass_inv keys :
  pass_inv (length keys) keys
    (RuleIndex.add_rules (length keys)
       (RuleIndex.mkPass (∅, Bits.new (length keys)) (∅, Bits.new (length keys)) []) 0 keys).
Proof. apply (add_rules_inv _ [] keys); [done|]. constructor; [apply dim_inv_nil..|done]. Qed.

(** What one dimension answers after the second pass. *)
Lemma dimension_spec rc seen st v i k :
  dim_inv rc seen st -> i < rc -> seen !! i = Some k ->
  Bits.contains i
    (match v with
     | None => Bits.all_set rc
     | Some x => default st.2 (((fun bits => Bits.union_from bits st.2) <$> st.1) !! x)
     end) = key_admits k v.
Proof.
  intros [Hal Ha Hl Hb] Hi Hk. destruct v as [x|].
  2:{ rewrite contains_all_set, bool_decide_eq_true_2 by done. by destruct k. }
  rewrite lookup_fmap. specialize (Hb x i).
  assert (Bits.contains i (default st.2 ((fun bits => Bits.union_from bits st.2) <$> st.1 !! x)) =
    Bits.contains i (default (Bits.new rc) (st.1 !! x)) || Bits.contains i st.2) as ->.
  { destruct (st.1 !! x) as [b|] eqn:E; cbn; [|by rewrite contains_new].
    rewrite contains_union; [done|]. rewrite Hal. by erewrite Hl. }
  rewrite Ha. destruct k as [literals|]; cbn.
  - rewrite (bool_decide_eq_false_2 (seen !! i = Some None)) by congruence.
    rewrite orb_false_r. apply eq_bool_prop_intro. rewrite !Is_true_true, bool_decide_eq_true, Hb.
    split; [|by eauto]. intros (ls & ? & ?). by simplify_eq.
  - by rewrite (bool_decide_eq_true_2 (seen !! i = Some None)), orb_true_r.
Qed.

Lemma permits_spec keys es en i k :
  keys !! i = Some k ->
  candidates_permits (RuleIndex.candidates_for (RuleIndex.build keys) es en) i =
  key_admits (event_source k) es && key_admits (event_name k) en.
Proof.
  intros Hk. destruct (build_pass_inv keys) as [Hs Hm _].
  pose proof (lookup_lt_Some _ _ _ Hk) as Hi.
  unfold candidates_permits. f_equal.
  - rewrite <-(dimension_spec _ _ _ es i (event_source k) Hs Hi);
      [by destruct es|]. by rewrite list_lookup_fmap, Hk.
  - rewrite <-(dimension_spec _ _ _ en i (event_name k) Hm Hi);
      [by destruct en|]. by rewrite list_lookup_fmap, Hk.
Qed.

Lemma always_spec keys : always (RuleIndex.build keys) = always_of keys.
Proof. apply build_pass_inv. Qed.
End RuleIndexFacts.

(** ** Lemmas: literal extraction *)

Module LiteralFacts.
(** The three scanners on a character that is not a backslash. *)
Lemma literal_of_char c p :
  c <> "\"%char -> literal_of (String c p) = if is_meta c then None else String c <$> literal_of p.
Proof. intros H. cbn. by rewrite decide_False. Qed.

Lemma unescape_literal_char c p :
  c <> "\"%char ->
  unescape_literal (String c p) = if is_meta c then None else String c <$> unescape_literal p.
Proof.
  intros H. cbn. rewrite decide_False by done. unfold is_meta.
  case_decide; [by rewrite bool_decide_eq_true_2|by rewrite bool_decide_eq_false_2].
Qed.

Lemma escapes_documented_char c p :
  c <> "\"%char -> escapes_documented (String c p) = escapes_documented p.
Proof. intros H. cbn. by rewrite decide_False. Qed.

(** What [unescape_literal] accepts is a documented literal with the same text. *)
Lemma unescape_literal_of s t :
  unescape_literal s = Some t -> escapes_documented s = true -> literal_of s = Some t.
Proof.
  revert t. induction s as [|c|c d s IH1 IH2] using str_ind2; intros t; [done|..];
    destruct (decide (c = "\"%char)) as [->|Hc].
  - done.
  - rewrite unescape_literal_char, literal_of_char by done. by destruct (is_meta c).
  - cbn. destruct (is_ascii_alphanumeric d); [done|]. rewrite orb_false_r. intros H Hd. bools.
    destruct (is_escapable d); [|done]. apply fmap_Some in H as (t' & Ht & ->).
    by rewrite (IH1 _ Ht).
  - rewrite unescape_literal_char, literal_of_char, escapes_documented_char by done.
    destruct (is_meta c); [done|]. intros (t' & Ht & ->)%fmap_Some Hd. by rewrite (IH2 _ Ht Hd).
Qed.

(** A fragment that unescapes does not end inside an escape. *)
Lemma escapes_documented_app u v t :
  unescape_literal u = Some t ->
  escapes_documented (u +:+ v) = escapes_documented u && escapes_documented v.
Proof.
  revert t. induction u as [|c|c d u IH1 IH2] using str_ind2; intros t; [done|..];
    destruct (decide (c = "\"%char)) as [->|Hc].
  - done.
  - intros _. cbn [String.append]. by rewrite !escapes_documented_char.
  - cbn. destruct (is_ascii_alphanumeric d); [done|]. intros (t' & Ht & ->)%fmap_Some.
    by rewrite (IH1 _ Ht), andb_assoc.
  - rewrite unescape_literal_char by done. destruct (is_meta c); [done|].
    intros (t' & Ht & ->)%fmap_Some. change (String c (String d u) +:+ v) with (String c (String d u +:+ v)).
    rewrite !escapes_documented_char by done. by eapply IH2.
Qed.

(** The positions found are those of the characters reported, in order. *)
Lemma find_parens_sound i escaped s j c :
  (j, c) ∈ find_unescaped_parens_from i escaped s ->
  exists u v, s = u +:+ String c v /\ j = i + String.length u.
Proof.
  revert i escaped. induction s as [|a s IH]; intros i escaped; cbn.
  { intros H. by apply not_elem_of_nil in H. }
  assert (forall e, (j, c) ∈ find_unescaped_parens_from (S i) e s ->
    exists u v, String a s = u +:+ String c v /\ j = i + String.length u) as Hrec.
  { intros e H. destruct (IH _ _ H) as (u & v & -> & ->). exists (String a u), v.
    split; [done|]. cbn. lia. }
  destruct escaped; [apply Hrec|]. case_decide; [apply Hrec|]. case_decide; [|apply Hrec].
  intros [[= -> ->]|H']%elem_of_cons; [|by eapply Hrec]. exists "", s. split; [done|]. cbn. lia.
Qed.

Lemma find_parens_two i escaped s j c k d :
  find_unescaped_parens_from i escaped s = [(j, c); (k, d)] ->
  exists u m v, s = u +:+ String c (m +:+ String d v) /\
    j = i + String.length u /\ k = S j + String.length m.
Proof.
  revert i escaped. induction s as [|a s IH]; intros i escaped; cbn; [done|].
  assert (forall e, find_unescaped_parens_from (S i) e s = [(j, c); (k, d)] ->
    exists u m v, String a s = u +:+ String c (m +:+ String d v) /\
      j = i + String.length u /\ k = S j + String.length m) as Hrec.
  { intros e H. destruct (IH _ _ H) as (u & m & v & -> & -> & ->). exists (String a u), m, v.
    split; [done|]. cbn. lia. }
  destruct escaped; [apply Hrec|]. case_decide; [apply Hrec|]. case_decide; [|apply Hrec].
  intros [= -> -> H'].
  destruct (find_parens_sound (S j) false s k d) as (m & v & -> & ->).
  { rewrite H'. left. }
  exists "", m, v. split; [done|]. cbn. lia.
Qed.

Lemma mapM_alternatives (pre suf : string) alts lits :
  mapM (fun alt => alt ← unescape_literal alt; Some (pre +:+ alt +:+ suf)) alts = Some lits ->
  exists ss, mapM unescape_literal alts = Some ss /\ lits = map (fun a => pre +:+ a +:+ suf) ss.
Proof.
  rewrite mapM_Some. induction 1 as [|alt lit alts lits H _ IH]; [by exists []|].
  destruct IH as (ss & Hss & ->). apply bind_Some in H as (a & Ha & [= <-]).
  exists (a :: ss). split; [|done]. cbn. by rewrite Ha, Hss.
Qed.

Lemma mapM_literal_of alts ss :
  mapM unescape_literal alts = Some ss -> escapes_documented (str_join "|" alts) = true ->
  mapM literal_of alts = Some ss.
Proof.
  rewrite !mapM_Some. induction 1 as [|alt s alts ss Ha Hr IH]; intros Hd; [constructor|].
  destruct alts as [|alt' alts].
  - constructor; [by apply unescape_literal_of|]. by apply IH.
  - cbn [str_join] in Hd. rewrite (escapes_documented_app _ _ s) in Hd by done.
    apply andb_true_iff in Hd as [Hd1 Hd2].
    constructor; [by apply unescape_literal_of|]. apply IH. by destruct alts.
Qed.

(** The three slices around the parentheses. *)
Lemma group_slices u m v (inner := u +:+ String "(" (m +:+ String ")" v)) :
  str_take (String.length u) inner = u /\
  str_slice (String.length u + 1) (S (String.length u) + String.length m) inner = m /\
  str_drop (S (String.length u) + String.length m + 1) inner = v.
Proof.
  subst inner. split_and!; [apply str_take_app| |].
  - unfold str_slice. rewrite Nat.add_1_r, str_drop_app_cons.
    replace (S (String.length u) + String.length m - S (String.length u)) with (String.length m) by lia.
    apply str_take_app.
  - change (String "(" (m +:+ String ")" v)) with (String "(" m +:+ String ")" v).
    rewrite <-str_app_assoc.
    replace (S (String.length u) + String.length m + 1) with (S (String.length (u +:+ String "(" m)))
      by (rewrite str_length_app; cbn; lia).
    apply str_drop_app_cons.
Qed.

Lemma extract_literals_shape pattern lits :
  extract_literals pattern = Some lits ->
  (exists p s, pattern = "^" +:+ p +:+ "$" /\ unescape_literal p = Some s /\ lits = [s]) \/
  (exists pre alts suf s ss t,
     pattern = "^" +:+ pre +:+ "(" +:+ str_join "|" alts +:+ ")" +:+ suf +:+ "$" /\ alts <> [] /\
     unescape_literal pre = Some s /\ mapM unescape_literal alts = Some ss /\
     unescape_literal suf = Some t /\ lits = map (fun a => s +:+ a +:+ t) ss).
Proof.
  unfold extract_literals. destruct (str_contains "(?" pattern); [done|].
  intros (p1 & Hp1%strip_prefix_Some & H)%bind_Some.
  apply bind_Some in H as (inner & Hi%strip_suffix_char_Some & H). subst p1.
  destruct (find_unescaped_parens inner) as [|[o c] [|[cl d] [|]]] eqn:E.
  - apply bind_Some in H as (s & Hs & [= <-]). left. by exists inner, s.
  - by repeat case_match.
  - destruct (decide (c = "("%char)) as [->|]; [|by repeat case_match].
    destruct (decide (d = ")"%char)) as [->|]; [|by repeat case_match].
    apply find_parens_two in E as (u & m & v & -> & -> & ->). rewrite Nat.add_0_l in H.
    destruct (group_slices u m v) as (E1 & E2 & E3). rewrite E1, E2, E3 in H.
    apply bind_Some in H as (s & Hs & H). apply bind_Some in H as (t & Ht & H).
    destruct (str_contains "\|" m); [done|].
    apply mapM_alternatives in H as (ss & Hss & ->). right.
    exists u, (split_char "|" m), v, s, ss, t.
    split_and!; [|apply split_char_ne|done..].
    rewrite str_join_split, Hp1. cbn. by rewrite !str_app_assoc; cbn; rewrite str_app_assoc.
  - by repeat case_match.
Qed.

(** The extracted literals are the language of the pattern. *)
Lemma extract_literals_correct {R : RegexCrate} {RL : RegexLaws R} r lits h :
  extract_literals (regex_as_str r) = Some lits -> escapes_documented (regex_as_str r) = true ->
  regex_is_match r h = bool_decide (h ∈ lits).
Proof.
  intros H Hd. apply extract_literals_shape in H as
    [(p & s & Hp & Hs & ->)|(pre & alts & suf & s & ss & t & Hp & Hne & Hs & Hss & Ht & ->)].
  - rewrite Hp in Hd. change (escapes_documented (p +:+ "$") = true) in Hd.
    rewrite (escapes_documented_app _ _ s), andb_true_r in Hd by done.
    rewrite (regex_anchored_literal r p s) by auto using unescape_literal_of.
    apply bool_decide_ext. by rewrite list_elem_of_singleton.
  - rewrite Hp in Hd.
    change (escapes_documented (pre +:+ String "(" (str_join "|" alts +:+ String ")" (suf +:+ "$"))) = true) in Hd.
    rewrite (escapes_documented_app _ _ s) in Hd by done. apply andb_true_iff in Hd as [Hd1 Hd2].
    change (escapes_documented (str_join "|" alts +:+ String ")" (suf +:+ "$")) = true) in Hd2.
    assert (escapes_documented (str_join "|" alts) = true /\ escapes_documented suf = true)
      as [Hd3 Hd4].
    { clear -Hss Hd2 Ht Hne. apply mapM_Some in Hss.
      induction Hss as [|alt a alts ss Ha Hss IH]; [done|]. destruct alts as [|alt' alts].
      - cbn [str_join] in *. rewrite (escapes_documented_app _ _ a) in Hd2 by done.
        apply andb_true_iff in Hd2 as [-> Hd2].
        change (escapes_documented (suf +:+ "$") = true) in Hd2.
        rewrite (escapes_documented_app _ _ t) in Hd2 by done. by bools.
      - change (str_join "|" (alt :: alt' :: alts)) with (alt +:+ String "|" (str_join "|" (alt' :: alts))) in *.
        rewrite str_app_assoc in Hd2. rewrite (escapes_documented_app _ _ a) in Hd2 by done.
        rewrite (escapes_documented_app _ _ a) by done.
        apply andb_true_iff in Hd2 as [-> Hd2].
        change (escapes_documented (str_join "|" (alt' :: alts) +:+ String ")" (suf +:+ "$")) = true) in Hd2.
        apply IH in Hd2; [|done]. exact Hd2. }
    rewrite (regex_anchored_group r pre alts suf s ss t h);
      auto using unescape_literal_of, mapM_literal_of.
Qed.
End LiteralFacts.

(** ** Properties *)

(** The index permits a rule exactly when neither of its keys rules the record out:
    a key excludes only a record that has a value in that dimension which is not among
    the key's literals. *)
Theorem index_permits_spec keys es en i k :
  keys !! i = Some k ->
  candidates_permits (RuleIndex.candidates_for (RuleIndex.build keys) es en) i =
  key_admits (event_source k) es && key_admits (event_name k) en.
Proof. apply RuleIndexFacts.permits_spec. Qed.

(** [always] lists, in ascending order, exactly the rules without a key in either
    dimension. *)
Theorem index_always_spec keys :
  always (RuleIndex.build keys) =
  filter (fun i => keys !! i = Some (mkRuleKeys None None)) (seq 0 (length keys)).
Proof.
  rewrite RuleIndexFacts.always_spec. apply list_filter_iff. intros i.
  destruct (keys !! i) as [[[|] [|]]|]; cbn; naive_solver.
Qed.

(** C33: a pattern whose escapes are documented matches exactly the literals that
    [extract_literals] reads off it. *)
Theorem extract_literals_exact {R : RegexCrate} {RL : RegexLaws R} r lits h :
  extract_literals (regex_as_str r) = Some lits -> escapes_documented (regex_as_str r) = true ->
  regex_is_match r h = bool_decide (h ∈ lits).
Proof. apply LiteralFacts.extract_literals_correct. Qed.

(** ** Witnesses *)

Lemma index_permits_spec_witness :
  let keys := [mkRuleKeys (Some ["kms"; "ec2"]) None; mkRuleKeys None (Some ["Get"])] in
  candidates_permits (RuleIndex.candidates_for (RuleIndex.build keys) (Some "s3") None) 0 = false /\
  candidates_permits (RuleIndex.candidates_for (RuleIndex.build keys) (Some "s3") None) 1 = true.
Proof.
  cbv zeta. split.
  - rewrite (index_permits_spec _ _ _ 0 (mkRuleKeys (Some ["kms"; "ec2"]) None)); reflexivity.
  - rewrite (index_permits_spec _ _ _ 1 (mkRuleKeys None (Some ["Get"]))); reflexivity.
Defined.

Lemma extract_literals_exact_witness :
  @regex_is_match ref_regex "^a\.(b|c)$" "a.c" = true /\
  @regex_is_match ref_regex "^a\.(b|c)$" "a.d" = false.
Proof.
  split.
  - rewrite (extract_literals_exact (R := ref_regex) "^a\.(b|c)$" ["a.b"; "a.c"]); reflexivity.
  - rewrite (extract_literals_exact (R := ref_regex) "^a\.(b|c)$" ["a.b"; "a.c"]); reflexivity.
Defined.
