(* ===== verification/Project.v ===== *)
(** * Projected parsing ([core/src/filter/project.rs])

    The field paths of a ruleset arranged as a trie, and the visitor that walks one
    JSON document against it, filling one slot per path.  [HashMap<String, Node>] is
    an association list: it sits inside the recursive type [Node], and only its
    lookups are observable. *)

From S2P Require Import Prelude Json Path Reference.

(** ** Data *)

#[warnings="-register-all"]
Inductive Node : Type := mkNode {
  n_keys : list (string * Node);
  n_indices : list (N * Node);
  n_wildcard : option Node;
  n_terminals : list nat;
  n_subtree : list nat;
}.

Record Projection := mkProjection {
  pr_root : Node;
  pr_len : nat;
  pr_has_wildcard : bool;
}.

(** [Node::default()]. *)
Definition empty_node : Node := mkNode [] [] None [] [].

(** ** Building the trie *)

(** The descent of [Projection::build] for one path: every node on the way records
    [id] in [subtree_terminals], the last one in [terminals]. *)
Fixpoint insert_path (id : nat) (segs : list Segment) (n : Node) : Node :=
  let subtree := n_subtree n ++ [id] in
  match segs with
  | [] => mkNode (n_keys n) (n_indices n) (n_wildcard n) (n_terminals n ++ [id]) subtree
  | Key k :: segs =>
      mkNode (alist_upsert k empty_node (insert_path id segs) (n_keys n))
        (n_indices n) (n_wildcard n) (n_terminals n) subtree
  | Index i :: segs =>
      mkNode (n_keys n) (alist_upsert i empty_node (insert_path id segs) (n_indices n))
        (n_wildcard n) (n_terminals n) subtree
  | Wildcard :: segs =>
      mkNode (n_keys n) (n_indices n)
        (Some (insert_path id segs (default empty_node (n_wildcard n))))
        (n_terminals n) subtree
  end.

(** [for (id, path) in paths.iter().enumerate()]. *)
Fixpoint insert_paths (id : nat) (paths : list Path) (root : Node) : Node :=
  match paths with
  | [] => root
  | p :: paths => insert_paths (S id) paths (insert_path id (segments p) root)
  end.

Definition build_projection (paths : list Path) : Projection :=
  mkProjection (insert_paths 0 paths empty_node) (length paths)
    (existsb (fun p => existsb is_wildcard (segments p)) paths).

(** ** Walking a document *)

Section project.
Context {J : JsonCrate}.

Abbreviation slots := (list (option string)) (only parsing).

(** [capture_terminals]: the first id is written last. *)
Definition capture_terminals (n : Node) (value : option string) (out : slots) : slots :=
  match n_terminals n with
  | [] => out
  | first :: rest => <[first := value]> (foldl (fun out id => <[id := value]> out) out rest)
  end.

(** [for &id in &child.subtree_terminals { out[id] = None }]. *)
Definition clear_subtree (n : Node) (out : slots) : slots :=
  foldl (fun out id => <[id := None]> out) out (n_subtree n).

(** [out[id].is_none()]; [id] is in range. *)
Definition slot_is_none (out : slots) (id : nat) : bool :=
  match out !! id with Some (Some _) => false | _ => true end.

(** The loops of [visit_map] and [visit_seq]; [lev] is [LevelSeed::deserialize]
    on a child, and [Skip] consumes a value without effect on the slots. *)
Section visitors.
Context (lev : Doc F64 -> Node -> slots -> slots).

Fixpoint visit_map (n : Node) (fields : list (string * Doc F64)) (out : slots) : slots :=
  match fields with
  | [] => out
  | (k, v) :: fields =>
      match alist_get k (n_keys n) with
      | None => visit_map n fields out
      | Some child => visit_map n fields (lev v child (clear_subtree child out))
      end
  end.

(** One round of the loop of [visit_seq], on an array that has an element left. *)
Definition visit_element (n : Node) (v : Doc F64) (position : N) (out : slots) : slots :=
  match alist_get position (n_indices n), n_wildcard n with
  | Some child, _ => lev v child out
  | None, Some child =>
      if existsb (slot_is_none out) (n_subtree child) then lev v child out else out
  | None, None => out
  end.

Fixpoint visit_elements (n : Node) (items : list (Doc F64)) (position : N) (out : slots) : slots :=
  match items with
  | [] => out
  | v :: items => visit_elements n items (position + 1)%N (visit_element n v position out)
  end.

Definition visit_seq (n : Node) (items : list (Doc F64)) (out : slots) : slots :=
  match n_indices n, n_wildcard n with
  | [], None => out
  | _, _ => visit_elements n items 0 out
  end.
End visitors.

(** [LevelSeed::deserialize]: the visitor methods, by the event they receive. *)
Fixpoint level (d : Doc F64) (n : Node) (out : slots) : slots :=
  match d with
  | DNull => out
  | DBool b => capture_terminals n (Some (bool_to_string b)) out
  | DU64 v => capture_terminals n (Some (pretty v)) out
  | DI64 v => capture_terminals n (Some (pretty v)) out
  | DF64 v => capture_terminals n (number_to_string <$> number_from_f64 v) out
  | DStr s => capture_terminals n (Some s) out
  | DObj fields => visit_map level n fields out
  | DArr items => visit_seq level n items out
  end.

(** [project] on a document the deserializer accepted. *)
Definition project_doc (d : Doc F64) (p : Projection) : slots :=
  level d (pr_root p) (replicate (pr_len p) None).

Definition project (json : string) (p : Projection) : result string slots :=
  d ← json_from_str json; Ok (project_doc d p).
End project.

(** ** Specification *)

(** The path [segs] with number [id] is stored below a node. *)
Inductive in_trie : Node -> nat -> list Segment -> Prop :=
  | it_here n id : id ∈ n_terminals n -> in_trie n id []
  | it_key n id k child segs :
      alist_get k (n_keys n) = Some child -> in_trie child id segs -> in_trie n id (Key k :: segs)
  | it_index n id i child segs :
      alist_get i (n_indices n) = Some child -> in_trie child id segs ->
      in_trie n id (Index i :: segs)
  | it_wildcard n id child segs :
      n_wildcard n = Some child -> in_trie child id segs -> in_trie n id (Wildcard :: segs).

(** [subtree_terminals] lists the paths below the node, at every node, and a wildcard
    child has a path below it. *)
Inductive node_wf : Node -> Prop :=
  | nw n :
      (forall id, id ∈ n_subtree n <-> exists segs, in_trie n id segs) ->
      (forall k child, alist_get k (n_keys n) = Some child -> node_wf child) ->
      (forall i child, alist_get i (n_indices n) = Some child -> node_wf child) ->
      (forall child, n_wildcard n = Some child -> node_wf child /\ exists id segs, in_trie child id segs) ->
      node_wf n.

(** Every path number is below the node at most once. *)
Definition trie_functional (n : Node) : Prop :=
  forall id s1 s2, in_trie n id s1 -> in_trie n id s2 -> s1 = s2.

(** No path below the node has a wildcard. *)
Definition trie_plain (n : Node) : Prop :=
  forall id segs, in_trie n id segs -> forallb (fun s => negb (is_wildcard s)) segs = true.

(** ** Lemmas: building the trie *)

Lemma in_trie_empty id segs : ~ in_trie empty_node id segs.
Proof. inversion 1 as [? ? H'| | |]; cbn in *; try done. by apply not_elem_of_nil in H'. Qed.

Lemma in_trie_nil n id : in_trie n id [] <-> id ∈ n_terminals n.
Proof. split; [by inversion 1|apply it_here]. Qed.

Lemma in_trie_key n id k segs :
  in_trie n id (Key k :: segs) <-> exists child, alist_get k (n_keys n) = Some child /\ in_trie child id segs.
Proof. split; [inversion 1; eauto|intros (? & ? & ?); by eapply it_key]. Qed.

Lemma in_trie_index n id i segs :
  in_trie n id (Index i :: segs) <->
  exists child, alist_get i (n_indices n) = Some child /\ in_trie child id segs.
Proof. split; [inversion 1; eauto|intros (? & ? & ?); by eapply it_index]. Qed.

Lemma in_trie_wildcard n id segs :
  in_trie n id (Wildcard :: segs) <-> exists child, n_wildcard n = Some child /\ in_trie child id segs.
Proof. split; [inversion 1; eauto|intros (? & ? & ?); by eapply it_wildcard]. Qed.

Create Rewrite HintDb trie.
#[export] Hint Rewrite in_trie_nil in_trie_key in_trie_index in_trie_wildcard : trie.

(** Upserting one child: what is below the children under [k']. *)
Lemma upsert_child {K} `{EqDecision K} (k k' : K) (f : Node -> Node) l (P : Node -> Prop) :
  (exists child, alist_get k' (alist_upsert k empty_node f l) = Some child /\ P child) <->
  (k' = k /\ P (f (default empty_node (alist_get k l)))) \/
  (k' <> k /\ exists child, alist_get k' l = Some child /\ P child).
Proof. rewrite alist_get_upsert. case_decide; naive_solver. Qed.

Lemma default_child (o : option Node) id segs :
  in_trie (default empty_node o) id segs <-> exists child, o = Some child /\ in_trie child id segs.
Proof.
  destruct o; cbn; [naive_solver|]. split; [by intros ?%in_trie_empty|by intros (? & ? & _)].
Qed.

Lemma in_trie_insert id segs n id' segs' :
  in_trie (insert_path id segs n) id' segs' <-> in_trie n id' segs' \/ (id' = id /\ segs' = segs).
Proof.
  revert n segs'. induction segs as [|seg segs IH]; intros n segs'.
  - destruct segs' as [|[k|i|] segs']; autorewrite with trie; cbn.
    all: try (split; [auto|intros [?|[? ?]]; done]). set_solver.
  - destruct seg as [k|i|], segs' as [|[k'|i'|] segs']; autorewrite with trie; cbn [insert_path n_keys n_indices n_wildcard n_terminals].
    all: try (split; [auto|intros [?|[? ?]]; done]).
    + rewrite (upsert_child k k' _ _ (fun c => in_trie c id' segs')), IH, default_child.
      destruct (decide (k' = k)) as [->|]; naive_solver.
    + rewrite (upsert_child i i' _ _ (fun c => in_trie c id' segs')), IH, default_child.
      destruct (decide (i' = i)) as [->|]; naive_solver.
    + pose proof (default_child (n_wildcard n) id' segs') as Hd. split.
      * intros (c & [= <-] & H). apply IH in H. naive_solver.
      * intros H. eexists; split; [done|]. apply IH. naive_solver.
Qed.

Lemma node_wf_empty : node_wf empty_node.
Proof.
  constructor; cbn; try done. intros id. split; [by intros ?%not_elem_of_nil|].
  by intros (? & ?%in_trie_empty).
Qed.

Lemma insert_path_subtree id segs n : n_subtree (insert_path id segs n) = n_subtree n ++ [id].
Proof. by destruct segs as [|[| |] segs]. Qed.

(** The root part of [node_wf] after an insertion. *)
Lemma insert_path_subtree_spec id segs n :
  node_wf n ->
  forall id', id' ∈ n_subtree (insert_path id segs n) <-> exists segs', in_trie (insert_path id segs n) id' segs'.
Proof.
  destruct 1 as [n Hs _ _ _]. intros id'. rewrite insert_path_subtree, elem_of_app, list_elem_of_singleton, Hs.
  setoid_rewrite in_trie_insert. split.
  - intros [[s ?]|?]; [exists s; by left|exists segs; by right].
  - intros (s & [?|[? _]]); [left; by exists s|by right].
Qed.

Lemma insert_path_wf id segs n : node_wf n -> node_wf (insert_path id segs n).
Proof.
  revert n. induction segs as [|seg segs IH]; intros n Hn;
    pose proof (insert_path_subtree_spec id) as Hsub.
  { pose proof (Hsub [] n Hn) as H. destruct Hn as [n Hs Hk Hi Hw]. by constructor. }
  pose proof (Hsub (seg :: segs) n Hn) as H. clear Hsub. destruct Hn as [n _ Hk Hi Hw].
  constructor; [exact H|clear H..]; destruct seg as [k|i|];
    cbn [insert_path n_keys n_indices n_wildcard]; try assumption.
  - intros k' child. rewrite alist_get_upsert. case_decide; [|apply Hk]. intros; simplify_eq.
    apply IH. destruct (alist_get k _) eqn:E; [by eapply Hk|apply node_wf_empty].
  - intros i' child. rewrite alist_get_upsert. case_decide; [|apply Hi]. intros; simplify_eq.
    apply IH. destruct (alist_get i _) eqn:E; [by eapply Hi|apply node_wf_empty].
  - intros child [= <-]. split.
    + apply IH. destruct (n_wildcard _) eqn:E; [by eapply Hw|apply node_wf_empty].
    + exists id, segs. apply in_trie_insert. auto.
Qed.

Lemma insert_paths_spec id paths n :
  node_wf n ->
  node_wf (insert_paths id paths n) /\
  forall id' segs, in_trie (insert_paths id paths n) id' segs <->
    in_trie n id' segs \/ exists i p, paths !! i = Some p /\ id' = id + i /\ segs = segments p.
Proof.
  revert id n. induction paths as [|p paths IH]; intros id n Hn; cbn.
  - split; [done|]. intros. split; [auto|]. intros [?|(i & p & Hp & _)]; [done|by rewrite lookup_nil in Hp].
  - destruct (IH (S id) (insert_path id (segments p) n)) as [Hwf H]; [by apply insert_path_wf|].
    split; [done|]. intros id' segs. rewrite H, in_trie_insert. split.
    + intros [[?|[-> ->]]|(i & q & Hq & -> & ->)]; [auto| |].
      * right. exists 0, p. split; [done|]. by rewrite Nat.add_0_r.
      * right. exists (S i), q. split; [done|]. split; [lia|done].
    + intros [?|([|i] & q & Hq & -> & ->)]; [auto| |].
      * cbn in Hq. simplify_eq. left; right. by rewrite Nat.add_0_r.
      * right. exists i, q. split; [done|]. split; [lia|done].
Qed.

(** Path [i] of the list is the path number [i] of the projection, and nothing else
    is in it. *)
Lemma in_build paths id segs :
  in_trie (pr_root (build_projection paths)) id segs <->
  exists p, paths !! id = Some p /\ segs = segments p.
Proof.
  unfold build_projection. cbn [pr_root].
  destruct (insert_paths_spec 0 paths empty_node node_wf_empty) as [_ H]. rewrite H. split.
  - intros [?%in_trie_empty|(i & p & ? & -> & ->)]; [done|eauto].
  - intros (p & ? & ->). eauto 10.
Qed.

Lemma build_wf paths : node_wf (pr_root (build_projection paths)).
Proof. apply (insert_paths_spec 0 paths empty_node node_wf_empty). Qed.

Lemma build_functional paths : trie_functional (pr_root (build_projection paths)).
Proof. intros id s1 s2 (p & ? & ->)%in_build (q & ? & ->)%in_build. by simplify_eq. Qed.

Lemma build_plain paths :
  pr_has_wildcard (build_projection paths) = false -> trie_plain (pr_root (build_projection paths)).
Proof.
  cbn. intros H id segs (p & Hp & ->)%in_build. apply forallb_forall. intros s Hs.
  apply negb_true_iff. destruct (is_wildcard s) eqn:E; [|done].
  rewrite <-H. symmetry. apply existsb_exists. exists p. split.
  - apply list_elem_of_In. by eapply list_elem_of_lookup_2.
  - apply existsb_exists. eauto.
Qed.

(** ** Lemmas: walking a document *)

Section walk_facts.
Context {J : JsonCrate} {L : JsonLaws J}.

Lemma assign_lookup (ids : list nat) (v : option string) (out : list (option string)) (id : nat) :
  foldl (fun out id => <[id := v]> out) out ids !! id =
  if decide (id ∈ ids) then (fun _ => v) <$> out !! id else out !! id.
Proof.
  revert out. induction ids as [|i ids IH]; intros out; cbn [foldl].
  { rewrite decide_False; [done|]. apply not_elem_of_nil. }
  rewrite IH. destruct (decide (i = id)) as [->|Hne].
  - rewrite (decide_True (P := id ∈ id :: ids)) by set_solver.
    destruct (out !! id) eqn:E; cbn.
    + apply lookup_lt_Some in E. rewrite list_lookup_insert_eq by done. by case_decide.
    + rewrite list_insert_ge by (by apply lookup_ge_None). rewrite E. by case_decide.
  - rewrite list_lookup_insert_ne by done.
    rewrite (decide_ext (id ∈ i :: ids) (id ∈ ids)) by set_solver. done.
Qed.

Lemma capture_lookup n v (out : list (option string)) (id : nat) :
  capture_terminals n v out !! id =
  if decide (id ∈ n_terminals n) then (fun _ => v) <$> out !! id else out !! id.
Proof.
  unfold capture_terminals. destruct (n_terminals n) as [|first rest].
  { rewrite decide_False; [done|]. apply not_elem_of_nil. }
  pose proof (assign_lookup (rest ++ [first]) v out id) as H.
  rewrite foldl_app in H. cbn [foldl] in H. rewrite H. apply decide_ext. set_solver.
Qed.

(** What [level] promises on a node whose slots are all cleared: it fills the slot
    of every path below the node with the scalar the path denotes, and touches no
    other slot. *)
Definition level_ok (d : Doc F64) : Prop :=
  forall n (out : list (option string)), node_wf n -> trie_functional n -> trie_plain n ->
    (forall (id : nat) s, in_trie n id s -> out !! id = Some None) ->
    (forall id s, in_trie n id s -> level d n out !! id = Some (head (path_values s (value_of d)))) /\
    (forall id : nat, id ∉ n_subtree n -> level d n out !! id = out !! id).

Lemma in_subtree n id : node_wf n -> id ∈ n_subtree n <-> exists s, in_trie n id s.
Proof. by destruct 1. Qed.

Lemma level_ok_scalar d o :
  (forall n out, level d n out = capture_terminals n o out) ->
  (forall s, path_values s (value_of d) = match s with [] => option_list o | _ => [] end) ->
  level_ok d.
Proof.
  intros Hl Hp n out Hwf Hf _ Hout. setoid_rewrite Hl. setoid_rewrite capture_lookup. split.
  - intros id s Hs. rewrite (Hout id s Hs), Hp. case_decide as Hid.
    + apply in_trie_nil in Hid. rewrite (Hf id s [] Hs Hid). by destruct o.
    + destruct s; [by apply in_trie_nil in Hs|done].
  - intros id Hid. rewrite decide_False; [done|]. intros Ht. apply Hid, in_subtree; [done|].
    exists []. by apply in_trie_nil.
Qed.

Lemma child_key n k child :
  node_wf n -> trie_functional n -> trie_plain n -> alist_get k (n_keys n) = Some child ->
  node_wf child /\ trie_functional child /\ trie_plain child.
Proof.
  intros Hwf Hf Hp Hc. split_and!.
  - destruct Hwf; eauto.
  - intros id s1 s2 H1 H2. assert (Key k :: s1 = Key k :: s2) by (eapply Hf; by eapply it_key). congruence.
  - intros id s H. assert (in_trie n id (Key k :: s)) as Hk%Hp by (by eapply it_key). done.
Qed.

Lemma child_index n i child :
  node_wf n -> trie_functional n -> trie_plain n -> alist_get i (n_indices n) = Some child ->
  node_wf child /\ trie_functional child /\ trie_plain child.
Proof.
  intros Hwf Hf Hp Hc. split_and!.
  - destruct Hwf; eauto.
  - intros id s1 s2 H1 H2. assert (Index i :: s1 = Index i :: s2) by (eapply Hf; by eapply it_index). congruence.
  - intros id s H. assert (in_trie n id (Index i :: s)) as Hk%Hp by (by eapply it_index). done.
Qed.

Lemma no_wildcard_child n : node_wf n -> trie_plain n -> n_wildcard n = None.
Proof.
  intros Hwf Hp. destruct (n_wildcard n) as [c|] eqn:E; [|done]. destruct Hwf as [n _ _ _ Hw].
  destruct (Hw c E) as (_ & id & s & Hs).
  assert (in_trie n id (Wildcard :: s)) as H%Hp by (by eapply it_wildcard). done.
Qed.

Abbreviation vo := (fun kv : string * Doc F64 => (kv.1, value_of kv.2)) (only parsing).

(** Reading a path through an object that got one more field. *)
Lemma path_values_insert s k v fields :
  path_values s (VObject (alist_insert k v fields)) =
  match s with
  | Key k' :: s' => if decide (k' = k) then path_values s' v else path_values s (VObject fields)
  | _ => []
  end.
Proof.
  destruct s as [|[k'|i|] s']; try done. cbn. rewrite obj_get_insert. by case_decide.
Qed.

Lemma visit_map_ok n fields pre (out : list (option string)) :
  node_wf n -> trie_functional n -> trie_plain n -> Forall (fun kv => level_ok kv.2) fields ->
  (forall id s, in_trie n id s ->
     out !! id = Some (head (path_values s (VObject (obj_of_pairs (map vo pre)))))) ->
  (forall id s, in_trie n id s ->
     visit_map level n fields out !! id =
     Some (head (path_values s (VObject (obj_of_pairs (map vo (pre ++ fields))))))) /\
  (forall id, id ∉ n_subtree n -> visit_map level n fields out !! id = out !! id).
Proof.
  intros Hwf Hf Hp Hall. revert pre out.
  induction Hall as [|[k v] fields Hv Hall IH]; intros pre out Hout; cbn [visit_map].
  { by rewrite app_nil_r. }
  replace (pre ++ (k, v) :: fields) with ((pre ++ [(k, v)]) ++ fields) by (by rewrite <-app_assoc).
  assert (Hsnoc : map vo (pre ++ [(k, v)]) = map vo pre ++ [(k, value_of v)]) by (by rewrite map_app).
  destruct (alist_get k (n_keys n)) as [child|] eqn:Hc.
  - destruct (child_key n k child) as (Hcw & Hcf & Hcp); try done.
    destruct (Hv child (clear_subtree child out)) as [Hin Hout']; try done.
    { intros id s Hs. unfold clear_subtree. rewrite assign_lookup, decide_True.
      - by rewrite (Hout id (Key k :: s)) by (by eapply it_key).
      - apply in_subtree; eauto. }
    assert (Hkeep : forall id, id ∉ n_subtree child ->
              level v child (clear_subtree child out) !! id = out !! id).
    { intros id Hid. rewrite Hout' by done. unfold clear_subtree.
      by rewrite assign_lookup, decide_False. }
    destruct (IH (pre ++ [(k, v)]) (level v child (clear_subtree child out))) as [IH1 IH2].
    { intros id s Hs. rewrite Hsnoc, obj_of_pairs_snoc, path_values_insert.
      destruct (decide (id ∈ n_subtree child)) as [Hid|Hid].
      - apply in_subtree in Hid as [s' Hs']; [|done].
        assert (s = Key k :: s') as -> by (eapply Hf; [done|by eapply it_key]).
        rewrite decide_True by done. by apply Hin.
      - rewrite Hkeep by done. rewrite (Hout id s) by done.
        destruct s as [|[k'|i|] s']; try done. case_decide; [|done]. subst k'.
        exfalso. apply Hid, in_subtree; [done|]. apply in_trie_key in Hs as (? & ? & ?).
        simplify_eq. eauto. }
    split; [exact IH1|]. intros id Hid. rewrite IH2 by done. apply Hkeep.
    intros (s & Hs)%in_subtree; [|done]. apply Hid, in_subtree; [done|].
    exists (Key k :: s). by eapply it_key.
  - apply (IH (pre ++ [(k, v)])). intros id s Hs. rewrite (Hout id s Hs).
    rewrite Hsnoc, obj_of_pairs_snoc, path_values_insert.
    destruct s as [|[k'|i|] s']; try done. case_decide; [|done]. subst k'.
    apply in_trie_key in Hs as (? & ? & ?). congruence.
Qed.

(** Reading a path through an array that got one more element. *)
Lemma path_values_snoc s v items :
  forallb (fun s => negb (is_wildcard s)) s = true ->
  path_values s (VArray (items ++ [v])) =
  match s with
  | Index i :: s' =>
      if decide (i = N.of_nat (length items)) then path_values s' v
      else path_values s (VArray items)
  | _ => []
  end.
Proof.
  destruct s as [|[k'|i|] s']; try done. intros _. cbn. case_decide as Hi.
  - subst i. rewrite Nat2N.id, lookup_app_r by lia. by rewrite Nat.sub_diag.
  - destruct (decide (N.to_nat i < length items)).
    + by rewrite lookup_app_l.
    + rewrite !(proj2 (lookup_ge_None _ _)); [done|lia|]. rewrite length_app. cbn. lia.
Qed.

Lemma visit_elements_ok n items pre (out : list (option string)) :
  node_wf n -> trie_functional n -> trie_plain n -> Forall level_ok items ->
  (forall id s, in_trie n id s -> out !! id = Some (head (path_values s (VArray (map value_of pre))))) ->
  (forall id s, in_trie n id s ->
     visit_elements level n items (N.of_nat (length pre)) out !! id =
     Some (head (path_values s (VArray (map value_of (pre ++ items)))))) /\
  (forall id, id ∉ n_subtree n ->
     visit_elements level n items (N.of_nat (length pre)) out !! id = out !! id).
Proof.
  intros Hwf Hf Hp Hall. revert pre out.
  induction Hall as [|v items Hv Hall IH]; intros pre out Hout; cbn [visit_elements].
  { by rewrite app_nil_r. }
  replace (pre ++ v :: items) with ((pre ++ [v]) ++ items) by (by rewrite <-app_assoc).
  replace (N.of_nat (length pre) + 1)%N with (N.of_nat (length (pre ++ [v])))
    by (rewrite length_app; cbn; lia).
  assert (Hsnoc : map value_of (pre ++ [v]) = map value_of pre ++ [value_of v]) by (by rewrite map_app).
  unfold visit_element. rewrite (no_wildcard_child n) by done.
  destruct (alist_get _ (n_indices n)) as [child|] eqn:Hc.
  - destruct (child_index n (N.of_nat (length pre)) child) as (Hcw & Hcf & Hcp); try done.
    destruct (Hv child out) as [Hin Hkeep]; try done.
    { intros id s Hs. rewrite (Hout id (Index (N.of_nat (length pre)) :: s)) by (by eapply it_index).
      cbn. by rewrite Nat2N.id, (proj2 (lookup_ge_None _ _)) by (by rewrite length_map). }
    destruct (IH (pre ++ [v]) (level v child out)) as [IH1 IH2].
    { intros id s Hs. rewrite Hsnoc, path_values_snoc by (by eapply Hp). rewrite length_map.
      destruct (decide (id ∈ n_subtree child)) as [Hid|Hid].
      - apply in_subtree in Hid as [s' Hs']; [|done].
        assert (s = Index (N.of_nat (length pre)) :: s') as -> by (eapply Hf; [done|by eapply it_index]).
        rewrite decide_True by done. by apply Hin.
      - rewrite Hkeep, (Hout id s) by done.
        destruct s as [|[k'|i|] s']; try done; [|by specialize (Hp _ _ Hs)].
        case_decide; [|done]. subst i.
        exfalso. apply Hid, in_subtree; [done|]. apply in_trie_index in Hs as (? & ? & ?).
        simplify_eq. eauto. }
    split; [exact IH1|]. intros id Hid. rewrite IH2 by done. apply Hkeep.
    intros (s & Hs)%in_subtree; [|done]. apply Hid, in_subtree; [done|].
    exists (Index (N.of_nat (length pre)) :: s). by eapply it_index.
  - apply IH. intros id s Hs. rewrite (Hout id s Hs), Hsnoc, path_values_snoc by (by eapply Hp).
    rewrite length_map. destruct s as [|[k'|i|] s']; try done; [|by specialize (Hp _ _ Hs)].
    case_decide; [|done]. subst i. apply in_trie_index in Hs as (? & ? & ?). congruence.
Qed.

Lemma level_correct d : level_ok d.
Proof.
  induction d as [|b|v|v|v|s|items IH|fields IH] using Doc_ind'.
  - intros n out _ _ _ Hout. split; [|done]. intros id s Hs. cbn. rewrite (Hout id s Hs).
    by destruct s as [|[]].
  - apply (level_ok_scalar _ (Some (bool_to_string b))); [done|]. by intros [|[]].
  - apply (level_ok_scalar _ (Some (pretty v))); [done|].
    intros [|[]]; cbn; [|done..]. by rewrite number_of_u64_to_string.
  - apply (level_ok_scalar _ (Some (pretty v))); [done|].
    intros [|[]]; cbn; [|done..]. by rewrite number_of_i64_to_string.
  - apply (level_ok_scalar _ (number_to_string <$> number_from_f64 v)); [done|].
    intros s. cbn. destruct (number_from_f64 v); by destruct s as [|[]].
  - apply (level_ok_scalar _ (Some s)); [done|]. by intros [|[]].
  - intros n out Hwf Hf Hp Hout. cbn [level value_of]. unfold visit_seq.
    rewrite (no_wildcard_child n) by done.
    destruct (visit_elements_ok n items [] out) as [H1 H2]; try done.
    { intros id s Hs. rewrite (Hout id s Hs). destruct s as [|[|i|] s']; try done.
      all: cbn; by rewrite ?lookup_nil. }
    destruct (n_indices n) as [|p ps] eqn:E; [|by split].
    split; [|done]. intros id s Hs. rewrite (Hout id s Hs).
    destruct s as [|[k|i|] s']; try done.
    + apply in_trie_index in Hs as (? & Hc & _). by rewrite E in Hc.
    + by specialize (Hp _ _ Hs).
  - intros n out Hwf Hf Hp Hout. apply (visit_map_ok n fields [] out); try done.
    intros id s Hs. rewrite (Hout id s Hs). by destruct s as [|[]].
Qed.

(** The slot of every path, when no path has a wildcard. *)
Lemma project_doc_slot d paths id p :
  pr_has_wildcard (build_projection paths) = false -> paths !! id = Some p ->
  project_doc d (build_projection paths) !! id = Some (head (path_values (segments p) (value_of d))).
Proof.
  intros Hw Hp. unfold project_doc.
  destruct (level_correct d (pr_root (build_projection paths))
              (replicate (pr_len (build_projection paths)) None)) as [H _].
  - apply build_wf.
  - apply build_functional.
  - by apply build_plain.
  - intros i s (q & Hq & ->)%in_build. apply lookup_replicate. split; [done|].
    cbn. by eapply lookup_lt_Some.
  - apply H, in_build. eauto.
Qed.

Lemma project_doc_length d paths :
  pr_has_wildcard (build_projection paths) = false ->
  length (project_doc d (build_projection paths)) = length paths.
Proof.
  intros Hw. apply Nat.le_antisymm; apply Nat.le_ngt; intros Hlt.
  - destruct (lookup_lt_is_Some_2 _ _ Hlt) as [x Hx].
    destruct (level_correct d (pr_root (build_projection paths))
                (replicate (pr_len (build_projection paths)) None)) as [_ H].
    + apply build_wf.
    + apply build_functional.
    + by apply build_plain.
    + intros i s (q & Hq & ->)%in_build. apply lookup_replicate. split; [done|].
      cbn. by eapply lookup_lt_Some.
    + unfold project_doc in Hx. rewrite H in Hx.
      * apply lookup_replicate in Hx as [_ ?]. cbn in *. lia.
      * rewrite in_subtree by apply build_wf. intros (s & (q & Hq & _)%in_build).
        apply lookup_lt_Some in Hq. lia.
  - destruct (lookup_lt_is_Some_2 _ _ Hlt) as [p Hp].
    pose proof (project_doc_slot d paths _ p Hw Hp) as H. apply lookup_lt_Some in H. lia.
Qed.

Lemma project_doc_map d paths :
  pr_has_wildcard (build_projection paths) = false ->
  project_doc d (build_projection paths) =
  map (fun p => head (path_values (segments p) (value_of d))) paths.
Proof.
  intros Hw. apply list_eq. intros i. rewrite list_lookup_fmap.
  destruct (paths !! i) as [p|] eqn:Hp; cbn.
  - by apply project_doc_slot.
  - apply lookup_ge_None. rewrite project_doc_length by done. by apply lookup_ge_None.
Qed.

(** A condition tested on a slot is the condition tested by [visit_values]. *)
Lemma visit_any_slot v p f :
  wildcard_free p = true ->
  visit_any v p f = match head (path_values (segments p) v) with Some s => f s | None => false end.
Proof.
  intros Hp. rewrite visit_any_existsb, path_values_option by done.
  destruct (head (path_values (segments p) v)); cbn; [apply orb_false_r|done].
Qed.
End walk_facts.

(** ** Properties *)

(** C31: projection agrees with the full parse.  When no path has a wildcard, [project]
    fails exactly when [serde_json::from_str::<Value>] does, with the same error, and
    otherwise fills the slot of each path with the one scalar that [visit_values] finds
    there on the parsed value, duplicate keys and shared prefixes included. *)
Theorem project_agrees {J : JsonCrate} {L : JsonLaws J} json paths :
  pr_has_wildcard (build_projection paths) = false ->
  project json (build_projection paths) =
  (fun v => map (fun p => head (path_values (segments p) v)) paths) <$> from_str_value json.
Proof.
  intros Hw. unfold project, from_str_value. destruct (json_from_str json) as [d|e]; [|done].
  cbn. f_equal. by apply project_doc_map.
Qed.

(** ** Witness *)

(** A record with a duplicate key whose second occurrence lacks what the first one had. *)
Definition project_demo_json : JsonCrate :=
  table_json [("r", DObj [("a", DObj [("b", DStr "stale"); ("c", DU64 1)]); ("a", DObj [("c", DU64 2)]);
                          ("l", DArr [DNull; DBool true])])].

Lemma project_agrees_witness :
  project (J := project_demo_json) "r"
    (build_projection [mkPath [Key "a"; Key "b"]; mkPath [Key "a"; Key "c"]; mkPath [Key "l"; Index 1]]) =
  Ok [None; Some "2"; Some "true"].
Proof. rewrite (project_agrees (J := project_demo_json)); reflexivity. Defined.
