(* ===== verification/Engine.v ===== *)
(** * Rule evaluation ([core/src/filter/engine.rs])

    [Engine.new] compiles a [RuleSet]; [evaluate_linear] checks every rule in order,
    [evaluate] only the candidates of the index, and [evaluate_raw] works on the slots
    of the projection.  A panic ([expect]) is [None]. *)

From S2P Require Import Prelude Model Json Path Regex Index Rules Reference Project.

Inductive Decision : Type :=
  | Keep
  | Drop (rule_idx : nat).

#[export] Instance Decision_eq_dec : EqDecision Decision.
Proof. solve_decision. Defined.

(** [selectivity_rank]. *)
Definition selectivity_rank (pattern : string) : nat :=
  if starts_with ".*" pattern || starts_with "^.*" pattern then 1 else 0.

Definition is_single_key (path : Path) (field : string) : bool :=
  match segments path with [Key k] => bool_decide (k = field) | _ => false end.

(** The first rule number below [n] that satisfies [p]: the loops
    [for rule_idx in 0..n { if p { return Drop } } Keep]. *)
Definition first_drop (p : nat -> bool) (n : nat) : Decision :=
  match find_first p (seq 0 n) with Some rule_idx => Drop rule_idx | None => Keep end.

Section engine.
Context {J : JsonCrate} {R : RegexCrate} {Y : RulesCrates}.

(** ** Data *)

Inductive Op : Type :=
  | ORegex (re : Regex)
  | OEquals (s : string)
  | OAnyOf (set : gset string)
  | OAbsent (want_absent : bool).

Record CompiledMatch := mkCompiledMatch {
  cm_path : Path;
  cm_op : Op;
  cm_negate : bool;
  cm_path_id : nat;
}.

Record CompiledRule := mkCompiledRule {
  cr_name : string;
  cr_matches : list CompiledMatch;
}.

Record Engine := mkEngine {
  e_rules : list CompiledRule;
  e_index : RuleIndex;
  e_projection : Projection;
  e_event_source_slot : nat;
  e_event_name_slot : nat;
}.

(** ** Building *)

Definition compile_op (rule_name : string) (op : MatchOp) : result ConfigError Op :=
  match op with
  | MRegex pattern =>
      ORegex <$> map_err (fun e => CfgParse (Fmt "rule {:?}: invalid regex {:?}: {e}"
                                               [Lit rule_name; Lit pattern; Lit e]))
                   (regex_build REGEX_SIZE_LIMIT pattern)
  | MEquals s => Ok (OEquals s)
  | MAnyOf v => Ok (OAnyOf (list_to_set v))
  | MAbsent b => Ok (OAbsent b)
  end.

Definition compile_path (major : N) (rule_name field : string) : result ConfigError Path :=
  if decide (major = 1%N) then Ok (literal_path field)
  else map_err (fun '(MkPathParseError e) =>
                  CfgParse (Fmt "rule {:?}: invalid field path {:?}: {e}"
                              [Lit rule_name; Lit field; e]))
         (parse_path field).

Definition compile_match (major : N) (rule_name : string) (m : Match) :
    result ConfigError CompiledMatch :=
  op ← compile_op rule_name (m_op m);
  path ← compile_path major rule_name (m_field m);
  Ok (mkCompiledMatch path op (m_negate m) 0).

Definition match_rank (m : CompiledMatch) : nat :=
  match cm_op m with
  | ORegex re => selectivity_rank (regex_as_str re)
  | OEquals _ | OAnyOf _ | OAbsent _ => 0
  end.

Definition compile_rule (major : N) (rule : Rule) : result ConfigError CompiledRule :=
  matches ← collect_results (compile_match major (r_name rule)) (r_matches rule);
  Ok (mkCompiledRule (r_name rule) (sort_by_key match_rank matches)).

Definition index_literals (matches : list CompiledMatch) (field : string) : option (list string) :=
  m ← find_first (fun m => negb (cm_negate m) && is_single_key (cm_path m) field) matches;
  match cm_op m with
  | ORegex re => extract_literals (regex_as_str re)
  | OEquals s => Some [s]
  | OAnyOf set => Some (merge_sort String.le (elements set))
  | OAbsent _ => None
  end.

(** The closure [intern]. *)
Definition intern (paths : list Path) (path : Path) : list Path * nat :=
  match position (fun seen => bool_decide (seen = path)) paths with
  | Some id => (paths, id)
  | None => (paths ++ [path], length paths)
  end.

Fixpoint intern_matches (paths : list Path) (ms : list CompiledMatch) :
    list Path * list CompiledMatch :=
  match ms with
  | [] => (paths, [])
  | m :: ms =>
      let '(paths, id) := intern paths (cm_path m) in
      let '(paths, ms) := intern_matches paths ms in
      (paths, mkCompiledMatch (cm_path m) (cm_op m) (cm_negate m) id :: ms)
  end.

Fixpoint intern_rules (paths : list Path) (rules : list CompiledRule) :
    list Path * list CompiledRule :=
  match rules with
  | [] => (paths, [])
  | r :: rules =>
      let '(paths, ms) := intern_matches paths (cr_matches r) in
      let '(paths, rules) := intern_rules paths rules in
      (paths, mkCompiledRule (cr_name r) ms :: rules)
  end.

Definition rule_keys (rule : CompiledRule) : RuleKeys :=
  mkRuleKeys (index_literals (cr_matches rule) "eventSource")
             (index_literals (cr_matches rule) "eventName").

(** [Engine::new] after the rules are compiled: interning, projection, index. *)
Definition assemble (compiled : list CompiledRule) (event_source event_name : Path) : Engine :=
  let '(paths, rules) := intern_rules [] compiled in
  let '(paths, event_source_slot) := intern paths event_source in
  let '(paths, event_name_slot) := intern paths event_name in
  {| e_rules := rules;
     e_index := RuleIndex.build (map rule_keys rules);
     e_projection := build_projection paths;
     e_event_source_slot := event_source_slot;
     e_event_name_slot := event_name_slot |}.

Definition engine_new (rules : RuleSet YamlMapping) : option (result ConfigError Engine) :=
  match semver_major (rs_version rules) with
  | Err _ => None
  | Ok major =>
      match collect_results (compile_rule major) (rs_rules rules) with
      | Err e => Some (Err e)
      | Ok compiled =>
          match parse_path "eventSource", parse_path "eventName" with
          | Ok event_source, Ok event_name => Some (Ok (assemble compiled event_source event_name))
          | _, _ => None
          end
      end
  end.

(** [rule_name]; [None] is the out-of-range panic. *)
Definition rule_name (e : Engine) (rule_idx : nat) : option string :=
  cr_name <$> e_rules e !! rule_idx.

Definition always_rules (e : Engine) : list nat := always (e_index e).

(** ** Evaluation *)

Definition match_fires (m : CompiledMatch) (record : Value Number) : bool :=
  let holds :=
    match cm_op m with
    | ORegex re => visit_any record (cm_path m) (fun v => regex_is_match re v)
    | OEquals want => visit_any record (cm_path m) (fun v => bool_decide (v = want))
    | OAnyOf set => visit_any record (cm_path m) (fun v => bool_decide (v ∈ set))
    | OAbsent want_absent =>
        let present := visit_any record (cm_path m) (fun _ => true) in
        negb (Bool.eqb present want_absent)
    end in
  negb (Bool.eqb holds (cm_negate m)).

(** [self.rules[rule_idx]]; the callers stay below the number of rules. *)
Definition rule_fires (e : Engine) (rule_idx : nat) (record : Value Number) : bool :=
  match e_rules e !! rule_idx with
  | Some rule => forallb (fun m => match_fires m record) (cr_matches rule)
  | None => false
  end.

Definition evaluate_linear (e : Engine) (record : Value Number) : Decision :=
  first_drop (fun rule_idx => rule_fires e rule_idx record) (length (e_rules e)).

Definition evaluate (e : Engine) (record : Value Number) : Decision :=
  let event_source := resolve record "eventSource" in
  let event_name := resolve record "eventName" in
  let candidates := RuleIndex.candidates_for (e_index e) event_source event_name in
  first_drop (fun rule_idx => candidates_permits candidates rule_idx && rule_fires e rule_idx record)
    (rule_count (e_index e)).

(** [slots[id]]; the ids of an engine are in range. *)
Definition slot (slots : list (option string)) (id : nat) : option string :=
  default None (slots !! id).

Definition match_fires_projected (m : CompiledMatch) (slots : list (option string)) : bool :=
  let value := slot slots (cm_path_id m) in
  let holds :=
    match cm_op m with
    | ORegex re => match value with Some v => regex_is_match re v | None => false end
    | OEquals want => bool_decide (value = Some want)
    | OAnyOf set => match value with Some v => bool_decide (v ∈ set) | None => false end
    | OAbsent want_absent => negb (Bool.eqb (bool_decide (is_Some value)) want_absent)
    end in
  negb (Bool.eqb holds (cm_negate m)).

Definition rule_fires_projected (e : Engine) (rule_idx : nat) (slots : list (option string)) : bool :=
  match e_rules e !! rule_idx with
  | Some rule => forallb (fun m => match_fires_projected m slots) (cr_matches rule)
  | None => false
  end.

Definition evaluate_raw (e : Engine) (record : string) : result string Decision :=
  if pr_has_wildcard (e_projection e) then
    value ← from_str_value record;
    Ok (evaluate e value)
  else
    slots ← project record (e_projection e);
    let event_source := slot slots (e_event_source_slot e) in
    let event_name := slot slots (e_event_name_slot e) in
    let candidates := RuleIndex.candidates_for (e_index e) event_source event_name in
    Ok (first_drop (fun rule_idx => candidates_permits candidates rule_idx
                                    && rule_fires_projected e rule_idx slots)
          (rule_count (e_index e))).

(** ** Specification *)

(** The scalars a condition looks at, by the schema version of its ruleset. *)
Definition condition_values (major : N) (m : Match) (record : Value Number) : list string :=
  if decide (major = 1%N) then option_list (resolve record (m_field m))
  else match parse_path (m_field m) with
       | Ok p => path_values (segments p) record
       | Err _ => []
       end.

(** A condition over the scalars its path denotes. *)
Definition op_holds (op : Op) (negate : bool) (vs : list string) : bool :=
  xorb (match op with
        | ORegex re => existsb (regex_is_match re) vs
        | OEquals want => bool_decide (want ∈ vs)
        | OAnyOf set => bool_decide (Exists (fun v => v ∈ set) vs)
        | OAbsent want_absent => Bool.eqb (bool_decide (vs = [])) want_absent
        end) negate.

(** The condition as the rules document words it. *)
Definition condition_holds (major : N) (record : Value Number) (m : Match) : bool :=
  let vs := condition_values major m record in
  xorb (match m_op m with
        | MRegex pattern =>
            match regex_build REGEX_SIZE_LIMIT pattern with
            | Ok re => existsb (regex_is_match re) vs
            | Err _ => false
            end
        | MEquals s => bool_decide (s ∈ vs)
        | MAnyOf l => bool_decide (Exists (fun s => s ∈ l) vs)
        | MAbsent b => Bool.eqb (bool_decide (vs = [])) b
        end) (m_negate m).

Definition rule_holds (major : N) (record : Value Number) (r : Rule) : bool :=
  forallb (condition_holds major record) (r_matches r).

(** The first rule whose conditions all hold. *)
Definition spec_decision (major : N) (rules : list Rule) (record : Value Number) : Decision :=
  match position (rule_holds major record) rules with
  | Some rule_idx => Drop rule_idx
  | None => Keep
  end.

(** What [assemble] establishes: the index is built from the rules' own keys and the
    slots are those of the interned paths. *)
Record engine_wf (e : Engine) (paths : list Path) : Prop := {
  ew_index : e_index e = RuleIndex.build (map rule_keys (e_rules e));
  ew_projection : e_projection e = build_projection paths;
  ew_slots r m : r ∈ e_rules e -> m ∈ cr_matches r -> paths !! cm_path_id m = Some (cm_path m);
  ew_event_source : paths !! e_event_source_slot e = Some (mkPath [Key "eventSource"]);
  ew_event_name : paths !! e_event_name_slot e = Some (mkPath [Key "eventName"]);
}.

(** The regexes of an engine use documented literal escapes only. *)
Definition op_documented (op : Op) : bool :=
  match op with ORegex re => escapes_documented (regex_as_str re) | _ => true end.
Definition engine_documented (e : Engine) : bool :=
  forallb (fun r => forallb (fun m => op_documented (cm_op m)) (cr_matches r)) (e_rules e).
End engine.

(** ** Lemmas: building an engine *)

Section build_facts.
Context {J : JsonCrate} {R : RegexCrate} {Y : RulesCrates}.

(** Interning only appends, and the slot it returns holds the path. *)
Lemma intern_spec paths p paths' id :
  intern paths p = (paths', id) -> paths `prefix_of` paths' /\ paths' !! id = Some p.
Proof.
  unfold intern. destruct (position _ paths) as [i|] eqn:E; intros; simplify_eq.
  - apply position_Some in E as (q & Hq & Hp). bools. by subst.
  - split; [by eexists|]. rewrite lookup_app_r, Nat.sub_diag by lia. done.
Qed.

Lemma prefix_lookup' {A} (l k : list A) i x : l `prefix_of` k -> l !! i = Some x -> k !! i = Some x.
Proof. intros [k' ->] H. by apply lookup_app_l_Some. Qed.

(** Two compiled matches that differ in their slot only. *)
Definition same_match (m m' : CompiledMatch) : Prop :=
  cm_path m = cm_path m' /\ cm_op m = cm_op m' /\ cm_negate m = cm_negate m'.

Lemma intern_matches_spec paths ms paths' ms' :
  intern_matches paths ms = (paths', ms') ->
  paths `prefix_of` paths' /\ Forall2 same_match ms ms' /\
  Forall (fun m => paths' !! cm_path_id m = Some (cm_path m)) ms'.
Proof.
  revert paths paths' ms'. induction ms as [|m ms IH]; intros paths paths' ms' H; cbn in H.
  { simplify_eq. split_and!; constructor || done. }
  destruct (intern paths (cm_path m)) as [paths1 id] eqn:Ei.
  destruct (intern_matches paths1 ms) as [paths2 ms2] eqn:Em. simplify_eq.
  apply intern_spec in Ei as [Hp Hid]. apply IH in Em as (Hp2 & Hs & Hall).
  split_and!; [by etrans|by constructor|constructor; [|done]]. by eapply prefix_lookup'.
Qed.

Definition same_rule (r r' : CompiledRule) : Prop :=
  cr_name r = cr_name r' /\ Forall2 same_match (cr_matches r) (cr_matches r').

Lemma intern_rules_spec paths rs paths' rs' :
  intern_rules paths rs = (paths', rs') ->
  paths `prefix_of` paths' /\ Forall2 same_rule rs rs' /\
  Forall (fun r => Forall (fun m => paths' !! cm_path_id m = Some (cm_path m)) (cr_matches r)) rs'.
Proof.
  revert paths paths' rs'. induction rs as [|r rs IH]; intros paths paths' rs' H; cbn in H.
  { simplify_eq. split_and!; constructor || done. }
  destruct (intern_matches paths (cr_matches r)) as [paths1 ms] eqn:Ei.
  destruct (intern_rules paths1 rs) as [paths2 rs2] eqn:Em. simplify_eq.
  apply intern_matches_spec in Ei as (Hp & Hs & Hm). apply IH in Em as (Hp2 & Hrs & Hall).
  split_and!; [by etrans|by constructor|constructor; [|done]].
  eapply Forall_impl; [done|]. intros m. by apply prefix_lookup'.
Qed.

Lemma assemble_wf compiled e :
  assemble compiled (mkPath [Key "eventSource"]) (mkPath [Key "eventName"]) = e ->
  (exists paths, engine_wf e paths) /\ Forall2 same_rule compiled (e_rules e).
Proof.
  unfold assemble. destruct (intern_rules [] compiled) as [paths rules] eqn:Er.
  destruct (intern paths (mkPath [Key "eventSource"])) as [paths1 es] eqn:Es.
  destruct (intern paths1 (mkPath [Key "eventName"])) as [paths2 en] eqn:En. intros <-.
  apply intern_rules_spec in Er as (_ & Hs & Hall).
  apply intern_spec in Es as [Hp1 Hes]. apply intern_spec in En as [Hp2 Hen].
  split; [|done]. exists paths2. constructor; cbn; try done.
  - intros r m Hr Hm. rewrite Forall_forall in Hall. specialize (Hall r Hr).
    rewrite Forall_forall in Hall. eapply prefix_lookup'; [|by apply Hall]. by etrans.
  - by eapply prefix_lookup'.
Qed.

Lemma parse_index_fields :
  parse_path "eventSource" = Ok (mkPath [Key "eventSource"]) /\
  parse_path "eventName" = Ok (mkPath [Key "eventName"]).
Proof. by split. Qed.

(** [engine_new] either fails to compile a rule or assembles. *)
Lemma engine_new_inv rs e :
  engine_new rs = Some (Ok e) ->
  exists major compiled paths,
    semver_major (rs_version rs) = Ok major /\
    collect_results (compile_rule major) (rs_rules rs) = Ok compiled /\
    engine_wf e paths /\ Forall2 same_rule compiled (e_rules e).
Proof.
  unfold engine_new. destruct parse_index_fields as [-> ->].
  destruct (semver_major _) as [major|]; [|done].
  destruct (collect_results _ _) as [compiled|] eqn:Ec; [|done]. intros; simplify_eq.
  destruct (assemble_wf compiled _ eq_refl) as [[paths Hw] Hs]. eauto 10.
Qed.
End build_facts.

(** ** Lemmas: evaluation *)

Lemma first_drop_ext p q n :
  (forall i, i < n -> p i = q i) -> first_drop p n = first_drop q n.
Proof.
  intros H. unfold first_drop.
  enough (find_first p (seq 0 n) = find_first q (seq 0 n)) as -> by done.
  assert (Forall (fun i => p i = q i) (seq 0 n)) as Hall
    by (apply Forall_forall; intros i Hi; apply elem_of_seq in Hi; apply H; lia).
  clear H. induction Hall as [|i l Hi Hall IH]; [done|]. cbn. by rewrite Hi, IH.
Qed.

Lemma find_first_seq {A} (p : nat -> bool) (q : A -> bool) l n :
  (forall i x, l !! i = Some x -> p (n + i) = q x) ->
  find_first p (seq n (length l)) = (fun i => n + i) <$> position q l.
Proof.
  revert n. induction l as [|x l IH]; intros n H; cbn; [done|].
  pose proof (H 0 x eq_refl) as Hx. rewrite Nat.add_0_r in Hx. rewrite Hx.
  destruct (q x); cbn; [by rewrite Nat.add_0_r|]. rewrite IH.
  - destruct (position q l); cbn; [f_equal; lia|done].
  - intros i y Hy. change (S n + i) with (S (n + i)). rewrite plus_n_Sm. by apply (H (S i)).
Qed.

Lemma first_drop_position {A} (p : nat -> bool) (q : A -> bool) l :
  (forall i x, l !! i = Some x -> p i = q x) ->
  first_drop p (length l) = match position q l with Some i => Drop i | None => Keep end.
Proof.
  intros H. unfold first_drop. rewrite (find_first_seq p q l 0) by done. by destruct (position q l).
Qed.

Section eval_facts.
Context {J : JsonCrate} {R : RegexCrate} {Y : RulesCrates}.

Lemma existsb_equals (want : string) (vs : list string) :
  existsb (fun v => bool_decide (v = want)) vs = bool_decide (want ∈ vs).
Proof.
  induction vs as [|v vs IH]; cbn [existsb].
  { symmetry. apply bool_decide_eq_false_2, not_elem_of_nil. }
  rewrite IH, <-bool_decide_or. apply bool_decide_ext. set_solver.
Qed.

Lemma existsb_any (set : gset string) (vs : list string) :
  existsb (fun v => bool_decide (v ∈ set)) vs = bool_decide (Exists (fun v => v ∈ set) vs).
Proof.
  induction vs as [|v vs IH]; cbn [existsb].
  { symmetry. apply bool_decide_eq_false_2. by inversion 1. }
  rewrite IH, <-bool_decide_or. apply bool_decide_ext. by rewrite Exists_cons.
Qed.

Lemma existsb_true (vs : list string) : existsb (fun _ => true) vs = negb (bool_decide (vs = [])).
Proof. by destruct vs. Qed.

Lemma match_fires_values m v :
  match_fires m v = op_holds (cm_op m) (cm_negate m) (path_values (segments (cm_path m)) v).
Proof.
  unfold match_fires, op_holds. destruct (cm_op m); rewrite !visit_any_existsb.
  - by destruct (existsb _ _), (cm_negate m).
  - rewrite existsb_equals. by destruct (bool_decide _), (cm_negate m).
  - rewrite existsb_any. by destruct (bool_decide _), (cm_negate m).
  - rewrite existsb_true. by destruct (bool_decide _), want_absent, (cm_negate m).
Qed.

Lemma match_fires_projected_values m slots :
  match_fires_projected m slots =
  op_holds (cm_op m) (cm_negate m) (option_list (slot slots (cm_path_id m))).
Proof.
  unfold match_fires_projected, op_holds. destruct (slot slots (cm_path_id m)) as [v|]; cbn.
  - destruct (cm_op m); cbn.
    + rewrite orb_false_r. by destruct (regex_is_match _ _), (cm_negate m).
    + rewrite (bool_decide_ext (Some v = Some s) (s ∈ [v])).
      2:{ rewrite list_elem_of_singleton. naive_solver. }
      by destruct (bool_decide _), (cm_negate m).
    + rewrite (bool_decide_ext (Exists (fun v => v ∈ set) [v]) (v ∈ set)).
      2:{ rewrite Exists_cons, Exists_nil. tauto. }
      by destruct (bool_decide _), (cm_negate m).
    + by destruct want_absent, (cm_negate m).
  - destruct (cm_op m); cbn; try by destruct (cm_negate m).
    by destruct want_absent, (cm_negate m).
Qed.

Lemma resolve_single k v : resolve v k = resolve_segments v (split_char "." k) ≫= scalar_text.
Proof. done. Qed.

(** A condition on the single top-level key [k] sees what [resolve] sees. *)
Lemma single_key_values p k v :
  is_single_key p k = true -> char_in "." k = false ->
  path_values (segments p) v = option_list (resolve v k).
Proof.
  unfold is_single_key. destruct p as [[|[k'|i|] [|]]]; cbn; try done. intros H Hd. bools. subst.
  rewrite resolve_single, split_char_none by done. apply (path_values_literal [k] v).
Qed.

(** A rule that fires has its value among the index literals of the key. *)
Lemma fires_admits {RL : RegexLaws R} ms v k :
  char_in "." k = false ->
  forallb (fun m => op_documented (cm_op m)) ms = true ->
  forallb (fun m => match_fires m v) ms = true ->
  key_admits (index_literals ms k) (resolve v k) = true.
Proof.
  intros Hdot Hdoc Hf. unfold index_literals.
  destruct (find_first _ ms) as [m|] eqn:E; [cbn|by destruct (resolve v k)].
  apply find_first_Some in E as [Hm E]. bools. apply list_elem_of_In in Hm.
  rewrite forallb_forall in Hdoc, Hf. specialize (Hdoc m Hm). specialize (Hf m Hm).
  rewrite match_fires_values, (single_key_values _ k), H in Hf by done.
  unfold op_holds in Hf. rewrite xorb_false_r in Hf.
  destruct (resolve v k) as [x|]; [|by destruct (cm_op m); cbn; try destruct (extract_literals _)].
  destruct (cm_op m) as [re|s|set|b]; cbn in *.
  - destruct (extract_literals (regex_as_str re)) as [lits|] eqn:El; [cbn|done].
    rewrite orb_false_r in Hf. by rewrite <-(LiteralFacts.extract_literals_correct re).
  - bools. apply bool_decide_eq_true_2. apply list_elem_of_singleton in Hf. set_solver.
  - bools. apply bool_decide_eq_true_2. apply Exists_cons in Hf as [Hf|Hf]; [|by inversion Hf].
    rewrite merge_sort_Permutation. by apply elem_of_elements.
  - done.
Qed.

Lemma rule_count_build keys : rule_count (RuleIndex.build keys) = length keys.
Proof. done. Qed.

(** The index permits every rule that fires. *)
Lemma fires_permitted {RL : RegexLaws R} e paths v i :
  engine_wf e paths -> engine_documented e = true -> rule_fires e i v = true ->
  candidates_permits
    (RuleIndex.candidates_for (e_index e) (resolve v "eventSource") (resolve v "eventName")) i = true.
Proof.
  intros [Hix _ _ _ _] Hdoc. unfold rule_fires. destruct (e_rules e !! i) as [r|] eqn:Hr; [|done].
  intros Hf. rewrite Hix.
  rewrite (RuleIndexFacts.permits_spec _ _ _ i (rule_keys r)).
  2:{ change (map rule_keys (e_rules e)) with (rule_keys <$> e_rules e).
      by rewrite list_lookup_fmap, Hr. }
  unfold engine_documented in Hdoc. rewrite forallb_forall in Hdoc.
  specialize (Hdoc r (proj1 (list_elem_of_In _ _) (list_elem_of_lookup_2 _ _ _ Hr))).
  unfold rule_keys. cbn [event_source event_name]. by rewrite !fires_admits.
Qed.

Lemma evaluate_linear_eq {RL : RegexLaws R} e paths v :
  engine_wf e paths -> engine_documented e = true -> evaluate e v = evaluate_linear e v.
Proof.
  intros Hw Hdoc. unfold evaluate, evaluate_linear.
  assert (rule_count (e_index e) = length (e_rules e)) as ->
    by (rewrite (ew_index _ _ Hw), rule_count_build; apply length_map).
  apply first_drop_ext. intros i _. destruct (rule_fires e i v) eqn:E; [|apply andb_false_r].
  by rewrite (fires_permitted e paths).
Qed.

(** The slots of the projection are what the full parse resolves. *)
Lemma project_slot {L : JsonLaws J} d paths id p :
  pr_has_wildcard (build_projection paths) = false -> paths !! id = Some p ->
  option_list (slot (project_doc d (build_projection paths)) id) =
  path_values (segments p) (value_of d).
Proof.
  intros Hw Hp. unfold slot. rewrite (project_doc_slot _ _ id p) by done. cbn.
  rewrite <-path_values_option; [done|].
  eapply build_plain; [done|]. apply in_build. eauto.
Qed.

Lemma option_list_inj {A} (o o' : option A) : option_list o = option_list o' -> o = o'.
Proof. destruct o, o'; cbn; congruence. Qed.

Lemma index_slot {L : JsonLaws J} d paths id k :
  pr_has_wildcard (build_projection paths) = false -> paths !! id = Some (mkPath [Key k]) ->
  char_in "." k = false ->
  slot (project_doc d (build_projection paths)) id = resolve (value_of d) k.
Proof.
  intros Hw Hp Hd. apply option_list_inj. rewrite (project_slot d paths id _ Hw Hp).
  apply single_key_values; [|done]. by apply bool_decide_eq_true_2.
Qed.

Lemma evaluate_raw_eq {L : JsonLaws J} e paths text :
  engine_wf e paths -> evaluate_raw e text = evaluate e <$> from_str_value text.
Proof.
  intros Hw. unfold evaluate_raw. destruct (pr_has_wildcard (e_projection e)) eqn:Hwild.
  { by destruct (from_str_value text). }
  unfold project, from_str_value. destruct (json_from_str text) as [d|err]; [|done]. cbn. f_equal.
  rewrite (ew_projection _ _ Hw) in *.
  rewrite !(index_slot d paths) with (k := "eventSource") by (done || apply Hw).
  rewrite !(index_slot d paths) with (k := "eventName") by (done || apply Hw).
  unfold evaluate. apply first_drop_ext. intros i _. f_equal.
  unfold rule_fires_projected, rule_fires. destruct (e_rules e !! i) as [r|] eqn:Hr; [|done].
  assert (Forall (fun m => paths !! cm_path_id m = Some (cm_path m)) (cr_matches r)) as Hall.
  { apply Forall_forall. intros m. apply (ew_slots _ _ Hw). by eapply list_elem_of_lookup_2. }
  induction Hall as [|m ms Hm Hall IH]; [done|]. cbn. f_equal; [|done].
  rewrite match_fires_projected_values, match_fires_values. f_equal. by apply project_slot.
Qed.
End eval_facts.

(** ** Lemmas: the engine against the rules document *)

Section spec_facts.
Context {J : JsonCrate} {R : RegexCrate} {Y : RulesCrates}.

Lemma compile_match_holds major name m cm v :
  compile_match major name m = Ok cm -> match_fires cm v = condition_holds major v m.
Proof.
  unfold compile_match. intros H. apply result_bind_ok in H as (op & Hop & H).
  apply result_bind_ok in H as (p & Hp & H). simplify_eq.
  rewrite match_fires_values. cbn [cm_op cm_negate cm_path]. unfold op_holds, condition_holds.
  assert (condition_values major m v = path_values (segments p) v) as ->.
  { unfold condition_values, compile_path in *. case_decide; simplify_eq.
    - symmetry. apply path_values_literal.
    - destruct (parse_path (m_field m)) as [q|[]]; cbn in Hp; by simplify_eq. }
  f_equal. unfold compile_op in Hop. destruct (m_op m) as [pat|s|l|b]; cbn in Hop; simplify_eq.
  - destruct (regex_build _ pat); cbn in Hop; by simplify_eq.
  - by apply bool_decide_ext.
  - apply bool_decide_ext. rewrite !Exists_exists. by setoid_rewrite elem_of_list_to_set.
  - by f_equal.
Qed.

Lemma forallb_Forall2 {A B} (f : A -> bool) (g : B -> bool) l k :
  Forall2 (fun x y => g y = f x) l k -> forallb g k = forallb f l.
Proof. induction 1 as [|x y l k E _ IH]; cbn; [done|]. by rewrite E, IH. Qed.

Lemma compile_rule_holds major r cr v :
  compile_rule major r = Ok cr ->
  forallb (fun m => match_fires m v) (cr_matches cr) = rule_holds major v r.
Proof.
  unfold compile_rule. intros H. apply result_bind_ok in H as (ms & Hms & H). simplify_eq. cbn.
  rewrite (forallb_perm _ _ ms) by apply sort_by_key_perm.
  apply collect_results_Forall2 in Hms. apply forallb_Forall2.
  eapply Forall2_impl; [done|]. intros x y. by apply compile_match_holds.
Qed.

Lemma same_rule_fires r r' v :
  same_rule r r' ->
  forallb (fun m => match_fires m v) (cr_matches r') = forallb (fun m => match_fires m v) (cr_matches r).
Proof.
  intros [_ H]. apply forallb_Forall2. eapply Forall2_impl; [done|].
  intros m m' (Hp & Ho & Hn). by rewrite !match_fires_values, Hp, Ho, Hn.
Qed.

(** Each compiled rule against the rule it came from. *)
Lemma engine_rules_spec rs e :
  engine_new rs = Some (Ok e) ->
  exists major, semver_major (rs_version rs) = Ok major /\
    Forall2 (fun r cr => cr_name cr = r_name r /\
               forall v, forallb (fun m => match_fires m v) (cr_matches cr) = rule_holds major v r)
      (rs_rules rs) (e_rules e).
Proof.
  intros (major & compiled & paths & Hm & Hc & _ & Hs)%engine_new_inv. exists major. split; [done|].
  apply collect_results_Forall2 in Hc. revert Hs. generalize (e_rules e).
  induction Hc as [|r cr rs' crs Hcr Hc IH]; intros l Hl; inversion Hl as [|? y ? ys Hy Hys]; subst;
    constructor; [|auto].
  split.
  - destruct Hy as [<- _]. unfold compile_rule in Hcr.
    apply result_bind_ok in Hcr as (? & _ & ?). by simplify_eq.
  - intros v. rewrite (same_rule_fires cr) by done. by apply compile_rule_holds.
Qed.

Lemma evaluate_linear_spec rs e major v :
  engine_new rs = Some (Ok e) -> semver_major (rs_version rs) = Ok major ->
  evaluate_linear e v = spec_decision major (rs_rules rs) v.
Proof.
  intros Hn Hm. destruct (engine_rules_spec rs e Hn) as (major' & Hm' & Hall).
  rewrite Hm in Hm'. simplify_eq. unfold evaluate_linear, spec_decision.
  rewrite <-(Forall2_length _ _ _ Hall). apply first_drop_position.
  intros i r Hr. unfold rule_fires.
  destruct (Forall2_lookup_l _ _ _ _ _ Hall Hr) as (cr & Hcr & _ & H). rewrite Hcr. apply H.
Qed.

Lemma compile_valid major r :
  rule_valid major r -> exists cr, compile_rule major r = Ok cr.
Proof.
  intros [_ _ Hv]. unfold compile_rule.
  enough (exists ms, collect_results (compile_match major (r_name r)) (r_matches r) = Ok ms) as [ms ->]
    by eauto.
  induction Hv as [|m ms [Hp Hr] Hv IH]; [by eexists|].
  destruct IH as [cms IH]. cbn. rewrite IH.
  enough (exists cm, compile_match major (r_name r) m = Ok cm) as [cm ->] by (eexists; done).
  unfold compile_match.
  assert (exists op, compile_op (r_name r) (m_op m) = Ok op) as [op ->].
  { unfold compile_op. destruct (m_op m) as [pat|s|l|b]; try by eexists.
    destruct (Hr pat eq_refl) as [re ->]. by eexists. }
  assert (exists p, compile_path major (r_name r) (m_field m) = Ok p) as [p ->].
  { unfold compile_path. case_decide; [by eexists|]. destruct (Hp ltac:(done)) as [p ->]. by eexists. }
  by eexists.
Qed.

Lemma engine_new_valid major rs :
  rule_set_valid major rs -> exists e, engine_new rs = Some (Ok e).
Proof.
  intros [Hv _ _ Hr]. unfold engine_new. rewrite Hv. destruct parse_index_fields as [-> ->].
  enough (exists crs, collect_results (compile_rule major) (rs_rules rs) = Ok crs) as [crs ->]
    by eauto.
  induction Hr as [|r rs' Hr Hrs IH]; [by eexists|].
  destruct IH as [crs IH], (compile_valid major r Hr) as [cr Hc]. cbn. rewrite Hc, IH. by eexists.
Qed.
End spec_facts.

(** The decision on a record, from the text of the record to the rules as written. *)
Lemma evaluate_raw_spec {J : JsonCrate} {L : JsonLaws J} {R : RegexCrate} {RL : RegexLaws R}
    {Y : RulesCrates} rs e major text :
  engine_new rs = Some (Ok e) -> semver_major (rs_version rs) = Ok major ->
  engine_documented e = true ->
  evaluate_raw e text = spec_decision major (rs_rules rs) <$> from_str_value text.
Proof.
  intros Hn Hm Hd. destruct (engine_new_inv rs e Hn) as (? & ? & paths & _ & _ & Hw & _).
  rewrite (evaluate_raw_eq e paths) by done. destruct (from_str_value text) as [v|]; [|done].
  cbn. f_equal. rewrite (evaluate_linear_eq e paths) by done. by apply evaluate_linear_spec.
Qed.

(** ** Properties *)

(** C4: the decision on a record, end to end.  On a ruleset that [engine_new] compiled and
    whose regexes escape letters, digits and the characters the regex crate documents as
    escapable only ([engine_documented]: no word boundary \< or \>, which the index takes
    for a character), [evaluate_raw] fails exactly when the record is not JSON, and otherwise
    drops it for the first rule, in document order, all of whose conditions hold on the
    parsed record. *)
Theorem evaluate_raw_correct {J : JsonCrate} {L : JsonLaws J} {R : RegexCrate} {RL : RegexLaws R}
    {Y : RulesCrates} rs e major text :
  engine_new rs = Some (Ok e) -> semver_major (rs_version rs) = Ok major ->
  engine_documented e = true ->
  evaluate_raw e text = spec_decision major (rs_rules rs) <$> from_str_value text.
Proof. apply evaluate_raw_spec. Qed.

(** C19: the index is invisible: [evaluate] and [evaluate_linear] take the same decision on
    every record, for every engine whose patterns use documented escapes only. *)
Theorem evaluate_agrees_linear {J : JsonCrate} {R : RegexCrate} {RL : RegexLaws R}
    {Y : RulesCrates} rs e v :
  engine_new rs = Some (Ok e) -> engine_documented e = true -> evaluate e v = evaluate_linear e v.
Proof.
  intros Hn Hd. destruct (engine_new_inv rs e Hn) as (? & ? & paths & _ & _ & Hw & _).
  by apply (evaluate_linear_eq e paths).
Qed.

(** C18: [evaluate_raw] is [evaluate] after a full parse, projection and wildcard fallback
    included, for every engine and every text. *)
Theorem evaluate_raw_agrees {J : JsonCrate} {L : JsonLaws J} {R : RegexCrate} {Y : RulesCrates} rs e text :
  engine_new rs = Some (Ok e) -> evaluate_raw e text = evaluate e <$> from_str_value text.
Proof.
  intros Hn. destruct (engine_new_inv rs e Hn) as (? & ? & paths & _ & _ & Hw & _).
  by apply (evaluate_raw_eq e paths).
Qed.

(** A ruleset that passes [RuleSet::parse] always builds, without a panic and without
    an error, and keeps the names of its rules in order. *)
Theorem engine_new_after_parse {J : JsonCrate} {R : RegexCrate} {Y : RulesCrates} bytes rs :
  parse bytes = Ok rs ->
  exists e, engine_new rs = Some (Ok e) /\ forall i, rule_name e i = r_name <$> rs_rules rs !! i.
Proof.
  intros H. destruct (parse_rule_set_valid bytes rs H) as [major Hv].
  destruct (engine_new_valid major rs Hv) as [e He]. exists e. split; [done|]. intros i.
  destruct (engine_rules_spec rs e He) as (? & _ & Hall). unfold rule_name.
  destruct (rs_rules rs !! i) as [r|] eqn:Hr; cbn.
  - destruct (Forall2_lookup_l _ _ _ _ _ Hall Hr) as (cr & Hcr & Hn & _).
    rewrite Hcr. cbn. by rewrite Hn.
  - apply lookup_ge_None in Hr. rewrite (Forall2_length _ _ _ Hall) in Hr.
    by rewrite (proj2 (lookup_ge_None _ _)).
Qed.

(** C32: an escape the index does not know.  The regex crate documents [\>] as the end of a
    word; [extract_literals] reads it as the character [>].  With a pattern such as
    [^kms\>$] the index files the rule under the value [kms>], and [evaluate] keeps a
    record that [evaluate_linear] drops. *)
Theorem index_misses_word_boundary {J : JsonCrate} {R : RegexCrate} {Y : RulesCrates} version re e :
  let rules := mkRuleSet YamlMapping version None
                 [mkRule "kms" [mkMatch "eventSource" (MRegex "^kms\>$") false]] in
  let record := VObject [("eventSource", VString "kms")] in
  semver_major version = Ok 2%N -> regex_build REGEX_SIZE_LIMIT "^kms\>$" = Ok re ->
  regex_as_str re = "^kms\>$" -> regex_is_match re "kms" = true ->
  engine_new rules = Some (Ok e) ->
  evaluate_linear e record = Drop 0 /\ evaluate e record = Keep.
Proof.
  intros rules record Hv Hb Hs Hm Hn. split.
  - rewrite (evaluate_linear_spec rules e 2) by done.
    unfold spec_decision, rule_holds, condition_holds.
    cbn [position rules rs_rules forallb r_matches m_op m_negate].
    assert (condition_values 2 (mkMatch "eventSource" (MRegex "^kms\>$") false) record = ["kms"]) as ->
      by done.
    rewrite Hb. cbn. by rewrite Hm.
  - unfold engine_new in Hn. cbn [rs_version rs_rules rules] in Hn. rewrite Hv in Hn.
    cbn [collect_results] in Hn. unfold compile_rule, compile_match, compile_op in Hn.
    cbn [collect_results r_matches r_name m_op m_field m_negate] in Hn. rewrite Hb in Hn.
    unfold compile_path in Hn. cbn in Hn.
    injection Hn as <-. set (e := assemble _ _ _).
    assert (e_index e = RuleIndex.build [mkRuleKeys (Some ["kms>"]) None]) as Hix.
    { change (e_index e) with (RuleIndex.build (map rule_keys (e_rules e))).
      assert (e_rules e = [mkCompiledRule "kms"
                [mkCompiledMatch (mkPath [Key "eventSource"]) (ORegex re) false 0]]) as -> by done.
      f_equal. transitivity [mkRuleKeys (extract_literals (regex_as_str re)) None]; [done|].
      by rewrite Hs. }
    unfold evaluate. rewrite Hix. unfold first_drop. rewrite rule_count_build. cbn [length seq find_first].
    by rewrite (RuleIndexFacts.permits_spec _ _ _ 0 (mkRuleKeys (Some ["kms>"]) None)) by done.
Qed.

(** ** Witnesses *)

(** Two version 2 rules, one of them negated, and two records: the second has a
    duplicate key. *)
Definition demo_rules : RuleSet unit :=
  mkRuleSet unit "2.0.0" None
    [mkRule "kms" [mkMatch "eventSource" (MRegex "^kms\.(a|b)$") false;
                   mkMatch "user.tags[1]" (MAnyOf ["x"; "y"]) true];
     mkRule "reads" [mkMatch "eventName" (MEquals "Get") false; mkMatch "errorCode" (MAbsent true) false]].

Definition demo_json : JsonCrate :=
  table_json
    [("r1", DObj [("eventName", DStr "Get"); ("n", DU64 7)]);
     ("r2", DObj [("eventSource", DStr "kms.c"); ("eventSource", DStr "kms.b");
                  ("user", DObj [("tags", DArr [DStr "x"; DStr "z"])])])].

Definition demo_yaml : RulesCrates :=
  table_rules
    [("rules.yaml",
      mkWireRuleSet WireRuleV2 unit "2.0.0" None
        [mkWireRuleV2 "kms"
           [mkWireMatchV2 "eventSource" (Some "^kms\.(a|b)$") None None None false;
            mkWireMatchV2 "user.tags[1]" None None (Some ["x"; "y"]) None true];
         mkWireRuleV2 "reads"
           [mkWireMatchV2 "eventName" None (Some "Get") None None false;
            mkWireMatchV2 "errorCode" None None None (Some true) false]])].

(** An engine, or the empty one. *)
Definition engine_or_empty {R : RegexCrate} (o : option (result ConfigError Engine)) : Engine :=
  match o with
  | Some (Ok e) => e
  | _ => mkEngine [] (RuleIndex.build []) (build_projection []) 0 0
  end.

Definition demo_engine : Engine := engine_or_empty (engine_new (Y := demo_yaml) demo_rules).

(** A matcher that knows one word-boundary pattern. *)
Definition boundary_regex : RegexCrate := {|
  Regex := string;
  regex_build _ p := Ok p;
  regex_as_str p := p;
  regex_is_match p h := bool_decide (p = "^kms\>$" /\ h = "kms");
|}.

Definition boundary_rules : RuleSet unit :=
  mkRuleSet unit "2.0.0" None [mkRule "kms" [mkMatch "eventSource" (MRegex "^kms\>$") false]].

Lemma engine_or_empty_ok {R : RegexCrate} (o : option (result ConfigError Engine)) :
  match o with Some r => is_ok r | None => false end = true -> o = Some (Ok (engine_or_empty o)).
Proof. by destruct o as [[]|]. Qed.

Lemma demo_engine_new : engine_new (Y := demo_yaml) demo_rules = Some (Ok demo_engine).
Proof. apply engine_or_empty_ok. vm_compute. reflexivity. Qed.

Lemma parse_accepts_only_valid_witness : exists major, rule_set_valid (Y := demo_yaml) major demo_rules.
Proof. apply (parse_accepts_only_valid (Y := demo_yaml) "rules.yaml"). reflexivity. Defined.

Lemma evaluate_raw_correct_witness :
  evaluate_raw (J := demo_json) demo_engine "r2" = Ok (Drop 0) /\
  evaluate_raw (J := demo_json) demo_engine "r3" = Err "expected value".
Proof.
  split.
  - rewrite (evaluate_raw_correct (J := demo_json) (Y := demo_yaml) demo_rules demo_engine 2);
      [vm_compute; reflexivity|apply demo_engine_new|reflexivity|vm_compute; reflexivity].
  - rewrite (evaluate_raw_correct (J := demo_json) (Y := demo_yaml) demo_rules demo_engine 2);
      [vm_compute; reflexivity|apply demo_engine_new|reflexivity|vm_compute; reflexivity].
Defined.

Lemma evaluate_agrees_linear_witness :
  evaluate (J := demo_json) demo_engine (VObject [("eventName", VString "Get")]) = Drop 1.
Proof.
  rewrite (evaluate_agrees_linear (J := demo_json) (Y := demo_yaml) demo_rules demo_engine);
    [vm_compute; reflexivity|apply demo_engine_new|vm_compute; reflexivity].
Defined.

Lemma evaluate_raw_agrees_witness : evaluate_raw (J := demo_json) demo_engine "r1" = Ok (Drop 1).
Proof.
  rewrite (evaluate_raw_agrees (J := demo_json) (Y := demo_yaml) demo_rules demo_engine);
    [vm_compute; reflexivity|apply demo_engine_new].
Defined.

Lemma engine_new_after_parse_witness :
  exists e, engine_new (Y := demo_yaml) demo_rules = Some (Ok e) /\
    forall i, rule_name e i = r_name <$> rs_rules demo_rules !! i.
Proof.
  apply (engine_new_after_parse (J := demo_json) (Y := demo_yaml) "rules.yaml" demo_rules).
  vm_compute. reflexivity.
Defined.

Lemma index_misses_word_boundary_witness :
  evaluate_linear (J := demo_json) (R := boundary_regex)
    (engine_or_empty (engine_new (R := boundary_regex) (Y := demo_yaml) boundary_rules))
    (VObject [("eventSource", VString "kms")]) = Drop 0 /\
  evaluate (J := demo_json) (R := boundary_regex)
    (engine_or_empty (engine_new (R := boundary_regex) (Y := demo_yaml) boundary_rules))
    (VObject [("eventSource", VString "kms")]) = Keep.
Proof.
  apply (index_misses_word_boundary (J := demo_json) (R := boundary_regex) (Y := demo_yaml)
           "2.0.0" "^kms\>$"); reflexivity.
Defined.
