(* ===== verification/Settings.v ===== *)
(** * The settings document ([core/src/config/settings.rs])

    Defaults, environment overrides, validation and the key filter.  The YAML
    deserializer of [Document] is a parameter ([SettingsCrate]); the environment is a
    function from names to values, as in the code. *)

From S2P Require Import Prelude Model Regex Rules Reference.

(** ** Constants *)

Definition S3_MIN_MULTIPART_PART_BYTES : N := 5 * 1024 * 1024.
Definition MAX_GZIP_LEVEL : N := 9.
Definition MAX_GZIP_CHUNKS : N := 16.
Definition MAX_OBJECT_CONCURRENCY : N := 64.

(** ** [FromStr] of the value types *)

(** The messages of [std::num::ParseIntError], from the digit loop. *)
Fixpoint int_error (max acc : N) (s : string) : string :=
  match s with
  | EmptyString => "invalid digit found in string"
  | String c s' =>
      match digit_value c with
      | None => "invalid digit found in string"
      | Some d =>
          if (max <? acc * 10 + d)%N then "number too large to fit in target type"
          else int_error max (acc * 10 + d) s'
      end
  end.

Definition parse_int (max : N) (s : string) : result Msg N :=
  match parse_uint max s with
  | Some n => Ok n
  | None =>
      Err (Lit (match s with
                | EmptyString => "cannot parse integer from empty string"
                | String "+"%char EmptyString => "invalid digit found in string"
                | String "+"%char digits => int_error max 0 digits
                | _ => int_error max 0 s
                end))
  end.

Definition parse_bool (s : string) : result Msg bool :=
  if decide (s = "true") then Ok true
  else if decide (s = "false") then Ok false
  else Err (Lit "provided string was not `true` or `false`").

(** [String::from_str] does not fail. *)
Definition parse_string (s : string) : result Msg string := Ok s.

Inductive ProcessingMode : Type := PmAuto | PmBuffer | PmStream.

#[export] Instance ProcessingMode_eq_dec : EqDecision ProcessingMode.
Proof. solve_decision. Defined.

Definition ProcessingMode_from_str (s : string) : result Msg ProcessingMode :=
  if decide (s = "auto") then Ok PmAuto
  else if decide (s = "buffer") then Ok PmBuffer
  else if decide (s = "stream") then Ok PmStream
  else Err (Fmt "invalid processing mode {other:?}: expected auto, buffer, or stream" [Lit s]).

Inductive OnConfigError : Type := CeOpen | CeClosed.

#[export] Instance OnConfigError_eq_dec : EqDecision OnConfigError.
Proof. solve_decision. Defined.

Definition OnConfigError_from_str (s : string) : result Msg OnConfigError :=
  if decide (s = "open") then Ok CeOpen
  else if decide (s = "closed") then Ok CeClosed
  else Err (Fmt "invalid on_config_error {other:?}: expected open or closed" [Lit s]).

Inductive OnMissingObject : Type := MoError | MoSkip.

#[export] Instance OnMissingObject_eq_dec : EqDecision OnMissingObject.
Proof. solve_decision. Defined.

Definition OnMissingObject_from_str (s : string) : result Msg OnMissingObject :=
  if decide (s = "error") then Ok MoError
  else if decide (s = "skip") then Ok MoSkip
  else Err (Fmt "invalid on_missing_object {other:?}: expected error or skip" [Lit s]).

Inductive OnUnrecognizedObject : Type := UoCopy | UoSkip | UoError.

#[export] Instance OnUnrecognizedObject_eq_dec : EqDecision OnUnrecognizedObject.
Proof. solve_decision. Defined.

Definition OnUnrecognizedObject_from_str (s : string) : result Msg OnUnrecognizedObject :=
  if decide (s = "copy") then Ok UoCopy
  else if decide (s = "skip") then Ok UoSkip
  else if decide (s = "error") then Ok UoError
  else Err (Fmt "invalid on_unrecognized_object {other:?}: expected copy, skip, or error" [Lit s]).

Inductive OnParseError : Type := PeCopy | PeError.

#[export] Instance OnParseError_eq_dec : EqDecision OnParseError.
Proof. solve_decision. Defined.

Definition OnParseError_from_str (s : string) : result Msg OnParseError :=
  if decide (s = "copy") then Ok PeCopy
  else if decide (s = "error") then Ok PeError
  else Err (Fmt "invalid on_parse_error {other:?}: expected copy or error" [Lit s]).

Inductive OnObjectTooLarge : Type := TlStream | TlError.

#[export] Instance OnObjectTooLarge_eq_dec : EqDecision OnObjectTooLarge.
Proof. solve_decision. Defined.

Definition OnObjectTooLarge_from_str (s : string) : result Msg OnObjectTooLarge :=
  if decide (s = "stream") then Ok TlStream
  else if decide (s = "error") then Ok TlError
  else Err (Fmt "invalid on_object_too_large {other:?}: expected stream or error" [Lit s]).

Inductive SqsBodyFormat : Type := SfAuto | SfS3 | SfSns.

#[export] Instance SqsBodyFormat_eq_dec : EqDecision SqsBodyFormat.
Proof. solve_decision. Defined.

Definition SqsBodyFormat_from_str (s : string) : result Msg SqsBodyFormat :=
  if decide (s = "auto") then Ok SfAuto
  else if decide (s = "s3") then Ok SfS3
  else if decide (s = "sns") then Ok SfSns
  else Err (Fmt "invalid sqs body_format {other:?}: expected auto, s3, or sns" [Lit s]).

Inductive MetricsMode : Type := MmEmf | MmNone.

#[export] Instance MetricsMode_eq_dec : EqDecision MetricsMode.
Proof. solve_decision. Defined.

Definition MetricsMode_from_str (s : string) : result Msg MetricsMode :=
  if decide (s = "emf") then Ok MmEmf
  else if decide (s = "none") then Ok MmNone
  else Err (Fmt "invalid metrics mode {other:?}: expected emf or none" [Lit s]).

(** ** Defaults *)

Definition default_include_key_regex : string := "\.json\.gz$".
Definition default_exclude_key_regex : string := "(/CloudTrail-Digest/|/CloudTrail-Insight/|/$)".
Definition default_stream_threshold_bytes : N := 8388608.
Definition default_max_object_bytes : N := 134217728.
Definition default_multipart_part_bytes : N := 8388608.
Definition default_gzip_level : N := 6.
Definition default_object_concurrency : N := 1.
Definition default_gzip_chunks : N := 1.
Definition default_partial_batch_failures : bool := true.
Definition default_rules_uri : string := "s3://sec-config/cloudtrail/rules.yaml".
Definition default_rules_ttl_seconds : N := 300.
Definition default_namespace : string := "cloudtrail-rs".
Definition default_log_level : string := "info".
Definition default_version : Z := 1.

(** ** The document *)

Record Source := mkSource {
  include_key_regex : string;
  exclude_key_regex : string;
}.

Record Destination := mkDestination {
  bucket : string;
  key_prefix : string;
}.

Record Processing := mkProcessing {
  mode : ProcessingMode;
  stream_threshold_bytes : N;
  max_object_bytes : N;
  multipart_part_bytes : N;
  gzip_level : N;
  object_concurrency : N;
  gzip_chunks : N;
}.

Record Behavior := mkBehavior {
  dry_run : bool;
  on_config_error : OnConfigError;
  on_missing_object : OnMissingObject;
  on_unrecognized_object : OnUnrecognizedObject;
  on_parse_error : OnParseError;
  on_object_too_large : OnObjectTooLarge;
  partial_batch_failures : bool;
}.

Record Sqs := mkSqs {
  body_format : SqsBodyFormat;
}.

Record RulesSettings := mkRulesSettings {
  uri : string;
  ttl_seconds : N;
}.

Record Observability := mkObservability {
  metrics_mode : MetricsMode;
  namespace : string;
  log_level : string;
}.

Record Settings := mkSettings {
  s_source : Source;
  s_destination : Destination;
  s_processing : Processing;
  s_behavior : Behavior;
  s_sqs : Sqs;
  s_rules : RulesSettings;
  s_observability : Observability;
}.

(** The parse target: the settings and the schema version. *)
Record Document := mkDocument {
  d_version : Z;
  d_settings : Settings;
}.

Definition Source_default : Source := mkSource default_include_key_regex default_exclude_key_regex.
Definition Destination_default : Destination := mkDestination "" "".
Definition Processing_default : Processing := mkProcessing PmAuto default_stream_threshold_bytes default_max_object_bytes default_multipart_part_bytes default_gzip_level default_object_concurrency default_gzip_chunks.
Definition Behavior_default : Behavior := mkBehavior false CeOpen MoError UoCopy PeCopy TlStream default_partial_batch_failures.
Definition Sqs_default : Sqs := mkSqs SfAuto.
Definition RulesSettings_default : RulesSettings := mkRulesSettings default_rules_uri default_rules_ttl_seconds.
Definition Observability_default : Observability := mkObservability MmEmf default_namespace default_log_level.

Definition Document_default : Document :=
  mkDocument default_version
    (mkSettings Source_default Destination_default Processing_default Behavior_default Sqs_default
       RulesSettings_default Observability_default).

(** ** Field assignment *)

Definition on_source (f : Source -> Source) (d : Document) : Document :=
  let s := d_settings d in
  mkDocument (d_version d)
    (mkSettings (f (s_source s)) (s_destination s) (s_processing s) (s_behavior s) (s_sqs s) (s_rules s) (s_observability s)).
Definition on_destination (f : Destination -> Destination) (d : Document) : Document :=
  let s := d_settings d in
  mkDocument (d_version d)
    (mkSettings (s_source s) (f (s_destination s)) (s_processing s) (s_behavior s) (s_sqs s) (s_rules s) (s_observability s)).
Definition on_processing (f : Processing -> Processing) (d : Document) : Document :=
  let s := d_settings d in
  mkDocument (d_version d)
    (mkSettings (s_source s) (s_destination s) (f (s_processing s)) (s_behavior s) (s_sqs s) (s_rules s) (s_observability s)).
Definition on_behavior (f : Behavior -> Behavior) (d : Document) : Document :=
  let s := d_settings d in
  mkDocument (d_version d)
    (mkSettings (s_source s) (s_destination s) (s_processing s) (f (s_behavior s)) (s_sqs s) (s_rules s) (s_observability s)).
Definition on_sqs (f : Sqs -> Sqs) (d : Document) : Document :=
  let s := d_settings d in
  mkDocument (d_version d)
    (mkSettings (s_source s) (s_destination s) (s_processing s) (s_behavior s) (f (s_sqs s)) (s_rules s) (s_observability s)).
Definition on_rules (f : RulesSettings -> RulesSettings) (d : Document) : Document :=
  let s := d_settings d in
  mkDocument (d_version d)
    (mkSettings (s_source s) (s_destination s) (s_processing s) (s_behavior s) (s_sqs s) (f (s_rules s)) (s_observability s)).
Definition on_observability (f : Observability -> Observability) (d : Document) : Document :=
  let s := d_settings d in
  mkDocument (d_version d)
    (mkSettings (s_source s) (s_destination s) (s_processing s) (s_behavior s) (s_sqs s) (s_rules s) (f (s_observability s))).

Definition set_include_key_regex (v : string) : Document -> Document :=
  on_source (fun x => mkSource v (exclude_key_regex x)).
Definition set_exclude_key_regex (v : string) : Document -> Document :=
  on_source (fun x => mkSource (include_key_regex x) v).
Definition set_bucket (v : string) : Document -> Document :=
  on_destination (fun x => mkDestination v (key_prefix x)).
Definition set_key_prefix (v : string) : Document -> Document :=
  on_destination (fun x => mkDestination (bucket x) v).
Definition set_mode (v : ProcessingMode) : Document -> Document :=
  on_processing (fun x => mkProcessing v (stream_threshold_bytes x) (max_object_bytes x) (multipart_part_bytes x) (gzip_level x) (object_concurrency x) (gzip_chunks x)).
Definition set_stream_threshold_bytes (v : N) : Document -> Document :=
  on_processing (fun x => mkProcessing (mode x) v (max_object_bytes x) (multipart_part_bytes x) (gzip_level x) (object_concurrency x) (gzip_chunks x)).
Definition set_max_object_bytes (v : N) : Document -> Document :=
  on_processing (fun x => mkProcessing (mode x) (stream_threshold_bytes x) v (multipart_part_bytes x) (gzip_level x) (object_concurrency x) (gzip_chunks x)).
Definition set_multipart_part_bytes (v : N) : Document -> Document :=
  on_processing (fun x => mkProcessing (mode x) (stream_threshold_bytes x) (max_object_bytes x) v (gzip_level x) (object_concurrency x) (gzip_chunks x)).
Definition set_gzip_level (v : N) : Document -> Document :=
  on_processing (fun x => mkProcessing (mode x) (stream_threshold_bytes x) (max_object_bytes x) (multipart_part_bytes x) v (object_concurrency x) (gzip_chunks x)).
Definition set_object_concurrency (v : N) : Document -> Document :=
  on_processing (fun x => mkProcessing (mode x) (stream_threshold_bytes x) (max_object_bytes x) (multipart_part_bytes x) (gzip_level x) v (gzip_chunks x)).
Definition set_gzip_chunks (v : N) : Document -> Document :=
  on_processing (fun x => mkProcessing (mode x) (stream_threshold_bytes x) (max_object_bytes x) (multipart_part_bytes x) (gzip_level x) (object_concurrency x) v).
Definition set_dry_run (v : bool) : Document -> Document :=
  on_behavior (fun x => mkBehavior v (on_config_error x) (on_missing_object x) (on_unrecognized_object x) (on_parse_error x) (on_object_too_large x) (partial_batch_failures x)).
Definition set_on_config_error (v : OnConfigError) : Document -> Document :=
  on_behavior (fun x => mkBehavior (dry_run x) v (on_missing_object x) (on_unrecognized_object x) (on_parse_error x) (on_object_too_large x) (partial_batch_failures x)).
Definition set_on_missing_object (v : OnMissingObject) : Document -> Document :=
  on_behavior (fun x => mkBehavior (dry_run x) (on_config_error x) v (on_unrecognized_object x) (on_parse_error x) (on_object_too_large x) (partial_batch_failures x)).
Definition set_on_unrecognized_object (v : OnUnrecognizedObject) : Document -> Document :=
  on_behavior (fun x => mkBehavior (dry_run x) (on_config_error x) (on_missing_object x) v (on_parse_error x) (on_object_too_large x) (partial_batch_failures x)).
Definition set_on_parse_error (v : OnParseError) : Document -> Document :=
  on_behavior (fun x => mkBehavior (dry_run x) (on_config_error x) (on_missing_object x) (on_unrecognized_object x) v (on_object_too_large x) (partial_batch_failures x)).
Definition set_on_object_too_large (v : OnObjectTooLarge) : Document -> Document :=
  on_behavior (fun x => mkBehavior (dry_run x) (on_config_error x) (on_missing_object x) (on_unrecognized_object x) (on_parse_error x) v (partial_batch_failures x)).
Definition set_partial_batch_failures (v : bool) : Document -> Document :=
  on_behavior (fun x => mkBehavior (dry_run x) (on_config_error x) (on_missing_object x) (on_unrecognized_object x) (on_parse_error x) (on_object_too_large x) v).
Definition set_body_format (v : SqsBodyFormat) : Document -> Document :=
  on_sqs (fun x => mkSqs v).
Definition set_uri (v : string) : Document -> Document :=
  on_rules (fun x => mkRulesSettings v (ttl_seconds x)).
Definition set_ttl_seconds (v : N) : Document -> Document :=
  on_rules (fun x => mkRulesSettings (uri x) v).
Definition set_metrics_mode (v : MetricsMode) : Document -> Document :=
  on_observability (fun x => mkObservability v (namespace x) (log_level x)).
Definition set_namespace (v : string) : Document -> Document :=
  on_observability (fun x => mkObservability (metrics_mode x) v (log_level x)).
Definition set_log_level (v : string) : Document -> Document :=
  on_observability (fun x => mkObservability (metrics_mode x) (namespace x) v).

(** ** Environment overrides *)

(** [apply]: the variable's value, parsed, assigned with [set]. *)
Definition apply {T} (from_str : string -> result Msg T) (env : string -> option string)
    (key : string) (set : T -> Document -> Document) (d : Document) : result ConfigError Document :=
  match env key with
  | Some raw =>
      match from_str raw with
      | Ok value => Ok (set value d)
      | Err e => Err (CfgParse (Fmt "invalid {key}={raw:?}: {e}" [Lit key; Lit raw; e]))
      end
  | None => Ok d
  end.

Definition apply_env (env : string -> option string) (d : Document) : result ConfigError Document :=
  d ← apply parse_string env "CT_DEST_BUCKET" set_bucket d;
  d ← apply parse_string env "CT_KEY_PREFIX" set_key_prefix d;
  d ← apply parse_string env "CT_SOURCE_INCLUDE_KEY_REGEX" set_include_key_regex d;
  d ← apply parse_string env "CT_SOURCE_EXCLUDE_KEY_REGEX" set_exclude_key_regex d;
  d ← apply ProcessingMode_from_str env "CT_PROCESSING_MODE" set_mode d;
  d ← apply (parse_int U64_MAX) env "CT_STREAM_THRESHOLD_BYTES" set_stream_threshold_bytes d;
  d ← apply (parse_int U64_MAX) env "CT_MAX_OBJECT_BYTES" set_max_object_bytes d;
  d ← apply (parse_int U64_MAX) env "CT_MULTIPART_PART_BYTES" set_multipart_part_bytes d;
  d ← apply (parse_int U32_MAX) env "CT_GZIP_LEVEL" set_gzip_level d;
  d ← apply (parse_int USIZE_MAX) env "CT_OBJECT_CONCURRENCY" set_object_concurrency d;
  d ← apply (parse_int USIZE_MAX) env "CT_GZIP_CHUNKS" set_gzip_chunks d;
  d ← apply parse_bool env "CT_DRY_RUN" set_dry_run d;
  d ← apply OnConfigError_from_str env "CT_ON_CONFIG_ERROR" set_on_config_error d;
  d ← apply OnMissingObject_from_str env "CT_ON_MISSING_OBJECT" set_on_missing_object d;
  d ← apply OnUnrecognizedObject_from_str env "CT_ON_UNRECOGNIZED_OBJECT" set_on_unrecognized_object d;
  d ← apply OnParseError_from_str env "CT_ON_PARSE_ERROR" set_on_parse_error d;
  d ← apply OnObjectTooLarge_from_str env "CT_ON_OBJECT_TOO_LARGE" set_on_object_too_large d;
  d ← apply parse_bool env "CT_PARTIAL_BATCH_FAILURES" set_partial_batch_failures d;
  d ← apply SqsBodyFormat_from_str env "CT_SQS_BODY_FORMAT" set_body_format d;
  d ← apply parse_string env "CT_RULES_URI" set_uri d;
  d ← apply (parse_int U64_MAX) env "CT_RULES_TTL_SECONDS" set_ttl_seconds d;
  d ← apply MetricsMode_from_str env "CT_METRICS" set_metrics_mode d;
  d ← apply parse_string env "CT_METRICS_NAMESPACE" set_namespace d;
  d ← apply parse_string env "CT_LOG_LEVEL" set_log_level d;
  Ok d.

(** ** Validation *)

(** [KeyFilter]. *)
Record KeyFilter {R : RegexCrate} := mkKeyFilter { kf_include : Regex; kf_exclude : Regex }.

(** [serde_yaml_ng::from_slice::<Document>], with the derived deserializers. *)
Class SettingsCrate := { yaml_document : string -> result string Document }.

Section settings.
Context {R : RegexCrate} {SC : SettingsCrate}.

Definition compile_key_regex (pattern field : string) : result ConfigError Regex :=
  map_err (fun e => CfgParse (Fmt "{field} {pattern:?} is not a valid regex: {e}"
                                [Lit field; Lit pattern; Lit e]))
    (regex_build REGEX_SIZE_LIMIT pattern).

Definition KeyFilter_compile (source : Source) : result ConfigError KeyFilter :=
  include ← compile_key_regex (include_key_regex source) "source.include_key_regex";
  exclude ← compile_key_regex (exclude_key_regex source) "source.exclude_key_regex";
  Ok (mkKeyFilter _ include exclude).

Definition KeyFilter_allows (f : KeyFilter) (key : string) : bool :=
  regex_is_match (kf_include f) key && negb (regex_is_match (kf_exclude f) key).

Definition Document_validate (d : Document) : result ConfigError unit :=
  let s := d_settings d in
  let p := s_processing s in
  if negb (d_version d =? 1)%Z then
    Err (CfgParse (Fmt "unsupported settings version {}: must be 1 (this is a plain integer, not semver)"
                     [Lit (pretty (d_version d))]))
  else if str_is_empty (bucket (s_destination s)) then
    Err (CfgParse (Lit "destination.bucket is required: set it in the settings file or via CT_DEST_BUCKET"))
  else
  _ ← KeyFilter_compile (s_source s);
  if (MAX_GZIP_LEVEL <? gzip_level p)%N then
    Err (CfgParse (Fmt "processing.gzip_level {} is out of range: must be 0..={MAX_GZIP_LEVEL} (9 = best compression) — flate2's rust_backend panics on higher values, on the first object processed, not at startup"
                     [Lit (pretty (gzip_level p))]))
  else if (object_concurrency p =? 0)%N || (MAX_OBJECT_CONCURRENCY <? object_concurrency p)%N then
    Err (CfgParse (Fmt "processing.object_concurrency {} is out of range: must be 1..={MAX_OBJECT_CONCURRENCY}. Each in-flight object holds its own decompressed body, so this multiplies peak memory by up to processing.max_object_bytes per slot"
                     [Lit (pretty (object_concurrency p))]))
  else if (gzip_chunks p =? 0)%N || (MAX_GZIP_CHUNKS <? gzip_chunks p)%N then
    Err (CfgParse (Fmt "processing.gzip_chunks {} is out of range: must be 1..={MAX_GZIP_CHUNKS}. Above 1, buffer mode emits a multi-member gzip and compresses on that many threads: the payload is unchanged but the object grows and only pays on a Lambda with more than one vCPU"
                     [Lit (pretty (gzip_chunks p))]))
  else if (max_object_bytes p <? stream_threshold_bytes p)%N then
    Err (CfgParse (Fmt "processing.max_object_bytes ({} bytes, buffer mode's memory cap) is smaller than processing.stream_threshold_bytes ({} bytes, the compressed-size estimate that selects buffer vs. stream mode): any object routed to buffer mode is guaranteed to exceed max_object_bytes"
                     [Lit (pretty (max_object_bytes p)); Lit (pretty (stream_threshold_bytes p))]))
  else if (multipart_part_bytes p <? S3_MIN_MULTIPART_PART_BYTES)%N then
    Err (CfgParse (Fmt "processing.multipart_part_bytes ({} bytes) is below S3's hard minimum of {} bytes (5 MiB) for a non-final multipart part: CompleteMultipartUpload would fail with EntityTooSmall mid-object, after bytes are already uploaded"
                     [Lit (pretty (multipart_part_bytes p)); Lit (pretty S3_MIN_MULTIPART_PART_BYTES)]))
  else Ok tt.

Definition from_parts (bytes : option string) (env : string -> option string) :
    result ConfigError Settings :=
  doc ← match bytes with
        | Some b => map_err (fun e => CfgParse (Lit e)) (yaml_document b)
        | None => Ok Document_default
        end;
  doc ← apply_env env doc;
  _ ← Document_validate doc;
  Ok (d_settings doc).

(** [read_settings_uri]; [read] is [std::fs::read] with its error rendered. *)
Definition read_settings_uri (read : string -> result string string) (uri : string) :
    result ConfigError string :=
  path ← ok_or (CfgSource (Fmt "unsupported SETTINGS_URI scheme {uri:?}: core has no AWS SDK dependency, so only file:// is resolvable without a composition root fetching bytes for it" [Lit uri]))
           (strip_prefix "file://" uri);
  map_err (fun e => CfgSource (Fmt "failed to read {uri:?}: {e}" [Lit uri; Lit e])) (read path).

Definition load (read : string -> result string string) (env : string -> option string) :
    result ConfigError Settings :=
  bytes ← match env "SETTINGS_URI" with
          | Some uri => Some <$> read_settings_uri read uri
          | None => Ok None
          end;
  from_parts bytes env.

(** ** Specification *)

(** What a loaded [Settings] guarantees to the rest of the program. *)
Record settings_valid (s : Settings) : Prop := {
  sv_bucket : bucket (s_destination s) <> "";
  sv_key_filter : exists f, KeyFilter_compile (s_source s) = Ok f;
  sv_gzip_level : (gzip_level (s_processing s) <= 9)%N;
  sv_concurrency : (1 <= object_concurrency (s_processing s) <= 64)%N;
  sv_chunks : (1 <= gzip_chunks (s_processing s) <= 16)%N;
  sv_threshold : (stream_threshold_bytes (s_processing s) <= max_object_bytes (s_processing s))%N;
  sv_part : (5242880 <= multipart_part_bytes (s_processing s))%N;
}.
End settings.

(** What the overrides leave in one field: the parsed variable when it is set, else the
    value of the file. *)
Definition overridden {T} (from_str : string -> result Msg T) (env : string -> option string)
    (key : string) (old new : T) : Prop :=
  match env key with Some raw => from_str raw = Ok new | None => new = old end.

Record env_wins (env : string -> option string) (s s' : Settings) : Prop := {
  ew_bucket : overridden parse_string env "CT_DEST_BUCKET" (bucket (s_destination s)) (bucket (s_destination s'));
  ew_key_prefix : overridden parse_string env "CT_KEY_PREFIX" (key_prefix (s_destination s)) (key_prefix (s_destination s'));
  ew_include_key_regex : overridden parse_string env "CT_SOURCE_INCLUDE_KEY_REGEX" (include_key_regex (s_source s)) (include_key_regex (s_source s'));
  ew_exclude_key_regex : overridden parse_string env "CT_SOURCE_EXCLUDE_KEY_REGEX" (exclude_key_regex (s_source s)) (exclude_key_regex (s_source s'));
  ew_mode : overridden ProcessingMode_from_str env "CT_PROCESSING_MODE" (mode (s_processing s)) (mode (s_processing s'));
  ew_stream_threshold_bytes : overridden (parse_int U64_MAX) env "CT_STREAM_THRESHOLD_BYTES" (stream_threshold_bytes (s_processing s)) (stream_threshold_bytes (s_processing s'));
  ew_max_object_bytes : overridden (parse_int U64_MAX) env "CT_MAX_OBJECT_BYTES" (max_object_bytes (s_processing s)) (max_object_bytes (s_processing s'));
  ew_multipart_part_bytes : overridden (parse_int U64_MAX) env "CT_MULTIPART_PART_BYTES" (multipart_part_bytes (s_processing s)) (multipart_part_bytes (s_processing s'));
  ew_gzip_level : overridden (parse_int U32_MAX) env "CT_GZIP_LEVEL" (gzip_level (s_processing s)) (gzip_level (s_processing s'));
  ew_object_concurrency : overridden (parse_int USIZE_MAX) env "CT_OBJECT_CONCURRENCY" (object_concurrency (s_processing s)) (object_concurrency (s_processing s'));
  ew_gzip_chunks : overridden (parse_int USIZE_MAX) env "CT_GZIP_CHUNKS" (gzip_chunks (s_processing s)) (gzip_chunks (s_processing s'));
  ew_dry_run : overridden parse_bool env "CT_DRY_RUN" (dry_run (s_behavior s)) (dry_run (s_behavior s'));
  ew_on_config_error : overridden OnConfigError_from_str env "CT_ON_CONFIG_ERROR" (on_config_error (s_behavior s)) (on_config_error (s_behavior s'));
  ew_on_missing_object : overridden OnMissingObject_from_str env "CT_ON_MISSING_OBJECT" (on_missing_object (s_behavior s)) (on_missing_object (s_behavior s'));
  ew_on_unrecognized_object : overridden OnUnrecognizedObject_from_str env "CT_ON_UNRECOGNIZED_OBJECT" (on_unrecognized_object (s_behavior s)) (on_unrecognized_object (s_behavior s'));
  ew_on_parse_error : overridden OnParseError_from_str env "CT_ON_PARSE_ERROR" (on_parse_error (s_behavior s)) (on_parse_error (s_behavior s'));
  ew_on_object_too_large : overridden OnObjectTooLarge_from_str env "CT_ON_OBJECT_TOO_LARGE" (on_object_too_large (s_behavior s)) (on_object_too_large (s_behavior s'));
  ew_partial_batch_failures : overridden parse_bool env "CT_PARTIAL_BATCH_FAILURES" (partial_batch_failures (s_behavior s)) (partial_batch_failures (s_behavior s'));
  ew_body_format : overridden SqsBodyFormat_from_str env "CT_SQS_BODY_FORMAT" (body_format (s_sqs s)) (body_format (s_sqs s'));
  ew_uri : overridden parse_string env "CT_RULES_URI" (uri (s_rules s)) (uri (s_rules s'));
  ew_ttl_seconds : overridden (parse_int U64_MAX) env "CT_RULES_TTL_SECONDS" (ttl_seconds (s_rules s)) (ttl_seconds (s_rules s'));
  ew_metrics_mode : overridden MetricsMode_from_str env "CT_METRICS" (metrics_mode (s_observability s)) (metrics_mode (s_observability s'));
  ew_namespace : overridden parse_string env "CT_METRICS_NAMESPACE" (namespace (s_observability s)) (namespace (s_observability s'));
  ew_log_level : overridden parse_string env "CT_LOG_LEVEL" (log_level (s_observability s)) (log_level (s_observability s'));
}.

(** ** Lemmas *)

(** One override step: what it does to its own field and that it keeps the others. *)
Lemma apply_ok {T} (from_str : string -> result Msg T) env key set d d' :
  apply from_str env key set d = Ok d' ->
  match env key with
  | Some raw => exists v, from_str raw = Ok v /\ d' = set v d
  | None => d' = d
  end.
Proof.
  unfold apply. destruct (env key) as [raw|]; [|by intros [= ->]].
  destruct (from_str raw) as [v|]; [|done]. intros [= <-]. eauto.
Qed.

Section valid.
Context {R : RegexCrate} {SC : SettingsCrate}.

Lemma validate_valid d : Document_validate d = Ok tt -> settings_valid (d_settings d).
Proof.
  unfold Document_validate. destruct (negb _); [done|]. destruct (str_is_empty _) eqn:Hb; [done|].
  destruct (KeyFilter_compile _) as [f|] eqn:Hf; [cbn|done].
  repeat (case_match; [done|]). intros _. bools.
  repeat match goal with
  | H : (_ <? _)%N = false |- _ => apply N.ltb_ge in H
  | H : (_ =? _)%N = false |- _ => apply N.eqb_neq in H
  end.
  unfold MAX_GZIP_LEVEL, MAX_OBJECT_CONCURRENCY, MAX_GZIP_CHUNKS, S3_MIN_MULTIPART_PART_BYTES in *.
  constructor; eauto; try lia. intros E. by rewrite E in Hb.
Qed.

Lemma valid_validate d :
  d_version d = 1%Z -> settings_valid (d_settings d) -> Document_validate d = Ok tt.
Proof.
  intros Hv [Hb [f Hf] Hg Hc Hch Ht Hp]. unfold Document_validate. rewrite Hv. cbn [negb Z.eqb Pos.eqb].
  destruct (str_is_empty _) eqn:E; [by destruct (bucket _)|]. rewrite Hf. cbn.
  unfold MAX_GZIP_LEVEL, MAX_OBJECT_CONCURRENCY, MAX_GZIP_CHUNKS, S3_MIN_MULTIPART_PART_BYTES in *.
  repeat match goal with |- context [(?a <? ?b)%N] => rewrite (proj2 (N.ltb_ge a b)) by lia end.
  repeat match goal with |- context [(?a =? ?b)%N] => rewrite (proj2 (N.eqb_neq a b)) by lia end.
  done.
Qed.
End valid.

Lemma apply_other {T F} (g : Document -> F) (from_str : string -> result Msg T) env key set d d' :
  apply from_str env key set d = Ok d' -> (forall v d, g (set v d) = g d) -> g d' = g d.
Proof. intros H Hg. apply apply_ok in H. destruct (env key); [destruct H as (v & _ & ->)|subst]; auto. Qed.

Lemma apply_own {T} (g : Document -> T) (from_str : string -> result Msg T) env key set d d' :
  apply from_str env key set d = Ok d' -> (forall v d, g (set v d) = v) ->
  overridden from_str env key (g d) (g d').
Proof.
  intros H Hg. apply apply_ok in H. unfold overridden.
  destruct (env key); [destruct H as (v & -> & ->); by rewrite Hg|by subst].
Qed.

(** Walk a field back through the override steps that do not assign it. *)
Ltac rewind G :=
  match goal with
  | H : apply _ _ _ _ ?d = Ok ?d' |- context [G ?d'] =>
      rewrite (apply_other G _ _ _ _ _ _ H) by reflexivity
  end.

(** The field [g]: rewind to the step that assigns it, and from there to the start. *)
Ltac override_field g :=
  let G := fresh "G" in
  pose (G := g);
  match goal with
  | |- overridden ?p ?env ?k ?old ?new =>
      match goal with
      | d0 : Document, dn : Document |- _ =>
          change (overridden p env k (G d0) (G dn));
          repeat rewind G;
          match goal with
          | H : apply _ _ _ _ ?d1 = Ok ?d2 |- overridden _ _ _ _ (G ?d2) =>
              let E := fresh "E" in
              assert (G d1 = G d0) as E by (repeat rewind G; reflexivity);
              exact (eq_rect (G d1) (fun o => overridden p env k o (G d2))
                       (apply_own G _ _ _ _ _ _ H (fun _ _ => eq_refl)) (G d0) E)
          end
      end
  end.

Lemma apply_env_wins env d d' : apply_env env d = Ok d' -> env_wins env (d_settings d) (d_settings d').
Proof.
  unfold apply_env. intros H.
  repeat (apply result_bind_ok in H; let d1 := fresh "d" in let H1 := fresh "H" in
          destruct H as (d1 & H1 & H)).
  injection H as <-.
  constructor.
  - override_field (fun d => bucket (s_destination (d_settings d))).
  - override_field (fun d => key_prefix (s_destination (d_settings d))).
  - override_field (fun d => include_key_regex (s_source (d_settings d))).
  - override_field (fun d => exclude_key_regex (s_source (d_settings d))).
  - override_field (fun d => mode (s_processing (d_settings d))).
  - override_field (fun d => stream_threshold_bytes (s_processing (d_settings d))).
  - override_field (fun d => max_object_bytes (s_processing (d_settings d))).
  - override_field (fun d => multipart_part_bytes (s_processing (d_settings d))).
  - override_field (fun d => gzip_level (s_processing (d_settings d))).
  - override_field (fun d => object_concurrency (s_processing (d_settings d))).
  - override_field (fun d => gzip_chunks (s_processing (d_settings d))).
  - override_field (fun d => dry_run (s_behavior (d_settings d))).
  - override_field (fun d => on_config_error (s_behavior (d_settings d))).
  - override_field (fun d => on_missing_object (s_behavior (d_settings d))).
  - override_field (fun d => on_unrecognized_object (s_behavior (d_settings d))).
  - override_field (fun d => on_parse_error (s_behavior (d_settings d))).
  - override_field (fun d => on_object_too_large (s_behavior (d_settings d))).
  - override_field (fun d => partial_batch_failures (s_behavior (d_settings d))).
  - override_field (fun d => body_format (s_sqs (d_settings d))).
  - override_field (fun d => uri (s_rules (d_settings d))).
  - override_field (fun d => ttl_seconds (s_rules (d_settings d))).
  - override_field (fun d => metrics_mode (s_observability (d_settings d))).
  - override_field (fun d => namespace (s_observability (d_settings d))).
  - override_field (fun d => log_level (s_observability (d_settings d))).
Qed.

Section from_parts.
Context {R : RegexCrate} {SC : SettingsCrate}.

(** The document the overrides start from. *)
Definition base_document (bytes : option string) (d : Document) : Prop :=
  match bytes with Some b => yaml_document b = Ok d | None => d = Document_default end.

Lemma from_parts_inv bytes env s :
  from_parts bytes env = Ok s <->
  exists d0 d1, base_document bytes d0 /\ apply_env env d0 = Ok d1 /\
    Document_validate d1 = Ok tt /\ s = d_settings d1.
Proof.
  unfold from_parts, base_document. rewrite result_bind_ok. split.
  - intros (d0 & Hd & H). apply result_bind_ok in H as (d1 & He & H).
    apply result_bind_ok in H as ([] & Hv & H). simplify_eq. exists d0, d1. split_and!; try done.
    destruct bytes; [|congruence]. destruct (yaml_document _); cbn in Hd; congruence.
  - intros (d0 & d1 & Hd & He & Hv & ->). exists d0. split.
    + destruct bytes; [by rewrite Hd|by subst].
    + rewrite He. cbn. by rewrite Hv.
Qed.
End from_parts.

(** ** Properties *)

(** C38: [Settings::from_parts] loads exactly the documents that, after the overrides, have
    version 1 and satisfy every range the rest of the program relies on: a destination
    bucket, key patterns that compile, a gzip level and chunk count flate2 accepts, a
    bounded concurrency, a memory cap above the stream threshold and parts S3 accepts. *)
Theorem from_parts_spec {R : RegexCrate} {SC : SettingsCrate} bytes env s :
  from_parts bytes env = Ok s <->
  exists d0 d1, base_document bytes d0 /\ apply_env env d0 = Ok d1 /\
    d_version d1 = 1%Z /\ settings_valid (d_settings d1) /\ s = d_settings d1.
Proof.
  rewrite from_parts_inv. split; intros (d0 & d1 & Hd & He & H).
  - destruct H as [Hv ->]. exists d0, d1. split_and!; try done; [|by apply validate_valid].
    unfold Document_validate in Hv. destruct (d_version d1 =? 1)%Z eqn:E; [|done]. by apply Z.eqb_eq.
  - destruct H as (H1 & H2 & ->). exists d0, d1. split_and!; try done. by apply valid_validate.
Qed.

(** The environment wins over the file, field by field: every field of the loaded
    settings is the parsed value of its variable when the variable is set, and the value
    of the file, or the built-in default, when it is not. *)
Theorem from_parts_env_wins {R : RegexCrate} {SC : SettingsCrate} bytes env s :
  from_parts bytes env = Ok s ->
  exists d0, base_document bytes d0 /\ env_wins env (d_settings d0) s.
Proof.
  intros (d0 & d1 & Hd & He & _ & ->)%from_parts_inv. exists d0. split; [done|].
  by apply apply_env_wins.
Qed.

(** ** Witness *)

Definition demo_env (key : string) : option string :=
  if decide (key = "CT_DEST_BUCKET") then Some "siem"
  else if decide (key = "CT_GZIP_LEVEL") then Some "9"
  else if decide (key = "CT_ON_PARSE_ERROR") then Some "error" else None.

Definition demo_settings : Settings :=
  mkSettings Source_default (mkDestination "siem" "")
    (mkProcessing PmAuto default_stream_threshold_bytes default_max_object_bytes
       default_multipart_part_bytes 9 1 1)
    (mkBehavior false CeOpen MoError UoCopy PeError TlStream true)
    Sqs_default RulesSettings_default Observability_default.

Lemma from_parts_env_wins_witness :
  exists d0, base_document (SC := Build_SettingsCrate (fun _ => Err "no file")) None d0 /\
    env_wins demo_env (d_settings d0) demo_settings.
Proof.
  apply (from_parts_env_wins (R := ref_regex) (SC := Build_SettingsCrate (fun _ => Err "no file"))).
  vm_compute. reflexivity.
Defined.
