(* ===== verification/Effects.v ===== *)
(** * Effects: shared state, errors and panics

    The monad of the code that mutates shared state and returns [Result]: a computation
    takes the state and leaves it changed, with a value, an error of type [E], or a panic.
    [?] propagates errors, [match] on a result catches them ([io_try]), and nothing catches
    a panic: it ends the process, as being killed does.  [wp] is the weakest precondition its
    lemmas are proved with. *)

From S2P Require Import Prelude.

Inductive Exit (E : Type) : Type :=
  | Fail (e : E)
  | Panic (msg : string).
Arguments Fail {E} e.
Arguments Panic {E} msg.

(** No panic, and none unless [P]. *)
Definition quiet {E A} (r : result (Exit E) A) : Prop := forall msg, r <> Err (Panic msg).

Definition panics_if {E A} (P : Prop) (r : result (Exit E) A) : Prop :=
  match r with Err (Panic _) => P | _ => True end.

Lemma panics_if_quiet {E A} P (r : result (Exit E) A) : ~ P -> panics_if P r -> quiet r.
Proof. intros HP. destruct r as [|[]]; [done|done|]. by intros ?%HP. Qed.

Definition Io (W E A : Type) : Type := W -> result (Exit E) A * W.

Section io.
Context {W E : Type}.

#[export] Instance io_ret : MRet (Io W E) := fun A a w => (Ok a, w).

#[export] Instance io_bind : MBind (Io W E) := fun A B k io w =>
  match io w with
  | (Ok a, w) => k a w
  | (Err x, w) => (Err x, w)
  end.

Definition io_fail {A} (e : E) : Io W E A := fun w => (Err (Fail e), w).
Definition io_panic {A} (msg : string) : Io W E A := fun w => (Err (Panic msg), w).
Definition io_modify (f : W -> W) : Io W E unit := fun w => (Ok tt, f w).

(** [r?] *)
Definition io_of_result {A} (r : result E A) : Io W E A :=
  match r with Ok a => mret a | Err e => io_fail e end.

(** [match io { Ok(..) => .., Err(..) => .. }] *)
Definition io_try {A} (io : Io W E A) : Io W E (result E A) := fun w =>
  match io w with
  | (Ok a, w) => (Ok (Ok a), w)
  | (Err (Fail e), w) => (Ok (Err e), w)
  | (Err (Panic msg), w) => (Err (Panic msg), w)
  end.

(** The call of a function that returns a [Result], or panics. *)
Definition io_call {E' A} (r : result (Exit E') A) : Io W E (result E' A) := fun w =>
  match r with
  | Ok a => (Ok (Ok a), w)
  | Err (Fail e) => (Ok (Err e), w)
  | Err (Panic msg) => (Err (Panic msg), w)
  end.

(** ** Weakest preconditions *)

Definition wp {A} (io : Io W E A) (Q : result (Exit E) A -> W -> Prop) (w : W) : Prop :=
  Q (io w).1 (io w).2.

(** The continuation of a bind. *)
Definition wp_then {A B} (k : A -> Io W E B) (Q : result (Exit E) B -> W -> Prop)
    (r : result (Exit E) A) (w : W) : Prop :=
  match r with Ok a => wp (k a) Q w | Err x => Q (Err x) w end.

Lemma wp_ret {A} (a : A) Q w : wp (mret a) Q w <-> Q (Ok a) w.
Proof. done. Qed.

Lemma wp_bind {A B} (io : Io W E A) (k : A -> Io W E B) Q w :
  wp (io ≫= k) Q w <-> wp io (wp_then k Q) w.
Proof.
  unfold wp, wp_then, mbind, io_bind. by destruct (io w) as [[a|x] w'].
Qed.

Lemma wp_fail {A} (e : E) (Q : result (Exit E) A -> W -> Prop) w : wp (io_fail e) Q w <-> Q (Err (Fail e)) w.
Proof. done. Qed.

Lemma wp_modify f Q w : wp (io_modify f) Q w <-> Q (Ok tt) (f w).
Proof. done. Qed.

Lemma wp_of_result {A} (r : result E A) Q w :
  wp (io_of_result r) Q w <-> match r with Ok a => Q (Ok a) w | Err e => Q (Err (Fail e)) w end.
Proof. by destruct r. Qed.

Lemma wp_try {A} (io : Io W E A) Q w :
  wp (io_try io) Q w <->
  wp io (fun r w => match r with
                    | Ok a => Q (Ok (Ok a)) w
                    | Err (Fail e) => Q (Ok (Err e)) w
                    | Err (Panic msg) => Q (Err (Panic msg)) w
                    end) w.
Proof. unfold wp, io_try. by destruct (io w) as [[a|[e|msg]] w']. Qed.

Lemma wp_mono {A} (io : Io W E A) (P Q : result (Exit E) A -> W -> Prop) w :
  (forall r w', P r w' -> Q r w') -> wp io P w -> wp io Q w.
Proof. unfold wp. auto. Qed.

(** Every computation has the exact outcome it has. *)
Lemma wp_run {A} (io : Io W E A) Q w r w' : io w = (r, w') -> wp io Q w -> Q r w'.
Proof. unfold wp. by intros ->. Qed.
End io.

#[export] Hint Rewrite @wp_ret @wp_fail @wp_modify @wp_of_result @wp_try : wp.

(** One bind, one primitive. *)
Ltac wp_step :=
  first [ rewrite wp_ret | rewrite wp_fail | rewrite wp_modify | rewrite wp_of_result
        | rewrite wp_try | rewrite wp_bind; unfold wp_then ]; cbv beta.
