(* ===== verification/Metrics.v ===== *)
(** * Metrics ([core/src/metrics.rs]) and the record tally ([core/src/process/tally.rs])

    [Metrics] is the process-lived set of atomic counters; an [AtomicU64] field is a
    value of the map [m_counters] from the field's name, and [fetch_add] wraps at 2^64.
    [RecordTally] holds one object's record counters until its fate is known; a tally
    counts the records of one object in memory, so its own counters stay unbounded. *)

From S2P Require Import Prelude Model Json Path Regex Rules Reference Index Project Engine.

(** ** Counters *)

Inductive Counter : Type :=
  | ObjectsProcessed
  | ObjectsSkipped
  | ObjectsFailed
  | ObjectsExcludedByKey
  | UnrecognizedObjects
  | ObjectsCopiedUnparsed
  | RecordsIn
  | RecordsKept
  | RecordsDropped
  | BytesIn
  | BytesOut
  | ConfigLoadErrors
  | ParseErrors
  | DecodeErrors
  | ItemsWithoutObjects.

#[export] Instance Counter_eq_dec : EqDecision Counter.
Proof. solve_decision. Defined.

Record Metrics := mkMetrics {
  m_cold_start_emitted : bool;
  m_counters : Counter -> N;
  m_rule_drops : gmap string N;
}.

(** [Metrics::default()]. *)
Definition Metrics_default : Metrics := mkMetrics false (fun _ => 0%N) ∅.

(** [counter.fetch_add(n)]. *)
Definition fetch_add (c : Counter) (n : N) (m : Metrics) : Metrics :=
  mkMetrics (m_cold_start_emitted m)
    (fun c' => if decide (c' = c) then wrapping_add_u64 (m_counters m c) n else m_counters m c')
    (m_rule_drops m).

Definition add_objects_processed (n : N) : Metrics -> Metrics := fetch_add ObjectsProcessed n.
Definition add_objects_skipped (n : N) : Metrics -> Metrics := fetch_add ObjectsSkipped n.
Definition add_objects_failed (n : N) : Metrics -> Metrics := fetch_add ObjectsFailed n.
Definition add_objects_excluded_by_key (n : N) : Metrics -> Metrics := fetch_add ObjectsExcludedByKey n.
Definition add_unrecognized_objects (n : N) : Metrics -> Metrics := fetch_add UnrecognizedObjects n.
Definition add_objects_copied_unparsed (n : N) : Metrics -> Metrics := fetch_add ObjectsCopiedUnparsed n.
Definition add_records_in (n : N) : Metrics -> Metrics := fetch_add RecordsIn n.
Definition add_records_kept (n : N) : Metrics -> Metrics := fetch_add RecordsKept n.
Definition add_records_dropped (n : N) : Metrics -> Metrics := fetch_add RecordsDropped n.
Definition add_bytes_in (n : N) : Metrics -> Metrics := fetch_add BytesIn n.
Definition add_bytes_out (n : N) : Metrics -> Metrics := fetch_add BytesOut n.
Definition add_config_load_errors (n : N) : Metrics -> Metrics := fetch_add ConfigLoadErrors n.
Definition add_parse_errors (n : N) : Metrics -> Metrics := fetch_add ParseErrors n.
Definition add_decode_errors (n : N) : Metrics -> Metrics := fetch_add DecodeErrors n.
Definition add_items_without_objects (n : N) : Metrics -> Metrics := fetch_add ItemsWithoutObjects n.

Definition record_rule_drops (rule_name : string) (n : N) (m : Metrics) : Metrics :=
  if decide (n = 0%N) then m
  else mkMetrics (m_cold_start_emitted m) (m_counters m)
         (<[rule_name := wrapping_add_u64 (default 0%N (m_rule_drops m !! rule_name)) n]> (m_rule_drops m)).

(** The order of [(String, u64)] pairs. *)
Definition pair_le (p q : string * N) : Prop :=
  if decide (p.1 = q.1) then (p.2 <= q.2)%N else String.le p.1 q.1.

#[export] Instance pair_le_dec : RelDecision pair_le.
Proof. intros p q. unfold pair_le. destruct (decide (p.1 = q.1)); apply _. Defined.

(** Every [swap(0)] of [snapshot_and_reset], and the drained map. *)
Definition snapshot_and_reset (m : Metrics) : MetricSnapshot * Metrics :=
  let cold_start := negb (m_cold_start_emitted m) in
  let rule_drops := merge_sort pair_le (map_to_list (m_rule_drops m)) in
  ({| ms_cold_start := cold_start;
      ms_objects_processed := m_counters m ObjectsProcessed;
      ms_objects_skipped := m_counters m ObjectsSkipped;
      ms_objects_failed := m_counters m ObjectsFailed;
      ms_objects_excluded_by_key := m_counters m ObjectsExcludedByKey;
      ms_unrecognized_objects := m_counters m UnrecognizedObjects;
      ms_objects_copied_unparsed := m_counters m ObjectsCopiedUnparsed;
      ms_records_in := m_counters m RecordsIn;
      ms_records_kept := m_counters m RecordsKept;
      ms_records_dropped := m_counters m RecordsDropped;
      ms_bytes_in := m_counters m BytesIn;
      ms_bytes_out := m_counters m BytesOut;
      ms_config_load_errors := m_counters m ConfigLoadErrors;
      ms_parse_errors := m_counters m ParseErrors;
      ms_decode_errors := m_counters m DecodeErrors;
      ms_items_without_objects := m_counters m ItemsWithoutObjects;
      ms_rule_drops := rule_drops |},
   mkMetrics true (fun _ => 0%N) ∅).

(** The counter a snapshot reports. *)
Definition snapshot_counter (s : MetricSnapshot) (c : Counter) : N :=
  match c with
  | ObjectsProcessed => ms_objects_processed s
  | ObjectsSkipped => ms_objects_skipped s
  | ObjectsFailed => ms_objects_failed s
  | ObjectsExcludedByKey => ms_objects_excluded_by_key s
  | UnrecognizedObjects => ms_unrecognized_objects s
  | ObjectsCopiedUnparsed => ms_objects_copied_unparsed s
  | RecordsIn => ms_records_in s
  | RecordsKept => ms_records_kept s
  | RecordsDropped => ms_records_dropped s
  | BytesIn => ms_bytes_in s
  | BytesOut => ms_bytes_out s
  | ConfigLoadErrors => ms_config_load_errors s
  | ParseErrors => ms_parse_errors s
  | DecodeErrors => ms_decode_errors s
  | ItemsWithoutObjects => ms_items_without_objects s
  end.

(** ** The EMF documents *)

Section emf.
Context {J : JsonCrate}.

Definition metric_names : list string :=
  ["ObjectsProcessed"; "ObjectsSkipped"; "ObjectsFailed"; "ObjectsExcludedByKey"; "UnrecognizedObjects"; "ObjectsCopiedUnparsed"; "RecordsIn"; "RecordsKept"; "RecordsDropped"; "BytesIn"; "BytesOut"; "ConfigLoadErrors"; "ParseErrors"; "DecodeErrors"; "ItemsWithoutObjects"; "ColdStart"].

Definition metric_unit (name : string) : string :=
  if decide (name = "BytesIn" \/ name = "BytesOut") then "Bytes" else "Count".

Definition VU64 (n : N) : Value Number := VNumber (number_of_u64 n).

(** The member ["_aws"] of a document. *)
Definition aws_member (namespace : string) (timestamp : N) (dimensions metrics : list (Value Number)) :
    Value Number :=
  VObject
    [("Timestamp", VU64 timestamp);
     ("CloudWatchMetrics",
      VArray [VObject [("Namespace", VString namespace);
                       ("Dimensions", VArray [VArray dimensions]);
                       ("Metrics", VArray metrics)]])].

Definition metric_definition (name : string) : Value Number :=
  VObject [("Name", VString name); ("Unit", VString (metric_unit name))].

(** [build_lines]; the clock is read by the caller. *)
Definition build_lines (namespace : string) (timestamp : N) (s : MetricSnapshot) :
    list (Value Number) :=
  VObject
    [("_aws", aws_member namespace timestamp [] (map metric_definition metric_names));
     ("ObjectsProcessed", VU64 (ms_objects_processed s));
     ("ObjectsSkipped", VU64 (ms_objects_skipped s));
     ("ObjectsFailed", VU64 (ms_objects_failed s));
     ("ObjectsExcludedByKey", VU64 (ms_objects_excluded_by_key s));
     ("UnrecognizedObjects", VU64 (ms_unrecognized_objects s));
     ("ObjectsCopiedUnparsed", VU64 (ms_objects_copied_unparsed s));
     ("RecordsIn", VU64 (ms_records_in s));
     ("RecordsKept", VU64 (ms_records_kept s));
     ("RecordsDropped", VU64 (ms_records_dropped s));
     ("BytesIn", VU64 (ms_bytes_in s));
     ("BytesOut", VU64 (ms_bytes_out s));
     ("ConfigLoadErrors", VU64 (ms_config_load_errors s));
     ("ParseErrors", VU64 (ms_parse_errors s));
     ("DecodeErrors", VU64 (ms_decode_errors s));
     ("ItemsWithoutObjects", VU64 (ms_items_without_objects s));
     ("ColdStart", VU64 (if ms_cold_start s then 1 else 0))]
  :: map (fun '(rule, count) =>
            VObject
              [("_aws", aws_member namespace timestamp [VString "Rule"]
                          [VObject [("Name", VString "RuleDrops"); ("Unit", VString "Count")]]);
               ("Rule", VString rule);
               ("RuleDrops", VU64 count)]) (ms_rule_drops s).
End emf.

(** ** The tally of one object *)

Record RecordTally := mkRecordTally {
  t_records_in : N;
  t_kept : N;
  t_parse_errors : N;
  t_rule_drops : gmap nat N;
}.

Module RecordTally.
Definition empty : RecordTally := mkRecordTally 0 0 0 ∅.

Definition record_in (t : RecordTally) : RecordTally :=
  mkRecordTally (t_records_in t + 1) (t_kept t) (t_parse_errors t) (t_rule_drops t).

Definition keep (t : RecordTally) : RecordTally :=
  mkRecordTally (t_records_in t) (t_kept t + 1) (t_parse_errors t) (t_rule_drops t).

Definition drop_by_rule (rule_idx : nat) (t : RecordTally) : RecordTally :=
  mkRecordTally (t_records_in t) (t_kept t) (t_parse_errors t)
    (<[rule_idx := (default 0 (t_rule_drops t !! rule_idx) + 1)%N]> (t_rule_drops t)).

Definition parse_error (t : RecordTally) : RecordTally :=
  mkRecordTally (t_records_in t) (t_kept t) (t_parse_errors t + 1) (t_rule_drops t).

Definition kept_count (t : RecordTally) : N := t_kept t.

Section commit.
Context {R : RegexCrate}.

(** The loop of [commit]; a rule number the engine does not have is a panic, which
    [tally_wf] excludes. *)
Definition commit_drops (e : Engine) (drops : list (nat * N)) (m : Metrics) : Metrics :=
  foldl (fun m d => match rule_name e d.1 with
                    | Some name => record_rule_drops name d.2 m
                    | None => m
                    end) m drops.

Definition commit (t : RecordTally) (e : Engine) (m : Metrics) : Metrics :=
  let m := add_records_in (t_records_in t) m in
  let m := add_records_kept (t_kept t) m in
  let m := add_records_dropped (t_records_in t - t_kept t) m in
  let m := add_parse_errors (t_parse_errors t) m in
  commit_drops e (map_to_list (t_rule_drops t)) m.
End commit.
End RecordTally.

(** ** Specification *)

(** One call of a counter method. *)
Inductive MetricEvent : Type :=
  | EvAdd (c : Counter) (n : N)
  | EvRuleDrops (rule_name : string) (n : N).

Definition apply_event (m : Metrics) (ev : MetricEvent) : Metrics :=
  match ev with
  | EvAdd c n => fetch_add c n m
  | EvRuleDrops name n => record_rule_drops name n m
  end.

Definition apply_events (evs : list MetricEvent) (m : Metrics) : Metrics := foldl apply_event m evs.

(** Two metrics no snapshot can tell apart. *)
Definition metrics_eq (m m' : Metrics) : Prop :=
  m_cold_start_emitted m = m_cold_start_emitted m' /\
  (forall c, m_counters m c = m_counters m' c) /\ m_rule_drops m = m_rule_drops m'.

#[export] Instance Metrics_equiv : Equiv Metrics := metrics_eq.

(** The sum of the values of a map of counters. *)
Definition map_sum {K} `{Countable K} (m : gmap K N) : N :=
  foldr (fun p acc => (p.2 + acc)%N) 0%N (map_to_list m).

Definition list_sum {K} (l : list (K * N)) : N := foldr (fun p acc => (p.2 + acc)%N) 0%N l.

(** What a tally says of the records it counted: none is both kept and dropped, none is
    neither, and every drop names a rule of the engine. *)
Record tally_wf (rules : nat) (t : RecordTally) : Prop := {
  tw_kept : (t_kept t <= t_records_in t)%N;
  tw_drops : (map_sum (t_rule_drops t) + t_kept t = t_records_in t)%N;
  tw_rules idx n : t_rule_drops t !! idx = Some n -> idx < rules;
}.

(** ** Lemmas: wrapping counters *)

Lemma wrapping_add_comm3 x a b :
  wrapping_add_u64 (wrapping_add_u64 x a) b = wrapping_add_u64 (wrapping_add_u64 x b) a.
Proof.
  unfold wrapping_add_u64. rewrite !N.Div0.add_mod_idemp_l. f_equal. lia.
Qed.

Lemma wrapping_add_small x a : (x + a <= U64_MAX)%N -> wrapping_add_u64 x a = (x + a)%N.
Proof. intros H. unfold wrapping_add_u64. apply N.mod_small. lia. Qed.

#[export] Instance Metrics_equivalence : Equivalence (≡@{Metrics}).
Proof.
  split.
  - intros m. by split_and!.
  - intros m m' (H1 & H2 & H3). by split_and!.
  - intros m1 m2 m3 (H1 & H2 & H3) (H1' & H2' & H3'). split_and!; try congruence.
Qed.

#[export] Instance apply_event_proper : Proper ((≡) ==> (=) ==> (≡)) apply_event.
Proof.
  intros m m' (H1 & H2 & H3) ev ? <-. destruct ev as [c n|name n]; cbn.
  - split_and!; cbn; try done. intros c'. by rewrite !H2.
  - unfold record_rule_drops. case_decide; [by split_and!|]. split_and!; cbn; try done. by rewrite H3.
Qed.

#[export] Instance apply_events_proper evs : Proper ((≡) ==> (≡)) (apply_events evs).
Proof.
  induction evs as [|ev evs IH]; intros m m' H; cbn; [done|]. apply IH. by rewrite H.
Qed.

Lemma apply_event_comm m a b :
  apply_event (apply_event m a) b ≡ apply_event (apply_event m b) a.
Proof.
  destruct a as [c n|r n], b as [c' n'|r' n']; cbn.
  - split_and!; cbn; try done. intros d. destruct (decide (c = c')) as [->|Hne].
    + repeat case_decide; try done. apply wrapping_add_comm3.
    + by repeat (case_decide; subst).
  - unfold record_rule_drops. case_decide; by split_and!.
  - unfold record_rule_drops. case_decide; by split_and!.
  - unfold record_rule_drops. repeat case_decide; try done. split_and!; cbn; try done.
    destruct (decide (r = r')) as [->|Hne].
    + rewrite !lookup_insert_eq, !insert_insert_eq. cbn. by rewrite wrapping_add_comm3.
    + rewrite !lookup_insert_ne by done. by rewrite insert_insert_ne.
Qed.

Lemma apply_events_perm evs evs' m : evs ≡ₚ evs' -> apply_events evs m ≡ apply_events evs' m.
Proof.
  intros H. revert m. induction H as [|ev evs evs' H IH|a b evs|evs1 evs2 evs3 H1 IH1 H2 IH2];
    intros m; cbn; [done|apply IH| |by rewrite IH1].
  apply apply_events_proper, apply_event_comm.
Qed.

(** ** Lemmas: sums of maps *)

Lemma list_sum_perm {K} (l k : list (K * N)) : l ≡ₚ k -> list_sum l = list_sum k.
Proof. unfold list_sum. induction 1; cbn; lia. Qed.

Lemma map_sum_list {K} `{Countable K} (m : gmap K N) : map_sum m = list_sum (map_to_list m).
Proof. done. Qed.

Lemma map_sum_delete {K} `{Countable K} (m : gmap K N) k :
  map_sum m = (default 0 (m !! k) + map_sum (delete k m))%N.
Proof.
  destruct (m !! k) as [v|] eqn:E; cbn.
  - rewrite !map_sum_list, <-(list_sum_perm _ _ (map_to_list_delete m k v E)). done.
  - by rewrite delete_id.
Qed.

Lemma map_sum_insert {K} `{Countable K} (m : gmap K N) k v :
  (map_sum (<[k:=v]> m) + default 0 (m !! k) = v + map_sum m)%N.
Proof.
  rewrite (map_sum_delete (<[k:=v]> m) k), (map_sum_delete m k), lookup_insert_eq. cbn.
  rewrite delete_insert_eq. lia.
Qed.

Lemma map_sum_empty {K} `{Countable K} : map_sum (∅ : gmap K N) = 0%N.
Proof. by rewrite map_sum_list, map_to_list_empty. Qed.

Lemma map_sum_lookup {K} `{Countable K} (m : gmap K N) k : (default 0 (m !! k) <= map_sum m)%N.
Proof. rewrite (map_sum_delete m k). lia. Qed.

(** ** Lemmas: the tally *)

Lemma tally_empty_wf n : tally_wf n RecordTally.empty.
Proof. by split. Qed.

Lemma tally_keep_wf n t : tally_wf n t -> tally_wf n (RecordTally.keep (RecordTally.record_in t)).
Proof. intros [H1 H2 H3]. split; cbn in *; [lia|lia|done]. Qed.

Lemma tally_error_wf n t : tally_wf n t -> tally_wf n (RecordTally.parse_error t).
Proof. by intros [H1 H2 H3]. Qed.

Lemma tally_drop_wf n t idx :
  idx < n -> tally_wf n t -> tally_wf n (RecordTally.drop_by_rule idx (RecordTally.record_in t)).
Proof.
  intros Hi [H1 H2 H3]. split; cbn in *; [lia| |].
  - pose proof (map_sum_insert (t_rule_drops t) idx (default 0 (t_rule_drops t !! idx) + 1)%N). lia.
  - intros i k. rewrite lookup_insert. case_decide; [by subst|apply H3].
Qed.

Section commit_facts.
Context {R : RegexCrate}.

(** The calls [commit] makes. *)
Definition commit_events (t : RecordTally) (e : Engine) : list MetricEvent :=
  [EvAdd RecordsIn (t_records_in t); EvAdd RecordsKept (t_kept t);
   EvAdd RecordsDropped (t_records_in t - t_kept t); EvAdd ParseErrors (t_parse_errors t)]
  ++ omap (fun d => (fun name => EvRuleDrops name d.2) <$> rule_name e d.1)
       (map_to_list (t_rule_drops t)).

Lemma commit_drops_is_events (e : Engine) l m :
  RecordTally.commit_drops e l m =
  apply_events (omap (fun d => (fun name => EvRuleDrops name d.2) <$> rule_name e d.1) l) m.
Proof.
  unfold RecordTally.commit_drops. revert m. induction l as [|[i n] l IH]; intros m; cbn; [done|].
  rewrite IH. by destruct (rule_name e i).
Qed.

Lemma commit_is_events t e m : RecordTally.commit t e m = apply_events (commit_events t e) m.
Proof. unfold RecordTally.commit. by rewrite commit_drops_is_events. Qed.

Lemma drops_events_counters l (e : Engine) m c :
  m_counters (RecordTally.commit_drops e l m) c = m_counters m c.
Proof.
  unfold RecordTally.commit_drops. revert m. induction l as [|[i n] l IH]; intros m; cbn; [done|].
  rewrite IH. destruct (rule_name e i); [|done]. unfold record_rule_drops. by case_decide.
Qed.

Lemma record_rule_drops_sum name n m :
  (map_sum (m_rule_drops m) + n <= U64_MAX)%N ->
  map_sum (m_rule_drops (record_rule_drops name n m)) = (map_sum (m_rule_drops m) + n)%N.
Proof.
  intros H. unfold record_rule_drops. case_decide; [lia|]. cbn.
  pose proof (map_sum_lookup (m_rule_drops m) name).
  rewrite wrapping_add_small by lia.
  pose proof (map_sum_insert (m_rule_drops m) name (default 0 (m_rule_drops m !! name) + n)%N). lia.
Qed.

Lemma commit_drops_sum (e : Engine) l m :
  (forall i n, (i, n) ∈ l -> i < length (e_rules e)) ->
  (map_sum (m_rule_drops m) + list_sum l <= U64_MAX)%N ->
  map_sum (m_rule_drops (RecordTally.commit_drops e l m)) = (map_sum (m_rule_drops m) + list_sum l)%N.
Proof.
  unfold RecordTally.commit_drops. revert m.
  induction l as [|[i n] l IH]; intros m Hl Hb; cbn [foldl fst snd]; [cbn; lia|].
  change (list_sum ((i, n) :: l)) with (n + list_sum l)%N in *.
  destruct (lookup_lt_is_Some_2 (e_rules e) i) as [r Hr]; [eapply Hl; left|].
  unfold rule_name at 2. rewrite Hr. cbn [fmap option_fmap option_map]. rewrite IH.
  - rewrite record_rule_drops_sum by lia. lia.
  - intros i' n' H. eapply Hl. by right.
  - rewrite record_rule_drops_sum by lia. lia.
Qed.

Lemma commit_counters t e m :
  m_counters (RecordTally.commit t e m) RecordsIn = wrapping_add_u64 (m_counters m RecordsIn) (t_records_in t) /\
  m_counters (RecordTally.commit t e m) RecordsKept = wrapping_add_u64 (m_counters m RecordsKept) (t_kept t) /\
  m_counters (RecordTally.commit t e m) RecordsDropped =
    wrapping_add_u64 (m_counters m RecordsDropped) (t_records_in t - t_kept t) /\
  m_counters (RecordTally.commit t e m) ParseErrors =
    wrapping_add_u64 (m_counters m ParseErrors) (t_parse_errors t).
Proof. unfold RecordTally.commit. rewrite !drops_events_counters. cbn. by split_and!. Qed.
End commit_facts.

#[export] Instance pair_le_total : Total pair_le.
Proof.
  intros [a x] [b y]. unfold pair_le. cbn. destruct (decide (a = b)) as [->|Hne].
  - rewrite decide_True by done. lia.
  - rewrite decide_False by done. destruct (total String.le a b); auto.
Qed.

Lemma snapshot_drops_sum m : list_sum (ms_rule_drops (snapshot_and_reset m).1) = map_sum (m_rule_drops m).
Proof. cbn. rewrite map_sum_list. apply list_sum_perm, merge_sort_Permutation. Qed.

(** ** Properties *)

(** The counters do not depend on the order in which concurrent objects report: any two
    interleavings of the same calls leave metrics that no snapshot distinguishes. *)
Theorem metrics_order_independent evs evs' m :
  evs ≡ₚ evs' -> apply_events evs m ≡ apply_events evs' m.
Proof. apply apply_events_perm. Qed.

(** [snapshot_and_reset] is a delta: it reports every counter and every rule drop, in
    name order, leaves all of them at zero, and reports a cold start only the first time. *)
Theorem snapshot_and_reset_spec m :
  (forall c, snapshot_counter (snapshot_and_reset m).1 c = m_counters m c) /\
  ms_rule_drops (snapshot_and_reset m).1 ≡ₚ map_to_list (m_rule_drops m) /\
  Sorted pair_le (ms_rule_drops (snapshot_and_reset m).1) /\
  ms_cold_start (snapshot_and_reset m).1 = negb (m_cold_start_emitted m) /\
  (forall c, m_counters (snapshot_and_reset m).2 c = 0%N) /\
  m_rule_drops (snapshot_and_reset m).2 = ∅ /\
  ms_cold_start (snapshot_and_reset (snapshot_and_reset m).2).1 = false.
Proof.
  split_and!; try done.
  - by intros [].
  - apply merge_sort_Permutation.
  - apply (Sorted_merge_sort pair_le).
Qed.

(** A committed tally balances: as long as the counters stay below 2^64, a snapshot taken
    after the commit of well-formed tallies has [RecordsIn = RecordsKept + RecordsDropped],
    and its rule drops add up to [RecordsDropped]. *)
Theorem commit_balances {R : RegexCrate} t e m :
  tally_wf (length (e_rules e)) t ->
  m_counters m RecordsIn = (m_counters m RecordsKept + m_counters m RecordsDropped)%N ->
  map_sum (m_rule_drops m) = m_counters m RecordsDropped ->
  (m_counters m RecordsIn + t_records_in t <= U64_MAX)%N ->
  MetricSnapshot.records_balance (snapshot_and_reset (RecordTally.commit t e m)).1 = true /\
  list_sum (ms_rule_drops (snapshot_and_reset (RecordTally.commit t e m)).1) =
  ms_records_dropped (snapshot_and_reset (RecordTally.commit t e m)).1.
Proof.
  intros [Hk Hd Hr] Hb Hs Hmax.
  destruct (commit_counters t e m) as (Hin & Hkept & Hdrop & _). rewrite snapshot_drops_sum.
  unfold MetricSnapshot.records_balance. rewrite bool_decide_eq_true. cbn [snapshot_and_reset fst
    ms_records_in ms_records_kept ms_records_dropped].
  rewrite Hin, Hkept, Hdrop, !wrapping_add_small by lia. split; [lia|].
  unfold RecordTally.commit. rewrite commit_drops_sum; cbn [m_rule_drops fetch_add add_parse_errors
    add_records_dropped add_records_kept add_records_in].
  - rewrite <-map_sum_list. lia.
  - intros i n H%elem_of_map_to_list. by eapply Hr.
  - rewrite <-map_sum_list. lia.
Qed.

(** Every metric an EMF document declares is a member of the document, and the first
    document declares every counter of the snapshot; each rule with drops has a document
    of its own. *)
Theorem emf_lines_complete {J : JsonCrate} ns ts s :
  let declared := path_values [Key "_aws"; Key "CloudWatchMetrics"; Index 0; Key "Metrics"; Wildcard; Key "Name"] in
  Forall (fun line => Forall (fun name => path_values [Key name] line <> []) (declared line))
    (build_lines ns ts s) /\
  declared <$> head (build_lines ns ts s) = Some metric_names /\
  map (path_values [Key "Rule"]) (tail (build_lines ns ts s)) = map (fun p => [p.1]) (ms_rule_drops s).
Proof.
  intros declared. split_and!.
  - unfold build_lines. constructor.
    + cbn. repeat constructor; done.
    + apply Forall_fmap, Forall_forall. intros [rule n] _. cbn. by repeat constructor.
  - done.
  - cbn. induction (ms_rule_drops s) as [|[r n] l IH]; [done|]. cbn. by rewrite IH.
Qed.

(** ** Witnesses *)

Lemma metrics_order_independent_witness :
  apply_events [EvAdd BytesIn U64_MAX; EvRuleDrops "r" 2; EvAdd BytesIn 3] Metrics_default ≡
  apply_events [EvAdd BytesIn 3; EvAdd BytesIn U64_MAX; EvRuleDrops "r" 2] Metrics_default.
Proof. apply metrics_order_independent. apply (Permutation_app_comm [_; _] [_]). Defined.

Lemma commit_balances_witness :
  let t := RecordTally.drop_by_rule 1 (RecordTally.record_in (RecordTally.keep (RecordTally.record_in RecordTally.empty))) in
  let m := RecordTally.commit t demo_engine Metrics_default in
  MetricSnapshot.records_balance (snapshot_and_reset m).1 = true /\
  list_sum (ms_rule_drops (snapshot_and_reset m).1) = ms_records_dropped (snapshot_and_reset m).1.
Proof.
  cbv zeta. apply commit_balances.
  - apply tally_drop_wf; [vm_compute; lia|]. apply tally_keep_wf, tally_empty_wf.
  - reflexivity.
  - reflexivity.
  - vm_compute. discriminate.
Defined.
