(* ===== verification/Ports.v ===== *)
(** * The ports and their doubles ([core/src/ports.rs], [core/src/process/discard.rs],
    [core/src/testing/mod.rs])

    A body reader is the finite sequence of chunks its reads deliver and how it ends.
    [ObjectStore] is the port every component writes through; [StoreLaws] is what the
    components rely on, and [InMemoryStore] and [DiscardStore] implement it. *)

From S2P Require Import Prelude Model.

(** ** Readers *)

(** [dyn AsyncRead]: the chunks delivered, then end of file or an error. *)
Record Reader := mkReader {
  rd_chunks : list Bytes;
  rd_error : option Msg;
}.

Definition byte_len (b : Bytes) : N := N.of_nat (String.length b).

(** All the bytes a reader delivers before it ends. *)
Definition reader_bytes (r : Reader) : Bytes := str_join "" (rd_chunks r).

(** [read(&mut buf)] with [n = buf.len()]: [Ok ""] is end of file. *)
Fixpoint read_chunks (n : nat) (chunks : list Bytes) (error : option Msg) : result Msg Bytes * Reader :=
  match chunks with
  | [] => (match error with Some e => Err e | None => Ok "" end, mkReader [] error)
  | c :: chunks =>
      if str_is_empty c then read_chunks n chunks error
      else (Ok (str_take n c), mkReader (str_drop n c :: chunks) error)
  end.

Definition read (n : nat) (r : Reader) : result Msg Bytes * Reader :=
  match n with O => (Ok "", r) | _ => read_chunks n (rd_chunks r) (rd_error r) end.

(** [read_to_end]: everything, or the error the reader ends with. *)
Definition read_to_end (r : Reader) : result Msg Bytes :=
  match rd_error r with Some e => Err e | None => Ok (reader_bytes r) end.

(** [take(limit).read_to_end]: once [limit] bytes are read the end is never reached. *)
Definition take_read_to_end (limit : N) (r : Reader) : result Msg Bytes :=
  if (limit <=? byte_len (reader_bytes r))%N then Ok (str_take (N.to_nat limit) (reader_bytes r))
  else read_to_end r.

(** A loop [while n > 0 { n = read(&mut buf)? }] with a buffer of [n] bytes: the bytes
    read, and the error that stopped it.  A reader is drained when [fuel] exceeds the
    bytes left ([drain_spec]). *)
Fixpoint drain (n fuel : nat) (r : Reader) (acc : Bytes) : Bytes * option Msg :=
  match fuel with
  | O => (acc, None)
  | S fuel =>
      match read n r with
      | (Ok b, r') => if str_is_empty b then (acc, None) else drain n fuel r' (acc +:+ b)
      | (Err e, _) => (acc, Some e)
      end
  end.

Definition drain_all (n : nat) (r : Reader) : Bytes * option Msg :=
  drain n (S (String.length (reader_bytes r))) r "".

(** ** The object store *)

Class ObjectStore (S : Type) := {
  store_get : string -> string -> S -> result StoreError Bytes * S;
  store_get_stream : string -> string -> S -> result StoreError Reader * S;
  store_put : string -> string -> Bytes -> PutMeta -> S -> result StoreError unit * S;
  (** The second component is the number of bytes read from the body. *)
  store_put_stream : string -> string -> Reader -> PutMeta -> S -> result StoreError unit * N * S;
}.

(** What the pipeline relies on.  [contents] is the objects the store holds: a put that
    fails, and a streamed put whose body fails, leave the key as it was; one that succeeds
    leaves exactly the body. *)
Class StoreLaws (S : Type) {St : ObjectStore S} := {
  contents : S -> gmap (string * string) Bytes;
  get_stream_contents b k s : contents (store_get_stream b k s).2 = contents s;
  (** A body that reads to its end is the object. *)
  get_stream_read b k s reader :
    (store_get_stream b k s).1 = Ok reader -> rd_error reader = None ->
    contents s !! (b, k) = Some (reader_bytes reader);
  get_stream_missing b k s b' k' :
    (store_get_stream b k s).1 = Err (NotFound b' k') -> contents s !! (b, k) = None;
  put_contents b k body meta s :
    contents (store_put b k body meta s).2 =
    match (store_put b k body meta s).1 with
    | Ok _ => <[(b, k) := body]> (contents s)
    | Err _ => contents s
    end;
  put_stream_contents b k body meta s :
    contents (store_put_stream b k body meta s).2 =
    match (store_put_stream b k body meta s).1.1 with
    | Ok _ => <[(b, k) := reader_bytes body]> (contents s)
    | Err _ => contents s
    end;
  put_stream_error b k body meta s e :
    rd_error body = Some e -> exists e', (store_put_stream b k body meta s).1.1 = Err e';
  put_stream_read b k body meta s :
    (store_put_stream b k body meta s).1.1 = Ok tt ->
    (store_put_stream b k body meta s).1.2 = byte_len (reader_bytes body);
  (** No more is read than the body delivers. *)
  put_stream_bound b k body meta s :
    ((store_put_stream b k body meta s).1.2 <= byte_len (reader_bytes body))%N;
}.

(** ** The event decoder *)

(** [EventDecoder]: one per binary. *)
Class EventDecoder := {
  decode : Bytes -> result DecodeError (list SourceItem);
}.

(** ** [InMemoryStore] *)

Record InMemoryStore := mkInMemoryStore {
  im_objects : gmap (string * string) Bytes;
  im_put_stream_progress : N;
  im_read_calls : N;
}.

Module InMemoryStore.
Definition new : InMemoryStore := mkInMemoryStore ∅ 0 0.

Definition seed (b k : string) (bytes : Bytes) (s : InMemoryStore) : InMemoryStore :=
  mkInMemoryStore (<[(b, k) := bytes]> (im_objects s)) (im_put_stream_progress s) (im_read_calls s).

Definition object (b k : string) (s : InMemoryStore) : option Bytes := im_objects s !! (b, k).

Definition contains (b k : string) (s : InMemoryStore) : bool :=
  bool_decide (is_Some (im_objects s !! (b, k))).

Definition get (b k : string) (s : InMemoryStore) : result StoreError Bytes * InMemoryStore :=
  (ok_or (NotFound b k) (object b k s),
   mkInMemoryStore (im_objects s) (im_put_stream_progress s) (im_read_calls s + 1)).

(** A [Cursor] over the object: one chunk. *)
Definition get_stream (b k : string) (s : InMemoryStore) : result StoreError Reader * InMemoryStore :=
  let '(r, s) := get b k s in
  ((fun bytes => mkReader [bytes] None) <$> r, s).

Definition put (b k : string) (body : Bytes) (_ : PutMeta) (s : InMemoryStore) :
    result StoreError unit * InMemoryStore :=
  (Ok tt, seed b k body s).

Definition CHUNK : nat := 64 * 1024.

Definition put_stream (b k : string) (body : Reader) (_ : PutMeta) (s : InMemoryStore) :
    result StoreError unit * N * InMemoryStore :=
  let '(buf, error) := drain_all CHUNK body in
  let s := mkInMemoryStore (im_objects s) (byte_len buf) (im_read_calls s) in
  match error with
  | Some e =>
      (Err (Backend (Fmt "put_stream aborted after {} bytes: {e}" [Lit (pretty (byte_len buf)); e])),
       byte_len buf, s)
  | None => (Ok tt, byte_len buf, seed b k buf s)
  end.
End InMemoryStore.

#[export] Instance in_memory_store : ObjectStore InMemoryStore := {|
  store_get := InMemoryStore.get;
  store_get_stream := InMemoryStore.get_stream;
  store_put := InMemoryStore.put;
  store_put_stream := InMemoryStore.put_stream;
|}.

(** ** [DiscardStore] *)

Inductive DiscardStore : Type := mkDiscardStore.

Module DiscardStore.
Definition get (b k : string) (s : DiscardStore) : result StoreError Bytes * DiscardStore :=
  (Err (NotFound b k), s).

Definition get_stream (b k : string) (s : DiscardStore) : result StoreError Reader * DiscardStore :=
  (Err (NotFound b k), s).

Definition put (_ _ : string) (_ : Bytes) (_ : PutMeta) (s : DiscardStore) :
    result StoreError unit * DiscardStore :=
  (Ok tt, s).

(** [tokio::io::copy] into a sink. *)
Definition put_stream (_ _ : string) (body : Reader) (_ : PutMeta) (s : DiscardStore) :
    result StoreError unit * N * DiscardStore :=
  (match read_to_end body with
   | Ok _ => Ok tt
   | Err e => Err (Backend (Fmt "dry-run discard: {e}" [e]))
   end, byte_len (reader_bytes body), s).
End DiscardStore.

#[export] Instance discard_store : ObjectStore DiscardStore := {|
  store_get := DiscardStore.get;
  store_get_stream := DiscardStore.get_stream;
  store_put := DiscardStore.put;
  store_put_stream := DiscardStore.put_stream;
|}.

(** ** The configuration source *)

Class ConfigSource (S : Type) := {
  source_version : S -> result ConfigError VersionTag * S;
  source_fetch : S -> result ConfigError (Bytes * VersionTag) * S;
}.

(** [StaticConfigSource]: controlled content and one-shot failures. *)
Record StaticConfigSource := mkStaticConfigSource {
  sc_bytes : Bytes;
  sc_version : VersionTag;
  sc_fail_next_version : bool;
  sc_fail_next_fetch : bool;
  sc_version_calls : N;
  sc_fetch_calls : N;
}.

Module StaticConfigSource.
Definition new (bytes : Bytes) (version : VersionTag) : StaticConfigSource :=
  mkStaticConfigSource bytes version false false 0 0.

Definition set (bytes : Bytes) (version : VersionTag) (s : StaticConfigSource) : StaticConfigSource :=
  mkStaticConfigSource bytes version (sc_fail_next_version s) (sc_fail_next_fetch s)
    (sc_version_calls s) (sc_fetch_calls s).

Definition fail_next_version (s : StaticConfigSource) : StaticConfigSource :=
  mkStaticConfigSource (sc_bytes s) (sc_version s) true (sc_fail_next_fetch s)
    (sc_version_calls s) (sc_fetch_calls s).

Definition fail_next_fetch (s : StaticConfigSource) : StaticConfigSource :=
  mkStaticConfigSource (sc_bytes s) (sc_version s) (sc_fail_next_version s) true
    (sc_version_calls s) (sc_fetch_calls s).

Definition version (s : StaticConfigSource) : result ConfigError VersionTag * StaticConfigSource :=
  let s' := mkStaticConfigSource (sc_bytes s) (sc_version s) false (sc_fail_next_fetch s)
              (sc_version_calls s + 1) (sc_fetch_calls s) in
  if sc_fail_next_version s
  then (Err (CfgSource (Lit "StaticConfigSource: forced version() failure")), s')
  else (Ok (sc_version s), s').

Definition fetch (s : StaticConfigSource) :
    result ConfigError (Bytes * VersionTag) * StaticConfigSource :=
  let s' := mkStaticConfigSource (sc_bytes s) (sc_version s) (sc_fail_next_version s) false
              (sc_version_calls s) (sc_fetch_calls s + 1) in
  if sc_fail_next_fetch s
  then (Err (CfgSource (Lit "StaticConfigSource: forced fetch() failure")), s')
  else (Ok (sc_bytes s, sc_version s), s').
End StaticConfigSource.

#[export] Instance static_config_source : ConfigSource StaticConfigSource := {|
  source_version := StaticConfigSource.version;
  source_fetch := StaticConfigSource.fetch;
|}.

(** ** Lemmas: readers *)

Lemma str_join_empty_cons s l : str_join "" (s :: l) = s +:+ str_join "" l.
Proof. destruct l; cbn; [by rewrite str_app_nil_r|done]. Qed.

Lemma str_join_empty_app l k : str_join "" (l ++ k) = str_join "" l +:+ str_join "" k.
Proof.
  induction l as [|s l IH]; [done|]. cbn [app]. by rewrite !str_join_empty_cons, IH, str_app_assoc.
Qed.

(** What one read takes off a reader. *)
Lemma read_spec n r :
  0 < n ->
  match read n r with
  | (Ok b, r') =>
      reader_bytes r = b +:+ reader_bytes r' /\ rd_error r' = rd_error r /\
      (b = "" -> reader_bytes r = "" /\ rd_error r = None)
  | (Err e, _) => reader_bytes r = "" /\ rd_error r = Some e
  end.
Proof.
  destruct n as [|n]; [lia|]. intros _. unfold read, reader_bytes. destruct r as [chunks error].
  cbn [rd_chunks rd_error]. induction chunks as [|c chunks IH]; cbn [read_chunks].
  - by destruct error.
  - destruct c as [|a c]; cbn [str_is_empty].
    + destruct (read_chunks (S n) chunks error) as [[b|e] r']; rewrite str_join_empty_cons; apply IH.
    + cbn [rd_chunks rd_error]. split_and!; [|done|by cbn].
      rewrite !str_join_empty_cons, <-str_app_assoc. by rewrite str_take_drop.
Qed.

Lemma read_length n r : match (read n r).1 with Ok b => String.length b <= n | Err _ => True end.
Proof.
  destruct n as [|n]; [cbn; lia|]. unfold read. destruct r as [chunks error]. cbn [rd_chunks rd_error].
  induction chunks as [|c chunks IH]; cbn [read_chunks].
  - destruct error; cbn [fst]; [exact I|cbn; lia].
  - destruct c as [|a c]; cbn [str_is_empty]; [exact IH|]. cbn [fst]. rewrite str_length_take. lia.
Qed.

Lemma drain_spec n fuel r acc :
  0 < n -> String.length (reader_bytes r) < fuel ->
  drain n fuel r acc = (acc +:+ reader_bytes r, rd_error r).
Proof.
  intros Hn. revert r acc. induction fuel as [|fuel IH]; intros r acc Hf; [lia|]. cbn.
  pose proof (read_spec n r Hn) as Hr. destruct (read n r) as [[b|e] r'].
  - destruct Hr as (Hb & He & Hempty). destruct b as [|a b]; cbn [str_is_empty].
    + destruct (Hempty eq_refl) as [-> ->]. by rewrite str_app_nil_r.
    + rewrite Hb in Hf. rewrite str_length_app in Hf. cbn in Hf. rewrite IH by lia.
      by rewrite Hb, He, str_app_assoc.
  - destruct Hr as [-> ->]. by rewrite str_app_nil_r.
Qed.

Lemma drain_all_spec n r : 0 < n -> drain_all n r = (reader_bytes r, rd_error r).
Proof. intros H. unfold drain_all. by rewrite drain_spec by lia. Qed.

(** ** The doubles keep the laws *)

Lemma chunk_pos : 0 < InMemoryStore.CHUNK.
Proof. apply Nat.ltb_lt. reflexivity. Qed.

Lemma in_memory_put_stream b k body meta s :
  InMemoryStore.put_stream b k body meta s =
  match rd_error body with
  | Some e =>
      (Err (Backend (Fmt "put_stream aborted after {} bytes: {e}"
                       [Lit (pretty (byte_len (reader_bytes body))); e])),
       byte_len (reader_bytes body),
       mkInMemoryStore (im_objects s) (byte_len (reader_bytes body)) (im_read_calls s))
  | None =>
      (Ok tt, byte_len (reader_bytes body),
       InMemoryStore.seed b k (reader_bytes body)
         (mkInMemoryStore (im_objects s) (byte_len (reader_bytes body)) (im_read_calls s)))
  end.
Proof. unfold InMemoryStore.put_stream. rewrite drain_all_spec by apply chunk_pos. done. Qed.

#[export] Instance in_memory_laws : StoreLaws InMemoryStore.
Proof.
  refine (Build_StoreLaws _ _ im_objects _ _ _ _ _ _ _ _).
  - done.
  - intros b k s reader. cbn [store_get_stream in_memory_store].
    unfold InMemoryStore.get_stream, InMemoryStore.get, InMemoryStore.object. cbn [im_objects].
    destruct (im_objects s !! (b, k)) as [bytes|]; cbn; [|done]. by intros [= <-].
  - intros b k s b' k'. cbn [store_get_stream in_memory_store].
    unfold InMemoryStore.get_stream, InMemoryStore.get, InMemoryStore.object.
    by destruct (im_objects s !! (b, k)).
  - done.
  - intros b k body meta s. cbn [store_put_stream in_memory_store]. rewrite in_memory_put_stream.
    by destruct (rd_error body).
  - intros b k body meta s e He. cbn [store_put_stream in_memory_store].
    rewrite in_memory_put_stream, He. by eexists.
  - intros b k body meta s. cbn [store_put_stream in_memory_store]. rewrite in_memory_put_stream.
    by destruct (rd_error body).
  - intros b k body meta s. cbn [store_put_stream in_memory_store]. rewrite in_memory_put_stream.
    destruct (rd_error body); cbn; lia.
Defined.
