(* ===== verification/Task.v ===== *)
(** * Tasks: the futures of the pipeline as programs

    The code between two awaits runs alone; what a future shares with its siblings is the
    object store and the counters.  A program ([Prog]) is the tree of its requests to them,
    one branch per answer, so that a future can be left at any await and resumed with the
    answer: [run] runs one to its end against a store, [poll] does one request of it.
    [Task] is a program that returns, fails or panics. *)

From S2P Require Import Prelude Model Json Path Regex Rules Reference Index Project Engine.
From S2P Require Import Effects Metrics Ports.

(** The store and the metrics, shared by every task. *)
Record Env (S : Type) := mkEnv {
  e_store : S;
  e_metrics : Metrics;
}.
Arguments mkEnv {S}.
Arguments e_store {S}.
Arguments e_metrics {S}.

(** ** Programs *)

Inductive Prog (R : Type) : Type :=
  | Ret (r : R)
  | OpGetStream (bucket key : string) (next : result StoreError Reader -> Prog R)
  | OpPut (bucket key : string) (body : Bytes) (meta : PutMeta) (next : result StoreError unit -> Prog R)
  | OpPutStream (bucket key : string) (body : Reader) (meta : PutMeta) (next : result StoreError unit * N -> Prog R)
  | OpCount (f : Metrics -> Metrics) (next : Prog R).
Arguments Ret {R} r.
Arguments OpGetStream {R} bucket key next.
Arguments OpPut {R} bucket key body meta next.
Arguments OpPutStream {R} bucket key body meta next.
Arguments OpCount {R} f next.

Fixpoint prog_bind {R R'} (t : Prog R) (k : R -> Prog R') : Prog R' :=
  match t with
  | Ret r => k r
  | OpGetStream b key next => OpGetStream b key (fun x => prog_bind (next x) k)
  | OpPut b key body meta next => OpPut b key body meta (fun x => prog_bind (next x) k)
  | OpPutStream b key body meta next => OpPutStream b key body meta (fun x => prog_bind (next x) k)
  | OpCount f next => OpCount f (prog_bind next k)
  end.

(** One request of [t], then [k] on what is left of it. *)
Definition poll {R R'} (t : Prog R) (k : Prog R -> Prog R') : Prog R' :=
  match t with
  | Ret r => k (Ret r)
  | OpGetStream b key next => OpGetStream b key (fun x => k (next x))
  | OpPut b key body meta next => OpPut b key body meta (fun x => k (next x))
  | OpPutStream b key body meta next => OpPutStream b key body meta (fun x => k (next x))
  | OpCount f next => OpCount f (k next)
  end.

(** A program alone with a store. *)
Fixpoint run {S} {St : ObjectStore S} {R} (t : Prog R) (w : Env S) : R * Env S :=
  match t with
  | Ret r => (r, w)
  | OpGetStream b key next =>
      let '(x, s) := store_get_stream b key (e_store w) in run (next x) (mkEnv s (e_metrics w))
  | OpPut b key body meta next =>
      let '(x, s) := store_put b key body meta (e_store w) in run (next x) (mkEnv s (e_metrics w))
  | OpPutStream b key body meta next =>
      let '(x, s) := store_put_stream b key body meta (e_store w) in run (next x) (mkEnv s (e_metrics w))
  | OpCount f next => run next (mkEnv (e_store w) (f (e_metrics w)))
  end.

(** Run what is next of a program. *)
Ltac run_step := cbn [run e_store e_metrics fst snd] in *.

(** ** Tasks *)

Definition Task (A : Type) : Type := Prog (result (Exit CoreError) A).

Definition run_task {S} {St : ObjectStore S} {A} (t : Task A) : Io (Env S) CoreError A := run t.

Identity Coercion io_fun : Io >-> Funclass.
#[warnings="-uniform-inheritance"] Coercion run_task : Task >-> Io.

#[export] Instance task_ret : MRet Task := fun A a => Ret (Ok a).

#[export] Instance task_bind : MBind Task := fun A B k t =>
  prog_bind t (fun r => match r with Ok a => k a | Err x => Ret (Err x) end).

Definition task_fail {A} (e : CoreError) : Task A := Ret (Err (Fail e)).
Definition task_panic {A} (msg : string) : Task A := Ret (Err (Panic msg)).

(** A future that is never ready: the process waits on it until it is killed, and nothing
    follows, as nothing follows a panic. *)
Definition task_never {A} : Task A := task_panic "killed while waiting".

(** [r?] *)
Definition task_of_result {A} (r : result CoreError A) : Task A :=
  match r with Ok a => mret a | Err e => task_fail e end.

(** [match t.await { Ok(..) => .., Err(..) => .. }] *)
Definition task_try {A} (t : Task A) : Task (result CoreError A) :=
  prog_bind t (fun r => match r with
                        | Ok a => Ret (Ok (Ok a))
                        | Err (Fail e) => Ret (Ok (Err e))
                        | Err (Panic msg) => Ret (Err (Panic msg))
                        end).

(** The call of a function that returns a [Result], or panics. *)
Definition task_call {A} (r : result (Exit CoreError) A) : Task (result CoreError A) := task_try (Ret r).

Lemma task_call_eq {A B} (r : result (Exit CoreError) A) (k : result CoreError A -> Task B) :
  (x ← task_call r; k x) =
  match r with Ok a => k (Ok a) | Err (Fail e) => k (Err e) | Err (Panic msg) => task_panic msg end.
Proof. by destruct r as [|[]]. Qed.

(** The await of a future whose errors are values. *)
Definition task_await {A} (t : Prog A) : Task A := prog_bind t (fun a => Ret (Ok a)).

(** [metrics.add_..(..)] *)
Definition count_metric (f : Metrics -> Metrics) : Task unit := OpCount f (Ret (Ok tt)).

(** [store.op(..).await] *)
Definition get_stream (bucket key : string) : Task (result StoreError Reader) := OpGetStream bucket key (fun x => Ret (Ok x)).
Definition put (bucket key : string) (body : Bytes) (meta : PutMeta) : Task (result StoreError unit) :=
  OpPut bucket key body meta (fun x => Ret (Ok x)).
Definition put_stream (bucket key : string) (body : Reader) (meta : PutMeta) : Task (result StoreError unit * N) :=
  OpPutStream bucket key body meta (fun x => Ret (Ok x)).

(** ** Running *)

Section run.
Context {S : Type} {St : ObjectStore S}.

Lemma run_prog_bind {R R'} (t : Prog R) (k : R -> Prog R') (w : Env S) :
  run (prog_bind t k) w = let '(r, w) := run t w in run (k r) w.
Proof.
  revert w. induction t as [r|b key next IH|b key body meta next IH|b key body meta next IH|f next IH];
    intros w; cbn; [done|..].
  - destruct (store_get_stream b key (e_store w)). apply IH.
  - destruct (store_put b key body meta (e_store w)). apply IH.
  - destruct (store_put_stream b key body meta (e_store w)). apply IH.
  - apply IH.
Qed.

Lemma run_bind {A B} (t : Task A) (k : A -> Task B) (w : Env S) :
  (t ≫= k) w = match t w with (Ok a, w) => k a w | (Err x, w) => (Err x, w) end.
Proof.
  change (run (t ≫= k) w = match run t w with (Ok a, w) => run (k a) w | (Err x, w) => (Err x, w) end).
  unfold mbind, task_bind. rewrite run_prog_bind. by destruct (run t w) as [[a|x] w'].
Qed.

Lemma run_try {A} (t : Task A) (w : Env S) : task_try t w = io_try t w.
Proof.
  change (run (task_try t) w = io_try (run t) w). unfold task_try, io_try. rewrite run_prog_bind.
  by destruct (run t w) as [[a|[e|msg]] w'].
Qed.

Lemma run_await {A} (t : Prog A) (w : Env S) : task_await t w = let '(a, w) := run t w in (Ok a, w).
Proof. exact (run_prog_bind t (fun a => Ret (Ok a)) w). Qed.

(** A request and the rest, or the whole: the same run. *)
Lemma run_poll {R R'} (t : Prog R) (k : Prog R -> Prog R') (g : R -> Env S -> R' * Env S) (w : Env S) :
  (forall t w, run (k t) w = let '(r, w) := run t w in g r w) ->
  run (poll t k) w = let '(r, w) := run t w in g r w.
Proof.
  intros H. destruct t as [r|b key next|b key body meta next|b key body meta next|f next]; cbn.
  - apply (H (Ret r)).
  - destruct (store_get_stream b key (e_store w)). apply H.
  - destruct (store_put b key body meta (e_store w)). apply H.
  - destruct (store_put_stream b key body meta (e_store w)). apply H.
  - apply H.
Qed.

(** *** Weakest preconditions of tasks *)

Lemma wp_task_ret {A} (a : A) Q (w : Env S) : wp (mret a : Task A) Q w <-> Q (Ok a) w.
Proof. done. Qed.

Lemma wp_task_bind {A B} (t : Task A) (k : A -> Task B) Q (w : Env S) :
  wp (t ≫= k) Q w <-> wp t (wp_then (fun a => run_task (k a)) Q) w.
Proof. unfold wp, wp_then. rewrite run_bind. by destruct (run_task t w) as [[a|x] w']. Qed.

Lemma wp_task_fail {A} (e : CoreError) (Q : result (Exit CoreError) A -> Env S -> Prop) w :
  wp (task_fail e) Q w <-> Q (Err (Fail e)) w.
Proof. done. Qed.

Lemma wp_task_of_result {A} (r : result CoreError A) Q (w : Env S) :
  wp (task_of_result r) Q w <-> match r with Ok a => Q (Ok a) w | Err e => Q (Err (Fail e)) w end.
Proof. by destruct r. Qed.

Lemma wp_task_try {A} (t : Task A) Q (w : Env S) :
  wp (task_try t) Q w <->
  wp t (fun r w => match r with
                   | Ok a => Q (Ok (Ok a)) w
                   | Err (Fail e) => Q (Ok (Err e)) w
                   | Err (Panic msg) => Q (Err (Panic msg)) w
                   end) w.
Proof. rewrite <-wp_try. unfold wp. by rewrite run_try. Qed.

Lemma wp_call {A} (r : result (Exit CoreError) A) Q (w : Env S) :
  wp (task_call r) Q w <->
  match r with
  | Ok a => Q (Ok (Ok a)) w
  | Err (Fail e) => Q (Ok (Err e)) w
  | Err (Panic msg) => Q (Err (Panic msg)) w
  end.
Proof. by destruct r as [|[]]. Qed.

(** One increment at the head of a sequence. *)
Lemma wp_count {A} f (t : Task A) Q (w : Env S) :
  wp (_ ← count_metric f; t) Q w <-> wp t Q (mkEnv (e_store w) (f (e_metrics w))).
Proof. done. Qed.

Lemma wp_count_last f Q (w : Env S) :
  wp (count_metric f) Q w <-> Q (Ok tt) (mkEnv (e_store w) (f (e_metrics w))).
Proof. done. Qed.

(** One request. *)
Lemma wp_get_stream b key Q (w : Env S) :
  wp (get_stream b key) Q w <->
  let '(x, s) := store_get_stream b key (e_store w) in Q (Ok x) (mkEnv s (e_metrics w)).
Proof. unfold wp. cbn. by destruct (store_get_stream b key (e_store w)). Qed.

Lemma wp_put b key body meta Q (w : Env S) :
  wp (put b key body meta) Q w <->
  let '(x, s) := store_put b key body meta (e_store w) in Q (Ok x) (mkEnv s (e_metrics w)).
Proof. unfold wp. cbn. by destruct (store_put b key body meta (e_store w)). Qed.

Lemma wp_put_stream b key body meta Q (w : Env S) :
  wp (put_stream b key body meta) Q w <->
  let '(x, s) := store_put_stream b key body meta (e_store w) in Q (Ok x) (mkEnv s (e_metrics w)).
Proof. unfold wp. cbn. by destruct (store_put_stream b key body meta (e_store w)). Qed.

Lemma wp_await {A} (t : Prog A) Q (w : Env S) :
  wp (task_await t) Q w <-> let '(a, w) := run t w in Q (Ok a) w.
Proof. unfold wp. rewrite run_await. by destruct (run t w). Qed.
End run.

(** One bind, one primitive, of a task or of a computation. *)
Ltac wp_step ::=
  first [ rewrite wp_task_ret | rewrite wp_task_fail | rewrite wp_task_of_result | rewrite wp_task_try | rewrite wp_call
        | rewrite wp_count_last | rewrite wp_get_stream | rewrite wp_put | rewrite wp_put_stream | rewrite wp_await
        | rewrite wp_task_bind; unfold wp_then
        | rewrite wp_ret | rewrite wp_fail | rewrite wp_modify | rewrite wp_of_result
        | rewrite wp_try | rewrite wp_bind; unfold wp_then ]; cbv beta.
