(* ===== verification/Envelope.v ===== *)
(** * The CloudTrail envelope, as both processing modes read it

    [{"Records":[...]}] is parsed by [serde_json] in two ways: buffer mode deserializes
    the derived struct [Envelope] ([core/src/process/buffer.rs]), stream mode drives
    [EnvelopeVisitor] and [RecordsVisitor] ([core/src/process/stream.rs]).  The parser is
    third-party; what it hands to the two is the shallow shape of the document, with the
    text of each element of a top-level member that is an array. *)

From S2P Require Import Prelude Model Json.

(** ** The shallow shape *)

(** [serde_json::Error]: whether [is_io()], and its text. *)
Record JsonError := mkJsonError { je_io : bool; je_msg : string }.

(** A value one level down.  [lax] is what a visitor that ignores the value
    ([IgnoredAny], [RawValue]) gets, [strict] what one that decodes it gets: they differ on
    a string with a lone surrogate escape and on a number out of range. *)
Inductive RawShape : Type :=
  | RScalar (lax strict : result JsonError unit)
  | RObj (lax : result JsonError unit)
  | RArr (items : list string) (lax : result JsonError unit).

(** A whole text: its top-level value and what [Deserializer::end] says after it.  An
    object's keys are decoded; the list stops at the first syntax error, [rest]. *)
Inductive TopShape : Type :=
  | TScalar (strict : result JsonError unit)
  | TSeq (items : list RawShape) (rest : result JsonError unit)
  | TMap (fields : list (string * RawShape)) (rest : result JsonError unit).

Record Shallow := mkShallow { sh_top : TopShape; sh_end : result JsonError unit }.

(** [parse_shallow text tail]: the parser over a reader that delivers [text] and then
    ends ([None]) or fails with the io error [Some e]. *)
Class ShallowCrate := { parse_shallow : Bytes -> option string -> Shallow }.

Definition shape_lax (v : RawShape) : result JsonError unit :=
  match v with RScalar lax _ => lax | RObj lax => lax | RArr _ lax => lax end.

(** ** Stream mode: the visitors *)

(** [RecordsSeed] and [RecordsVisitor] on one value: the records sent, and the result. *)
Definition records_visitor (v : RawShape) : list string * result JsonError bool :=
  match v with
  | RScalar _ strict => ([], _ ← strict; Ok false)
  | RObj lax => ([], _ ← lax; Ok false)
  | RArr items lax => (items, _ ← lax; Ok true)
  end.

(** The loop of [EnvelopeVisitor::visit_map]. *)
Fixpoint envelope_fields (fields : list (string * RawShape)) (rest : result JsonError unit)
    (found : bool) (records_keys : nat) : list string * result JsonError bool :=
  match fields with
  | [] => ([], _ ← rest; Ok (found && bool_decide (records_keys = 1)))
  | (key, v) :: fields =>
      if decide (key = "Records") then
        let records_keys := S records_keys in
        if decide (records_keys = 1) then
          match records_visitor v with
          | (sent, Ok found) =>
              let '(sent', r) := envelope_fields fields rest found records_keys in
              (sent ++ sent', r)
          | (sent, Err e) => (sent, Err e)
          end
        else match shape_lax v with
             | Ok _ => envelope_fields fields rest found records_keys
             | Err e => ([], Err e)
             end
      else match shape_lax v with
           | Ok _ => envelope_fields fields rest found records_keys
           | Err e => ([], Err e)
           end
  end.

(** [deserialize_any(EnvelopeVisitor)]. *)
Definition envelope_visitor (top : TopShape) : list string * result JsonError bool :=
  match top with
  | TScalar strict => ([], _ ← strict; Ok false)
  | TSeq items rest => ([], _ ← check_all shape_lax items; _ ← rest; Ok false)
  | TMap fields rest => envelope_fields fields rest false 0
  end.

(** [parsed.and_then(|found| deserializer.end().map(|()| found))]. *)
Definition visit_envelope (s : Shallow) : list string * result JsonError bool :=
  let '(sent, parsed) := envelope_visitor (sh_top s) in
  (sent, found ← parsed; _ ← sh_end s; Ok found).

(** ** Buffer mode: the derived struct *)

(** [Vec<&RawValue>]. *)
Definition raw_values (v : RawShape) : option (list string) :=
  match v with
  | RArr items (Ok _) => Some items
  | _ => None
  end.

(** The derived [visit_map]: a second [Records], or none, is an error. *)
Fixpoint derived_fields (fields : list (string * RawShape)) (rest : result JsonError unit)
    (records : option (list string)) : option (list string) :=
  match fields with
  | [] => match rest with Ok _ => records | Err _ => None end
  | (key, v) :: fields =>
      if decide (key = "Records") then
        match records with
        | Some _ => None
        | None => items ← raw_values v; derived_fields fields rest (Some items)
        end
      else match shape_lax v with
           | Ok _ => derived_fields fields rest records
           | Err _ => None
           end
  end.

(** [serde_json::from_slice::<Envelope>]: [None] is any error.  A derived struct also
    accepts its fields as an array. *)
Definition parse_envelope (s : Shallow) : option (list string) :=
  records ← match sh_top s with
            | TScalar _ => None
            | TSeq [v] (Ok _) => raw_values v
            | TSeq _ _ => None
            | TMap fields rest => derived_fields fields rest None
            end;
  match sh_end s with Ok _ => Some records | Err _ => None end.

(** ** Specification *)

(** No part of the document is an error for a visitor that decodes everything. *)
Definition shape_clean (v : RawShape) : bool :=
  match v with
  | RScalar lax strict => is_ok lax && is_ok strict
  | RObj lax => is_ok lax
  | RArr _ lax => is_ok lax
  end.

Definition shallow_clean (s : Shallow) : bool :=
  is_ok (sh_end s) &&
  match sh_top s with
  | TScalar strict => is_ok strict
  | TSeq items rest => forallb shape_clean items && is_ok rest
  | TMap fields rest => forallb (fun f => shape_clean f.2) fields && is_ok rest
  end.

(** What [serde_json] promises: a document that decodes as a [Value] is an error for no
    visitor, and [end] reads on until the end of the input, or its io error. *)
Class ShallowLaws (J : JsonCrate) (S : ShallowCrate) : Prop := {
  clean_of_value text d : json_from_str text = Ok d -> shallow_clean (parse_shallow text None) = true;
  end_of_input text e : is_ok (sh_end (parse_shallow text (Some e))) = false;
}.

(** The shape is an object: what the stream-mode comment has in mind. *)
Definition is_seq (s : Shallow) : bool := match sh_top s with TSeq _ _ => true | _ => false end.

(** ** Lemmas *)

Lemma shape_clean_lax v : shape_clean v = true -> shape_lax v = Ok tt.
Proof. destruct v as [[[]|] s|[[]|]|items [[]|]]; done. Qed.

(** Past the first [Records] key nothing is sent, and the flag survives only if there is
    no second one. *)
Lemma envelope_after fields rest found n sent r :
  1 <= n -> envelope_fields fields rest found n = (sent, r) ->
  sent = [] /\ (r = Ok true -> n = 1 /\ found = true).
Proof.
  revert n sent r. induction fields as [|[k v] fields IH]; intros n sent r Hn; cbn [envelope_fields].
  - intros; simplify_eq. split; [done|]. destruct rest; cbn; [|done]. intros [= H].
    apply andb_true_iff in H as [-> H]. by apply bool_decide_eq_true in H.
  - destruct (decide (k = "Records")) as [->|Hk].
    + rewrite decide_False by lia. destruct (shape_lax v).
      * intros H. destruct (IH (S n) sent r ltac:(lia) H) as [-> H']. split; [done|].
        intros Hr. destruct (H' Hr). lia.
      * intros; simplify_eq. by split.
    + destruct (shape_lax v); [by apply IH|]. intros; simplify_eq. by split.
Qed.

(** The derived visitor accepts the rest exactly when the stream visitor keeps the flag. *)
Lemma derived_after fields rest records out :
  derived_fields fields rest (Some records) = Some out <->
  out = records /\ envelope_fields fields rest true 1 = ([], Ok true).
Proof.
  induction fields as [|[k v] fields IH]; cbn [derived_fields envelope_fields].
  - destruct rest; cbn; naive_solver.
  - destruct (decide (k = "Records")) as [->|Hk].
    + split; [done|]. intros [_ H]. rewrite decide_False in H by lia.
      destruct (shape_lax v); [|done]. apply envelope_after in H as [_ H]; [|lia].
      destruct (H eq_refl). lia.
    + destruct (shape_lax v); [done|]. naive_solver.
Qed.

Lemma derived_spec fields rest out :
  derived_fields fields rest None = Some out <->
  envelope_fields fields rest false 0 = (out, Ok true).
Proof.
  induction fields as [|[k v] fields IH]; cbn [derived_fields envelope_fields].
  - destruct rest; cbn; naive_solver.
  - destruct (decide (k = "Records")) as [->|Hk]; [|destruct (shape_lax v); [done|naive_solver]].
    rewrite decide_True by done. unfold records_visitor, raw_values.
    destruct v as [lax strict|lax|items [[]|e]]; cbn.
    + destruct strict; cbn; [|naive_solver]. split; [done|].
      destruct (envelope_fields fields rest false 1) as [sent' r] eqn:E. intros; simplify_eq.
      apply envelope_after in E as [_ E]; [|lia]. by destruct (E eq_refl).
    + destruct lax; cbn; [|naive_solver]. split; [done|].
      destruct (envelope_fields fields rest false 1) as [sent' r] eqn:E. intros; simplify_eq.
      apply envelope_after in E as [_ E]; [|lia]. by destruct (E eq_refl).
    + rewrite derived_after. destruct (envelope_fields fields rest true 1) as [sent' r] eqn:E.
      apply envelope_after in E as [-> _]; [|lia]. rewrite app_nil_r. naive_solver.
    + naive_solver.
Qed.

(** The two modes accept the same envelopes, with the same records. *)
Lemma parse_envelope_visit s records :
  is_seq s = false ->
  parse_envelope s = Some records <-> visit_envelope s = (records, Ok true).
Proof.
  destruct s as [[strict|items rest|fields rest] fin]; [| |]; intros Hs; [|done|];
    unfold parse_envelope, visit_envelope, envelope_visitor; cbn [sh_top sh_end].
  - destruct strict, fin; cbn; naive_solver.
  - destruct (envelope_fields fields rest false 0) as [sent r] eqn:E.
    destruct (derived_fields fields rest None) as [out|] eqn:D.
    + apply derived_spec in D. rewrite D in E. injection E as <- <-.
      destruct fin; cbn; naive_solver.
    + split; [done|]. intros H. exfalso.
      enough (derived_fields fields rest None = Some records) by congruence.
      apply derived_spec. rewrite E. destruct r as [b|], fin; cbn in H; by simplify_eq.
Qed.

Lemma envelope_fields_clean fields rest found n :
  forallb (fun f => shape_clean f.2) fields = true -> is_ok rest = true ->
  is_ok (envelope_fields fields rest found n).2 = true.
Proof.
  intros Hf Hr. revert found n. induction fields as [|[k v] fields IH]; intros found n; cbn [envelope_fields].
  { by destruct rest. }
  cbn [forallb snd] in Hf. bools. rename H into Hv. specialize (IH H0).
  repeat case_decide; rewrite ?(shape_clean_lax v) by done; try apply IH.
  unfold records_visitor. destruct v as [[]  []|[]|items []]; try done; cbn.
  - specialize (IH false (S n)). by destruct (envelope_fields _ _ _ _) as [? []].
  - specialize (IH false (S n)). by destruct (envelope_fields _ _ _ _) as [? []].
  - specialize (IH true (S n)). by destruct (envelope_fields _ _ _ _) as [? []].
Qed.

(** On a document without errors the stream visitor does not fail. *)
Lemma visit_envelope_clean s :
  shallow_clean s = true -> exists sent found, visit_envelope s = (sent, Ok found).
Proof.
  unfold shallow_clean, visit_envelope. destruct s as [top fin]. cbn [sh_top sh_end]. intros H. bools.
  destruct fin; [|done].
  assert (is_ok (envelope_visitor top).2 = true) as Hok.
  { destruct top as [strict|items rest|fields rest]; cbn in *.
    - by destruct strict.
    - bools. assert (check_all shape_lax items = Ok tt) as ->.
      { apply check_all_ok. eapply Forall_impl; [by apply forallb_Forall|]. intros v. apply shape_clean_lax. }
      by destruct rest.
    - bools. by apply envelope_fields_clean. }
  destruct (envelope_visitor top) as [sent [found|]]; [|done]. cbn. eauto.
Qed.

(** A top-level array that holds one array: the derived struct reads its fields by
    position, the visitor does not. *)
Lemma array_envelope_divergence items :
  let s := mkShallow (TSeq [RArr items (Ok tt)] (Ok tt)) (Ok tt) in
  parse_envelope s = Some items /\ visit_envelope s = ([], Ok false).
Proof. by split. Qed.

(** A member other than [Records] that scans but does not decode, such as a lone surrogate:
    the visitor ignores it, and a full parse would fail. *)
Lemma undecodable_member_divergence key e :
  key <> "Records" ->
  let s := mkShallow (TMap [(key, RScalar (Ok tt) (Err e))] (Ok tt)) (Ok tt) in
  parse_envelope s = None /\ visit_envelope s = ([], Ok false) /\ shallow_clean s = false.
Proof.
  intros Hk s. unfold parse_envelope, visit_envelope. cbn [s sh_top sh_end envelope_visitor
    derived_fields envelope_fields]. rewrite !decide_False by done. by split_and!.
Qed.
