(* ===== verification/Buffer.v ===== *)
(** * Buffer-mode processing ([core/src/process/buffer.rs])

    Decompression under the size cap, the record loop, and the chunked gzip output.
    [flate2] is third-party: [GzipCrate] holds its operations and [GzipLaws] what it
    documents of them. *)

From S2P Require Import Prelude Model Json Regex Rules Reference Index Project Engine.
From S2P Require Import Settings Effects Metrics Ports Envelope.

(** ** The gzip crate *)

Class GzipCrate := {
  (** [MultiGzDecoder] over a whole input: the bytes it delivers, and the error it stops
      with when the input is not a sequence of complete members. *)
  gunzip : Bytes -> Bytes * option string;
  (** The same over an input that breaks off: [None] when the decoder asked for more. *)
  gunzip_partial : Bytes -> Bytes * option string;
  (** [GzEncoder<Vec<u8>>]. *)
  Enc : Type;
  (** [GzEncoder::new(Vec::new(), Compression::new(level))]; [None] is its panic. *)
  enc_new : N -> option Enc;
  enc_write : Bytes -> Enc -> result string Enc;
  (** [get_ref()]. *)
  enc_buffered : Enc -> Bytes;
  (** The encoder after [mem::take(get_mut())]. *)
  enc_take : Enc -> Enc;
  (** [finish()]: what is left in the vector, trailer included. *)
  enc_finish : Enc -> result string Bytes;
}.

(** [written] is what was put into an encoder, [drained] what was taken out of its
    vector.  The levels are 0 to 9.  A finished encoder's output is one member of what was
    written; members concatenate. *)
Class GzipLaws (G : GzipCrate) := {
  written : Enc -> Bytes;
  drained : Enc -> Bytes;
  enc_new_level level : (level <= 9)%N -> is_Some (enc_new level);
  enc_new_written level e : enc_new level = Some e -> written e = "" /\ drained e = "";
  enc_write_written b e e' :
    enc_write b e = Ok e' -> written e' = written e +:+ b /\ drained e' = drained e;
  enc_take_written e : written (enc_take e) = written e /\ drained (enc_take e) = drained e +:+ enc_buffered e;
  enc_finish_member e tail :
    enc_finish e = Ok tail -> gunzip (drained e +:+ tail) = (written e, None);
  gunzip_concat a b x y :
    gunzip a = (x, None) -> gunzip b = (y, None) -> gunzip (a +:+ b) = (x +:+ y, None);
}.

(** ** Data *)

Inductive Outcome : Type :=
  | Written (bytes : option Bytes)
  | NothingKept
  | Unrecognized.

Definition MAX_DEFLATE_RATIO : N := 1032.
Definition MIN_CHUNK_BYTES : N := 64 * 1024.

(** [u32::from_le_bytes] of a four-byte trailer. *)
Definition u32_from_le_bytes (s : string) : N :=
  match s with
  | String a (String b (String c (String d EmptyString))) =>
      N_of_ascii a + 256 * N_of_ascii b + 65536 * N_of_ascii c + 16777216 * N_of_ascii d
  | _ => 0
  end.

(** [decompressed_size_hint]; a shorter input makes the range start wrap past its end. *)
Definition decompressed_size_hint (input : Bytes) (max_object_bytes : N) : N :=
  if (byte_len input <? 4)%N then 0
  else
    let trailer := str_drop (String.length input - 4) input in
    let isize_field := u32_from_le_bytes trailer in
    let cap := N.min USIZE_MAX (saturating_add_u64 max_object_bytes 1) in
    N.min (N.min isize_field cap) (saturating_mul_u64 (byte_len input) MAX_DEFLATE_RATIO).

(** [slice.chunks(n)]; [n > 0], and the length of the slice is enough fuel. *)
Fixpoint chunks_fuel (fuel n : nat) (s : Bytes) : list Bytes :=
  match fuel, s with
  | _, EmptyString => []
  | O, _ => []
  | S fuel, _ => str_take n s :: chunks_fuel fuel n (str_drop n s)
  end.

Definition chunks (n : nat) (s : Bytes) : list Bytes := chunks_fuel (String.length s) n s.

Section buffer.
Context {J : JsonCrate} {SH : ShallowCrate} {R : RegexCrate} {G : GzipCrate}.

(** ** Decompression *)

(** [Vec::with_capacity(decompressed_size_hint(..))] reserves memory and has no other
    effect. *)
Definition decompress_capped (input : Bytes) (max_object_bytes : N) : result CoreError Bytes :=
  let decoder := let '(out, err) := gunzip input in mkReader [out] (Lit <$> err) in
  buf ← map_err CoreGzip (take_read_to_end (saturating_add_u64 max_object_bytes 1) decoder);
  if (max_object_bytes <? byte_len buf)%N then Err (ObjectTooLarge max_object_bytes) else Ok buf.

(** ** Compression *)

(** The panic of [GzEncoder::new] on a level it does not have. *)
Definition LEVEL_PANIC : string := "index out of bounds".

Definition gzip_compress (body : Bytes) (level : N) : result (Exit CoreError) Bytes :=
  match enc_new level with
  | None => Err (Panic LEVEL_PANIC)
  | Some encoder =>
      encoder ← map_err (fun e => Fail (CoreInternal (Lit e))) (enc_write body encoder);
      map_err (fun e => Fail (CoreInternal (Lit e))) (enc_finish encoder)
  end.

(** [w.join().unwrap_or_else(..)] *)
Definition join_worker (r : result (Exit CoreError) Bytes) : result CoreError Bytes :=
  match r with
  | Ok member => Ok member
  | Err (Fail e) => Err e
  | Err (Panic _) => Err (CoreInternal (Lit "compression worker panicked"))
  end.

(** The scoped threads only compute; the members are joined in order.  The first part is
    compressed by the caller, whose panic [scope] lets through; its error waits its turn. *)
Definition gzip_compress_chunked (body : Bytes) (level chunk_count : N) : result (Exit CoreError) Bytes :=
  let chunk_count := N.max (N.min chunk_count (byte_len body / MIN_CHUNK_BYTES)) 1 in
  if decide (chunk_count = 1%N) then gzip_compress body level
  else
    let parts := chunks (div_ceil (String.length body) (N.to_nat chunk_count)) body in
    match parts with
    | [] => Err (Panic "range start index 1 out of range")
    | part :: parts =>
        first ← gzip_compress part level;
        members ← map_err Fail (collect_results (fun part => join_worker (gzip_compress part level)) parts);
        Ok (str_join "" (first :: members))
    end.

(** ** The record loop *)

(** [for raw in &records]: the tally and the surviving texts. *)
Fixpoint buffer_records (engine : Engine) (records : list string) (tally : RecordTally) :
    RecordTally * list string :=
  match records with
  | [] => (tally, [])
  | text :: records =>
      let tally := RecordTally.record_in tally in
      match evaluate_raw engine text with
      | Ok Keep =>
          let '(tally, survivors) := buffer_records engine records (RecordTally.keep tally) in
          (tally, text :: survivors)
      | Ok (Drop rule_idx) => buffer_records engine records (RecordTally.drop_by_rule rule_idx tally)
      | Err _ =>
          let '(tally, survivors) :=
            buffer_records engine records (RecordTally.keep (RecordTally.parse_error tally)) in
          (tally, text :: survivors)
      end
  end.

(** The literal [{"Records":[]. *)
Definition QUOTE : string := String "034"%char "".
Definition ENVELOPE_OPEN : Bytes := "{" +:+ QUOTE +:+ "Records" +:+ QUOTE +:+ ":[".
Definition ENVELOPE_CLOSE : Bytes := "]}".

Definition envelope_body (survivors : list string) : Bytes :=
  ENVELOPE_OPEN +:+ str_join "," survivors +:+ ENVELOPE_CLOSE.

Definition buffer_run (input : Bytes) (engine : Engine) (cfg : Processing) :
    result (Exit CoreError) (Outcome * RecordTally) :=
  decompressed ← map_err Fail (decompress_capped input (max_object_bytes cfg));
  match parse_envelope (parse_shallow decompressed None) with
  | None =>
      match json_from_str decompressed with
      | Ok _ => Ok (Unrecognized, RecordTally.empty)
      | Err e => Err (Fail (CoreJson (Lit e)))
      end
  | Some records =>
      let '(tally, survivors) := buffer_records engine records RecordTally.empty in
      match survivors with
      | [] => Ok (NothingKept, tally)
      | _ =>
          gzipped ← gzip_compress_chunked (envelope_body survivors) (gzip_level cfg) (gzip_chunks cfg);
          Ok (Written (Some gzipped), tally)
      end
  end.

(** ** Specification *)

(** The records that must reach the destination: all but those a rule drops; a record that
    does not parse is kept. *)
Definition survives (engine : Engine) (text : string) : bool :=
  match evaluate_raw engine text with Ok (Drop _) => false | _ => true end.

(** The rule that drops a record. *)
Definition dropped_by (engine : Engine) (idx : nat) (text : string) : bool :=
  match evaluate_raw engine text with Ok (Drop i) => bool_decide (i = idx) | _ => false end.

Definition is_parse_error (engine : Engine) (text : string) : bool :=
  match evaluate_raw engine text with Err _ => true | _ => false end.

(** How many records satisfy [p]. *)
Definition count (p : string -> bool) (records : list string) : N :=
  N.of_nat (length (filter (fun text => p text = true) records)).

(** The tally of a list of records, counter by counter. *)
Record tally_counts (engine : Engine) (records : list string) (t : RecordTally) : Prop := {
  tc_in : t_records_in t = N.of_nat (length records);
  tc_kept : t_kept t = count (survives engine) records;
  tc_errors : t_parse_errors t = count (is_parse_error engine) records;
  tc_drops idx : default 0%N (t_rule_drops t !! idx) = count (dropped_by engine idx) records;
  tc_wf : tally_wf (length (e_rules engine)) t;
}.
End buffer.

(** ** Lemmas: the tally of the record loop *)

Section records.
Context {J : JsonCrate} {R : RegexCrate}.

Lemma first_drop_lt p n i : first_drop p n = Drop i -> i < n.
Proof.
  unfold first_drop. destruct (find_first p (seq 0 n)) as [j|] eqn:E; [|done]. intros [= <-].
  apply find_first_Some in E as [E _]. apply elem_of_seq in E. lia.
Qed.

(** A record is only ever dropped for a rule of the engine. *)
Lemma evaluate_raw_lt e paths text i :
  engine_wf e paths -> evaluate_raw e text = Ok (Drop i) -> i < length (e_rules e).
Proof.
  intros Hw. assert (rule_count (e_index e) = length (e_rules e)) as Hc
    by (rewrite (ew_index _ _ Hw), rule_count_build; apply length_map).
  unfold evaluate_raw, evaluate. rewrite Hc. case_match.
  - intros H1. apply result_bind_ok in H1 as (v & _ & [= H1]). by eapply first_drop_lt.
  - intros H1. apply result_bind_ok in H1 as (v & _ & [= H1]). by eapply first_drop_lt.
Qed.

Lemma count_snoc p records text : count p (records ++ [text]) = (count p records + if p text then 1 else 0)%N.
Proof.
  unfold count. rewrite filter_app, length_app. cbn [filter list_filter].
  destruct (p text); [rewrite decide_True by done|rewrite decide_False by done]; cbn; lia.
Qed.

(** What the loop of either mode does to the tally for one record. *)
Definition tally_record (e : Engine) (text : string) (t : RecordTally) : RecordTally :=
  match evaluate_raw e text with
  | Ok Keep => RecordTally.keep (RecordTally.record_in t)
  | Ok (Drop i) => RecordTally.drop_by_rule i (RecordTally.record_in t)
  | Err _ => RecordTally.keep (RecordTally.parse_error (RecordTally.record_in t))
  end.

Lemma tally_record_counts e paths pre text t :
  engine_wf e paths -> tally_counts e pre t -> tally_counts e (pre ++ [text]) (tally_record e text t).
Proof.
  intros Hw [H1 H2 H3 H4 H5]. unfold tally_record.
  assert (survives e text = match evaluate_raw e text with Ok (Drop _) => false | _ => true end) as Es by done.
  assert (is_parse_error e text = match evaluate_raw e text with Err _ => true | _ => false end) as Ee by done.
  assert (forall idx, dropped_by e idx text =
            match evaluate_raw e text with Ok (Drop i) => bool_decide (i = idx) | _ => false end) as Ed by done.
  destruct (evaluate_raw e text) as [[|i]|err] eqn:E; split; intros;
    rewrite ?count_snoc, ?length_app, ?Es, ?Ee, ?Ed; cbn -[count]; rewrite ?H1, ?H2, ?H3, ?H4; try lia.
  - by apply tally_keep_wf.
  - rewrite lookup_insert. destruct (decide (i = idx)) as [->|Hne].
    + by rewrite bool_decide_eq_true_2.
    + rewrite bool_decide_eq_false_2 by done. rewrite H4. lia.
  - apply tally_drop_wf; [by eapply evaluate_raw_lt|done].
  - apply (tally_keep_wf _ (RecordTally.parse_error t)). by apply tally_error_wf.
Qed.

Lemma tally_empty_counts e : tally_counts e [] RecordTally.empty.
Proof. by split. Qed.

(** The tally of a list of records. *)
Definition tally_of (e : Engine) (records : list string) : RecordTally :=
  foldl (fun t text => tally_record e text t) RecordTally.empty records.

Lemma tally_of_snoc e records text : tally_of e (records ++ [text]) = tally_record e text (tally_of e records).
Proof. unfold tally_of. by rewrite foldl_app. Qed.

Lemma tally_of_counts e paths records : engine_wf e paths -> tally_counts e records (tally_of e records).
Proof.
  intros Hw. induction records as [|text records IH] using rev_ind; [apply tally_empty_counts|].
  rewrite tally_of_snoc. by eapply tally_record_counts.
Qed.

Lemma buffer_records_spec e records t :
  buffer_records e records t =
  (foldl (fun t text => tally_record e text t) t records,
   filter (fun text => survives e text = true) records).
Proof.
  revert t. induction records as [|text records IH]; intros t; [done|]. cbn [buffer_records foldl].
  rewrite filter_cons. unfold tally_record at 2.
  assert (survives e text = match evaluate_raw e text with Ok (Drop _) => false | _ => true end) as Es by done.
  destruct (evaluate_raw e text) as [[|i]|err]; rewrite Es, IH.
  - by rewrite decide_True by done.
  - by rewrite decide_False by done.
  - by rewrite decide_True by done.
Qed.

Lemma buffer_records_empty e records :
  buffer_records e records RecordTally.empty =
  (tally_of e records, filter (fun text => survives e text = true) records).
Proof. apply buffer_records_spec. Qed.
End records.

(** ** Lemmas: decompression and compression *)

Section gzip.
Context {G : GzipCrate}.

Lemma byte_len_take n s : byte_len (str_take (N.to_nat n) s) = N.min n (byte_len s).
Proof. unfold byte_len. rewrite str_length_take. lia. Qed.

(** The cap, and that an accepted body is the whole decompressed input. *)
Lemma decompress_capped_ok input max buf :
  (byte_len (gunzip input).1 < U64_MAX)%N -> decompress_capped input max = Ok buf ->
  gunzip input = (buf, None) /\ (byte_len buf <= max)%N.
Proof.
  unfold decompress_capped. destruct (gunzip input) as [out err]. cbn [fst]. intros Hlen.
  unfold take_read_to_end, read_to_end. cbn [reader_bytes rd_chunks rd_error str_join].
  change (reader_bytes (mkReader [out] (Lit <$> err))) with out.
  unfold saturating_add_u64. destruct (N.leb_spec (N.min U64_MAX (max + 1)) (byte_len out)); cbn.
  - rewrite byte_len_take. destruct (N.ltb_spec max (N.min (N.min U64_MAX (max + 1)) (byte_len out))); [done|]. lia.
  - destruct err; cbn; [done|]. destruct (N.ltb_spec max (byte_len out)); [done|]. by intros [= <-].
Qed.

Lemma chunks_fuel_join fuel n s :
  0 < n -> String.length s <= fuel -> str_join "" (chunks_fuel fuel n s) = s.
Proof.
  intros Hn. revert s. induction fuel as [|fuel IH]; intros [|c s] Hf; cbn in Hf; try lia; try done.
  cbn [chunks_fuel]. rewrite str_join_empty_cons, IH; [apply str_take_drop|].
  rewrite str_length_drop. cbn. lia.
Qed.

Lemma chunks_join n s : 0 < n -> str_join "" (chunks n s) = s.
Proof. intros H. by apply chunks_fuel_join. Qed.

Context {GL : GzipLaws G}.

(** A single member decompresses to the body. *)
Lemma gzip_compress_roundtrip body level gz :
  gzip_compress body level = Ok gz -> gunzip gz = (body, None).
Proof.
  unfold gzip_compress. destruct (enc_new level) as [e0|] eqn:H0; [|done]. intros H.
  apply result_bind_ok in H as (e & Hw%map_err_ok & Hf%map_err_ok).
  apply enc_new_written in H0 as [Hw0 Hd0]. apply enc_write_written in Hw as [Hw Hd].
  apply enc_finish_member in Hf. by rewrite Hw, Hd, Hw0, Hd0 in Hf.
Qed.

Lemma join_worker_ok r member : join_worker r = Ok member -> r = Ok member.
Proof. by destruct r as [|[]]; cbn; [intros [= ->]|..]. Qed.

Lemma members_roundtrip parts members :
  parts <> [] -> Forall2 (fun part member => gunzip member = (part, None)) parts members ->
  gunzip (str_join "" members) = (str_join "" parts, None).
Proof.
  intros Hne H. revert Hne. induction H as [|part member parts members Hm H IH]; [done|]. intros _.
  destruct parts as [|part' parts].
  - apply Forall2_nil_inv_l in H as ->. by rewrite !str_join_empty_cons, !str_app_nil_r.
  - rewrite !(str_join_empty_cons part), (str_join_empty_cons member).
    apply gunzip_concat; [done|]. by apply IH.
Qed.

Lemma gzip_chunked_roundtrip body level n gz :
  gzip_compress_chunked body level n = Ok gz -> gunzip gz = (body, None).
Proof.
  unfold gzip_compress_chunked. case_decide as Hn; [apply gzip_compress_roundtrip|].
  set (k := N.to_nat _) in *. assert (1 < k /\ String.length body <> 0) as [Hk Hb].
  { subst k. unfold byte_len, MIN_CHUNK_BYTES in *. split; [lia|]. intros E. rewrite E in Hn.
    change (N.of_nat 0 / (64 * 1024))%N with 0%N in Hn. rewrite N.min_0_r in Hn. by apply Hn. }
  assert (str_join "" (chunks (div_ceil (String.length body) k) body) = body) as Hj.
  { apply chunks_join. unfold div_ceil. apply Nat.div_str_pos. lia. }
  destruct (chunks _ body) as [|part parts]; [done|]. intros H.
  apply result_bind_ok in H as (first & Hf%gzip_compress_roundtrip & H).
  apply result_bind_ok in H as (members & Hm%map_err_ok%collect_results_Forall2 & [= <-]).
  rewrite <-Hj. apply (members_roundtrip _ (first :: members)); [done|]. constructor; [done|].
  eapply Forall2_impl; [exact Hm|]. intros ? ? H%join_worker_ok. by eapply gzip_compress_roundtrip.
Qed.

(** How compression ends: with the bytes, inside, or with a panic, on a level there is not. *)
Definition compressed (level : N) (r : result (Exit CoreError) Bytes) : Prop :=
  match r with
  | Ok _ => True
  | Err (Fail e) => exists m, e = CoreInternal m
  | Err (Panic _) => (9 < level)%N
  end.

(** A level the encoder does not have. *)
Definition no_level (cfg : Processing) : Prop := (9 < gzip_level cfg)%N.

Lemma enc_new_none level : enc_new level = None -> (9 < level)%N.
Proof. intros H. destruct (N.leb_spec level 9) as [Hl|]; [|done]. destruct (enc_new_level level Hl). congruence. Qed.

Lemma gzip_compress_ends body level : compressed level (gzip_compress body level).
Proof.
  unfold gzip_compress. destruct (enc_new level) as [e|] eqn:H0; [|by apply enc_new_none].
  destruct (enc_write body e) as [enc|]; cbn; [|eauto]. destruct (enc_finish enc); cbn; eauto.
Qed.

Lemma gzip_chunked_ends body level n : compressed level (gzip_compress_chunked body level n).
Proof.
  unfold gzip_compress_chunked. case_decide as Hn; [apply gzip_compress_ends|].
  assert (chunks (div_ceil (String.length body)
            (N.to_nat (N.max (N.min n (byte_len body / MIN_CHUNK_BYTES)) 1))) body <> []) as Hne.
  { unfold chunks. destruct body; [|done]. change (byte_len "" / MIN_CHUNK_BYTES)%N with 0%N in Hn.
    rewrite N.min_0_r in Hn. by destruct Hn. }
  destruct (chunks _ body) as [|part parts]; [done|]. pose proof (gzip_compress_ends part level) as H1.
  destruct (gzip_compress part level) as [first|]; cbn [mbind result_bind]; [|done].
  destruct (collect_results _ parts) as [members|e] eqn:Hc; cbn; [done|].
  apply collect_results_err in Hc as (x & _ & Hx). pose proof (gzip_compress_ends x level) as H2.
  destruct (gzip_compress x level) as [|[|]]; cbn in Hx; [done| |]; injection Hx as <-; [exact H2|eauto].
Qed.
End gzip.

(** ** Properties *)

(** C17: what [buffer_run] delivers.  The object it writes decompresses to the envelope of
    exactly the records no rule drops, byte for byte and in order, whatever the number of
    gzip members; it writes nothing exactly when no record survives; and the tally counts
    every record once, as kept or under the rule that dropped it. *)
Theorem buffer_run_correct {J : JsonCrate} {SH : ShallowCrate} {R : RegexCrate} {G : GzipCrate}
    {GL : GzipLaws G} input engine paths cfg outcome tally :
  engine_wf engine paths -> (byte_len (gunzip input).1 < U64_MAX)%N ->
  buffer_run input engine cfg = Ok (outcome, tally) ->
  exists body, gunzip input = (body, None) /\ (byte_len body <= max_object_bytes cfg)%N /\
  match outcome with
  | Written (Some gz) => exists records, parse_envelope (parse_shallow body None) = Some records /\
      let survivors := filter (fun text => survives engine text = true) records in
      survivors <> [] /\ gunzip gz = (envelope_body survivors, None) /\ tally_counts engine records tally
  | Written None => False
  | NothingKept => exists records, parse_envelope (parse_shallow body None) = Some records /\
      filter (fun text => survives engine text = true) records = [] /\ tally_counts engine records tally
  | Unrecognized => parse_envelope (parse_shallow body None) = None /\
      is_ok (json_from_str body) = true /\ tally = RecordTally.empty
  end.
Proof.
  intros Hw Hlen H. unfold buffer_run in H. apply result_bind_ok in H as (body & Hd%map_err_ok & H).
  apply decompress_capped_ok in Hd as [Hg Hmax]; [|done]. exists body. split_and!; try done.
  destruct (parse_envelope _) as [records|] eqn:Hp.
  2:{ destruct (json_from_str body) eqn:Hj; [|done]. by injection H as <- <-. }
  rewrite buffer_records_empty in H. pose proof (tally_of_counts engine paths records Hw) as Ht.
  destruct (filter _ records) as [|s ss] eqn:Ef.
  - injection H as <- <-. eauto.
  - apply result_bind_ok in H as (gz & Hz & [= <- <-]). exists records.
    cbv zeta. rewrite Ef. split_and!; try done. by apply gzip_chunked_roundtrip in Hz.
Qed.

(** The chunk count changes only the framing: whenever compression succeeds, the output
    decompresses to the body at every chunk count and level. *)
Theorem gzip_compress_chunked_roundtrip {G : GzipCrate} {GL : GzipLaws G} body level n gz :
  gzip_compress_chunked body level n = Ok gz -> gunzip gz = (body, None).
Proof. apply gzip_chunked_roundtrip. Qed.

(** C39: the memory cap.  An accepted body is the whole decompressed input and within the
    cap; a longer one is [ObjectTooLarge], even when the input is damaged further on; the
    capacity hint is bounded by the cap and by the deflate ratio, whatever the trailer
    says. *)
Theorem decompress_capped_spec {G : GzipCrate} input max :
  (byte_len (gunzip input).1 < U64_MAX)%N ->
  decompress_capped input max =
    (if (max <? byte_len (gunzip input).1)%N then Err (ObjectTooLarge max)
     else match (gunzip input).2 with
          | Some e => Err (CoreGzip (Lit e))
          | None => Ok (gunzip input).1
          end) /\
  (decompressed_size_hint input max <= max + 1)%N /\
  (decompressed_size_hint input max <= 1032 * byte_len input)%N.
Proof.
  intros Hlen. split.
  - unfold decompress_capped, take_read_to_end, read_to_end. destruct (gunzip input) as [out err].
    cbn [fst snd rd_error] in *. change (reader_bytes (mkReader [out] (Lit <$> err))) with out.
    unfold saturating_add_u64.
    destruct (N.leb_spec (N.min U64_MAX (max + 1)) (byte_len out)); cbn.
    + rewrite byte_len_take. destruct (N.ltb_spec max (byte_len out)); [|lia].
      by destruct (N.ltb_spec max (N.min (N.min U64_MAX (max + 1)) (byte_len out))); [|lia].
    + destruct (N.ltb_spec max (byte_len out)); [lia|]. destruct err; cbn; [done|].
      by destruct (N.ltb_spec max (byte_len out)); [lia|].
  - unfold decompressed_size_hint, saturating_add_u64, saturating_mul_u64, MAX_DEFLATE_RATIO.
    destruct (byte_len input <? 4)%N; lia.
Qed.

(** ** Reference instances and witnesses *)

(** Stored members: the identity. *)
Module RefGzip.
Record enc := mkEnc { written : Bytes; drained : Bytes; buffered : Bytes }.

Definition new (_ : N) : enc := mkEnc "" "" "".
Definition write (b : Bytes) (e : enc) : enc := mkEnc (written e +:+ b) (drained e) (buffered e +:+ b).
Definition take (e : enc) : enc := mkEnc (written e) (drained e +:+ buffered e) "".
End RefGzip.

(** What was drained and what is still buffered make up what was written. *)
Definition ref_enc : Type := { e : RefGzip.enc | RefGzip.written e = RefGzip.drained e +:+ RefGzip.buffered e }.

Definition ref_new (level : N) : option ref_enc :=
  if (level <=? 9)%N then Some (exist _ (RefGzip.new level) eq_refl) else None.
Definition ref_write (b : Bytes) (e : ref_enc) : ref_enc.
Proof.
  exists (RefGzip.write b (`e)). destruct e as [e He]. cbn. rewrite He. apply str_app_assoc.
Defined.
Definition ref_take (e : ref_enc) : ref_enc.
Proof. exists (RefGzip.take (`e)). destruct e as [e He]. cbn. by rewrite str_app_nil_r. Defined.

#[export] Instance ref_gzip : GzipCrate := {|
  gunzip input := (input, None);
  gunzip_partial input := (input, None);
  Enc := ref_enc;
  enc_new := ref_new;
  enc_write b e := Ok (ref_write b e);
  enc_buffered e := RefGzip.buffered (`e);
  enc_take := ref_take;
  enc_finish e := Ok (RefGzip.buffered (`e));
|}.

#[export] Instance ref_gzip_laws : GzipLaws ref_gzip.
Proof.
  refine (Build_GzipLaws ref_gzip (fun e => RefGzip.written (`e)) (fun e => RefGzip.drained (`e)) _ _ _ _ _ _).
  - intros level Hl. cbn. unfold ref_new. rewrite (proj2 (N.leb_le level 9) Hl). by eexists.
  - intros level e. cbn. unfold ref_new. destruct (level <=? 9)%N; [|done]. by intros [= <-].
  - intros b e e' [= <-]. done.
  - done.
  - intros [e He] tail [= <-]. cbn in *. by rewrite He.
  - intros a b x y [= ->] [= ->]. done.
Defined.

(** Shapes by text; an unknown text is a scalar. *)
Definition table_shallow (table : list (string * Shallow)) : ShallowCrate := {|
  parse_shallow text tail :=
    match tail with
    | Some e => mkShallow (TScalar (Err (mkJsonError true e))) (Err (mkJsonError true e))
    | None => default (mkShallow (TScalar (Ok tt)) (Ok tt)) (alist_get text table)
    end;
|}.

Definition demo_shallow : ShallowCrate :=
  table_shallow
    [("three", mkShallow (TMap [("v", RScalar (Ok tt) (Ok tt)); ("Records", RArr ["r1"; "r2"; "r3"] (Ok tt))] (Ok tt)) (Ok tt));
     ("twice", mkShallow (TMap [("Records", RArr ["r1"] (Ok tt)); ("Records", RArr ["r2"] (Ok tt))] (Ok tt)) (Ok tt));
     ("dropped", mkShallow (TMap [("Records", RArr ["r1"; "r2"] (Ok tt))] (Ok tt)) (Ok tt))].

#[export] Instance demo_shallow_laws J : ShallowLaws J demo_shallow.
Proof.
  split; [|done]. intros text d _. cbn [parse_shallow demo_shallow table_shallow].
  repeat (cbn [alist_get]; case_decide; [reflexivity|]). reflexivity.
Qed.

Lemma demo_engine_wf : exists paths, engine_wf demo_engine paths.
Proof.
  destruct (engine_new_inv (Y := demo_yaml) demo_rules demo_engine demo_engine_new)
    as (? & ? & paths & _ & _ & ? & _).
  by exists paths.
Defined.

(** The third record is not JSON to the demo parser, so it is kept; the others are dropped. *)
Lemma buffer_run_correct_witness :
  exists body, gunzip (GzipCrate := ref_gzip) "three" = (body, None) /\
    exists records, parse_envelope (@parse_shallow demo_shallow body None) = Some records /\
      filter (fun text => survives (J := demo_json) demo_engine text = true) records = ["r3"].
Proof.
  destruct demo_engine_wf as [paths Hw].
  destruct (buffer_run_correct (J := demo_json) (SH := demo_shallow) (R := ref_regex) (G := ref_gzip)
              "three" demo_engine paths Processing_default
              (Written (Some (envelope_body ["r3"])))
              (buffer_records (J := demo_json) demo_engine ["r1"; "r2"; "r3"] RecordTally.empty).1)
    as (body & Hb & _ & records & Hr & _ & Hz & _).
  - exact Hw.
  - reflexivity.
  - vm_compute. reflexivity.
  - exists body. split; [exact Hb|]. exists records. split; [exact Hr|].
    injection Hb as <-. injection Hr as <-. vm_compute. reflexivity.
Defined.

Lemma gzip_compress_chunked_roundtrip_witness :
  gunzip (GzipCrate := ref_gzip) "abc" = ("abc", None).
Proof. apply (gzip_compress_chunked_roundtrip (G := ref_gzip) "abc" 6 4 "abc"). reflexivity. Defined.

Lemma decompress_capped_spec_witness :
  decompress_capped (G := ref_gzip) "abcd" 3 = Err (ObjectTooLarge 3) /\
  (decompressed_size_hint "abcd" 3 <= 4)%N.
Proof.
  destruct (decompress_capped_spec (G := ref_gzip) "abcd" 3 eq_refl) as (-> & H & _).
  split; [reflexivity|exact H].
Defined.
