(* ===== verification/Stream.v ===== *)
(** * Stream-mode processing ([core/src/process/stream.rs])

    Three concurrent pieces joined by channels.  A channel is the sequence of messages
    sent over it; each piece is a function from the messages it receives to those it
    sends, so the joint result does not depend on how the pieces interleave.  What does
    depend on the schedule is an argument ([Schedule]): how much input is pumped before an
    extraction that failed hangs up, and whether the extraction task panics.  Network has the
    tasks as they are stepped and shows that nothing else depends on it. *)

From S2P Require Import Prelude Model Json Regex Rules Reference Index Project Engine.
From S2P Require Import Settings Effects Metrics Ports Task Envelope Buffer.

Definition INPUT_CHUNK_BYTES : nat := 64 * 1024.
Definition OUTPUT_FLUSH_THRESHOLD : N := 64 * 1024.

(** ** Messages *)

(** [io::Result<Bytes>]. *)
Abbreviation ByteMsg := (result Msg Bytes) (only parsing).

Inductive ParseFailure : Type :=
  | PfGzip (m : string)
  | PfJson (m : string)
  | PfTransport (m : Msg).

Inductive FinishKind : Type :=
  | RecordsFound
  | FkUnrecognized
  | FkError (f : ParseFailure).

Inductive StreamMsg : Type :=
  | SRecord (raw : string)
  | SFinished (kind : FinishKind).

(** ** Channel readers *)

Record ChannelSyncRead := mkChannelSyncRead {
  csr_rx : list ByteMsg;
  csr_pending : Bytes;
  csr_transport_error : option Msg;
}.

(** The loop of [ChannelSyncRead::read], with [n > 0] bytes of room. *)
Fixpoint sync_read_loop (n : nat) (rx : list ByteMsg) (pending : Bytes) (transport : option Msg) :
    result Msg Bytes * ChannelSyncRead :=
  if negb (str_is_empty pending) then
    (Ok (str_take n pending), mkChannelSyncRead rx (str_drop n pending) transport)
  else match rx with
       | Ok bytes :: rx => sync_read_loop n rx bytes transport
       | Err e :: rx =>
           (Err e, mkChannelSyncRead rx pending (match transport with Some t => Some t | None => Some e end))
       | [] => (Ok "", mkChannelSyncRead [] pending transport)
       end.

Definition sync_read (n : nat) (r : ChannelSyncRead) : result Msg Bytes * ChannelSyncRead :=
  match n with
  | O => (Ok "", r)
  | _ => sync_read_loop n (csr_rx r) (csr_pending r) (csr_transport_error r)
  end.

Record ChannelAsyncRead := mkChannelAsyncRead {
  car_rx : list ByteMsg;
  car_pending : Bytes;
}.

(** [ChannelAsyncRead::poll_read]; [Pending] only delays the caller. *)
Fixpoint async_read_loop (n : nat) (rx : list ByteMsg) (pending : Bytes) :
    result Msg Bytes * ChannelAsyncRead :=
  if negb (str_is_empty pending) then
    (Ok (str_take n pending), mkChannelAsyncRead rx (str_drop n pending))
  else match rx with
       | Ok bytes :: rx => async_read_loop n rx bytes
       | Err e :: rx => (Err e, mkChannelAsyncRead rx pending)
       | [] => (Ok "", mkChannelAsyncRead [] pending)
       end.

Definition async_read (n : nat) (r : ChannelAsyncRead) : result Msg Bytes * ChannelAsyncRead :=
  match n with O => (Ok "", r) | _ => async_read_loop n (car_rx r) (car_pending r) end.

(** The chunks before the first error, and that error: a channel as a body. *)
Fixpoint reader_of_msgs (msgs : list ByteMsg) : Reader :=
  match msgs with
  | [] => mkReader [] None
  | Ok b :: msgs => let r := reader_of_msgs msgs in mkReader (b :: rd_chunks r) (rd_error r)
  | Err e :: _ => mkReader [] (Some e)
  end.

(** ** Input *)

(** [pump_input]: [accepts] is the number of messages the receiver takes before it hangs
    up; a message it does not take ends the loop. *)
Fixpoint pump_input (accepts : nat) (input : Reader) (metrics : Metrics) : list ByteMsg * Metrics :=
  match read INPUT_CHUNK_BYTES input with
  | (Ok b, input') =>
      if str_is_empty b then ([], metrics)
      else
        let metrics := add_bytes_in (byte_len b) metrics in
        match accepts with
        | O => ([], metrics)
        | S accepts =>
            let '(msgs, metrics) := pump_input accepts input' metrics in
            (Ok b :: msgs, metrics)
        end
  | (Err e, _) => (match accepts with O => [] | S _ => [Err e] end, metrics)
  end.

(** More messages than a body of this length can take. *)
Definition input_bound (input : Reader) : nat := S (String.length (reader_bytes input)).

Section stream.
Context {J : JsonCrate} {SH : ShallowCrate} {R : RegexCrate} {G : GzipCrate}.

(** ** Extraction *)

(** [MultiGzDecoder] over the channel: the bytes it delivers, the io error its reads end
    with, and whether that error is the channel's. *)
Definition gz_over_channel (msgs : list ByteMsg) : Bytes * option string * option Msg :=
  let r := reader_of_msgs msgs in
  match rd_error r with
  | None => let '(out, err) := gunzip (reader_bytes r) in (out, err, None)
  | Some e =>
      match gunzip_partial (reader_bytes r) with
      | (out, Some corrupt) => (out, Some corrupt, None)
      | (out, None) => (out, Some "transport error", Some e)
      end
  end.

(** [extract_records]: the transport error is set only when a read reached it, and then
    the parser's error is that io error. *)
Definition extract_records (msgs : list ByteMsg) : list StreamMsg :=
  let '(decoded, tail, transport) := gz_over_channel msgs in
  let '(sent, result) := visit_envelope (parse_shallow decoded tail) in
  let finish :=
    match result with
    | Ok true => RecordsFound
    | Ok false => FkUnrecognized
    | Err e =>
        match transport with
        | Some msg => if je_io e then FkError (PfTransport msg) else FkError (PfJson (je_msg e))
        | None => if je_io e then FkError (PfGzip (je_msg e)) else FkError (PfJson (je_msg e))
        end
    end in
  map SRecord sent ++ [SFinished finish].

(** ** Processing *)

Record Processor := mkProcessor {
  p_encoder : Enc;
  p_first : bool;
  p_tally : RecordTally;
  p_bytes_out : N;
  (** Everything sent over [out_tx]. *)
  p_out : list ByteMsg;
}.

Definition abort (why : string) (p : Processor) : list ByteMsg := p_out p ++ [Err (Lit why)].

(** The closure [write_result]. *)
Definition write_survivor (p : Processor) (text : string) : result string Enc :=
  encoder ← (if p_first p then Ok (p_encoder p) else enc_write "," (p_encoder p));
  enc_write text encoder.

(** The output side of one record: drain the encoder once it holds enough. *)
Definition flush (p : Processor) : Processor :=
  if (OUTPUT_FLUSH_THRESHOLD <=? byte_len (enc_buffered (p_encoder p)))%N then
    let chunk := enc_buffered (p_encoder p) in
    mkProcessor (enc_take (p_encoder p)) (p_first p) (p_tally p) (p_bytes_out p + byte_len chunk)
      (p_out p ++ [Ok chunk])
  else p.

Definition with_tally (f : RecordTally -> RecordTally) (p : Processor) : Processor :=
  mkProcessor (p_encoder p) (p_first p) (f (p_tally p)) (p_bytes_out p) (p_out p).

(** One [StreamMsg::Record]; [Err] carries what was sent and the error returned. *)
Definition process_record (engine : Engine) (text : string) (p : Processor) :
    result (list ByteMsg * CoreError) Processor :=
  let p := with_tally RecordTally.record_in p in
  let '(keep, p) :=
    match evaluate_raw engine text with
    | Ok Keep => (true, p)
    | Ok (Drop rule_idx) => (false, with_tally (RecordTally.drop_by_rule rule_idx) p)
    | Err _ => (true, with_tally RecordTally.parse_error p)
    end in
  p ← (if (keep : bool) then
         match write_survivor p text with
         | Ok encoder =>
             Ok (with_tally RecordTally.keep
                   (mkProcessor encoder false (p_tally p) (p_bytes_out p) (p_out p)))
         | Err e => Err (abort "aborting: gzip write failed" p, CoreInternal (Lit e))
         end
       else Ok p);
  Ok (flush p).

(** The receive loop, up to [Finished]. *)
Fixpoint process_loop (engine : Engine) (msgs : list StreamMsg) (p : Processor) :
    result (list ByteMsg * CoreError) (Processor * FinishKind) :=
  match msgs with
  | SRecord text :: msgs => p ← process_record engine text p; process_loop engine msgs p
  | SFinished kind :: _ => Ok (p, kind)
  | [] =>
      Err (abort "aborting: record producer vanished" p,
           CoreInternal (Lit "stream_run: record producer ended without a Finished message"))
  end.

(** The [match finish] after the loop. *)
Definition finish_processing (p : Processor) (kind : FinishKind) :
    list ByteMsg * result CoreError (Outcome * N * RecordTally) :=
  match kind with
  | RecordsFound =>
      if (0 <? RecordTally.kept_count (p_tally p))%N then
        match enc_write ENVELOPE_CLOSE (p_encoder p) with
        | Err e => (abort "aborting: gzip write failed" p, Err (CoreInternal (Lit e)))
        | Ok encoder =>
            match enc_finish encoder with
            | Ok tail =>
                if str_is_empty tail then (p_out p, Ok (Written None, p_bytes_out p, p_tally p))
                else (p_out p ++ [Ok tail], Ok (Written None, (p_bytes_out p + byte_len tail)%N, p_tally p))
            | Err e => (abort "aborting: gzip finish failed" p, Err (CoreInternal (Lit e)))
            end
        end
      else (abort "aborting: all records dropped" p, Ok (NothingKept, 0%N, p_tally p))
  | FkUnrecognized => (abort "aborting: no Records array" p, Ok (Unrecognized, 0%N, RecordTally.empty))
  | FkError failure =>
      (abort "aborting: parse failure" p,
       Err (match failure with
            | PfGzip msg => CoreGzip (Lit msg)
            | PfJson msg => CoreJson (Lit msg)
            | PfTransport msg => CoreStore (Backend (Fmt "reading source object: {msg}" [msg]))
            end))
  end.

(** The [processing] block, from the encoder it starts with: what it sends to the upload, and
    its result. *)
Definition processing (engine : Engine) (encoder : Enc) (msgs : list StreamMsg) :
    list ByteMsg * result CoreError (Outcome * N * RecordTally) :=
  match enc_write ENVELOPE_OPEN encoder with
  | Err e => ([Err (Lit "aborting: gzip write failed")], Err (CoreInternal (Lit e)))
  | Ok encoder =>
      match process_loop engine msgs (mkProcessor encoder true RecordTally.empty 0 []) with
      | Err (out, e) => (out, Err e)
      | Ok (p, kind) => finish_processing p kind
      end
  end.

(** It receives every message unless the encoder fails before the last: then it returns, and
    the extraction finds its receiver gone. *)
Fixpoint loop_drains (engine : Engine) (msgs : list StreamMsg) (p : Processor) : bool :=
  match msgs with
  | SRecord text :: msgs => match process_record engine text p with Ok p => loop_drains engine msgs p | Err _ => false end
  | _ => true
  end.

Definition processing_drains (engine : Engine) (encoder : Enc) (msgs : list StreamMsg) : bool :=
  match enc_write ENVELOPE_OPEN encoder with
  | Err _ => false
  | Ok encoder => loop_drains engine msgs (mkProcessor encoder true RecordTally.empty 0 [])
  end.

(** ** The entry point *)

(** [sch_accepts]: how many messages an extraction that fails takes from the pump before
    it hangs up.  [sch_panic]: the extraction task panics after sending that many
    messages, none of them [Finished]. *)
Record Schedule := mkSchedule {
  sch_accepts : nat;
  sch_panic : option (nat * string);
}.

Definition is_record (m : StreamMsg) : bool := match m with SRecord _ => true | _ => false end.

(** Parsing that succeeds has read the input to its end. *)
Definition reads_all (extracted : list StreamMsg) : bool :=
  match last extracted with
  | Some (SFinished RecordsFound) | Some (SFinished FkUnrecognized) => true
  | _ => false
  end.

Definition STREAM_META : PutMeta := mkPutMeta "application/x-gzip" "gzip".

(** What the extraction sends of an input it reads to its end; the messages of the pump do
    not depend on the counters. *)
Definition extraction (input : Reader) : list StreamMsg :=
  extract_records (pump_input (input_bound input) input Metrics_default).1.

(** What follows the join of the four: whether the extraction task panicked, and the results
    of the processing block and of the upload. *)
Definition settle_stream (engine : Engine) (blocking_result : result CoreError unit)
    (processing_result : result CoreError (Outcome * N * RecordTally)) (upload_result : result StoreError unit) :
    Task Outcome :=
  match blocking_result with
  | Err e => task_fail e
  | Ok _ =>
      match processing_result with
      | Err e => task_fail e
      | Ok (outcome, bytes_out, tally) =>
          match outcome with
          | Written _ =>
              match upload_result with
              | Err e => task_fail (CoreStore e)
              | Ok _ =>
                  OpCount (add_bytes_out bytes_out) (OpCount (RecordTally.commit tally engine) (Ret (Ok outcome)))
              end
          | NothingKept | Unrecognized => OpCount (RecordTally.commit tally engine) (Ret (Ok outcome))
          end
      end
  end.

(** [blocking_result.map_err(..)] *)
Definition join_error (e : string) : CoreError :=
  CoreInternal (Fmt "stream_run: record extraction task panicked: {e}" [Lit e]).

(** The join of the four, once [processing] has its encoder.  The pump's increments are one
    request, since they compose; the upload is the only call of the store. *)
Definition stream_joined_program (sched : Schedule) (input : Reader) (engine : Engine) (encoder : Enc)
    (dest_bucket dest_key : string) : Task Outcome :=
  let extracted := extraction input in
  let '(raw, blocking_result, all) :=
    match sch_panic sched with
    | None => (extracted, Ok tt, reads_all extracted && processing_drains engine encoder extracted)
    | Some (k, e) => (take k (filter (fun m => is_record m = true) extracted), Err (join_error e), false)
    end in
  let accepts := if all then input_bound input else sch_accepts sched in
  OpCount (fun metrics => (pump_input accepts input metrics).2)
  (let '(out, processing_result) := processing engine encoder raw in
   OpPutStream dest_bucket dest_key (reader_of_msgs out) STREAM_META (fun '(upload_result, _) =>
   settle_stream engine blocking_result processing_result upload_result)).

(** [stream_run] as a program.  [processing] is polled after the pump and before the upload: if
    it panics for its encoder, the pump has sent some of the input and the store was not
    called. *)
Definition stream_program (sched : Schedule) (input : Reader) (engine : Engine) (cfg : Processing)
    (dest_bucket dest_key : string) : Task Outcome :=
  match enc_new (gzip_level cfg) with
  | None => OpCount (fun metrics => (pump_input (sch_accepts sched) input metrics).2) (task_panic LEVEL_PANIC)
  | Some encoder => stream_joined_program sched input engine encoder dest_bucket dest_key
  end.

(** It runs with the metrics and the store it is passed. *)
Definition stream_run {S} `{ObjectStore S} (sched : Schedule) (input : Reader) (engine : Engine)
    (cfg : Processing) (metrics : Metrics) (store : S) (dest_bucket dest_key : string) :
    result (Exit CoreError) Outcome * Metrics * S :=
  let '(r, w) := run (stream_program sched input engine cfg dest_bucket dest_key) (mkEnv store metrics) in
  (r, e_metrics w, e_store w).
End stream.

(** Awaited by a task, it runs with the task's metrics and store. *)
Lemma wp_stream {J : JsonCrate} {SH : ShallowCrate} {R : RegexCrate} {G : GzipCrate} {S} {St : ObjectStore S}
    sched input engine cfg b k Q (w : Env S) :
  wp (stream_program sched input engine cfg b k) Q w <->
  let '(r, m, s) := stream_run sched input engine cfg (e_metrics w) (e_store w) b k in Q r (mkEnv s m).
Proof.
  unfold wp, run_task, stream_run. destruct w as [s m]. cbn [e_store e_metrics].
  by destruct (run _ _) as [r [s' m']].
Qed.

(** The upload is all it asks of the store. *)
Lemma stream_run_upload {J : JsonCrate} {SH : ShallowCrate} {R : RegexCrate} {G : GzipCrate} {S}
    (St St' : ObjectStore S) sched input engine cfg m (s : S) b k :
  (forall b k body meta, store_put_stream (ObjectStore := St) b k body meta s =
                         store_put_stream (ObjectStore := St') b k body meta s) ->
  stream_run (H := St) sched input engine cfg m s b k = stream_run (H := St') sched input engine cfg m s b k.
Proof.
  intros H. unfold stream_run, stream_program. destruct (enc_new (gzip_level cfg)) as [encoder|]; [|done].
  unfold stream_joined_program. cbv zeta.
  destruct (match sch_panic sched with None => _ | Some _ => _ end) as [[raw blocking] all].
  destruct (processing _ _ _) as [out pr]. run_step. rewrite H.
  destruct (store_put_stream _ _ _ _ s) as [[[[]|?] n] s1], blocking, pr as [[[[] ?] ?]|?]; done.
Qed.

(** ** Lemmas: channels and input *)

Lemma reader_of_oks chunks rest :
  reader_bytes (reader_of_msgs (map Ok chunks ++ rest)) =
    str_join "" chunks +:+ reader_bytes (reader_of_msgs rest) /\
  rd_error (reader_of_msgs (map Ok chunks ++ rest)) = rd_error (reader_of_msgs rest).
Proof.
  induction chunks as [|c chunks [IH1 IH2]]; [done|]. cbn [map app reader_of_msgs]. split; [|done].
  unfold reader_bytes in *. cbn [rd_chunks]. by rewrite !str_join_empty_cons, IH1, str_app_assoc.
Qed.

(** Reading the channel is reading the body it stands for. *)
Lemma async_read_reader n r :
  let body := mkReader (car_pending r :: rd_chunks (reader_of_msgs (car_rx r))) (rd_error (reader_of_msgs (car_rx r))) in
  (async_read n r).1 = (read n body).1.
Proof.
  cbv zeta. destruct r as [rx pending]. destruct n as [|n]; [done|]. unfold async_read, read.
  cbn [car_rx car_pending rd_chunks rd_error]. revert pending.
  induction rx as [|[b|e] rx IH]; intros pending; cbn [async_read_loop read_chunks reader_of_msgs rd_chunks rd_error].
  - by destruct (str_is_empty pending).
  - destruct (str_is_empty pending); cbn [negb]; [|done]. apply IH.
  - by destruct (str_is_empty pending).
Qed.

Lemma sync_read_reader n r :
  let body := mkReader (csr_pending r :: rd_chunks (reader_of_msgs (csr_rx r))) (rd_error (reader_of_msgs (csr_rx r))) in
  (sync_read n r).1 = (read n body).1.
Proof.
  cbv zeta. destruct r as [rx pending tr]. destruct n as [|n]; [done|]. unfold sync_read, read.
  cbn [csr_rx csr_pending csr_transport_error rd_chunks rd_error]. revert pending.
  induction rx as [|[b|e] rx IH]; intros pending; cbn [sync_read_loop read_chunks reader_of_msgs rd_chunks rd_error].
  - by destruct (str_is_empty pending).
  - destruct (str_is_empty pending); cbn [negb]; [|done]. apply IH.
  - by destruct (str_is_empty pending).
Qed.

Lemma input_chunk_pos : 0 < INPUT_CHUNK_BYTES.
Proof. apply Nat.ltb_lt. reflexivity. Qed.

(** Pumping to the end passes on the whole body and how it ends. *)
Lemma pump_input_msgs n input m :
  String.length (reader_bytes input) < n ->
  reader_bytes (reader_of_msgs (pump_input n input m).1) = reader_bytes input /\
  rd_error (reader_of_msgs (pump_input n input m).1) = rd_error input.
Proof.
  revert input m. induction n as [|n IH]; intros input m Hn; [lia|]. cbn [pump_input].
  pose proof (read_spec INPUT_CHUNK_BYTES input input_chunk_pos) as Hr.
  destruct (read INPUT_CHUNK_BYTES input) as [[b|e] input'].
  - destruct Hr as (Hb & He & Hempty). destruct b as [|a b]; cbn [str_is_empty].
    + destruct (Hempty eq_refl) as [-> ->]. done.
    + rewrite Hb, str_length_app in Hn. cbn in Hn.
      destruct (IH input' (add_bytes_in (byte_len (String a b)) m)) as [IH1 IH2]; [lia|].
      destruct (pump_input n input' _) as [msgs m']. cbn [fst] in *. cbn [reader_of_msgs].
      unfold reader_bytes in *. cbn [rd_chunks rd_error]. split; [|congruence].
      by rewrite str_join_empty_cons, IH1.
  - destruct Hr as [-> ->]. done.
Qed.

(** The bytes-in reports of a list of chunks. *)
Definition bytes_in_events (bs : list Bytes) : list MetricEvent :=
  map (fun b => EvAdd BytesIn (byte_len b)) bs.

(** [BytesIn] grows by the chunks read, which make up the body when the pump runs to its
    end. *)
Lemma pump_input_metrics n input :
  exists bs rest, (forall m, (pump_input n input m).2 = apply_events (bytes_in_events bs) m) /\
    reader_bytes input = str_join "" bs +:+ rest /\
    (String.length (reader_bytes input) < n -> rest = "").
Proof.
  revert input. induction n as [|n IH]; intros input; cbn [pump_input];
    pose proof (read_spec INPUT_CHUNK_BYTES input input_chunk_pos) as Hr;
    destruct (read INPUT_CHUNK_BYTES input) as [[b|e] input'].
  - destruct Hr as (Hb & _ & _). destruct (str_is_empty b).
    + exists [], (reader_bytes input). split_and!; [done|done|lia].
    + exists [b], (reader_bytes input'). split_and!; [done|done|lia].
  - exists [], (reader_bytes input). split_and!; [done|done|lia].
  - destruct Hr as (Hb & _ & Hempty). destruct b as [|a b]; cbn [str_is_empty].
    + exists [], "". destruct (Hempty eq_refl) as [-> _]. done.
    + destruct (IH input') as (bs & rest & Hm & Hbs & Hrest).
      exists (String a b :: bs), rest. split_and!.
      * intros m. specialize (Hm (add_bytes_in (byte_len (String a b)) m)).
        by destruct (pump_input n input' _) as [msgs m'].
      * by rewrite Hb, Hbs, str_join_empty_cons, str_app_assoc.
      * intros Hn. apply Hrest. rewrite Hb, str_length_app in Hn. cbn in Hn. lia.
  - exists [], "". destruct Hr as [-> _]. done.
Qed.

(** ** Lemmas: processing *)

Section processing.
Context {J : JsonCrate} {SH : ShallowCrate} {R : RegexCrate} {G : GzipCrate} {GL : GzipLaws G}.

Definition kept (engine : Engine) (records : list string) : list string :=
  filter (fun text => survives engine text = true) records.

(** After the records [pre]: the encoder holds the envelope of the survivors so far, what
    was sent is what was drained from it, and the tally counts [pre]. *)
Record proc_inv (engine : Engine) (pre : list string) (p : Processor) : Prop := {
  pi_written : written (p_encoder p) = ENVELOPE_OPEN +:+ str_join "," (kept engine pre);
  pi_first : p_first p = bool_decide (kept engine pre = []);
  pi_out : exists chunks, p_out p = map Ok chunks /\ str_join "" chunks = drained (p_encoder p) /\
             p_bytes_out p = byte_len (drained (p_encoder p));
  pi_tally : p_tally p = tally_of engine pre;
}.

Lemma kept_snoc engine pre text :
  kept engine (pre ++ [text]) = kept engine pre ++ (if survives engine text then [text] else []).
Proof.
  unfold kept. rewrite filter_app, (filter_singleton _ text []).
  destruct (survives engine text); [by rewrite decide_True by done|by rewrite decide_False by done].
Qed.

Lemma str_join_snoc sep l s :
  str_join sep (l ++ [s]) = match l with [] => s | _ => str_join sep l +:+ sep +:+ s end.
Proof.
  induction l as [|x l IH]; [done|]. cbn [app]. destruct l as [|y l]; [done|].
  change (str_join sep (x :: y :: l)) with (x +:+ sep +:+ str_join sep (y :: l)).
  change (str_join sep (x :: (y :: l) ++ [s])) with (x +:+ sep +:+ str_join sep ((y :: l) ++ [s])).
  rewrite IH. by rewrite !str_app_assoc.
Qed.

Lemma byte_len_app a b : byte_len (a +:+ b) = (byte_len a + byte_len b)%N.
Proof. unfold byte_len. rewrite str_length_app. lia. Qed.

(** An aborted upload's body ends with the abort error. *)
Lemma abort_error engine pre why p :
  proc_inv engine pre p -> rd_error (reader_of_msgs (abort why p)) = Some (Lit why).
Proof.
  intros [_ _ (chunks & Ho & _ & _) _]. unfold abort. rewrite Ho.
  by destruct (reader_of_oks chunks [Err (Lit why)]) as [_ ->].
Qed.

Lemma flush_inv engine pre p : proc_inv engine pre p -> proc_inv engine pre (flush p).
Proof.
  intros [Hw Hf (chunks & Ho & Hd & Hb) Ht]. unfold flush. case_match; [|by split; eauto].
  destruct (enc_take_written (p_encoder p)) as [Hw' Hd']. split; cbn [p_encoder p_first p_tally p_bytes_out p_out];
    [by rewrite Hw'|done| |done].
  exists (chunks ++ [enc_buffered (p_encoder p)]). split_and!.
  - by rewrite map_app, Ho.
  - rewrite str_join_empty_app, Hd, Hd'. done.
  - by rewrite Hd', byte_len_app, Hb.
Qed.

(** What [write_survivor] adds to the encoder. *)
Lemma write_survivor_written p text encoder :
  write_survivor p text = Ok encoder ->
  written encoder = written (p_encoder p) +:+ (if p_first p then "" else ",") +:+ text /\
  drained encoder = drained (p_encoder p).
Proof.
  unfold write_survivor. intros H. apply result_bind_ok in H as (e & He & H).
  apply enc_write_written in H as [-> ->]. destruct (p_first p).
  - by injection He as <-.
  - apply enc_write_written in He as [-> ->]. by rewrite str_app_assoc.
Qed.

(** The two branches that keep a record: [f] is what they did to the tally before. *)
Lemma keep_record_inv engine pre text p f :
  proc_inv engine pre p -> survives engine text = true ->
  RecordTally.keep (f (p_tally p)) = tally_of engine (pre ++ [text]) ->
  let p := with_tally f p in
  match match write_survivor p text with
        | Ok encoder =>
            Ok (with_tally RecordTally.keep
                  (mkProcessor encoder false (p_tally p) (p_bytes_out p) (p_out p)))
        | Err e => Err (abort "aborting: gzip write failed" p, CoreInternal (Lit e))
        end ≫= (fun p => Ok (flush p)) with
  | Ok p' => proc_inv engine (pre ++ [text]) p'
  | Err (out, _) => exists e, rd_error (reader_of_msgs out) = Some e
  end.
Proof.
  intros [Hwr Hf (chunks & Ho & Hd & Hb) Ht] Hs Ht' q.
  destruct (write_survivor q text) as [encoder|e] eqn:Ew; cbn [mbind result_bind].
  2:{ exists (Lit "aborting: gzip write failed"). unfold abort. cbn [q with_tally p_out]. rewrite Ho.
      by destruct (reader_of_oks chunks [Err (Lit "aborting: gzip write failed")]) as [_ ->]. }
  apply flush_inv. apply write_survivor_written in Ew as [Hwe Hde].
  cbn [q with_tally p_encoder p_first] in *.
  pose proof (kept_snoc engine pre text) as Hk. rewrite Hs in Hk.
  split; cbn [with_tally p_encoder p_first p_tally p_bytes_out p_out q].
  - rewrite Hwe, Hwr, Hf, Hk, str_join_snoc, str_app_assoc.
    destruct (kept engine pre); [done|]. by rewrite bool_decide_eq_false_2 by done.
  - rewrite Hk. symmetry. apply bool_decide_eq_false_2. by destruct (kept engine pre).
  - exists chunks. by rewrite Hde.
  - done.
Qed.

Lemma process_record_inv engine pre text p :
  proc_inv engine pre p ->
  match process_record engine text p with
  | Ok p' => proc_inv engine (pre ++ [text]) p'
  | Err (out, _) => exists e, rd_error (reader_of_msgs out) = Some e
  end.
Proof.
  intros Hp. pose proof (tally_of_snoc engine pre text) as Ht'. rewrite <-(pi_tally _ _ _ Hp) in Ht'.
  unfold tally_record in Ht'. unfold process_record.
  assert (survives engine text =
            match evaluate_raw engine text with Ok (Drop _) => false | _ => true end) as Es by done.
  destruct (evaluate_raw engine text) as [[|i]|err].
  - by apply (keep_record_inv engine pre text p RecordTally.record_in).
  - cbn [mbind result_bind]. apply flush_inv. destruct Hp as [Hwr Hf Ho Ht].
    pose proof (kept_snoc engine pre text) as Hk. rewrite Es, app_nil_r in Hk.
    split; cbn; rewrite ?Hk, ?Ht'; eauto.
  - by apply (keep_record_inv engine pre text p (fun t => RecordTally.parse_error (RecordTally.record_in t))).
Qed.

Lemma process_loop_inv engine msgs pre p :
  proc_inv engine pre p ->
  match process_loop engine msgs p with
  | Ok (p', kind) => exists rs rest, msgs = map SRecord rs ++ SFinished kind :: rest /\
      proc_inv engine (pre ++ rs) p'
  | Err (out, _) => exists e, rd_error (reader_of_msgs out) = Some e
  end.
Proof.
  revert pre p. induction msgs as [|[text|kind] msgs IH]; intros pre p Hp; cbn [process_loop].
  - eexists. by eapply abort_error.
  - pose proof (process_record_inv engine pre text p Hp) as Hr.
    destruct (process_record engine text p) as [p'|[out e]]; cbn [mbind result_bind]; [|done].
    specialize (IH _ _ Hr). destruct (process_loop engine msgs p') as [[p'' kind]|[out e]]; [|done].
    destruct IH as (rs & rest & -> & Hp''). exists (text :: rs), rest. split; [done|].
    by rewrite <-app_assoc in Hp''.
  - exists [], msgs. by rewrite app_nil_r.
Qed.

(** The loop fails only inside. *)
Lemma process_loop_internal engine msgs p out e :
  process_loop engine msgs p = Err (out, e) -> exists m, e = CoreInternal m.
Proof.
  revert p. induction msgs as [|[text|kind] msgs IH]; intros p; cbn [process_loop]; [intros [= <- <-]; eauto| |done].
  unfold process_record. destruct (evaluate_raw engine text) as [[|i]|];
    repeat (destruct (write_survivor _ _); cbn [mbind result_bind]);
    cbn [mbind result_bind]; eauto; intros [= <- <-]; eauto.
Qed.

(** The initial state, once the opening of the envelope is written. *)
Lemma processing_start engine level fresh encoder :
  enc_new level = Some fresh -> enc_write ENVELOPE_OPEN fresh = Ok encoder ->
  proc_inv engine [] (mkProcessor encoder true RecordTally.empty 0 []).
Proof.
  intros [Hw0 Hd0]%enc_new_written [Hw Hd]%enc_write_written.
  rewrite Hw0 in Hw. rewrite Hd0 in Hd. split; cbn [p_encoder p_first p_tally p_bytes_out p_out].
  - rewrite Hw. done.
  - done.
  - exists []. by rewrite Hd.
  - done.
Qed.

(** What the processing block hands to the upload, by its result. *)
Definition processing_post (engine : Engine) (msgs : list StreamMsg) (out : list ByteMsg)
    (r : result CoreError (Outcome * N * RecordTally)) : Prop :=
  match r with
  | Ok (Written b, bytes_out, tally) => b = None /\ exists rs rest gz,
      msgs = map SRecord rs ++ SFinished RecordsFound :: rest /\ kept engine rs <> [] /\
      rd_error (reader_of_msgs out) = None /\ reader_bytes (reader_of_msgs out) = gz /\
      gunzip gz = (envelope_body (kept engine rs), None) /\ bytes_out = byte_len gz /\
      tally = tally_of engine rs
  | Ok (NothingKept, _, tally) => (exists e, rd_error (reader_of_msgs out) = Some e) /\
      exists rs rest, msgs = map SRecord rs ++ SFinished RecordsFound :: rest /\
      kept engine rs = [] /\ tally = tally_of engine rs
  | Ok (Unrecognized, _, tally) => (exists e, rd_error (reader_of_msgs out) = Some e) /\
      tally = RecordTally.empty /\ exists rs rest, msgs = map SRecord rs ++ SFinished FkUnrecognized :: rest
  | Err _ => exists e, rd_error (reader_of_msgs out) = Some e
  end.

(** The kept counter of a tally is the number of survivors. *)
Lemma tally_of_kept engine rs : t_kept (tally_of engine rs) = N.of_nat (length (kept engine rs)).
Proof.
  induction rs as [|text rs IH] using rev_ind; [done|].
  rewrite tally_of_snoc, kept_snoc, length_app, Nat2N.inj_add, <-IH. unfold tally_record, survives.
  by destruct (evaluate_raw engine text) as [[|i]|err]; cbn; rewrite ?N.add_0_r.
Qed.

Lemma kept_count_spec engine rs :
  (0 <? RecordTally.kept_count (tally_of engine rs))%N = negb (bool_decide (kept engine rs = [])).
Proof. unfold RecordTally.kept_count. rewrite tally_of_kept. by destruct (kept engine rs). Qed.

(** Finishing the gzip member and sending its tail. *)
Lemma finish_written engine rs p encoder tail :
  proc_inv engine rs p -> enc_write ENVELOPE_CLOSE (p_encoder p) = Ok encoder ->
  enc_finish encoder = Ok tail ->
  gunzip (drained (p_encoder p) +:+ tail) = (envelope_body (kept engine rs), None).
Proof.
  intros [Hw _ _ _] He Hf. apply enc_write_written in He as [Hwe Hde].
  apply enc_finish_member in Hf. rewrite Hde, Hwe, Hw in Hf. rewrite Hf. unfold envelope_body.
  by rewrite str_app_assoc.
Qed.

Lemma finish_processing_post engine msgs rs rest p kind :
  proc_inv engine rs p -> msgs = map SRecord rs ++ SFinished kind :: rest ->
  processing_post engine msgs (finish_processing p kind).1 (finish_processing p kind).2.
Proof.
  intros Hp Hm. pose proof Hp as [_ _ (chunks & Ho & Hd & Hb) Ht].
  assert (Hab : forall why, exists e, rd_error (reader_of_msgs (abort why p)) = Some e)
    by (intros why; eexists; by eapply abort_error).
  destruct kind as [| |f]; cbn [finish_processing]; [|by split_and!; eauto|by destruct f; apply Hab].
  rewrite Ht, kept_count_spec.
  destruct (decide (kept engine rs = [])) as [Hk|Hk].
  { rewrite bool_decide_eq_true_2 by done. cbn. split; [apply Hab|eauto]. }
  rewrite bool_decide_eq_false_2 by done. cbn [negb].
  destruct (enc_write ENVELOPE_CLOSE (p_encoder p)) as [encoder|e] eqn:Ew; [|apply Hab].
  destruct (enc_finish encoder) as [tail|e] eqn:Ef; [|apply Hab].
  pose proof (finish_written engine rs p encoder tail Hp Ew Ef) as Hz.
  destruct tail as [|c tail]; cbn [str_is_empty fst snd processing_post]; (split; [done|]).
  - exists rs, rest, (drained (p_encoder p) +:+ ""). destruct (reader_of_oks chunks []) as [H1 H2].
    rewrite app_nil_r in H1, H2. rewrite Ho, H1, H2, Hd, Hb. split_and!; try done.
    by rewrite str_app_nil_r.
  - exists rs, rest, (drained (p_encoder p) +:+ String c tail).
    destruct (reader_of_oks chunks [Ok (String c tail)]) as [H1 H2].
    rewrite Ho, H1, H2, Hd, Hb, byte_len_app. by split_and!.
Qed.

(** A verdict is reached after the last message. *)
Lemma processing_verdict engine encoder msgs x :
  (processing engine encoder msgs).2 = Ok x -> processing_drains engine encoder msgs = true.
Proof.
  unfold processing, processing_drains. destruct (enc_write _ _) as [opened|e]; [|done].
  assert (forall p q, process_loop engine msgs p = Ok q -> loop_drains engine msgs p = true) as H.
  { induction msgs as [|[text|kind] msgs IH]; intros p q; cbn; [done| |done].
    destruct (process_record engine text p) as [p'|]; [apply IH|done]. }
  destruct (process_loop _ _ _) as [[p kind]|[out e]] eqn:E; [|done]. intros _. by eapply H.
Qed.

Lemma processing_spec engine level encoder msgs :
  enc_new level = Some encoder ->
  processing_post engine msgs (processing engine encoder msgs).1 (processing engine encoder msgs).2.
Proof.
  intros Hnew. unfold processing.
  destruct (enc_write ENVELOPE_OPEN encoder) as [opened|e] eqn:Ew; [|by eexists].
  pose proof (process_loop_inv engine msgs [] _ (processing_start engine level encoder opened Hnew Ew)) as H.
  destruct (process_loop engine msgs _) as [[p kind]|[out e]]; [|done].
  destruct H as (rs & rest & Hm & Hp). by eapply finish_processing_post.
Qed.
End processing.

(** ** Lemmas: the whole run *)

Section run.
Context {J : JsonCrate} {SH : ShallowCrate} {R : RegexCrate} {G : GzipCrate} {GL : GzipLaws G}.

Lemma extract_records_shape msgs :
  exists sent kind, extract_records msgs = map SRecord sent ++ [SFinished kind].
Proof.
  unfold extract_records. destruct (gz_over_channel msgs) as [[decoded tail] transport].
  destruct (visit_envelope _) as [sent result]. eauto.
Qed.

Lemma finished_inj sent kind rs kind' rest :
  map SRecord sent ++ [SFinished kind] = map SRecord rs ++ SFinished kind' :: rest ->
  sent = rs /\ kind = kind' /\ rest = [].
Proof.
  revert rs. induction sent as [|x sent IH]; intros [|y rs]; cbn; intros [= ?]; subst; try done.
  destruct (IH rs) as (-> & -> & ->); [done|]. done.
Qed.

Lemma filter_records sent kind :
  filter (fun m => is_record m = true) (map SRecord sent ++ [SFinished kind]) = map SRecord sent.
Proof.
  rewrite filter_app, (filter_singleton _ (SFinished kind) []), decide_False, app_nil_r by done.
  induction sent as [|x sent IH]; [done|]. cbn [map]. rewrite filter_cons_True by done. by rewrite IH.
Qed.

Lemma records_only sent kind k :
  exists rs, take k (filter (fun m => is_record m = true) (map SRecord sent ++ [SFinished kind])) = map SRecord rs.
Proof. exists (take k sent). rewrite filter_records. apply firstn_map. Qed.

Lemma records_no_finish rs rs' kind rest : map SRecord rs <> map SRecord rs' ++ SFinished kind :: rest.
Proof. revert rs'. induction rs as [|x rs IH]; intros [|y rs']; cbn; intros [= ?]; by eapply IH. Qed.

Lemma reads_all_finish sent kind :
  kind = RecordsFound \/ kind = FkUnrecognized -> reads_all (map SRecord sent ++ [SFinished kind]) = true.
Proof. unfold reads_all. rewrite last_snoc. by intros [->| ->]. Qed.

Context {S : Type} {St : ObjectStore S} {Laws : StoreLaws S}.

(** The body of an aborted upload leaves the store's objects alone. *)
Lemma aborted_put b k body meta s e :
  rd_error body = Some e -> contents (store_put_stream b k body meta s).2 = contents s.
Proof.
  intros He. rewrite put_stream_contents. by destruct (put_stream_error b k body meta s e He) as [e' ->].
Qed.

(** What one run does to the store, the metrics and the caller. *)
Definition stream_post (input : Reader) (engine : Engine) (cfg : Processing) (m : Metrics) (s : S) (b k : string)
    (r : result (Exit CoreError) Outcome) (m' : Metrics) (s' : S) : Prop :=
  exists bs rest, reader_bytes input = str_join "" bs +:+ rest /\
  match r with
  | Ok (Written (Some _)) => False
  | Ok (Written None) => rest = "" /\ exists rs gz, extraction input = map SRecord rs ++ [SFinished RecordsFound] /\
      kept engine rs <> [] /\ gunzip gz = (envelope_body (kept engine rs), None) /\
      contents s' = <[(b, k) := gz]> (contents s) /\
      m' = RecordTally.commit (tally_of engine rs) engine
             (add_bytes_out (byte_len gz) (apply_events (bytes_in_events bs) m))
  | Ok NothingKept => rest = "" /\ exists rs, extraction input = map SRecord rs ++ [SFinished RecordsFound] /\
      kept engine rs = [] /\ contents s' = contents s /\
      m' = RecordTally.commit (tally_of engine rs) engine (apply_events (bytes_in_events bs) m)
  | Ok Unrecognized => rest = "" /\ exists rs, extraction input = map SRecord rs ++ [SFinished FkUnrecognized] /\
      contents s' = contents s /\
      m' = RecordTally.commit RecordTally.empty engine (apply_events (bytes_in_events bs) m)
  | Err (Fail _) => contents s' = contents s /\ m' = apply_events (bytes_in_events bs) m
  | Err (Panic _) => enc_new (gzip_level cfg) = None /\ s' = s /\ m' = apply_events (bytes_in_events bs) m
  end.

(** A panic of the extraction: its messages end without [Finished]. *)
Lemma stream_run_panic sched input engine cfg encoder m (s : S) b k n e :
  enc_new (gzip_level cfg) = Some encoder -> sch_panic sched = Some (n, e) ->
  let '(r, m', s') := stream_run sched input engine cfg m s b k in
  stream_post input engine cfg m s b k r m' s'.
Proof.
  intros Hnew Hp. unfold stream_run, stream_program. rewrite Hnew. unfold stream_joined_program. rewrite Hp. unfold extraction.
  destruct (extract_records_shape (pump_input (input_bound input) input Metrics_default).1) as (sent & kind & ->).
  destruct (records_only sent kind n) as [rs ->].
  cbv zeta. cbn [run e_store e_metrics].
  destruct (pump_input_metrics (sch_accepts sched) input) as (bs & rest & -> & Hbs & _).
  pose proof (processing_spec engine _ encoder (map SRecord rs) Hnew) as Hpost.
  destruct (processing engine encoder (map SRecord rs)) as [out r]. cbn [fst snd] in Hpost.
  assert (exists e, rd_error (reader_of_msgs out) = Some e) as [e' He'].
  { destruct r as [[[[| |] ?] ?]|]; cbn [processing_post] in Hpost; try done.
    - destruct Hpost as (_ & ? & ? & ? & H & _). by apply records_no_finish in H.
    - by destruct Hpost.
    - by destruct Hpost. }
  pose proof (aborted_put b k (reader_of_msgs out) STREAM_META s e' He') as Hc.
  run_step; destruct (store_put_stream b k (reader_of_msgs out) STREAM_META s) as [[u ?] s']; run_step.
  exists bs, rest. by split_and!.
Qed.

Lemma stream_run_spec sched input engine cfg m (s : S) b k :
  let '(r, m', s') := stream_run sched input engine cfg m s b k in
  stream_post input engine cfg m s b k r m' s'.
Proof.
  destruct (enc_new (gzip_level cfg)) as [encoder|] eqn:Hnew.
  2:{ unfold stream_run, stream_program. rewrite Hnew. cbn.
      destruct (pump_input_metrics (sch_accepts sched) input) as (bs & rest & -> & Hbs & _). by exists bs, rest. }
  destruct (sch_panic sched) as [[n e]|] eqn:Hp; [by eapply stream_run_panic|].
  unfold stream_run, stream_program. rewrite Hnew. unfold stream_joined_program. rewrite Hp. unfold stream_post.
  destruct (extract_records_shape (pump_input (input_bound input) input Metrics_default).1) as (sent & kind & Hx).
  fold (extraction input) in Hx. rewrite Hx.
  set (all := reads_all _ && _). cbv zeta. cbn [run e_store e_metrics].
  destruct (pump_input_metrics (if all then input_bound input else sch_accepts sched) input)
    as (bs & rest & -> & Hbs & Hrest).
  pose proof (processing_spec engine _ encoder (map SRecord sent ++ [SFinished kind]) Hnew) as Hpost.
  pose proof (processing_verdict engine encoder (map SRecord sent ++ [SFinished kind])) as Hdrains.
  destruct (processing engine encoder _) as [out r]. cbn [fst snd] in Hpost, Hdrains.
  assert (Hall : is_ok r = true -> kind = RecordsFound \/ kind = FkUnrecognized -> rest = "").
  { destruct r as [x|]; [|done]. intros _ Hk. apply Hrest. subst all. rewrite reads_all_finish, (Hdrains x) by done.
    unfold input_bound. cbn. lia. }
  destruct r as [[[o bytes_out] tally]|err].
  2:{ destruct Hpost as [e He]. pose proof (aborted_put b k _ STREAM_META s e He) as Hc.
      run_step; destruct (store_put_stream b k _ STREAM_META s) as [[u ?] s']; run_step. exists bs, rest. by split_and!. }
  destruct o as [w| |]; cbn [processing_post] in Hpost.
  - destruct Hpost as (-> & rs & rest' & gz & (-> & -> & ->)%finished_inj & Hk & He & Hb & Hz & -> & ->).
    pose proof (put_stream_contents b k (reader_of_msgs out) STREAM_META s) as Hc.
    run_step; destruct (store_put_stream b k _ STREAM_META s) as [[[u|u] ?] s']; run_step.
    + exists bs, rest. split; [done|]. split; [by apply Hall; auto|]. exists rs, gz. rewrite Hb in Hc. by split_and!.
    + exists bs, rest. by split_and!.
  - destruct Hpost as ([e He] & rs & rest' & (-> & -> & ->)%finished_inj & Hk & ->).
    pose proof (aborted_put b k _ STREAM_META s e He) as Hc.
    run_step; destruct (store_put_stream b k _ STREAM_META s) as [[u ?] s']; run_step. exists bs, rest.
    split; [done|]. split; [auto|]. eauto.
  - destruct Hpost as ([e He] & -> & rs & rest' & (-> & -> & ->)%finished_inj).
    pose proof (aborted_put b k _ STREAM_META s e He) as Hc.
    run_step; destruct (store_put_stream b k _ STREAM_META s) as [[u ?] s']; run_step. exists bs, rest.
    split; [done|]. split; [auto|]. eauto.
Qed.
End run.

(** ** Lemmas: the two modes *)

(** Reading counts bytes and nothing else. *)
Lemma bytes_in_events_frame bs m :
  m_rule_drops (apply_events (bytes_in_events bs) m) = m_rule_drops m /\
  forall c, c <> BytesIn -> m_counters (apply_events (bytes_in_events bs) m) c = m_counters m c.
Proof.
  revert m. induction bs as [|x bs IH]; intros m; [done|].
  destruct (IH (apply_event m (EvAdd BytesIn (byte_len x)))) as [H1 H2].
  split; [exact H1|]. intros c Hc. transitivity (m_counters (apply_event m (EvAdd BytesIn (byte_len x))) c).
  - by apply H2.
  - cbn. by rewrite decide_False.
Qed.

Lemma commit_frame_bytes {R : RegexCrate} bs n tally (engine : Engine) m :
  let m0 := apply_events (bytes_in_events bs) m in
  (exists m1, RecordTally.commit tally engine m0 = RecordTally.commit tally engine m1 /\
     m_rule_drops m1 = m_rule_drops m /\
     forall c, c <> BytesIn -> c <> BytesOut -> m_counters m1 c = m_counters m c) /\
  (exists m1, RecordTally.commit tally engine (add_bytes_out n m0) = RecordTally.commit tally engine m1 /\
     m_rule_drops m1 = m_rule_drops m /\
     forall c, c <> BytesIn -> c <> BytesOut -> m_counters m1 c = m_counters m c).
Proof.
  intros m0. destruct (bytes_in_events_frame bs m) as [H1 H2]. split; eexists; (split; [done|]).
  - auto.
  - split; [done|]. intros c Hc1 Hc2. cbn. rewrite decide_False by done. by apply H2.
Qed.

Section parity.
Context {J : JsonCrate} {SH : ShallowCrate} {SL : ShallowLaws J SH} {R : RegexCrate} {G : GzipCrate}.

(** On a body that is read to its end the channel gives the decoder the whole of it. *)
Lemma extraction_clean input :
  rd_error input = None ->
  extraction input =
  let '(sent, result) := visit_envelope (parse_shallow (gunzip (reader_bytes input)).1 (gunzip (reader_bytes input)).2) in
  map SRecord sent ++
    [SFinished match result with
               | Ok true => RecordsFound
               | Ok false => FkUnrecognized
               | Err e => FkError (if je_io e then PfGzip (je_msg e) else PfJson (je_msg e))
               end].
Proof.
  intros Hr. unfold extraction, extract_records, gz_over_channel.
  destruct (pump_input_msgs (input_bound input) input Metrics_default) as [Hb He]; [unfold input_bound; lia|].
  rewrite He, Hr, Hb. destruct (gunzip (reader_bytes input)) as [out err]. cbn [fst snd].
  destruct (visit_envelope (parse_shallow out err)) as [sent [[|]|e]]; try done. by destruct (je_io e).
Qed.

(** The verdict of buffer mode fixes the extraction of stream mode. *)
Lemma extraction_parity input engine cfg outcome tally :
  rd_error input = None -> (byte_len (gunzip (reader_bytes input)).1 < U64_MAX)%N ->
  is_seq (parse_shallow (gunzip (reader_bytes input)).1 None) = false ->
  buffer_run (reader_bytes input) engine cfg = Ok (outcome, tally) ->
  exists sent,
    extraction input =
      map SRecord sent ++ [SFinished match outcome with Unrecognized => FkUnrecognized | _ => RecordsFound end] /\
    match outcome with
    | Unrecognized => tally = RecordTally.empty
    | NothingKept => tally = tally_of engine sent /\ kept engine sent = []
    | Written None => False
    | Written (Some gz) => tally = tally_of engine sent /\ kept engine sent <> [] /\
        gzip_compress_chunked (envelope_body (kept engine sent)) (gzip_level cfg) (gzip_chunks cfg) = Ok gz
    end.
Proof.
  intros Hr Hlen Hseq H. rewrite extraction_clean by done. unfold buffer_run in H.
  apply result_bind_ok in H as (body & Hd%map_err_ok & H). apply decompress_capped_ok in Hd as [Hg _]; [|done].
  rewrite Hg in *. cbn [fst snd] in *.
  destruct (parse_envelope (parse_shallow body None)) as [records|] eqn:Hp.
  - apply parse_envelope_visit in Hp; [|done]. rewrite Hp. exists records.
    rewrite buffer_records_empty in H. fold (kept engine records) in H.
    destruct (kept engine records) as [|x xs] eqn:Hk.
    + by injection H as <- <-.
    + apply result_bind_ok in H as (gz & Hz & [= <- <-]). by split_and!.
  - destruct (json_from_str body) as [d|] eqn:Hj; [|done]. injection H as <- <-.
    destruct (visit_envelope_clean _ (clean_of_value body d Hj)) as (sent & [|] & Hv).
    + apply parse_envelope_visit in Hv; [congruence|done].
    + rewrite Hv. eauto.
Qed.
End parity.

(** ** Properties *)


(** C16: the two modes agree.  On an input that both read to its end, whose top level is not
    an array, stream mode reaches the verdict of buffer mode: it writes an object with the
    same decompressed bytes, writes nothing, or calls the object unrecognized exactly as
    buffer mode does, and reports the same tally. *)
Theorem mode_parity {J : JsonCrate} {SH : ShallowCrate} {SL : ShallowLaws J SH} {R : RegexCrate}
    {G : GzipCrate} {GL : GzipLaws G} {S} {St : ObjectStore S} {Laws : StoreLaws S}
    sched input engine cfg m (s : S) b k outcome tally o m' s' :
  rd_error input = None -> (byte_len (gunzip (reader_bytes input)).1 < U64_MAX)%N ->
  is_seq (parse_shallow (gunzip (reader_bytes input)).1 None) = false ->
  buffer_run (reader_bytes input) engine cfg = Ok (outcome, tally) ->
  stream_run sched input engine cfg m s b k = (Ok o, m', s') ->
  match outcome, o with
  | Written (Some gz), Written None => exists gz', gunzip gz' = gunzip gz /\
      contents s' = <[(b, k) := gz']> (contents s)
  | NothingKept, NothingKept | Unrecognized, Unrecognized => contents s' = contents s
  | _, _ => False
  end /\
  exists m0, m' = RecordTally.commit tally engine m0 /\ m_rule_drops m0 = m_rule_drops m /\
    forall c, c <> BytesIn -> c <> BytesOut -> m_counters m0 c = m_counters m c.
Proof.
  intros Hr Hlen Hseq Hb Hs.
  destruct (extraction_parity input engine cfg outcome tally Hr Hlen Hseq Hb) as (sent & Hx & Ho).
  pose proof (stream_run_spec sched input engine cfg m s b k) as Hpost. rewrite Hs in Hpost.
  destruct Hpost as (bs & rest & _ & Hpost).
  destruct o as [[w|]| |]; cbn [stream_post] in Hpost; [done|..].
  - destruct Hpost as (_ & rs & gz' & Hx' & Hk & Hz & Hc & ->). rewrite Hx in Hx'.
    apply finished_inj in Hx' as (-> & Hkind & _). destruct outcome as [[gz|]| |]; try done.
    + destruct Ho as (-> & _ & Hgz). apply gzip_chunked_roundtrip in Hgz.
      split; [exists gz'; by rewrite Hz, Hgz|exact (proj2 (commit_frame_bytes _ _ _ _ _))].
    + by destruct Ho as [_ ?].
  - destruct Hpost as (_ & rs & Hx' & Hk & Hc & ->). rewrite Hx in Hx'.
    apply finished_inj in Hx' as (-> & Hkind & _). destruct outcome as [[gz|]| |]; try done.
    + by destruct Ho as (_ & ? & _).
    + destruct Ho as [-> _]. split; [done|exact (proj1 (commit_frame_bytes _ 0%N _ _ _))].
  - destruct Hpost as (_ & rs & Hx' & Hc & ->). rewrite Hx in Hx'.
    apply finished_inj in Hx' as (-> & Hkind & _). destruct outcome as [[gz|]| |]; try done.
    subst tally. split; [done|exact (proj1 (commit_frame_bytes _ 0%N _ _ _))].
Qed.

(** The abort sentinel.  Whatever messages the extraction sends, even when they stop
    without [Finished], the body handed to [put_stream] ends cleanly exactly when the
    outcome is [Written]; in every other case it ends with an error, which aborts the
    upload. *)
Theorem upload_clean_iff_written {J : JsonCrate} {R : RegexCrate} {G : GzipCrate} {GL : GzipLaws G}
    engine level encoder msgs :
  enc_new level = Some encoder ->
  rd_error (reader_of_msgs (processing engine encoder msgs).1) = None <->
  exists bytes_out tally, (processing engine encoder msgs).2 = Ok (Written None, bytes_out, tally).
Proof.
  intros Hnew. pose proof (processing_spec engine level encoder msgs Hnew) as H.
  destruct (processing engine encoder msgs) as [out [[[[w| |] n] t]|e]]; cbn [fst snd processing_post] in *.
  - destruct H as (-> & rs & rest & gz & _ & _ & He & _). rewrite He. split; eauto.
  - destruct H as [[e ->] _]. split; [done|]. by intros (? & ? & ?).
  - destruct H as [[e ->] _]. split; [done|]. by intros (? & ? & ?).
  - destruct H as [e' ->]. split; [done|]. by intros (? & ? & ?).
Qed.

(** A channel is a faithful body: reading it in pieces of any size delivers what reading
    the messages' bytes would, never reports end of file before the last byte, and turns a
    sent error into a read error. *)
Theorem channel_read_refines n (r : ChannelAsyncRead) (q : ChannelSyncRead) :
  (async_read n r).1 =
    (read n (mkReader (car_pending r :: rd_chunks (reader_of_msgs (car_rx r)))
               (rd_error (reader_of_msgs (car_rx r))))).1 /\
  (sync_read n q).1 =
    (read n (mkReader (csr_pending q :: rd_chunks (reader_of_msgs (csr_rx q)))
               (rd_error (reader_of_msgs (csr_rx q))))).1.
Proof. split; [apply async_read_reader|apply sync_read_reader]. Qed.

(** ** Witness *)

Definition demo_input : Reader := mkReader ["th"; "ree"] None.

Lemma mode_parity_witness :
  exists gz', gunzip (GzipCrate := ref_gzip) gz' = gunzip (GzipCrate := ref_gzip) (envelope_body ["r3"]) /\
    contents (stream_run (J := demo_json) (SH := demo_shallow) (G := ref_gzip) (mkSchedule 0 None) demo_input
                demo_engine Processing_default Metrics_default InMemoryStore.new "siem" "k").2 =
    <[("siem", "k") := gz']> (contents InMemoryStore.new).
Proof.
  apply (mode_parity (J := demo_json) (SH := demo_shallow) (R := ref_regex) (G := ref_gzip)
           (mkSchedule 0 None) demo_input demo_engine Processing_default Metrics_default InMemoryStore.new
           "siem" "k" (Written (Some (envelope_body ["r3"])))
           (tally_of (J := demo_json) demo_engine ["r1"; "r2"; "r3"]) (Written None)
           (stream_run (J := demo_json) (SH := demo_shallow) (G := ref_gzip) (mkSchedule 0 None) demo_input
              demo_engine Processing_default Metrics_default InMemoryStore.new "siem" "k").1.2).
  - reflexivity.
  - reflexivity.
  - reflexivity.
  - vm_compute. reflexivity.
  - vm_compute. reflexivity.
Defined.
