(* ===== verification/Channels.v ===== *)
(** * Channels: a pipeline of tasks and bounded queues

    A pipeline is a row of concurrent tasks, each receiving from a bounded channel filled by
    the one before it and sending into one drained by the one after it ([tokio::sync::mpsc]:
    a send waits while the channel is full and fails once the receiver is dropped, a receive
    waits while it is empty and ends once the sender is dropped).  A task is known by what it
    does next ([Act]).  Whatever the runtime steps first, the pipeline never deadlocks
    ([pipeline_progress]), stops after a bounded number of steps and ends with the results its
    tasks have one after another on whole inputs ([pipeline_runs]). *)

From S2P Require Import Prelude.

(** ** Tasks *)

(** What a task in state [x] does next. *)
Inductive Act (I O X R : Type) : Type :=
  | ARecv (k : option I -> X)
  | ASend (m : O) (k : bool -> X)
  | ATau (x : X)
  | ADone (r : R).
Arguments ARecv {I O X R} k.
Arguments ASend {I O X R} m k.
Arguments ATau {I O X R} x.
Arguments ADone {I O X R} r.

Section task.
Context {I O X R : Type} (act : X -> Act I O X R).

(** Every send fails: [cut n x ins r] when the task then ends with [r] in at most [n] steps,
    [ins] being all that is still to be received. *)
Inductive cut : nat -> X -> list I -> R -> Prop :=
  | cut_done n x ins r : act x = ADone r -> cut n x ins r
  | cut_tau n x x' ins r : act x = ATau x' -> cut n x' ins r -> cut (S n) x ins r
  | cut_recv n x k m ins r : act x = ARecv k -> cut n (k (Some m)) ins r -> cut (S n) x (m :: ins) r
  | cut_eof n x k r : act x = ARecv k -> cut n (k None) [] r -> cut (S n) x [] r
  | cut_send n x m k ins r : act x = ASend m k -> cut n (k false) ins r -> cut (S n) x ins r.

(** Every send succeeds: in at most [n] steps the task sends [outs] and ends with [r], having
    received all of [ins] if [whole].  Of a send that fails it takes no notice, or it ends
    after it, in as many steps at most, with a result in [Q]. *)
Inductive feeds (Q : R -> Prop) (whole : bool) : nat -> X -> list I -> list O -> R -> Prop :=
  | feeds_done n x ins r : act x = ADone r -> (whole = true -> ins = []) -> feeds Q whole n x ins [] r
  | feeds_tau n x x' ins outs r :
      act x = ATau x' -> feeds Q whole n x' ins outs r -> feeds Q whole (S n) x ins outs r
  | feeds_recv n x k m ins outs r :
      act x = ARecv k -> feeds Q whole n (k (Some m)) ins outs r -> feeds Q whole (S n) x (m :: ins) outs r
  | feeds_eof n x k outs r :
      act x = ARecv k -> feeds Q whole n (k None) [] outs r -> feeds Q whole (S n) x [] outs r
  | feeds_send n x m k ins outs r :
      act x = ASend m k -> feeds Q whole n (k true) ins outs r ->
      k false = k true \/ (exists r', cut n (k false) ins r' /\ Q r') ->
      feeds Q whole (S n) x ins (m :: outs) r.

Lemma feeds_mono (Q Q' : R -> Prop) whole n x ins outs r :
  (forall r, Q r -> Q' r) -> feeds Q whole n x ins outs r -> feeds Q' whole n x ins outs r.
Proof.
  intros HQ. induction 1 as [| | | |n x m k ins outs r Hx _ IH Hfail].
  - by apply feeds_done.
  - by eapply feeds_tau.
  - by eapply feeds_recv.
  - by eapply feeds_eof.
  - eapply feeds_send; [done|done|]. destruct Hfail as [?|(r' & ? & ?)]; eauto.
Qed.

Lemma feeds_at_end Q whole n x ins outs r r' :
  act x = ADone r' -> feeds Q whole n x ins outs r -> outs = [] /\ r = r' /\ (whole = true -> ins = []).
Proof. intros Hx. destruct 1; rewrite Hx in *; try done. by simplify_eq. Qed.

Lemma cut_at_end n x ins r r' : act x = ADone r' -> cut n x ins r -> r = r'.
Proof. intros Hx. destruct 1; rewrite Hx in *; try done. by simplify_eq. Qed.

End task.

(** A task with other names for its messages, states and results. *)
Section lift.
Context {I O X R P X' R' : Type} (act : X -> Act I O X R) (act' : X' -> Act P P X' R').
Context (dec : P -> option I) (encI : I -> P) (enc : O -> P) (f : X -> X') (g : R -> R').

Definition lift_act (a : Act I O X R) : Act P P X' R' :=
  match a with
  | ARecv k => ARecv (fun m => f (k (m ≫= dec)))
  | ASend m k => ASend (enc m) (fun ok => f (k ok))
  | ATau x => ATau (f x)
  | ADone r => ADone (g r)
  end.

Context (Hact : forall x, act' (f x) = lift_act (act x)) (Hdec : forall m, dec (encI m) = Some m).

Lemma cut_lift n x ins r : cut act n x ins r -> cut act' n (f x) (map encI ins) (g r).
Proof.
  induction 1 as [n x ins r Hx|n x x' ins r Hx _ IH|n x k m ins r Hx _ IH|n x k r Hx _ IH|n x m k ins r Hx _ IH].
  - apply cut_done. by rewrite Hact, Hx.
  - eapply cut_tau; [|exact IH]. by rewrite Hact, Hx.
  - cbn [map]. eapply cut_recv; [by rewrite Hact, Hx|]. cbn. by rewrite Hdec.
  - eapply cut_eof; [by rewrite Hact, Hx|]. exact IH.
  - eapply cut_send; [by rewrite Hact, Hx|]. exact IH.
Qed.

Lemma feeds_lift Q (Q' : R' -> Prop) whole n x ins outs r :
  (forall r, Q r -> Q' (g r)) -> feeds act Q whole n x ins outs r ->
  feeds act' Q' whole n (f x) (map encI ins) (map enc outs) (g r).
Proof.
  intros HQ. induction 1 as [n x ins r Hx Hw|n x x' ins outs r Hx _ IH|n x k m ins outs r Hx _ IH|n x k outs r Hx _ IH
    |n x m k ins outs r Hx _ IH Hfail].
  - apply feeds_done; [by rewrite Hact, Hx|]. intros H. by rewrite (Hw H).
  - eapply feeds_tau; [|exact IH]. by rewrite Hact, Hx.
  - cbn [map]. eapply feeds_recv; [by rewrite Hact, Hx|]. cbn. by rewrite Hdec.
  - eapply feeds_eof; [by rewrite Hact, Hx|]. exact IH.
  - cbn [map]. eapply feeds_send; [by rewrite Hact, Hx|exact IH|].
    destruct Hfail as [Hk|(r' & Hc & Hr)]; [left; by rewrite Hk|].
    right. exists (g r'). split; [by apply cut_lift|by apply HQ].
Qed.
End lift.

(** ** The pipeline *)

(** The state of task [i], and the channel it receives from. *)
Record Pipe (P X : Type) := mkPipe {
  pp_stage : nat -> X;
  pp_queue : nat -> list P;
}.
Arguments mkPipe {P X}.
Arguments pp_stage {P X}.
Arguments pp_queue {P X}.

Definition upd {A} (i : nat) (a : A) (f : nat -> A) (j : nat) : A := if decide (j = i) then a else f j.

Section pipeline.
Context {P X R : Type} (act : X -> Act P P X R).
(** How many tasks there are, and the capacity of each channel. *)
Context (tasks : nat) (cap : nat -> nat).

Definition alive (st : Pipe P X) (i : nat) : bool := match act (pp_stage st i) with ADone _ => false | _ => true end.

(** A task that has ended has dropped its two ends. *)
Definition sender_alive (st : Pipe P X) (i : nat) : bool := match i with 0 => false | S j => alive st j end.
Definition receiver_alive (st : Pipe P X) (i : nat) : bool := (S i <? tasks) && alive st (S i).

(** One step of task [i]; [None] while it waits, and once it has ended. *)
Definition pipe_step (i : nat) (st : Pipe P X) : option (Pipe P X) :=
  if i <? tasks then
    match act (pp_stage st i) with
    | ATau x => Some (mkPipe (upd i x (pp_stage st)) (pp_queue st))
    | ARecv k =>
        match pp_queue st i with
        | m :: q => Some (mkPipe (upd i (k (Some m)) (pp_stage st)) (upd i q (pp_queue st)))
        | [] => if sender_alive st i then None else Some (mkPipe (upd i (k None) (pp_stage st)) (pp_queue st))
        end
    | ASend m k =>
        if receiver_alive st i then
          if length (pp_queue st (S i)) <? cap (S i)
          then Some (mkPipe (upd i (k true) (pp_stage st)) (upd (S i) (pp_queue st (S i) ++ [m]) (pp_queue st)))
          else None
        else Some (mkPipe (upd i (k false) (pp_stage st)) (pp_queue st))
    | ADone _ => None
    end
  else None.

Definition pipe_steps (st st' : Pipe P X) : Prop := exists i, pipe_step i st = Some st'.

Definition all_done (st : Pipe P X) : Prop := forall i, i < tasks -> alive st i = false.

Global Instance all_done_dec st : base.Decision (all_done st).
Proof.
  refine (cast_if (decide (Forall (fun i => alive st i = false) (seq 0 tasks)))); rewrite Forall_forall in *.
  - intros i Hi. apply f, elem_of_seq. lia.
  - intros Hd. apply n. intros i [_ Hi]%elem_of_seq. by apply Hd.
Defined.

(** ** Progress *)

(** A task that is not waiting to receive can step, or one after it can. *)
Lemma progress_from st i :
  (forall j, 0 < cap j) -> i < tasks -> alive st i = true ->
  (forall k, act (pp_stage st i) = ARecv k -> pp_queue st i <> [] \/ sender_alive st i = false) ->
  exists j, is_Some (pipe_step j st).
Proof.
  intros Hcap. remember (tasks - i) as d eqn:Hd. revert i Hd. induction d as [|d IH]; intros i Hd Hi Ha Hrecv; [lia|].
  assert (i <? tasks = true) as Hlt by by apply Nat.ltb_lt. unfold alive in Ha.
  destruct (act (pp_stage st i)) as [k|m k|x|r] eqn:Hx; [| | |done].
  - exists i. unfold pipe_step. rewrite Hlt, Hx. destruct (Hrecv k eq_refl) as [Hq|Hs].
    + by destruct (pp_queue st i).
    + rewrite Hs. by destruct (pp_queue st i).
  - destruct (receiver_alive st i) eqn:Hr.
    2:{ exists i. unfold pipe_step. by rewrite Hlt, Hx, Hr. }
    destruct (length (pp_queue st (S i)) <? cap (S i)) eqn:Hroom.
    { exists i. unfold pipe_step. by rewrite Hlt, Hx, Hr, Hroom. }
    unfold receiver_alive in Hr. apply andb_true_iff in Hr as [HSi%Nat.ltb_lt HaS].
    apply (IH (S i)); [lia|done|done|]. intros k' _. left. intros Hq. rewrite Hq in Hroom.
    apply Nat.ltb_ge in Hroom. cbn in Hroom. specialize (Hcap (S i)). lia.
  - exists i. unfold pipe_step. by rewrite Hlt, Hx.
Qed.

(** While a task has not ended, one can step. *)
Lemma pipeline_progress st : (forall j, 0 < cap j) -> ~ all_done st -> exists j, is_Some (pipe_step j st).
Proof.
  intros Hcap Hn. assert (exists i, i < tasks /\ alive st i = true /\ forall j, j < i -> alive st j = false) as (i & Hi & Ha & Hmin).
  { destruct (decide (Exists (fun i => alive st i = true) (seq 0 tasks))) as [He|He].
    - apply Exists_exists in He as (i & [_ Hi]%elem_of_seq & Ha). revert Ha.
      induction i as [i IH] using lt_wf_ind. intros Ha.
      destruct (decide (Exists (fun j => alive st j = true) (seq 0 i))) as [(j & [_ Hj]%elem_of_seq & Haj)%Exists_exists|Hno].
      + apply (IH j); [lia|lia|done].
      + exists i. split_and!; [lia|done|]. intros j Hj. apply not_true_is_false. intros Haj. apply Hno, Exists_exists.
        exists j. split; [|done]. apply elem_of_seq. lia.
    - destruct Hn. intros i Hi. apply not_true_is_false. intros Ha. apply He, Exists_exists. exists i. split; [|done].
      apply elem_of_seq. lia. }
  apply (progress_from st i Hcap Hi Ha). intros k _. right. destruct i as [|i]; [done|]. by apply Hmin; lia.
Qed.

(** No channel ever holds more than its capacity. *)
Lemma queue_bounded st st' :
  pipe_steps st st' -> (forall i, length (pp_queue st i) <= cap i) -> forall i, length (pp_queue st' i) <= cap i.
Proof.
  intros [i Hst] Hq j. unfold pipe_step in Hst. destruct (i <? tasks); [|done].
  destruct (act (pp_stage st i)) as [k|m k|x|r]; [| | |done].
  - destruct (pp_queue st i) as [|m q] eqn:E.
    { destruct (sender_alive st i); [done|]. injection Hst as <-. apply Hq. }
    injection Hst as <-. cbn. unfold upd. case_decide as Hj; [|apply Hq]. subst j. specialize (Hq i).
    rewrite E in Hq. cbn in Hq. lia.
  - destruct (receiver_alive st i); [|injection Hst as <-; apply Hq].
    destruct (Nat.ltb_spec (length (pp_queue st (S i))) (cap (S i))) as [Hlt|_]; [|done]. injection Hst as <-. cbn.
    unfold upd. case_decide as Hj; [|apply Hq]. subst j. rewrite length_app. cbn. lia.
  - injection Hst as <-. apply Hq.
Qed.
End pipeline.

(** ** What the tasks end with *)

Lemma upd_eq {A} i (a : A) f : upd i a f i = a.
Proof. unfold upd. by rewrite decide_True. Qed.

Lemma upd_ne {A} i j (a : A) f : j <> i -> upd i a f j = f j.
Proof. unfold upd. intros. by rewrite decide_False. Qed.

Section runs.
Context {P X R : Type} (act : X -> Act P P X R) (tasks : nat) (cap : nat -> nat).
(** Per task: what it may end with once its receiver is gone, whether it receives its whole
    input, and what it ends with alone. *)
Context (Q : nat -> R -> Prop) (whole : nat -> bool) (res : nat -> R).

(** A task runs as it would alone, or ([off]) its receiver is gone. *)
Definition course (off : bool) (Q : R -> Prop) (whole : bool) (n : nat) (x : X) (ins outs : list P) (r : R) : Prop :=
  if off then exists r', cut act n x ins r' /\ Q r' else feeds act Q whole n x ins outs r.

(** All that task [i] has still to receive, [rest j] being what task [j] has still to send. *)
Definition inputs (st : Pipe P X) (rest : nat -> list P) (i : nat) : list P :=
  pp_queue st i ++ match i with 0 => [] | S j => rest j end.

(** Each task [i] is on its course, at most [n i] steps from its end. *)
Record on_course (st : Pipe P X) (n : nat -> nat) (rest : nat -> list P) (off : nat -> bool) : Prop := {
  oc_course i : i < tasks ->
    course (off i) (Q i) (whole i) (n i) (pp_stage st i) (inputs st rest i) (rest i) (res i);
  oc_off i : i < tasks -> off i = true ->
    receiver_alive act tasks st i = false /\ (S i < tasks -> whole (S i) = true -> off (S i) = true);
}.

(** A task does one thing next. *)
Ltac same_act := match goal with H : act ?x = _, H' : act ?x = _ |- _ => rewrite H in H'; simplify_eq end.

Ltac course_case :=
  intros Hx; lazymatch goal with |- course ?off _ _ _ _ _ _ _ -> _ => destruct off end;
    [intros (r' & Hc & HQ); inversion Hc|intros Hf; inversion Hf]; subst; same_act;
    eexists; (split; [reflexivity|]); first [eexists; split; eassumption|assumption].

Lemma course_tau off Q' w n x x' ins outs r :
  act x = ATau x' -> course off Q' w n x ins outs r -> exists n', n = S n' /\ course off Q' w n' x' ins outs r.
Proof.
  course_case.
Qed.

Lemma course_recv off Q' w n x k m ins outs r :
  act x = ARecv k -> course off Q' w n x (m :: ins) outs r ->
  exists n', n = S n' /\ course off Q' w n' (k (Some m)) ins outs r.
Proof.
  course_case.
Qed.

Lemma course_eof off Q' w n x k outs r :
  act x = ARecv k -> course off Q' w n x [] outs r -> exists n', n = S n' /\ course off Q' w n' (k None) [] outs r.
Proof.
  course_case.
Qed.

Lemma course_sent Q' w n x m k ins outs r :
  act x = ASend m k -> course false Q' w n x ins outs r ->
  exists n' outs', n = S n' /\ outs = m :: outs' /\ course false Q' w n' (k true) ins outs' r.
Proof. intros Hx Hf. inversion Hf; subst; same_act. eauto. Qed.

(** A failed send leaves the course, or is one the task does not care about. *)
Lemma course_dropped off Q' w n x m k ins outs r :
  act x = ASend m k -> course off Q' w n x ins outs r ->
  exists n' off' outs', n' < n /\ course off' Q' w n' (k false) ins outs' r /\
    (off = true /\ off' = true /\ outs' = outs \/
     off = false /\ outs = m :: outs').
Proof.
  intros Hx. destruct off.
  - intros (r' & Hc & HQ). inversion Hc; subst; same_act. eexists _, true, outs.
    split; [|split; [by exists r'|auto]]. lia.
  - intros Hf. inversion Hf as [| | | |? ? ? ? ? outs' ? ? Hk Hfail]; subst; same_act. destruct Hfail as [Hk'|(r' & Hc & HQ)].
    + eexists _, false, _. split; [|split; [by rewrite Hk'|auto]]. lia.
    + eexists _, true, _. split; [|split; [by exists r'|auto]]. lia.
Qed.

Lemma course_at_end off Q' w n x ins outs r r' :
  act x = ADone r' -> course off Q' w n x ins outs r ->
  if off then Q' r' else outs = [] /\ r = r' /\ (w = true -> ins = []).
Proof.
  intros Hx. destruct off.
  - intros (r1 & Hc & HQ). by rewrite <-(cut_at_end _ _ _ _ _ _ Hx Hc).
  - intros Hf. by destruct (feeds_at_end _ _ _ _ _ _ _ _ _ Hx Hf) as (? & ? & ?).
Qed.

(** A task that has ended reads no more. *)
Lemma course_ended st i off Q' w n ins ins' outs r :
  alive act st i = false -> (ins = [] -> ins' = []) ->
  course off Q' w n (pp_stage st i) ins outs r -> course off Q' w n (pp_stage st i) ins' outs r.
Proof.
  unfold alive. destruct (act (pp_stage st i)) as [| | |r'] eqn:Hx; try done. intros _ Hins. destruct off.
  - intros (r1 & Hc & HQ). rewrite (cut_at_end _ _ _ _ _ _ Hx Hc) in *. exists r'. split; [by apply cut_done|done].
  - intros Hf. destruct (feeds_at_end _ _ _ _ _ _ _ _ _ Hx Hf) as (-> & -> & Hw). apply feeds_done; auto.
Qed.

(** One task has moved; the others only lose input that nobody will read. *)
Lemma on_course_step st st' n rest off i x ni resti offi :
  on_course st n rest off -> i < tasks -> alive act st i = true ->
  pp_stage st' = upd i x (pp_stage st) ->
  (forall j, j <> i -> j < tasks -> inputs st' (upd i resti rest) j = inputs st rest j \/
     (alive act st j = false /\ (inputs st rest j = [] -> inputs st' (upd i resti rest) j = []))) ->
  course offi (Q i) (whole i) ni x (inputs st' (upd i resti rest) i) resti (res i) ->
  (offi = true -> receiver_alive act tasks st i = false /\ (S i < tasks -> whole (S i) = true -> off (S i) = true)) ->
  on_course st' (upd i ni n) (upd i resti rest) (upd i offi off).
Proof.
  intros [Hon Hoff] Hi Ha Hst Hins Hni Hci.
  assert (forall j, S j = i -> j < tasks -> off j = true -> False) as Hprev.
  { intros j <- Hj Hj'. destruct (Hoff j Hj Hj') as [Hr _]. unfold receiver_alive in Hr. rewrite Ha in Hr.
    by rewrite (proj2 (Nat.ltb_lt _ _) Hi) in Hr. }
  assert (forall j, S j <> i -> receiver_alive act tasks st' j = receiver_alive act tasks st j) as Hra.
  { intros j Hj. unfold receiver_alive, alive. by rewrite Hst, upd_ne. }
  split; [intros j Hj|intros j Hj Hoj]; (destruct (decide (j = i)) as [->|Hne];
    [rewrite ?Hst, ?upd_eq in *|rewrite ?Hst, ?(upd_ne i j) in * by done]).
  - done.
  - specialize (Hon j Hj). destruct (Hins j Hne Hj) as [->|[Hd Hempty]]; [done|]. by eapply course_ended.
  - destruct (Hci Hoj) as (Hr & Hw). split; [rewrite Hra; [done|lia]|]. intros H1 H2. rewrite upd_ne by lia. auto.
  - destruct (Hoff j Hj Hoj) as (Hr & Hw). assert (S j <> i) as HSj by (intros <-; by eapply Hprev).
    split; [by rewrite Hra|]. intros H1 H2. rewrite upd_ne by done. auto.
Qed.

(** ** Termination *)

Definition total (n : nat -> nat) : nat := sum_list_with n (seq 0 tasks).

Lemma total_upd n i a : i < tasks -> a < n i -> total (upd i a n) < total n.
Proof.
  intros Hi Ha. unfold total.
  assert (forall b k, sum_list_with (upd i a n) (seq b k) + (if decide (b <= i < b + k) then n i else 0) =
                      sum_list_with n (seq b k) + (if decide (b <= i < b + k) then a else 0)) as H.
  { intros b k. revert b. induction k as [|k IH]; intros b; cbn [seq sum_list_with].
    - rewrite !decide_False by lia. done.
    - specialize (IH (S b)). destruct (decide (b = i)) as [->|Hne].
      + rewrite upd_eq. rewrite !decide_False in IH by lia. rewrite !decide_True by lia. lia.
      + rewrite upd_ne by done. repeat case_decide; lia. }
  specialize (H 0 tasks). rewrite !decide_True in H by lia. lia.
Qed.

Lemma course_total st st' n rest off i x ni resti offi :
  on_course st n rest off -> i < tasks -> alive act st i = true -> ni < n i ->
  pp_stage st' = upd i x (pp_stage st) ->
  (forall j, j <> i -> j < tasks -> inputs st' (upd i resti rest) j = inputs st rest j \/
     (alive act st j = false /\ (inputs st rest j = [] -> inputs st' (upd i resti rest) j = []))) ->
  course offi (Q i) (whole i) ni x (inputs st' (upd i resti rest) i) resti (res i) ->
  (offi = true -> receiver_alive act tasks st i = false /\ (S i < tasks -> whole (S i) = true -> off (S i) = true)) ->
  exists n' rest' off', on_course st' n' rest' off' /\ total n' < total n.
Proof.
  intros. exists (upd i ni n), (upd i resti rest), (upd i offi off). split; [by eapply on_course_step|by apply total_upd].
Qed.

(** What is left to receive when the rest is updated in place. *)
Lemma inputs_same st st' rest i j :
  pp_queue st' j = pp_queue st j -> inputs st' (upd i (rest i) rest) j = inputs st rest j.
Proof.
  intros Hq. unfold inputs. rewrite Hq. f_equal. destruct j as [|j]; [done|]. unfold upd. by case_decide as Hd; [subst|].
Qed.

(** Once the sender is gone it has nothing left to send. *)
Lemma sender_gone st n rest off i :
  on_course st n rest off -> i < tasks -> alive act st i = true -> sender_alive act st i = false ->
  pp_queue st i = [] -> inputs st rest i = [].
Proof.
  intros Hoc Hi Ha Hs Hq. unfold inputs. rewrite Hq. destruct i as [|j]; [done|]. cbn in Hs |- *.
  unfold alive in Hs. destruct (act (pp_stage st j)) as [| | |r] eqn:Hj; try done.
  pose proof (course_at_end _ _ _ _ _ _ _ _ _ Hj (oc_course _ _ _ _ Hoc j ltac:(lia))) as H.
  destruct (off j) eqn:Hoj; [|by destruct H as [-> _]].
  destruct (oc_off _ _ _ _ Hoc j ltac:(lia) Hoj) as [Hr _]. unfold receiver_alive in Hr.
  by rewrite Ha, (proj2 (Nat.ltb_lt _ _) Hi) in Hr.
Qed.

(** After a receive, a send and a failed send. *)
Lemma on_course_recv st n rest off i k m q :
  on_course st n rest off -> i < tasks -> act (pp_stage st i) = ARecv k -> pp_queue st i = m :: q ->
  exists n' rest' off',
    on_course (mkPipe (upd i (k (Some m)) (pp_stage st)) (upd i q (pp_queue st))) n' rest' off' /\ total n' < total n.
Proof.
  intros Hoc Hi Hx Hq. pose proof (oc_course _ _ _ _ Hoc i Hi) as Hc. set (st' := mkPipe _ _).
  assert (inputs st rest i = m :: inputs st' (upd i (rest i) rest) i) as Hown.
  { unfold inputs. cbn [st' pp_queue]. rewrite Hq, upd_eq. cbn. do 2 f_equal. destruct i as [|i]; [done|].
    by rewrite upd_ne by lia. }
  rewrite Hown in Hc. destruct (course_recv _ _ _ _ _ _ _ _ _ _ Hx Hc) as (n' & Hn & Hc').
  eapply (course_total st st' _ _ _ i _ n' (rest i)); [done|done|by unfold alive; rewrite Hx|lia|done| |exact Hc'
    |exact (oc_off _ _ _ _ Hoc i Hi)].
  intros j Hj _. left. apply inputs_same. cbn. by rewrite upd_ne.
Qed.

Lemma on_course_send st n rest off i m k :
  on_course st n rest off -> i < tasks -> act (pp_stage st i) = ASend m k -> receiver_alive act tasks st i = true ->
  exists n' rest' off',
    on_course (mkPipe (upd i (k true) (pp_stage st)) (upd (S i) (pp_queue st (S i) ++ [m]) (pp_queue st))) n' rest' off' /\
    total n' < total n.
Proof.
  intros Hoc Hi Hx Hr. pose proof (oc_course _ _ _ _ Hoc i Hi) as Hc. pose proof (oc_off _ _ _ _ Hoc i Hi) as Hoff.
  set (st' := mkPipe _ _). destruct (off i) eqn:Ho; [destruct (Hoff eq_refl); congruence|].
  destruct (course_sent _ _ _ _ _ _ _ _ _ Hx Hc) as (n' & outs & Hn & Hrest & Hc').
  assert (inputs st' (upd i outs rest) i = inputs st rest i) as Hown.
  { unfold inputs. cbn [st' pp_queue]. rewrite upd_ne by lia. f_equal. destruct i as [|i]; [done|].
    by rewrite upd_ne by lia. }
  eapply (course_total st st' _ _ _ i _ n' outs false); [done|done|by unfold alive; rewrite Hx|lia|done| |by rewrite Hown|done].
  intros j Hj _. left. unfold inputs. cbn [st' pp_queue]. destruct (decide (j = S i)) as [->|Hne].
  - rewrite !upd_eq, Hrest. by rewrite <-app_assoc.
  - rewrite upd_ne by done. f_equal. destruct j as [|j]; [done|]. by rewrite upd_ne by lia.
Qed.

(** A receiver that takes its whole input is not gone while a message is to be sent to it,
    unless its own was. *)
Lemma receiver_off st n rest off i m outs :
  on_course st n rest off -> S i < tasks -> whole (S i) = true -> rest i = m :: outs ->
  receiver_alive act tasks st i = false -> off (S i) = true.
Proof.
  intros Hoc Ht Hw Hrest Hr. destruct (off (S i)) eqn:HoS; [done|]. unfold receiver_alive in Hr.
  rewrite (proj2 (Nat.ltb_lt _ _) Ht) in Hr. unfold alive in Hr.
  destruct (act (pp_stage st (S i))) as [| | |r] eqn:HxS; try done.
  pose proof (course_at_end _ _ _ _ _ _ _ _ _ HxS (oc_course _ _ _ _ Hoc (S i) Ht)) as H. rewrite HoS in H.
  destruct H as (_ & _ & H). specialize (H Hw). unfold inputs in H. rewrite Hrest in H. by apply app_eq_nil in H as [_ ?].
Qed.

Lemma on_course_drop st n rest off i m k :
  on_course st n rest off -> i < tasks -> act (pp_stage st i) = ASend m k -> receiver_alive act tasks st i = false ->
  exists n' rest' off',
    on_course (mkPipe (upd i (k false) (pp_stage st)) (pp_queue st)) n' rest' off' /\ total n' < total n.
Proof.
  intros Hoc Hi Hx Hr. pose proof (oc_course _ _ _ _ Hoc i Hi) as Hc. pose proof (oc_off _ _ _ _ Hoc i Hi) as Hoff.
  set (st' := mkPipe _ _). destruct (course_dropped _ _ _ _ _ _ _ _ _ _ Hx Hc) as (n' & off' & outs & Hn & Hc' & Hcase).
  assert (inputs st' (upd i outs rest) i = inputs st rest i) as Hown.
  { unfold inputs. cbn [st' pp_queue]. f_equal. destruct i as [|i]; [done|]. by rewrite upd_ne by lia. }
  eapply (course_total st st' _ _ _ i _ n' outs off'); [done|done|by unfold alive; rewrite Hx|done|done| |by rewrite Hown|].
  - intros j Hj Hjt. unfold inputs. cbn [st' pp_queue]. destruct j as [|j]; [by left|].
    destruct (decide (j = i)) as [->|Hne]; [|left; by rewrite upd_ne]. right. split.
    + unfold receiver_alive in Hr. by rewrite (proj2 (Nat.ltb_lt _ _) Hjt) in Hr.
    + rewrite upd_eq. destruct Hcase as [(_ & _ & ->)|(_ & ->)]; [done|]. by intros [_ ?]%app_eq_nil.
  - intros ->. split; [done|]. intros Ht Hw. destruct Hcase as [(Ho & _ & _)|(_ & Hrest)]; [by apply Hoff|].
    by eapply receiver_off.
Qed.

(** A step keeps every task on its course. *)
Lemma on_course_preserved st st' n rest off :
  pipe_steps act tasks cap st st' -> on_course st n rest off ->
  exists n' rest' off', on_course st' n' rest' off' /\ total n' < total n.
Proof.
  intros [i Hst] Hoc. unfold pipe_step in Hst. destruct (Nat.ltb_spec i tasks) as [Hi|_]; [|done].
  pose proof (oc_course _ _ _ _ Hoc i Hi) as Hc. pose proof (oc_off _ _ _ _ Hoc i Hi) as Hoff.
  assert (alive act st i = match act (pp_stage st i) with ADone _ => false | _ => true end) as Ha by done.
  destruct (act (pp_stage st i)) as [k|m k|x|r] eqn:Hx; [| | |done].
  - destruct (pp_queue st i) as [|m q] eqn:Hq; [|injection Hst as <-; by eapply on_course_recv].
    destruct (sender_alive act st i) eqn:Hs; [done|]. injection Hst as <-.
    pose proof (sender_gone _ _ _ _ _ Hoc Hi Ha Hs Hq) as Hempty. rewrite Hempty in Hc.
    destruct (course_eof _ _ _ _ _ _ _ _ Hx Hc) as (n' & Hn & Hc').
    eapply (course_total _ _ _ _ _ i _ n' (rest i)); [done|done|done|lia|done| |rewrite (inputs_same st), Hempty by done; done|done].
    intros j _ _. left. by apply inputs_same.
  - destruct (receiver_alive act tasks st i) eqn:Hr; [|injection Hst as <-; by eapply on_course_drop].
    destruct (length (pp_queue st (S i)) <? cap (S i)); [|done]. injection Hst as <-. by eapply on_course_send.
  - injection Hst as <-. destruct (course_tau _ _ _ _ _ _ _ _ _ Hx Hc) as (n' & Hn & Hc').
    eapply (course_total _ _ _ _ _ i _ n' (rest i)); [done|done|done|lia|done| |rewrite (inputs_same st) by done; exact Hc'|done].
    intros j _ _. left. by apply inputs_same.
Qed.

Lemma on_course_start st n outs :
  (forall i, pp_queue st i = []) ->
  (forall i, i < tasks -> feeds act (Q i) (whole i) (n i) (pp_stage st i) (match i with 0 => [] | S j => outs j end)
                            (outs i) (res i)) ->
  on_course st n outs (fun _ => false).
Proof.
  intros Hq Hf. split; [|done]. intros i Hi. unfold inputs. rewrite Hq. exact (Hf i Hi).
Qed.

(** A run of [k] steps uses up [k] of them. *)
Lemma pipeline_runs k st st' n rest off :
  nsteps (pipe_steps act tasks cap) k st st' -> on_course st n rest off ->
  exists n' rest' off', on_course st' n' rest' off' /\ k + total n' <= total n.
Proof.
  intros Hk. revert n rest off. induction Hk as [st|k st st1 st' Hst _ IH]; intros n rest off Hoc.
  - exists n, rest, off. split; [done|lia].
  - destruct (on_course_preserved _ _ _ _ _ Hst Hoc) as (n1 & rest1 & off1 & Hoc1 & Hn1).
    destruct (IH _ _ _ Hoc1) as (n' & rest' & off' & Hoc' & Hn'). exists n', rest', off'. split; [done|lia].
Qed.

(** Where it can end: every task has its result, the one it has alone unless its receiver
    ended first. *)
Lemma pipeline_results st n rest off :
  on_course st n rest off -> all_done act tasks st ->
  forall i, i < tasks -> exists r, act (pp_stage st i) = ADone r /\
    if off i then Q i r /\ (S i < tasks -> whole (S i) = true -> off (S i) = true) else r = res i.
Proof.
  intros Hoc Hd i Hi. specialize (Hd i Hi). unfold alive in Hd.
  destruct (act (pp_stage st i)) as [| | |r] eqn:Hx; try done. exists r. split; [done|].
  pose proof (course_at_end _ _ _ _ _ _ _ _ _ Hx (oc_course _ _ _ _ Hoc i Hi)) as H.
  destruct (off i) eqn:Ho; [|by destruct H as (_ & -> & _)]. split; [done|]. by apply (oc_off _ _ _ _ Hoc i Hi Ho).
Qed.
End runs.
