(* ===== verification/Network.v ===== *)
(** * The network of stream mode ([stream_run] of [core/src/process/stream.rs])

    [stream_run] joins four tasks over three bounded channels: the pump, the extraction on a
    blocking thread, the processing block and the upload.  Here they are what they are, tasks
    that wait at every send and receive, and the runtime steps them in any order.
    [stream_net_refines]: such a run cannot deadlock, stops, and ends as
    [stream_run] of Stream says, for some [Schedule].  That is what the schedule abstracts. *)

From S2P Require Import Prelude Model Json Regex Rules Reference Index Project Engine.
From S2P Require Import Settings Effects Metrics Ports Task Envelope Buffer Stream Channels.

Definition INPUT_CHANNEL_CAPACITY : nat := 4.
Definition RECORD_CHANNEL_CAPACITY : nat := 16.
Definition OUTPUT_CHANNEL_CAPACITY : nat := 4.

(** ** The tasks *)

(** [pump_input] at its awaits: before a read, and with a message to send. *)
Inductive PumpState : Type :=
  | PmRead (input : Reader) (metrics : Metrics)
  | PmSend (m : ByteMsg) (next : option Reader) (metrics : Metrics)
  | PmDone (metrics : Metrics).

Definition pump_act (x : PumpState) : Act Empty_set ByteMsg PumpState Metrics :=
  match x with
  | PmRead input metrics =>
      ATau (match read INPUT_CHUNK_BYTES input with
            | (Ok b, input) =>
                if str_is_empty b then PmDone metrics
                else PmSend (Ok b) (Some input) (add_bytes_in (byte_len b) metrics)
            | (Err e, _) => PmSend (Err e) None metrics
            end)
  | PmSend m next metrics =>
      ASend m (fun sent => match next with
                           | Some input => if (sent : bool) then PmRead input metrics else PmDone metrics
                           | None => PmDone metrics
                           end)
  | PmDone metrics => ADone metrics
  end.

(** [extract_records] reads its channel through the decoder and the parser, which are
    third-party: when it asks for a message and when it has a record to send is theirs.  Its
    result is the panic that ended it, if one did. *)
Class Extractor := {
  ex_state : Type;
  ex_start : ex_state;
  ex_act : ex_state -> Act ByteMsg StreamMsg ex_state (option string);
}.

(** What the processing block returns. *)
Abbreviation Processed := (result CoreError (Outcome * N * RecordTally)).

Section network.
Context {J : JsonCrate} {SH : ShallowCrate} {R : RegexCrate} {G : GzipCrate}.

(** The decoder and the parser over a channel are those over its body: extraction sends the
    messages [extract_records] says, or some of its records if it panics; parsing that succeeds has
    received every message, and a parser whose visitor fails returns. *)
Class ExtractorLaws (X : Extractor) : Prop := {
  extractor_feeds msgs : exists n outs r,
    feeds ex_act (fun r => r = None) (match r with None => reads_all outs | Some _ => false end) n ex_start msgs outs r /\
    match r with
    | None => outs = extract_records msgs
    | Some _ => exists k, outs = take k (filter (fun m => is_record m = true) (extract_records msgs))
    end;
}.

(** [put_stream] over a body it receives message by message. *)
Class Uploader (S : Type) {St : ObjectStore S} := {
  up_state : Type;
  up_start : string -> string -> PutMeta -> S -> up_state;
  up_act : up_state -> Act ByteMsg Empty_set up_state (result StoreError unit * N * S);
}.

Class UploaderLaws (S : Type) {St : ObjectStore S} (U : Uploader S) : Prop := {
  uploader_feeds b k meta s msgs : exists n,
    feeds up_act (fun _ => False) false n (up_start b k meta s) msgs [] (store_put_stream b k (reader_of_msgs msgs) meta s);
}.

(** *** The processing block *)

(** At its awaits: before a receive, and with messages to send before it goes on or ends. *)
Inductive ProcState : Type :=
  | PrRecv (p : Processor)
  | PrSend (m : ByteMsg) (then_ : list ByteMsg) (after : Processor + Processed)
  | PrDone (r : Processed).

Definition emit (out : list ByteMsg) (after : Processor + Processed) : ProcState :=
  match out, after with
  | m :: out, _ => PrSend m out after
  | [], inl p => PrRecv p
  | [], inr r => PrDone r
  end.

(** What [p] is about to send, and [p] once it is sent. *)
Definition sent_all (p : Processor) : Processor :=
  mkProcessor (p_encoder p) (p_first p) (p_tally p) (p_bytes_out p) [].

Definition proc_act (engine : Engine) (x : ProcState) : Act StreamMsg ByteMsg ProcState Processed :=
  match x with
  | PrRecv p =>
      ARecv (fun m => match m with
                      | Some (SRecord text) =>
                          match process_record engine text p with
                          | Ok p => emit (p_out p) (inl (sent_all p))
                          | Err (out, e) => emit out (inr (Err e))
                          end
                      | Some (SFinished kind) => let '(out, r) := finish_processing p kind in emit out (inr r)
                      | None =>
                          emit (abort "aborting: record producer vanished" p)
                            (inr (Err (CoreInternal (Lit "stream_run: record producer ended without a Finished message"))))
                      end)
  | PrSend m out after => ASend m (fun _ => emit out after)
  | PrDone r => ADone r
  end.

(** From the encoder it starts with; [stream_program] has the start without one. *)
Definition proc_start (encoder : Enc) : ProcState :=
  match enc_write ENVELOPE_OPEN encoder with
  | Err e => emit [Err (Lit "aborting: gzip write failed")] (inr (Err (CoreInternal (Lit e))))
  | Ok encoder => PrRecv (mkProcessor encoder true RecordTally.empty 0 [])
  end.

(** ** The network *)

Inductive Packet : Type :=
  | PkBytes (m : ByteMsg)
  | PkRecord (m : StreamMsg).

Definition as_bytes (k : Packet) : option ByteMsg := match k with PkBytes m => Some m | PkRecord _ => None end.
Definition as_record (k : Packet) : option StreamMsg := match k with PkRecord m => Some m | PkBytes _ => None end.
Definition no_packet (k : Packet) : option Empty_set := None.
Definition never (e : Empty_set) : Packet := match e with end.

Context {X : Extractor} {S : Type} {St : ObjectStore S} {U : Uploader S}.

Inductive StreamTask : Type :=
  | TPump (x : PumpState)
  | TExtract (x : ex_state)
  | TProcess (x : ProcState)
  | TUpload (x : up_state).

Inductive TaskResult : Type :=
  | RPump (metrics : Metrics)
  | RExtract (panic : option string)
  | RProcess (r : Processed)
  | RUpload (r : result StoreError unit * N * S).

Definition task_act (engine : Engine) (x : StreamTask) : Act Packet Packet StreamTask TaskResult :=
  match x with
  | TPump x => lift_act no_packet PkBytes TPump RPump (pump_act x)
  | TExtract x => lift_act as_bytes PkRecord TExtract RExtract (ex_act x)
  | TProcess x => lift_act as_record PkBytes TProcess RProcess (proc_act engine x)
  | TUpload x => lift_act as_bytes never TUpload RUpload (up_act x)
  end.

Definition stream_cap (channel : nat) : nat :=
  match channel with
  | 1 => INPUT_CHANNEL_CAPACITY
  | 2 => RECORD_CHANNEL_CAPACITY
  | _ => OUTPUT_CHANNEL_CAPACITY
  end.

(** The four futures of [tokio::join!], and its channels, empty. *)
Definition stream_net (input : Reader) (encoder : Enc) (metrics : Metrics) (store : S) (dest_bucket dest_key : string) :
    Pipe Packet StreamTask :=
  mkPipe (fun task => match task with
                      | 0 => TPump (PmRead input metrics)
                      | 1 => TExtract ex_start
                      | 2 => TProcess (proc_start encoder)
                      | _ => TUpload (up_start dest_bucket dest_key STREAM_META store)
                      end)
    (fun _ => []).

Definition net_steps (engine : Engine) : Pipe Packet StreamTask -> Pipe Packet StreamTask -> Prop :=
  pipe_steps (task_act engine) 4 stream_cap.

(** What follows the join, given what the four have ended with. *)
Definition after_join (engine : Engine) (metrics : Metrics) (panic : option string) (processed : Processed)
    (upload : result StoreError unit * N * S) : result (Exit CoreError) Outcome * Metrics * S :=
  let '(uploaded, _, store) := upload in
  let blocking_result := match panic with None => Ok tt | Some e => Err (join_error e) end in
  let '(r, w) := run (settle_stream engine blocking_result processed uploaded) (mkEnv store metrics) in
  (r, e_metrics w, e_store w).

(** The join waits for all four. *)
Definition stream_joined (engine : Engine) (st : Pipe Packet StreamTask) : option (result (Exit CoreError) Outcome * Metrics * S) :=
  match task_act engine (pp_stage st 0), task_act engine (pp_stage st 1),
        task_act engine (pp_stage st 2), task_act engine (pp_stage st 3) with
  | ADone (RPump metrics), ADone (RExtract panic), ADone (RProcess processed), ADone (RUpload upload) =>
      Some (after_join engine metrics panic processed upload)
  | _, _, _, _ => None
  end.
End network.

(** ** Lemmas: the pump *)

(** What it sends does not depend on the counters. *)
Lemma pump_input_oblivious n input m m' : (pump_input n input m).1 = (pump_input n input m').1.
Proof.
  revert input m m'. induction n as [|n IH]; intros input m m'; cbn [pump_input];
    destruct (read INPUT_CHUNK_BYTES input) as [[b|e] input']; try done; destruct (str_is_empty b); try done.
  specialize (IH input' (add_bytes_in (byte_len b) m) (add_bytes_in (byte_len b) m')).
  destruct (pump_input n input' (add_bytes_in (byte_len b) m)), (pump_input n input' (add_bytes_in (byte_len b) m')).
  cbn in *. by rewrite IH.
Qed.

(** It passes on the whole body, or it stops at the first message that is not taken. *)
Lemma pump_feeds n input m :
  String.length (reader_bytes input) < n ->
  feeds pump_act (fun m' => exists j, m' = (pump_input j input m).2) true (2 * n) (PmRead input m) []
    (pump_input n input m).1 (pump_input n input m).2.
Proof.
  revert input m. induction n as [|n IH]; intros input m Hn; [lia|].
  replace (2 * S n) with (S (S (2 * n))) by lia. pose proof (read_spec INPUT_CHUNK_BYTES input input_chunk_pos) as Hr.
  eapply feeds_tau; [reflexivity|]. cbn [pump_input].
  destruct (read INPUT_CHUNK_BYTES input) as [[b|e] input'] eqn:Er.
  - destruct Hr as (Hb & _ & _). destruct (str_is_empty b) eqn:Eb; [by apply feeds_done|].
    assert (String.length (reader_bytes input') < n) as Hn'.
    { rewrite Hb, str_length_app in Hn. destruct b; [done|]. cbn in Hn. lia. }
    specialize (IH input' (add_bytes_in (byte_len b) m) Hn').
    destruct (pump_input n input' (add_bytes_in (byte_len b) m)) as [msgs m'] eqn:Ep.
    eapply feeds_send; [reflexivity| |].
    + eapply feeds_mono; [|exact IH]. intros r [j ->]. exists (Datatypes.S j). cbn [pump_input]. rewrite Er, Eb.
      by destruct (pump_input j input' _).
    + right. exists (add_bytes_in (byte_len b) m). split; [by apply cut_done|]. exists 0. cbn [pump_input]. by rewrite Er, Eb.
  - eapply feeds_send; [reflexivity| |by left]. by apply feeds_done.
Qed.

(** ** Lemmas: the processing block *)

Section processing.
Context {J : JsonCrate} {SH : ShallowCrate} {R : RegexCrate} {G : GzipCrate}.

(** [p] having sent [out] before. *)
Definition having_sent (out : list ByteMsg) (p : Processor) : Processor :=
  mkProcessor (p_encoder p) (p_first p) (p_tally p) (p_bytes_out p) (out ++ p_out p).

Lemma having_sent_all p : having_sent (p_out p) (sent_all p) = p.
Proof. destruct p. unfold having_sent, sent_all. cbn. by rewrite app_nil_r. Qed.

Lemma flush_after out p : flush (having_sent out p) = having_sent out (flush p).
Proof. unfold flush, having_sent. cbn. case_match; [|done]. by rewrite <-app_assoc. Qed.

Lemma abort_after out why p : abort why (having_sent out p) = out ++ abort why p.
Proof. unfold abort. cbn. by rewrite <-app_assoc. Qed.

(** What was sent before goes before what is sent next. *)
Lemma process_record_after engine text out p :
  process_record engine text (having_sent out p) =
  match process_record engine text p with
  | Ok p => Ok (having_sent out p)
  | Err (o, e) => Err (out ++ o, e)
  end.
Proof.
  unfold process_record, write_survivor.
  destruct (evaluate_raw engine text) as [[|i]|err]; cbn [with_tally having_sent p_first p_encoder mbind result_bind].
  2:{ symmetry. exact (f_equal Ok (eq_sym (flush_after out _))). }
  all: set (written := @mbind _ _ Enc Enc _ _); destruct written as [encoder|e]; cbn [mbind result_bind];
    [symmetry; exact (f_equal Ok (eq_sym (flush_after out _)))|by rewrite <-(abort_after out)].
Qed.

Lemma finish_after out p kind :
  finish_processing (having_sent out p) kind =
  let '(o, r) := finish_processing p kind in (out ++ o, r).
Proof.
  unfold finish_processing. destruct kind as [| |[| |]]; rewrite ?abort_after; try done.
  change (p_tally (having_sent out p)) with (p_tally p). change (p_encoder (having_sent out p)) with (p_encoder p).
  destruct (0 <? RecordTally.kept_count (p_tally p))%N; [|done].
  destruct (enc_write ENVELOPE_CLOSE _) as [encoder|e]; [|done].
  destruct (enc_finish encoder) as [tail|e]; [|done]. destruct (str_is_empty tail); [done|].
  cbn. by rewrite <-app_assoc.
Qed.

(** The block from its loop on. *)
Definition process_from (engine : Engine) (msgs : list StreamMsg) (p : Processor) : list ByteMsg * Processed :=
  match process_loop engine msgs p with
  | Err (out, e) => (out, Err e)
  | Ok (p, kind) => finish_processing p kind
  end.

Lemma process_from_after engine msgs out p :
  process_from engine msgs (having_sent out p) =
  let '(o, r) := process_from engine msgs p in (out ++ o, r).
Proof.
  revert p. induction msgs as [|[text|kind] msgs IH]; intros p; unfold process_from; cbn [process_loop].
  - by rewrite abort_after.
  - rewrite process_record_after. destruct (process_record engine text p) as [p'|[o e]]; cbn [mbind result_bind]; [|done].
    apply IH.
  - apply finish_after.
Qed.

Lemma loop_drains_after engine msgs out p :
  loop_drains engine msgs (having_sent out p) = loop_drains engine msgs p.
Proof.
  revert p. induction msgs as [|[text|kind] msgs IH]; intros p; [done| |done]. cbn [loop_drains].
  rewrite process_record_after. by destruct (process_record engine text p) as [p'|[o e]].
Qed.

(** Sends are made whether the upload takes them or not. *)
Lemma emit_feeds engine Q whole n ins outs r out p :
  feeds (proc_act engine) Q whole n (PrRecv p) ins outs r ->
  feeds (proc_act engine) Q whole (length out + n) (emit out (inl p)) ins (out ++ outs) r.
Proof.
  intros H. induction out as [|m out IH]; [done|]. cbn [emit app length Nat.add].
  eapply feeds_send; [reflexivity|exact IH|by left].
Qed.

Lemma emit_ends engine Q (whole : bool) ins r out :
  (whole = true -> ins = []) ->
  feeds (proc_act engine) Q whole (length out) (emit out (inr r)) ins out r.
Proof.
  intros H. induction out as [|m out IH]; [by apply feeds_done|]. cbn [emit length].
  eapply feeds_send; [reflexivity|exact IH|by left].
Qed.

(** Messages as an extraction sends them: records, then at most one [Finished]. *)
Definition record_run (msgs : list StreamMsg) : Prop :=
  exists rs tail, msgs = map SRecord rs ++ tail /\ (tail = [] \/ exists kind, tail = [SFinished kind]).

Lemma record_run_tail text msgs : record_run (SRecord text :: msgs) -> record_run msgs.
Proof.
  intros (rs & tail & Heq & Ht). destruct rs as [|x rs]; cbn in Heq.
  - destruct Ht as [->|[kind ->]]; done.
  - injection Heq as _ ->. by exists rs, tail.
Qed.

Lemma proc_feeds engine msgs p :
  record_run msgs -> p_out p = [] ->
  exists n, feeds (proc_act engine) (fun _ => False) (loop_drains engine msgs p) n (PrRecv p) msgs
              (process_from engine msgs p).1 (process_from engine msgs p).2.
Proof.
  revert p. induction msgs as [|m msgs IH]; intros p Hrun Hp.
  - eexists. eapply feeds_eof; [reflexivity|]. cbn [loop_drains process_from process_loop fst snd].
    by apply emit_ends.
  - destruct m as [text|kind].
    + unfold process_from. cbn [loop_drains process_loop].
      destruct (process_record engine text p) as [p'|[out e]] eqn:Ep; cbn [mbind result_bind].
      * destruct (IH (sent_all p')) as [n Hn]; [by eapply record_run_tail|done|].
        eexists. eapply feeds_recv; [reflexivity|]. cbv beta iota. rewrite Ep.
        fold (process_from engine msgs p').
        pose proof (process_from_after engine msgs (p_out p') (sent_all p')) as Hafter.
        pose proof (loop_drains_after engine msgs (p_out p') (sent_all p')) as Hdrains.
        rewrite having_sent_all in Hafter, Hdrains. rewrite Hafter, Hdrains.
        destruct (process_from engine msgs (sent_all p')) as [o r]. cbn [fst snd] in Hn |- *. apply emit_feeds. exact Hn.
      * eexists. eapply feeds_recv; [reflexivity|]. cbv beta iota. rewrite Ep. by apply emit_ends.
    + assert (msgs = []) as ->.
      { destruct Hrun as (rs & tail & Heq & Ht). destruct rs as [|x rs]; [|done]. cbn in Heq. destruct Ht as [->|[k ->]]; [done|].
        by injection Heq. }
      unfold process_from. cbn [process_loop]. destruct (finish_processing p kind) as [out r] eqn:Ef. eexists.
      eapply feeds_recv; [reflexivity|]. cbv beta iota. rewrite Ef. by apply emit_ends.
Qed.

(** The block sends and returns what [processing] says. *)
Lemma processing_feeds engine encoder msgs :
  record_run msgs ->
  exists n, feeds (proc_act engine) (fun _ => False) (processing_drains engine encoder msgs) n (proc_start encoder) msgs
              (processing engine encoder msgs).1 (processing engine encoder msgs).2.
Proof.
  intros Hrun. unfold proc_start, processing, processing_drains.
  destruct (enc_write ENVELOPE_OPEN encoder) as [opened|e].
  - by apply proc_feeds.
  - eexists. by apply emit_ends.
Qed.

(** A block that returns before its messages end does not see the ones that follow. *)
Lemma process_from_early engine msgs rest p :
  loop_drains engine msgs p = false ->
  process_from engine (msgs ++ rest) p = process_from engine msgs p /\ loop_drains engine (msgs ++ rest) p = false.
Proof.
  revert p. induction msgs as [|[text|kind] msgs IH]; intros p; [done| |done]. unfold process_from.
  cbn [app loop_drains process_loop]. destruct (process_record engine text p) as [p'|[o e]]; [|done]. apply IH.
Qed.

Lemma processing_early engine encoder msgs rest :
  processing_drains engine encoder msgs = false ->
  processing engine encoder (msgs ++ rest) = processing engine encoder msgs /\
  processing_drains engine encoder (msgs ++ rest) = false.
Proof.
  unfold processing, processing_drains. destruct (enc_write ENVELOPE_OPEN encoder) as [opened|e]; [|done].
  apply process_from_early.
Qed.
End processing.

(** ** Lemmas: the four together *)

Section refinement.
Context {J : JsonCrate} {SH : ShallowCrate} {R : RegexCrate} {G : GzipCrate}.
Context {X : Extractor} {XL : ExtractorLaws X} {S : Type} {St : ObjectStore S} {U : Uploader S} {UL : UploaderLaws S U}.
Context (input : Reader) (engine : Engine) (cfg : Processing) (encoder : Enc) (metrics : Metrics) (store : S) (b k : string).
Context (Hnew : enc_new (gzip_level cfg) = Some encoder).

(** The messages of the pump, when all are taken. *)
Definition pumped : list ByteMsg := (pump_input (input_bound input) input metrics).1.

(** What the extraction can send of them, and whether it panicked. *)
Definition extracts (outs : list StreamMsg) (r : option string) : Prop :=
  match r with
  | None => outs = extraction input
  | Some _ => exists n, outs = take n (filter (fun m => is_record m = true) (extraction input))
  end.

Lemma extracts_run outs r : extracts outs r -> record_run outs.
Proof.
  unfold extraction. destruct (extract_records_shape (pump_input (input_bound input) input Metrics_default).1) as (sent & kind & Heq).
  unfold extracts, extraction. rewrite Heq. destruct r as [e|].
  - intros [n ->]. destruct (records_only sent kind n) as [rs ->]. exists rs, []. rewrite app_nil_r. eauto.
  - intros ->. eexists sent, _. eauto.
Qed.

(** A panic leaves a part of what would have been sent. *)
Lemma extracts_prefix outs e : extracts outs (Some e) -> exists rest, extraction input = outs ++ rest.
Proof.
  unfold extraction. destruct (extract_records_shape (pump_input (input_bound input) input Metrics_default).1) as (sent & kind & Heq).
  unfold extracts, extraction. rewrite Heq. intros [n ->]. rewrite filter_records.
  exists (drop n (map SRecord sent) ++ [SFinished kind]). by rewrite app_assoc, take_drop.
Qed.

(** May task [i] end with [r], its receiver gone; does it receive everything; its result. *)
Definition may_end (i : nat) (r : TaskResult (S := S)) : Prop :=
  match i with
  | 0 => exists j, r = RPump (pump_input j input metrics).2
  | 1 => r = RExtract None
  | _ => False
  end.

Definition takes_all (outs : list StreamMsg) (panic : option string) (i : nat) : bool :=
  match i with
  | 0 => true
  | 1 => match panic with None => reads_all outs | Some _ => false end
  | 2 => processing_drains engine encoder outs
  | _ => false
  end.

Definition ends_processing (outs : list StreamMsg) : Processed := (processing engine encoder outs).2.

Definition ends_upload (outs : list StreamMsg) : result StoreError unit * N * S :=
  store_put_stream b k (reader_of_msgs (processing engine encoder outs).1) STREAM_META store.

Definition ends_with (outs : list StreamMsg) (panic : option string) (i : nat) : TaskResult (S := S) :=
  match i with
  | 0 => RPump (pump_input (input_bound input) input metrics).2
  | 1 => RExtract panic
  | 2 => RProcess (ends_processing outs)
  | _ => RUpload (ends_upload outs)
  end.

Definition sends (outs : list StreamMsg) (i : nat) : list Packet :=
  match i with
  | 0 => map PkBytes pumped
  | 1 => map PkRecord outs
  | 2 => map PkBytes (processing engine encoder outs).1
  | _ => []
  end.

(** The network starts on its course. *)
Lemma stream_net_starts : exists n outs panic, extracts outs panic /\
  on_course (task_act engine) 4 may_end (takes_all outs panic) (ends_with outs panic)
    (stream_net input encoder metrics store b k) n (sends outs) (fun _ => false).
Proof.
  destruct (extractor_feeds pumped) as (n1 & outs & panic & Hx & Houts).
  assert (extracts outs panic) as Hext.
  { unfold extracts, extraction. unfold pumped in Houts.
    by rewrite (pump_input_oblivious _ _ _ metrics). }
  destruct (processing_feeds engine encoder outs) as [n2 Hp]; [by eapply extracts_run|].
  destruct (uploader_feeds b k STREAM_META store (processing engine encoder outs).1) as [n3 Hu].
  exists (fun i => match i with 0 => 2 * input_bound input | 1 => n1 | 2 => n2 | _ => n3 end), outs, panic.
  split; [done|]. apply on_course_start; [done|]. intros i Hi.
  destruct i as [|[|[|[|i]]]]; [| | | |lia]; cbn [stream_net pp_stage sends may_end takes_all ends_with].
  - apply (feeds_lift pump_act (task_act engine) no_packet (fun e : Empty_set => match e with end) PkBytes TPump RPump)
      with (Q := fun m' => exists j, m' = (pump_input j input metrics).2) (ins := []); [done|by intros []| |].
    + intros r [j ->]. by exists j.
    + apply pump_feeds. unfold input_bound. lia.
  - apply (feeds_lift ex_act (task_act engine) as_bytes PkBytes PkRecord TExtract RExtract) with (Q := fun r => r = None);
      [done|done|by intros ? ->|done].
  - by apply (feeds_lift (proc_act engine) (task_act engine) as_record PkRecord PkBytes TProcess RProcess)
      with (Q := fun _ => False).
  - by apply (feeds_lift up_act (task_act engine) as_bytes PkBytes never TUpload RUpload)
      with (Q := fun _ => False) (outs := []).
Qed.

(** Stream mode after its join. *)
Lemma stream_run_after_join sched raw panic all :
  (raw, panic, all) =
    match sch_panic sched with
    | None => (extraction input, None, reads_all (extraction input) && processing_drains engine encoder (extraction input))
    | Some (n, e) => (take n (filter (fun m => is_record m = true) (extraction input)), Some e, false)
    end ->
  stream_run sched input engine cfg metrics store b k =
  after_join engine (pump_input (if all then input_bound input else sch_accepts sched) input metrics).2 panic
    (ends_processing raw) (ends_upload raw).
Proof.
  intros H. unfold stream_run, stream_program, after_join, ends_processing, ends_upload. rewrite Hnew.
  unfold stream_joined_program.
  destruct (sch_panic sched) as [[n e]|]; injection H as -> -> ->; cbv zeta.
  all: destruct (processing _ _ _) as [out r]; run_step.
  all: by destruct (store_put_stream _ _ _ _ _) as [[u ?] s'].
Qed.

(** However the four ended, some schedule has them end so. *)
Lemma schedule_for outs panic metrics' (off : bool) :
  extracts outs panic ->
  (exists j, metrics' = (pump_input j input metrics).2) ->
  (off = true -> processing_drains engine encoder outs = false) ->
  (reads_all outs = true -> processing_drains engine encoder outs = true -> panic = None ->
   metrics' = (pump_input (input_bound input) input metrics).2) ->
  exists sched, after_join engine metrics' (if off then None else panic) (ends_processing outs) (ends_upload outs) =
                stream_run sched input engine cfg metrics store b k.
Proof.
  intros Hext [j Hj] Hoff Hall. destruct panic as [e|]; [destruct off|].
  - destruct (extracts_prefix _ _ Hext) as [rest Hrest].
    destruct (processing_early engine encoder outs rest (Hoff eq_refl)) as [Hp Hd]. rewrite <-Hrest in Hp, Hd.
    exists (mkSchedule j None).
    rewrite (stream_run_after_join _ (extraction input) None false) by (cbn; by rewrite Hd, andb_false_r).
    unfold ends_upload, ends_processing. by rewrite Hp, Hj.
  - destruct Hext as [n ->]. exists (mkSchedule j (Some (n, e))).
    rewrite (stream_run_after_join _ (take n (filter (fun m => is_record m = true) (extraction input))) (Some e) false) by done.
    by rewrite Hj.
  - cbn in Hext. subst outs. exists (mkSchedule j None). rewrite (stream_run_after_join (mkSchedule j None) (extraction input) None _ eq_refl).
    replace (if off then None else None) with (@None string) by by destruct off. cbn [sch_accepts].
    destruct (reads_all (extraction input) && processing_drains engine encoder (extraction input)) eqn:E.
    + apply andb_true_iff in E as [? ?]. by rewrite Hall.
    + by rewrite Hj.
Qed.

(** Where the network ends is where [stream_run] ends. *)
Lemma stream_net_ends st n outs panic rest off :
  extracts outs panic ->
  on_course (task_act engine) 4 may_end (takes_all outs panic) (ends_with outs panic) st n rest off ->
  all_done (task_act engine) 4 st ->
  exists sched, stream_joined engine st = Some (stream_run sched input engine cfg metrics store b k).
Proof.
  intros Hext Hoc Hd.
  pose proof (pipeline_results _ _ _ _ _ _ _ _ _ Hoc Hd) as H.
  destruct (H 0 ltac:(lia)) as (r0 & Hr0 & H0). destruct (H 1 ltac:(lia)) as (r1 & Hr1 & H1).
  destruct (H 2 ltac:(lia)) as (r2 & Hr2 & H2). destruct (H 3 ltac:(lia)) as (r3 & Hr3 & H3). clear H.
  assert (off 2 = false) as Ho2 by (destruct (off 2); [by destruct H2|done]).
  assert (off 3 = false) as Ho3 by (destruct (off 3); [by destruct H3|done]).
  rewrite Ho2 in *. rewrite Ho3 in *. cbn [ends_with] in H2, H3. subst r2 r3.
  assert (exists m', r0 = RPump m' /\ (exists j, m' = (pump_input j input metrics).2) /\
    (off 0 = false -> m' = (pump_input (input_bound input) input metrics).2)) as (m' & -> & Hj & Hfull).
  { destruct (off 0); [destruct H0 as [[j ->] _]|subst r0]; eexists; (split; [done|]); eauto. split; eauto. done. }
  assert (r1 = RExtract (if off 1 then None else panic)) as -> by (destruct (off 1); [by destruct H1|done]).
  assert (off 1 = true -> processing_drains engine encoder outs = false) as Hd1.
  { intros Ho. rewrite Ho in H1. destruct H1 as [_ H1]. apply not_true_is_false. intros Hdr.
    specialize (H1 ltac:(lia) Hdr). congruence. }
  destruct (schedule_for outs panic m' (off 1) Hext Hj Hd1) as [sched Hs].
  { intros Hra Hdr Hp. apply Hfull. apply not_true_is_false. intros Ho. rewrite Ho in H0. destruct H0 as [_ H0].
    assert (off 1 = true) as Ho1 by (apply H0; [lia|]; cbn; by rewrite Hp). specialize (Hd1 Ho1). congruence. }
  exists sched. unfold stream_joined. by rewrite Hr0, Hr1, Hr2, Hr3, <-Hs.
Qed.
End refinement.

(** A join that is not over leaves a task to wait for. *)
Lemma not_joined {J : JsonCrate} {R : RegexCrate} {G : GzipCrate} {X : Extractor} {S} {St : ObjectStore S} {U : Uploader S}
    engine (st : Pipe Packet StreamTask) :
  ~ all_done (task_act engine) 4 st -> stream_joined engine st = None.
Proof.
  intros Hn. unfold stream_joined.
  destruct (task_act engine (pp_stage st 0)) as [| | |r0] eqn:H0; try done.
  destruct (task_act engine (pp_stage st 1)) as [| | |r1] eqn:H1; try by destruct r0.
  destruct (task_act engine (pp_stage st 2)) as [| | |r2] eqn:H2; try by destruct r0, r1.
  destruct (task_act engine (pp_stage st 3)) as [| | |r3] eqn:H3; try by destruct r0, r1, r2.
  destruct Hn. intros i Hi. unfold alive.
  destruct i as [|[|[|[|i]]]]; [by rewrite H0|by rewrite H1|by rewrite H2|by rewrite H3|lia].
Qed.

(** ** Properties *)

(** C15: the tasks of stream mode, stepped in any order whatever: no channel exceeds its
    capacity, the join is over after a bounded number of steps, until then some task can
    step, and what follows it is a [stream_run] of Stream.  At a gzip level there is not,
    [processing] panics when it is first polled: the run ends there, and the store was not
    called. *)
Theorem stream_net_refines {J : JsonCrate} {SH : ShallowCrate} {R : RegexCrate} {G : GzipCrate}
    {X : Extractor} {XL : ExtractorLaws X} {S : Type} {St : ObjectStore S} {U : Uploader S} {UL : UploaderLaws S U}
    input engine cfg metrics (store : S) b k :
  match enc_new (gzip_level cfg) with
  | Some encoder =>
      exists bound, forall n st, nsteps (net_steps engine) n (stream_net input encoder metrics store b k) st ->
        n <= bound /\ (forall c, length (pp_queue st c) <= stream_cap c) /\
        match stream_joined engine st with
        | Some joined => exists sched, joined = stream_run sched input engine cfg metrics store b k
        | None => exists st', net_steps engine st st'
        end
  | None => forall sched, exists j,
      stream_run sched input engine cfg metrics store b k =
      (Err (Panic LEVEL_PANIC), (pump_input j input metrics).2, store)
  end.
Proof.
  destruct (enc_new (gzip_level cfg)) as [encoder|] eqn:Hnew.
  2:{ intros sched. exists (sch_accepts sched). unfold stream_run, stream_program. by rewrite Hnew. }
  destruct (stream_net_starts input engine encoder metrics store b k) as (steps & outs & panic & Hext & Hoc).
  exists (total 4 steps). intros n st Hn.
  destruct (pipeline_runs _ _ _ _ _ _ _ _ _ _ _ _ Hn Hoc) as (steps' & rest & off & Hoc' & Hle).
  split; [lia|]. split.
  - clear -Hn. assert (forall c, length (pp_queue (stream_net input encoder metrics store b k) c) <= stream_cap c) as Hq.
    { intros c. cbn. lia. }
    revert Hq. induction Hn as [|n st st' st'' Hst _ IH]; [done|]. intros Hq. apply IH. by eapply queue_bounded.
  - destruct (decide (all_done (task_act engine) 4 st)) as [Hd|Hd].
    + eapply stream_net_ends in Hoc' as [sched ->]; [|done..]. by exists sched.
    + rewrite not_joined by done. destruct (pipeline_progress (task_act engine) 4 stream_cap st) as (i & st' & Hst).
      * intros [|[|[|j]]]; cbn; unfold OUTPUT_CHANNEL_CAPACITY, INPUT_CHANNEL_CAPACITY, RECORD_CHANNEL_CAPACITY; lia.
      * done.
      * by exists st', i.
Qed.

(** ** Witness *)

(** An extraction that parses once it has received everything, and an upload that reads its
    whole body before it stores it. *)
Section collecting.
Context {J : JsonCrate} {SH : ShallowCrate} {R : RegexCrate} {G : GzipCrate}.

Inductive Collecting (A B : Type) : Type :=
  | CtRecv (received : list ByteMsg)
  | CtSend (msgs : list A)
  | CtDone (r : B).
Arguments CtRecv {A B} received.
Arguments CtSend {A B} msgs.
Arguments CtDone {A B} r.

Instance collecting_extractor : Extractor := {
  ex_state := Collecting StreamMsg (option string);
  ex_start := CtRecv [];
  ex_act x :=
    match x with
    | CtRecv received =>
        ARecv (fun m => match m with Some m => CtRecv (received ++ [m]) | None => CtSend (extract_records received) end)
    | CtSend (m :: msgs) => ASend m (fun _ => CtSend msgs)
    | CtSend [] => ATau (CtDone None)
    | CtDone r => ADone r
    end;
}.

Instance collecting_uploader S {St : ObjectStore S} : Uploader S := {
  up_state := (string * string * PutMeta * S) * Collecting Empty_set (result StoreError unit * N * S);
  up_start b k meta s := (b, k, meta, s, CtRecv []);
  up_act '(b, k, meta, s, x) :=
    match x with
    | CtRecv received =>
        ARecv (fun m => (b, k, meta, s,
                         match m with
                         | Some m => CtRecv (received ++ [m])
                         | None => CtDone (store_put_stream b k (reader_of_msgs received) meta s)
                         end))
    | CtSend _ => ATau (b, k, meta, s, x)
    | CtDone r => ADone r
    end;
}.

Instance collecting_extractor_laws : ExtractorLaws collecting_extractor.
Proof.
  split. intros msgs. assert (forall outs, exists n, feeds ex_act (fun r => r = None) (reads_all (extract_records msgs)) n (CtSend outs) [] outs None) as Hs.
  { induction outs as [|m outs [n IH]]; eexists; [by eapply feeds_tau; [done|apply (feeds_done _ _ _ 0)]|].
    eapply feeds_send; [done|exact IH|by left]. }
  destruct (Hs (extract_records msgs)) as [n0 H0].
  assert (forall rest received, received ++ rest = msgs ->
    exists n, feeds ex_act (fun r => r = None) (reads_all (extract_records msgs)) n (CtRecv received) rest (extract_records msgs) None) as Hr.
  { induction rest as [|m rest IH]; intros received Hm.
    - eexists. eapply feeds_eof; [done|]. rewrite app_nil_r in Hm. rewrite Hm. exact H0.
    - destruct (IH (received ++ [m])) as [n Hn]; [by rewrite <-app_assoc|]. eexists. by eapply feeds_recv. }
  destruct (Hr msgs []) as [n Hn]; [done|]. by exists n, (extract_records msgs), None.
Qed.

Instance collecting_uploader_laws S {St : ObjectStore S} : UploaderLaws S (collecting_uploader S).
Proof.
  split. intros b k meta s msgs.
  assert (forall rest received, received ++ rest = msgs ->
    exists n, feeds up_act (fun _ => False) false n (b, k, meta, s, CtRecv received) rest []
                (store_put_stream b k (reader_of_msgs msgs) meta s)) as H.
  { induction rest as [|m rest IH]; intros received Hm.
    - exists 1. eapply feeds_eof; [done|]. rewrite app_nil_r in Hm. rewrite Hm. by apply feeds_done.
    - destruct (IH (received ++ [m])) as [n Hn]; [by rewrite <-app_assoc|]. eexists. by eapply feeds_recv. }
  by apply (H msgs []).
Qed.
End collecting.

(** Tasks stepped in this order; one that waits is passed over. *)
Fixpoint net_run {J : JsonCrate} {R : RegexCrate} {G : GzipCrate} {X : Extractor} {S} {St : ObjectStore S} {U : Uploader S}
    (engine : Engine) (order : list nat) (st : Pipe Packet StreamTask) : nat * Pipe Packet StreamTask :=
  match order with
  | [] => (0, st)
  | i :: order =>
      match pipe_step (task_act engine) 4 stream_cap i st with
      | Some st' => let '(n, st) := net_run engine order st' in (Datatypes.S n, st)
      | None => net_run engine order st
      end
  end.

Lemma net_run_steps {J : JsonCrate} {R : RegexCrate} {G : GzipCrate} {X : Extractor} {S} {St : ObjectStore S} {U : Uploader S}
    engine order (st : Pipe Packet StreamTask) :
  nsteps (net_steps engine) (net_run engine order st).1 st (net_run engine order st).2.
Proof.
  revert st. induction order as [|i order IH]; intros st; cbn [net_run]; [apply nsteps_O|].
  destruct (pipe_step _ _ _ i st) as [st'|] eqn:E; [|apply IH]. specialize (IH st').
  destruct (net_run engine order st') as [n st'']. eapply nsteps_l; [by exists i|done].
Qed.

(** The upload first, the pump last, again and again. *)
Definition demo_order : list nat := concat (replicate 20 [3; 2; 1; 0]).

(** The run that order gives, joined, is the run of some schedule. *)
Lemma stream_net_refines_witness :
  exists sched,
    (stream_run (J := demo_json) (SH := demo_shallow) (G := ref_gzip) sched demo_input demo_engine Processing_default
       Metrics_default InMemoryStore.new "siem" "k").1.1 = Ok (Written None).
Proof.
  pose proof (stream_net_refines (J := demo_json) (SH := demo_shallow) (G := ref_gzip)
              (X := collecting_extractor (SH := demo_shallow) (G := ref_gzip))
              (XL := collecting_extractor_laws (SH := demo_shallow) (G := ref_gzip))
              (U := collecting_uploader InMemoryStore) (UL := collecting_uploader_laws InMemoryStore)
              demo_input demo_engine Processing_default Metrics_default InMemoryStore.new "siem" "k") as H.
  change (enc_new (gzip_level Processing_default)) with (ref_new 6) in H. cbn [ref_new N.leb N.compare] in H.
  destruct H as [bound H].
  destruct (H _ _ (net_run_steps demo_engine demo_order _)) as (_ & _ & Hjoined). clear H.
  match type of Hjoined with match ?j with _ => _ end =>
    assert (match j with Some joined => joined.1.1 = Ok (Written None) | None => False end) as Hr by (vm_compute; reflexivity);
    destruct j as [joined|]; [|destruct Hr] end.
  destruct Hjoined as [sched Hs]. exists sched. rewrite <-Hs. exact Hr.
Defined.
