(* ===== verification/Cache.v ===== *)
(** * The configuration cache ([core/src/config/store.rs])

    [ConfigStore<T>] keeps one compiled artifact behind a time to live, revalidates it by
    version and survives a source that fails.  The clock ([Instant::now]) is an argument of
    every operation; the metrics the store shares with the pipeline are threaded. *)

From S2P Require Import Prelude Model Json Path Regex Rules Reference Index Project Engine.
From S2P Require Import Metrics Ports.

Record Cached (T : Type) := mkCached {
  c_value : T;
  c_version : VersionTag;
  c_fetched_at : N;
}.
Arguments mkCached {T}.
Arguments c_value {T}.
Arguments c_version {T}.
Arguments c_fetched_at {T}.

(** [src] and [state] of the store; [ttl] and [compile] are arguments of the section. *)
Record ConfigStore (T S : Type) := mkConfigStore {
  cs_src : S;
  cs_cached : option (Cached T);
}.
Arguments mkConfigStore {T S}.
Arguments cs_src {T S}.
Arguments cs_cached {T S}.

Module ConfigStore.
Section store.
Context {T S : Type} {Src : ConfigSource S}.
Context (ttl : N) (compile : Bytes -> result ConfigError T).

Definition new (src : S) : ConfigStore T S := mkConfigStore src None.

(** The store's own state and the metrics it reports to. *)
Definition St : Type := ConfigStore T S * Metrics.

Definition fetch_and_compile (src : S) : result ConfigError (T * VersionTag) * S :=
  match source_fetch src with
  | (Ok (bytes, version), src) =>
      match compile bytes with
      | Ok value => (Ok (value, version), src)
      | Err e => (Err e, src)
      end
  | (Err e, src) => (Err e, src)
  end.

Definition store (value : T) (version : VersionTag) (now : N) (cs : ConfigStore T S) : ConfigStore T S :=
  mkConfigStore (cs_src cs) (Some (mkCached value version now)).

Definition touch (now : N) (cs : ConfigStore T S) : ConfigStore T S :=
  mkConfigStore (cs_src cs) ((fun c => mkCached (c_value c) (c_version c) now) <$> cs_cached cs).

(** The [match self.fetch_and_compile()] that [prime] and [refresh] share. *)
Definition load (now : N) (st : St) : St :=
  let '(cs, m) := st in
  let '(r, src) := fetch_and_compile (cs_src cs) in
  let cs := mkConfigStore src (cs_cached cs) in
  match r with
  | Ok (value, version) => (store value version now cs, m)
  | Err _ => (cs, add_config_load_errors 1 m)
  end.

Definition prime (now : N) (st : St) : St := load now st.

Definition refresh (now : N) (st : St) : St :=
  let '(cs, m) := st in
  match c_version <$> cs_cached cs with
  | None => load now st
  | Some cached_version =>
      let '(r, src) := source_version (cs_src cs) in
      let cs := mkConfigStore src (cs_cached cs) in
      match r with
      | Err _ => (cs, add_config_load_errors 1 m)
      | Ok new_version =>
          if decide (new_version = cached_version) then (touch now cs, m) else load now (cs, m)
      end
  end.

(** [duration_since] saturates at zero. *)
Definition is_stale (now : N) (cs : ConfigStore T S) : bool :=
  match cs_cached cs with
  | None => true
  | Some c => (ttl <=? now - c_fetched_at c)%N
  end.

Definition get (now : N) (st : St) : option T * St :=
  let st := if is_stale now st.1 then refresh now st else st in
  (c_value <$> cs_cached st.1, st).
End store.
End ConfigStore.

(** ** Specification *)

Section spec.
Context {T S : Type} {Src : ConfigSource S}.
Context (ttl : N) (compile : Bytes -> result ConfigError T).

(** An operation on the store at a time. *)
Inductive ConfigOp : Type :=
  | Prime (now : N)
  | Get (now : N).

Definition op_time (op : ConfigOp) : N := match op with Prime now | Get now => now end.

Definition run_op (st : ConfigStore.St) (op : ConfigOp) : ConfigStore.St :=
  match op with
  | Prime now => ConfigStore.prime compile now st
  | Get now => (ConfigStore.get ttl compile now st).2
  end.

(** Where a cached value comes from: some fetch of the source returned bytes of this
    version, and they compiled to this value. *)
Definition provenance (c : Cached T) : Prop :=
  exists src src' bytes, source_fetch src = (Ok (bytes, c_version c), src') /\
    compile bytes = Ok (c_value c).

(** The time a value was last confirmed is the time of one of the operations. *)
Definition cache_ok (times : list N) (cs : ConfigStore T S) : Prop :=
  match cs_cached cs with
  | None => True
  | Some c => provenance c /\ c_fetched_at c ∈ times
  end.

(** What one refresh does: the value is confirmed as of [now], or the failure is counted
    and the cache is as it was. *)
Definition refresh_post (now : N) (st st' : ConfigStore.St (T := T) (S := S)) : Prop :=
  (st'.2 = st.2 /\ exists c, cs_cached st'.1 = Some c /\ c_fetched_at c = now /\
     (provenance c \/ exists c0, cs_cached st.1 = Some c0 /\ c_value c0 = c_value c /\
        c_version c0 = c_version c)) \/
  (st'.2 = add_config_load_errors 1 st.2 /\ cs_cached st'.1 = cs_cached st.1).

(** ** Lemmas *)

Lemma load_post now st : refresh_post now st (ConfigStore.load compile now st).
Proof.
  destruct st as [cs m]. unfold ConfigStore.load, ConfigStore.fetch_and_compile, refresh_post.
  destruct (source_fetch (cs_src cs)) as [[[bytes version]|e] src] eqn:Ef; [|by right].
  destruct (compile bytes) as [value|e] eqn:Ec; [|by right]. left. split; [done|].
  eexists. split; [done|]. split; [done|]. left. by exists (cs_src cs), src, bytes.
Qed.

Lemma refresh_spec now st : refresh_post now st (ConfigStore.refresh compile now st).
Proof.
  destruct st as [cs m]. unfold ConfigStore.refresh.
  destruct (cs_cached cs) as [c|] eqn:Hc; [cbn|apply load_post].
  destruct (source_version (cs_src cs)) as [[v|e] src].
  - case_decide as Hv.
    + left. split; [done|]. cbn. rewrite Hc. eexists. split; [done|]. split; [done|]. right.
      by exists c.
    + pose proof (load_post now (mkConfigStore src (Some c), m)) as H. unfold refresh_post in *.
      cbn [cs_cached fst snd] in *. by rewrite Hc.
  - right. split; [done|]. cbn. by rewrite Hc.
Qed.

Lemma refresh_cache_ok times now st :
  cache_ok times st.1 -> cache_ok (now :: times) (ConfigStore.refresh compile now st).1.
Proof.
  intros H. unfold cache_ok in *.
  destruct (refresh_spec now st) as [(_ & c & -> & Ht & Hp)|[_ ->]].
  - split; [|rewrite Ht; left]. destruct Hp as [?|(c0 & E & Hv & Hr)]; [done|].
    rewrite E in H. destruct H as [(s1 & s2 & b & Hs & Hb) _]. exists s1, s2, b.
    by rewrite <-Hv, <-Hr.
  - destruct (cs_cached st.1) as [c|]; [|done]. destruct H as [? ?]. split; [done|by right].
Qed.

Lemma load_cache_ok times now st :
  cache_ok times st.1 -> cache_ok (now :: times) (ConfigStore.load compile now st).1.
Proof.
  intros H. unfold cache_ok in *.
  destruct (load_post now st) as [(_ & c & -> & Ht & Hp)|[_ ->]].
  - split; [|rewrite Ht; left]. destruct Hp as [?|(c0 & E & Hv & Hr)]; [done|].
    rewrite E in H. destruct H as [(s1 & s2 & b & Hs & Hb) _]. exists s1, s2, b.
    by rewrite <-Hv, <-Hr.
  - destruct (cs_cached st.1) as [c|]; [|done]. destruct H as [? ?]. split; [done|by right].
Qed.

Lemma run_op_cache_ok times op st :
  cache_ok times st.1 -> cache_ok (op_time op :: times) (run_op st op).1.
Proof.
  destruct op as [now|now]; cbn [run_op op_time]; [apply load_cache_ok|].
  unfold ConfigStore.get. cbn [snd]. destruct (ConfigStore.is_stale ttl now st.1); [apply refresh_cache_ok|].
  unfold cache_ok. destruct (cs_cached st.1) as [c|]; [|done]. intros [? ?]. split; [done|by right].
Qed.

Lemma refresh_keeps now st : is_Some (cs_cached st.1) -> is_Some (cs_cached (ConfigStore.refresh compile now st).1).
Proof. intros H. by destruct (refresh_spec now st) as [(_ & c & -> & _)|[_ ->]]. Qed.

Lemma run_op_keeps op st : is_Some (cs_cached st.1) -> is_Some (cs_cached (run_op st op).1).
Proof.
  intros H. destruct op as [now|now]; cbn [run_op]; [unfold ConfigStore.prime|].
  - by destruct (load_post now st) as [(_ & c & -> & _)|[_ ->]].
  - unfold ConfigStore.get. cbn [snd]. case_match; [by apply refresh_keeps|done].
Qed.

Lemma run_ops_cache_ok ops times st :
  cache_ok times st.1 -> cache_ok (reverse (map op_time ops) ++ times) (foldl run_op st ops).1.
Proof.
  revert times st. induction ops as [|op ops IH]; intros times st H; [done|]. cbn [foldl map].
  rewrite reverse_cons, <-app_assoc. apply (IH (op_time op :: times)), run_op_cache_ok, H.
Qed.

Lemma run_ops_keep ops st : is_Some (cs_cached st.1) -> is_Some (cs_cached (foldl run_op st ops).1).
Proof.
  revert st. induction ops as [|op ops IH]; intros st H; [done|]. apply IH, run_op_keeps, H.
Qed.
End spec.

(** ** Properties *)

(** The provenance of the cached value.  After any sequence of [prime] and [get] calls,
    whatever the source answers, the value the store serves was compiled from bytes the
    source returned together with the version the store remembers, and was confirmed at the
    time of one of the calls; and once a value has been served, every later [get] serves one. *)
Theorem config_store_provenance {T S} {Src : ConfigSource S} ttl (compile : Bytes -> result ConfigError T)
    (src : S) m ops ops' now value :
  let st := foldl (run_op ttl compile) (ConfigStore.new src, m) ops in
  let st' := foldl (run_op ttl compile) (ConfigStore.get ttl compile now st).2 ops' in
  (ConfigStore.get ttl compile now st).1 = Some value ->
  (exists c, provenance compile c /\ c_value c = value /\ c_fetched_at c ∈ now :: map op_time ops) /\
  forall now', is_Some (ConfigStore.get ttl compile now' st').1.
Proof.
  intros st st' Hget.
  pose proof (run_ops_cache_ok ttl compile ops [] (ConfigStore.new src, m) I) as Hok.
  apply (run_op_cache_ok ttl compile _ (Get now)) in Hok. fold st in Hok.
  change (run_op ttl compile st (Get now)) with (ConfigStore.get ttl compile now st).2 in Hok.
  change (c_value <$> cs_cached (ConfigStore.get ttl compile now st).2.1 = Some value) in Hget.
  unfold cache_ok in Hok. destruct (cs_cached (ConfigStore.get ttl compile now st).2.1) as [c|] eqn:Hc; [|done].
  injection Hget as <-. destruct Hok as [Hp Ht]. split.
  - exists c. split_and!; [done|done|]. cbn [op_time] in Ht. rewrite app_nil_r, elem_of_cons, elem_of_reverse in Ht.
    by rewrite elem_of_cons.
  - intros now'. change (is_Some (c_value <$> cs_cached (ConfigStore.get ttl compile now' st').2.1)).
    rewrite fmap_is_Some.
    change (is_Some (cs_cached (run_op ttl compile st' (Get now')).1)).
    apply run_op_keeps, run_ops_keep. by rewrite Hc.
Qed.

(** Freshness, or a counted failure.  A [get] inside the time to live touches neither the
    source nor the metrics and serves the cached value; past it, [get] either serves a value
    confirmed at this very call, at no count, or counts exactly one [ConfigLoadErrors] and
    serves what was cached before. *)
Theorem config_store_fresh_or_counted {T S} {Src : ConfigSource S} ttl (compile : Bytes -> result ConfigError T)
    now (st : ConfigStore.St (T := T) (S := S)) :
  let '(r, st') := ConfigStore.get ttl compile now st in
  r = c_value <$> cs_cached st'.1 /\
  ((st' = st /\ exists c, cs_cached st.1 = Some c /\ (now - c_fetched_at c < ttl)%N) \/
   (st'.2 = st.2 /\ exists c, cs_cached st'.1 = Some c /\ c_fetched_at c = now) \/
   (st'.2 = add_config_load_errors 1 st.2 /\ cs_cached st'.1 = cs_cached st.1)).
Proof.
  unfold ConfigStore.get. split; [done|]. destruct (ConfigStore.is_stale ttl now st.1) eqn:Hs.
  - right. destruct (refresh_spec compile now st) as [(H & c & Hc & Ht & _)|H]; [left; eauto|by right].
  - left. split; [done|]. unfold ConfigStore.is_stale in Hs. destruct (cs_cached st.1) as [c|]; [|done].
    exists c. split; [done|]. by apply N.leb_gt.
Qed.

(** ** Witness *)

Definition demo_compile (bytes : Bytes) : result ConfigError nat :=
  if str_is_empty bytes then Err (CfgParse (Lit "empty")) else Ok (String.length bytes).

Lemma config_store_provenance_witness :
  (exists c, provenance (S := StaticConfigSource) demo_compile c /\ c_value c = 3 /\
     c_fetched_at c ∈ [10; 0]%N) /\
  forall now', is_Some (ConfigStore.get 5 demo_compile now'
    (foldl (run_op 5 demo_compile)
       (ConfigStore.get 5 demo_compile 10
          (foldl (run_op 5 demo_compile)
             (ConfigStore.new (StaticConfigSource.new "abc" NoVersion), Metrics_default) [Prime 0])).2
       [Get 11])).1.
Proof.
  apply (config_store_provenance 5 demo_compile (StaticConfigSource.new "abc" NoVersion) Metrics_default
           [Prime 0] [Get 11] 10 3).
  reflexivity.
Defined.
