(* ===== verification/Pipeline.v ===== *)
(** * The pipeline ([core/src/pipeline.rs])

    [Pipeline] wires the decoder, the store, the configuration and the metrics together and
    owns the policy matrix.  The shared state the code reaches through [Arc]s is [Env]
    while objects are processed and [World] around one invocation.  What the code awaits is a
    [Task]; the objects of a batch are tasks run side by side ([run_work]). *)

From S2P Require Import Prelude Model Json Path Regex Rules Reference Index Project Engine.
From S2P Require Import Settings Effects Metrics Ports Task Envelope Buffer Stream Cache.

Definition CANONICAL_META : PutMeta := mkPutMeta "application/x-gzip" "gzip".

Record Work := mkWork {
  wk_item_idx : nat;
  wk_object : ObjectRef;
  wk_dest_bucket : string;
  wk_dest_key : string;
}.

Record BatchOutcome := mkBatchOutcome { failed_ack_ids : list string }.

Inductive ObjectMode : Type := ObBuffer | ObStream.

Inductive BytesInPolicy : Type := Count | AlreadyCounted.

(** [note_hard_error]. *)
Definition note_hard_error (slot : option (nat * CoreError)) (item_idx : nat) (e : CoreError) :
    option (nat * CoreError) :=
  match slot with
  | None => Some (item_idx, e)
  | Some (idx, _) => if item_idx <? idx then Some (item_idx, e) else slot
  end.

(** [Pipeline]: the settings and the compiled key filter; the ports are the classes of the
    section below, their states the world's. *)
Record Pipeline {R : RegexCrate} := mkPipeline {
  p_settings : Settings;
  p_key_filter : KeyFilter;
}.

(** [KeyFilter::compile(..).unwrap_or_else(panic!)] *)
Definition Pipeline_new {R : RegexCrate} (settings : Settings) : result ConfigError Pipeline :=
  f ← KeyFilter_compile (s_source settings); Ok (mkPipeline _ settings f).

Section pipeline.
Context {J : JsonCrate} {SH : ShallowCrate} {R : RegexCrate} {G : GzipCrate}.
Context (p : Pipeline).

Abbreviation behavior := (s_behavior (p_settings p)).
Abbreviation processing_cfg := (s_processing (p_settings p)).
Abbreviation destination := (s_destination (p_settings p)).

Definition key_allowed (key : string) : bool := KeyFilter_allows (p_key_filter p) key.

Definition select_mode (size : option N) : ObjectMode :=
  match mode processing_cfg with
  | PmBuffer => ObBuffer
  | PmStream => ObStream
  | PmAuto =>
      match size with
      | Some sz => if (stream_threshold_bytes processing_cfg <? sz)%N then ObStream else ObBuffer
      | None => ObBuffer
      end
  end.

(** ** Reading an object *)

Definition open_with_missing_policy (bucket key : string) : Task (option Reader) :=
  r ← get_stream bucket key;
  match r with
  | Ok reader => mret (Some reader)
  | Err (NotFound _ _) =>
      match on_missing_object behavior with
      | MoSkip => _ ← count_metric (add_objects_skipped 1); mret None
      | MoError => task_fail (CoreStore (NotFound bucket key))
      end
  | Err e => task_fail (CoreStore e)
  end.

Definition fetch_with_missing_policy (bucket key : string) : Task (option Bytes) :=
  reader ← open_with_missing_policy bucket key;
  match reader with
  | None => mret None
  | Some reader =>
      let limit := max_object_bytes processing_cfg in
      match take_read_to_end (saturating_add_u64 limit 1) reader with
      | Err e => task_fail (CoreStore (Backend (Fmt "reading {bucket}/{key}: {e}" [Lit bucket; Lit key; e])))
      | Ok buf =>
          if (limit <? byte_len buf)%N then task_fail (ObjectTooLarge limit) else mret (Some buf)
      end
  end.

(** ** Copies *)

(** [CountingReader]: the [n] bytes its reads delivered go to its total and, when it
    counts, to [BytesIn].  The reads' increments compose to one ([fetch_add_add]). *)
Definition counting_reader (policy : BytesInPolicy) (n : N) : Task unit :=
  match policy with
  | Count => if (0 <? n)%N then count_metric (add_bytes_in n) else mret tt
  | AlreadyCounted => mret tt
  end.

Definition stream_copy (object : ObjectRef) (dest_bucket dest_key : string)
    (count_bytes_in : BytesInPolicy) : Task bool :=
  reader ← open_with_missing_policy (or_bucket object) (or_key object);
  match reader with
  | None => mret false
  | Some reader =>
      '(uploaded, total) ← put_stream dest_bucket dest_key reader CANONICAL_META;
      _ ← counting_reader count_bytes_in total;
      _ ← task_of_result (map_err CoreStore uploaded);
      _ ← count_metric (add_bytes_out total);
      mret true
  end.

Definition raw_copy (object : ObjectRef) (dest_bucket dest_key : string) : Task unit :=
  copied ← stream_copy object dest_bucket dest_key Count;
  if (copied : bool) then count_metric (add_objects_processed 1) else mret tt.

(** A [put] and its [BytesOut], which counts only bytes that landed. *)
Definition put_counted (dest_bucket dest_key : string) (bytes : Bytes) : Task unit :=
  let out_len := byte_len bytes in
  landed ← put dest_bucket dest_key bytes CANONICAL_META;
  _ ← task_of_result (map_err CoreStore landed);
  count_metric (add_bytes_out out_len).

Definition copies_unparsable (e : CoreError) : bool :=
  match on_parse_error behavior with
  | PeCopy => CoreError.is_unparsable_source e
  | PeError => false
  end.

Definition copy_unparsable (object : ObjectRef) (dest_bucket dest_key : string) (bytes : option Bytes) :
    Task unit :=
  _ ← count_metric (add_objects_copied_unparsed 1);
  if dry_run behavior then count_metric (add_objects_processed 1)
  else
    match bytes with
    | Some bytes =>
        _ ← put_counted dest_bucket dest_key bytes;
        count_metric (add_objects_processed 1)
    | None =>
        copied ← stream_copy object dest_bucket dest_key AlreadyCounted;
        if (copied : bool) then count_metric (add_objects_processed 1) else mret tt
    end.

Definition apply_unrecognized_policy (object : ObjectRef) (dest_bucket dest_key : string)
    (bytes : Bytes) : Task unit :=
  match on_unrecognized_object behavior with
  | UoCopy => put_counted dest_bucket dest_key bytes
  | UoSkip => mret tt
  | UoError => task_fail (UnrecognizedObject (or_bucket object) (or_key object))
  end.

(** ** One object *)

(** [matches!(result, Err(ObjectTooLarge))] with the retry on. *)
Definition retried_via_stream {A} (result : result CoreError A) : bool :=
  match result, on_object_too_large behavior with
  | Err (ObjectTooLarge _), TlStream => true
  | _, _ => false
  end.

Definition process_dry_run (engine : Engine) (object : ObjectRef) : Task unit :=
  fetched ← fetch_with_missing_policy (or_bucket object) (or_key object);
  match fetched with
  | None => mret tt
  | Some bytes =>
      result ← task_call (buffer_run bytes engine processing_cfg);
      _ ← (if retried_via_stream result then mret tt else count_metric (add_bytes_in (byte_len bytes)));
      match result with
      | Err e => if copies_unparsable e then copy_unparsable object "" "" None else task_fail e
      | Ok (outcome, tally) =>
          _ ← match outcome with
              | Unrecognized => count_metric (add_unrecognized_objects 1)
              | _ => mret tt
              end;
          _ ← count_metric (RecordTally.commit tally engine);
          count_metric (add_objects_processed 1)
      end
  end.

(** [for (rule, n) in &snapshot.rule_drops] *)
Definition fold_rule_drops (drops : list (string * N)) (m : Metrics) : Metrics :=
  foldl (fun m d => record_rule_drops d.1 d.2 m) m drops.

Definition process_dry_run_stream (sched : Schedule) (engine : Engine) (object : ObjectRef) : Task unit :=
  reader ← open_with_missing_policy (or_bucket object) (or_key object);
  match reader with
  | None => mret tt
  | Some reader =>
      let '(outcome, scratch, _) :=
        stream_run sched reader engine processing_cfg Metrics_default mkDiscardStore "" "" in
      outcome ← task_call outcome;
      let snapshot := (snapshot_and_reset scratch).1 in
      _ ← count_metric (add_bytes_in (ms_bytes_in snapshot));
      _ ← count_metric (add_records_in (ms_records_in snapshot));
      _ ← count_metric (add_records_kept (ms_records_kept snapshot));
      _ ← count_metric (add_records_dropped (ms_records_dropped snapshot));
      _ ← count_metric (add_parse_errors (ms_parse_errors snapshot));
      _ ← count_metric (fold_rule_drops (ms_rule_drops snapshot));
      match outcome with
      | Err e => if copies_unparsable e then copy_unparsable object "" "" None else task_fail e
      | Ok outcome =>
          _ ← match outcome with
              | Unrecognized => count_metric (add_unrecognized_objects 1)
              | _ => mret tt
              end;
          count_metric (add_objects_processed 1)
      end
  end.

Definition process_buffer (engine : Engine) (object : ObjectRef) (dest_bucket dest_key : string) :
    Task unit :=
  fetched ← fetch_with_missing_policy (or_bucket object) (or_key object);
  match fetched with
  | None => mret tt
  | Some bytes =>
      result ← task_call (buffer_run bytes engine processing_cfg);
      _ ← (if retried_via_stream result then mret tt else count_metric (add_bytes_in (byte_len bytes)));
      match result with
      | Err e =>
          if copies_unparsable e then copy_unparsable object dest_bucket dest_key (Some bytes)
          else task_fail e
      | Ok (outcome, tally) =>
          _ ← match outcome with
              | Written (Some out_bytes) => put_counted dest_bucket dest_key out_bytes
              | NothingKept => mret tt
              | Unrecognized =>
                  _ ← count_metric (add_unrecognized_objects 1);
                  apply_unrecognized_policy object dest_bucket dest_key bytes
              | Written None => task_panic "buffer_run always returns Written(Some(_))"
              end;
          _ ← count_metric (RecordTally.commit tally engine);
          count_metric (add_objects_processed 1)
      end
  end.

Definition process_stream (sched : Schedule) (engine : Engine) (object : ObjectRef)
    (dest_bucket dest_key : string) : Task unit :=
  reader ← open_with_missing_policy (or_bucket object) (or_key object);
  match reader with
  | None => mret tt
  | Some reader =>
      result ← task_try (stream_program sched reader engine processing_cfg dest_bucket dest_key);
      match result with
      | Err e => if copies_unparsable e then copy_unparsable object dest_bucket dest_key None else task_fail e
      | Ok (Written None) | Ok NothingKept => count_metric (add_objects_processed 1)
      | Ok Unrecognized =>
          _ ← count_metric (add_unrecognized_objects 1);
          match on_unrecognized_object behavior with
          | UoCopy =>
              copied ← stream_copy object dest_bucket dest_key AlreadyCounted;
              if (copied : bool) then count_metric (add_objects_processed 1) else mret tt
          | UoSkip => count_metric (add_objects_processed 1)
          | UoError => task_fail (UnrecognizedObject (or_bucket object) (or_key object))
          end
      | Ok (Written (Some _)) => task_panic "stream_run never returns Written(Some(_))"
      end
  end.

Definition process_via_buffer (engine : Engine) (object : ObjectRef) (dest_bucket dest_key : string) :
    Task unit :=
  if dry_run behavior then process_dry_run engine object
  else process_buffer engine object dest_bucket dest_key.

Definition process_via_stream (sched : Schedule) (engine : Engine) (object : ObjectRef)
    (dest_bucket dest_key : string) : Task unit :=
  if dry_run behavior then process_dry_run_stream sched engine object
  else process_stream sched engine object dest_bucket dest_key.

Definition process_object (sched : Schedule) (engine : Engine) (object : ObjectRef)
    (dest_bucket dest_key : string) : Task unit :=
  match select_mode (or_size object) with
  | ObBuffer =>
      result ← task_try (process_via_buffer engine object dest_bucket dest_key);
      if retried_via_stream result then process_via_stream sched engine object dest_bucket dest_key
      else task_of_result result
  | ObStream => process_via_stream sched engine object dest_bucket dest_key
  end.

(** ** The batch *)

(** What the runtime decides about a batch in flight, step by step: which future makes its
    next request, and when the head's result is taken.  When the steps run out the rest runs
    in order, so every interleaving is a list of moves. *)
Inductive Move : Type :=
  | Poll (i : nat)
  | Yield.

(** Those choices, and the schedule of each object's stream mode. *)
Record BatchSchedule := mkBatchSchedule {
  bs_moves : list Move;
  bs_streams : nat -> Schedule;
}.

(** The locals of [handle_inner]. *)
Record Batch := mkBatch {
  b_item_failed : list bool;
  b_work : list Work;
  b_hard_error : option (nat * CoreError);
}.

Definition set_item_failed (item_idx : nat) (b : Batch) : Batch :=
  mkBatch (<[item_idx := true]> (b_item_failed b)) (b_work b) (b_hard_error b).
Definition push_work (w : Work) (b : Batch) : Batch :=
  mkBatch (b_item_failed b) (b_work b ++ [w]) (b_hard_error b).
Definition set_hard_error (item_idx : nat) (e : CoreError) (b : Batch) : Batch :=
  mkBatch (b_item_failed b) (b_work b) (note_hard_error (b_hard_error b) item_idx e).

(** [behavior.partial_batch_failures && item.ack_id.is_some()] *)
Definition isolated (item : SourceItem) : bool :=
  partial_batch_failures behavior && bool_decide (is_Some (si_ack_id item)).

Definition dest_key_of (object : ObjectRef) : string := key_prefix destination +:+ or_key object.

(** The self-trigger guard. *)
Definition is_self_trigger (object : ObjectRef) : bool :=
  let prefix := key_prefix destination in
  let reading_own_output := negb (str_is_empty prefix) && starts_with prefix (or_key object) in
  bool_decide (bucket destination = or_bucket object) &&
  (bool_decide (dest_key_of object = or_key object) || reading_own_output).

(** [for object in &item.objects] of pass 1. *)
Fixpoint classify_objects (item_idx : nat) (objects : list ObjectRef) (b : Batch) : Task Batch :=
  match objects with
  | [] => mret b
  | object :: objects =>
      if negb (key_allowed (or_key object)) then
        _ ← count_metric (add_objects_excluded_by_key 1);
        classify_objects item_idx objects b
      else if is_self_trigger object then
        _ ← count_metric (add_objects_failed 1);
        task_fail (SelfTrigger (bucket destination) (dest_key_of object))
      else
        classify_objects item_idx objects
          (push_work (mkWork item_idx object (bucket destination) (dest_key_of object)) b)
  end.

(** Pass 1. *)
Fixpoint classify_items (item_idx : nat) (items : list SourceItem) (b : Batch) : Task Batch :=
  match items with
  | [] => mret b
  | item :: items =>
      b ← match si_decode_error item with
          | Some msg =>
              _ ← count_metric (add_decode_errors 1);
              mret (if isolated item then set_item_failed item_idx b
                    else set_hard_error item_idx (CoreDecode (InvalidPayload msg)) b)
          | None =>
              _ ← (match si_objects item with
                   | [] => count_metric (add_items_without_objects 1)
                   | _ => mret tt
                   end);
              classify_objects item_idx (si_objects item) b
          end;
      classify_items (item_idx + 1) items b
  end.

Definition process_work (sched : Schedule) (engine : option Engine) (w : Work) : Task unit :=
  match engine with
  | Some engine => process_object sched engine (wk_object w) (wk_dest_bucket w) (wk_dest_key w)
  | None => raw_copy (wk_object w) (wk_dest_bucket w) (wk_dest_key w)
  end.

(** The body of pass 3: one result, adjudicated. *)
Definition adjudicate (items : list SourceItem) (w : Work) (outcome : result CoreError unit) (b : Batch) : Task Batch :=
  match outcome with
  | Ok _ => mret b
  | Err e =>
      _ ← count_metric (add_objects_failed 1);
      match items !! wk_item_idx w with
      | Some item =>
          mret (if isolated item then set_item_failed (wk_item_idx w) b
                else set_hard_error (wk_item_idx w) e b)
      | None => task_panic "index out of bounds"
      end
  end.

(** What is left of the queue, one future after another. *)
Fixpoint finish_work (items : list SourceItem) (in_flight : list (Work * Task unit)) (b : Batch) : Task Batch :=
  match in_flight with
  | [] => mret b
  | (w, t) :: in_flight =>
      outcome ← task_try t;
      b ← adjudicate items w outcome b;
      finish_work items in_flight b
  end.

(** Passes 2 and 3.  [in_flight] holds the futures [buffered] has not yielded yet, in
    submission order; it polls the first [concurrency] of them, in any order, and yields a
    result only at the head.  A panic unwinds through the poll. *)
Fixpoint run_work (moves : list Move) (items : list SourceItem) (in_flight : list (Work * Task unit)) (b : Batch) :
    Task Batch :=
  match moves with
  | [] => finish_work items in_flight b
  | Poll i :: moves =>
      match in_flight !! i with
      | Some (w, t) =>
          if (N.of_nat i <? object_concurrency processing_cfg)%N then
            poll t (fun t => match t with
                             | Ret (Err (Panic msg)) => task_panic msg
                             | _ => run_work moves items (<[i := (w, t)]> in_flight) b
                             end)
          else run_work moves items in_flight b
      | None => run_work moves items in_flight b
      end
  | Yield :: moves =>
      match in_flight with
      | (w, Ret r) :: rest =>
          outcome ← task_try (Ret r);
          b ← adjudicate items w outcome b;
          run_work moves items rest b
      | _ => run_work moves items in_flight b
      end
  end.

(** The futures of pass 2. *)
Definition start_work (scheds : nat -> Schedule) (engine : option Engine) (work : list Work) : list (Work * Task unit) :=
  imap (fun i w => (w, process_work (scheds i) engine w)) work.

(** [items.iter().zip(&item_failed).filter(..).filter_map(..)] *)
Definition collect_failed (items : list SourceItem) (item_failed : list bool) : list string :=
  omap (fun q : SourceItem * bool => if q.2 then si_ack_id q.1 else None) (zip items item_failed).

(** [buffered(0)] polls no future and yields no result, not even that there is none. *)
Definition run_batch (sched : BatchSchedule) (engine : option Engine) (items : list SourceItem) :
    Task BatchOutcome :=
  b ← classify_items 0 items (mkBatch (replicate (length items) false) [] None);
  b ← (if (object_concurrency processing_cfg =? 0)%N then task_never
       else run_work (bs_moves sched) items (start_work (bs_streams sched) engine (b_work b)) b);
  match b_hard_error b with
  | Some (_, e) => task_fail e
  | None => mret (mkBatchOutcome (collect_failed items (b_item_failed b)))
  end.
End pipeline.

(** ** One invocation *)

(** Everything the composition root shares between invocations. *)
Record World {R : RegexCrate} (S C : Type) := mkWorld {
  w_env : Env S;
  w_config : ConfigStore Engine C;
  w_emitted : list MetricSnapshot;
}.
Arguments mkWorld {R S C}.
Arguments w_env {R S C}.
Arguments w_config {R S C}.
Arguments w_emitted {R S C}.

Section handle.
Context {J : JsonCrate} {SH : ShallowCrate} {R : RegexCrate} {G : GzipCrate}.
Context {S : Type} {St : ObjectStore S} {C : Type} {Src : ConfigSource C} {D : EventDecoder}.
Context (ttl : N) (compile : Bytes -> result ConfigError Engine).
Context (p : Pipeline).

Definition on_env {A} (io : Io (Env S) CoreError A) : Io (World S C) CoreError A := fun w =>
  let '(r, env) := io (w_env w) in (r, mkWorld env (w_config w) (w_emitted w)).

(** [self.config.get().await] *)
Definition config_get (now : N) : Io (World S C) CoreError (option Engine) := fun w =>
  let '(engine, (config, m)) :=
    ConfigStore.get ttl compile now (w_config w, e_metrics (w_env w)) in
  (Ok engine, mkWorld (mkEnv (e_store (w_env w)) m) config (w_emitted w)).

Definition handle_inner (sched : BatchSchedule) (now : N) (payload : Bytes) :
    Io (World S C) CoreError BatchOutcome :=
  match decode payload with
  | Err e =>
      _ ← on_env (count_metric (add_decode_errors 1));
      io_fail (CoreDecode e)
  | Ok items =>
      engine ← config_get now;
      match engine, on_config_error (s_behavior (p_settings p)) with
      | None, CeClosed =>
          io_fail (CoreConfig (CfgSource
            (Lit "no compiled ruleset is cached and on_config_error is 'closed'")))
      | _, _ => on_env (run_batch p sched engine items)
      end
  end.

(** [self.metrics.snapshot_and_reset()], then [self.sink.emit(&snapshot)]. *)
Definition emit_snapshot : Io (World S C) CoreError unit := io_modify (fun w =>
  let '(snapshot, m) := snapshot_and_reset (e_metrics (w_env w)) in
  mkWorld (mkEnv (e_store (w_env w)) m) (w_config w) (w_emitted w ++ [snapshot])).

Definition handle (sched : BatchSchedule) (now : N) (payload : Bytes) :
    Io (World S C) CoreError BatchOutcome :=
  result ← io_try (handle_inner sched now payload);
  _ ← emit_snapshot;
  io_of_result result.
End handle.
