(* ===== verification/Interleave.v ===== *)
(** * Interleaving: one future among others

    A run of several programs over one store is a log of requests and answers.  [trail] says
    which logs a program can produce, [replay] which of them a store gives the answers of,
    and [obeys] which requests a program makes at all.  [scripted_run] is the method of the
    later files: what a program did among others, it does alone against the store that reads
    its own answers from a script, and that store keeps [StoreLaws].  So every theorem about
    a task alone is a theorem about the task in any interleaving. *)

From S2P Require Import Prelude Model Json Path Regex Rules Reference Index Project Engine.
From S2P Require Import Effects Metrics Ports Task.

(** ** Logs *)

(** A request with its answer. *)
Inductive Exchange : Type :=
  | EvGetStream (bucket key : string) (x : result StoreError Reader)
  | EvPut (bucket key : string) (body : Bytes) (meta : PutMeta) (x : result StoreError unit)
  | EvPutStream (bucket key : string) (body : Reader) (meta : PutMeta) (x : result StoreError unit * N)
  | EvCount (f : Metrics -> Metrics).

(** [t] makes the request of [e] and goes on as [t']. *)
Definition resume {R} (t : Prog R) (e : Exchange) (t' : Prog R) : Prop :=
  match t, e with
  | OpGetStream b k next, EvGetStream b' k' x => b' = b /\ k' = k /\ t' = next x
  | OpPut b k body meta next, EvPut b' k' body' meta' x =>
      b' = b /\ k' = k /\ body' = body /\ meta' = meta /\ t' = next x
  | OpPutStream b k body meta next, EvPutStream b' k' body' meta' x =>
      b' = b /\ k' = k /\ body' = body /\ meta' = meta /\ t' = next x
  | OpCount f next, EvCount f' => f' = f /\ t' = next
  | _, _ => False
  end.

(** [t] makes the requests of the log, in order, and is left as [t']. *)
Fixpoint trail {R} (t : Prog R) (log : list Exchange) (t' : Prog R) : Prop :=
  match log with
  | [] => t' = t
  | e :: log => exists t1, resume t e t1 /\ trail t1 log t'
  end.

(** The answer of [e] is the store's. *)
Definition happens {S} {St : ObjectStore S} (e : Exchange) (w w' : Env S) : Prop :=
  match e with
  | EvGetStream b k x => store_get_stream b k (e_store w) = (x, e_store w') /\ e_metrics w' = e_metrics w
  | EvPut b k body meta x => store_put b k body meta (e_store w) = (x, e_store w') /\ e_metrics w' = e_metrics w
  | EvPutStream b k body meta x =>
      store_put_stream b k body meta (e_store w) = (x, e_store w') /\ e_metrics w' = e_metrics w
  | EvCount f => w' = mkEnv (e_store w) (f (e_metrics w))
  end.

Fixpoint replay {S} {St : ObjectStore S} (log : list Exchange) (w w' : Env S) : Prop :=
  match log with
  | [] => w' = w
  | e :: log => exists w1, happens e w w1 /\ replay log w1 w'
  end.

(** What the log wrote: the objects, and the counters. *)
Definition put_event (e : Exchange) (M : gmap (string * string) Bytes) : gmap (string * string) Bytes :=
  match e with
  | EvPut b k body _ (Ok _) => <[(b, k) := body]> M
  | EvPutStream b k body _ (Ok _, _) => <[(b, k) := reader_bytes body]> M
  | _ => M
  end.

Definition puts (log : list Exchange) (M : gmap (string * string) Bytes) : gmap (string * string) Bytes :=
  foldl (fun M e => put_event e M) M log.

Definition increments (log : list Exchange) : list (Metrics -> Metrics) :=
  omap (fun e => match e with EvCount f => Some f | _ => None end) log.

Definition counted_by (fs : list (Metrics -> Metrics)) (m : Metrics) : Metrics := foldl (fun m f => f m) m fs.

(** ** What a program may ask for *)

(** An increment: a sequence of calls of the counter methods. *)
Definition increment (f : Metrics -> Metrics) : Prop := exists evs, forall m, f m = apply_events evs m.

(** Every request is a read of [src], a write of [dest] or an increment, whatever the answers
    to those before, and the result satisfies [Q]. *)
Fixpoint obeys {R} (src dest : string * string) (Q : R -> Prop) (t : Prog R) : Prop :=
  match t with
  | Ret r => Q r
  | OpGetStream b k next => (b, k) = src /\ forall x, obeys src dest Q (next x)
  | OpPut b k _ _ next => (b, k) = dest /\ forall x, obeys src dest Q (next x)
  | OpPutStream b k _ _ next => (b, k) = dest /\ forall x, obeys src dest Q (next x)
  | OpCount f next => increment f /\ obeys src dest Q next
  end.

(** Every write is of a key in [D], whatever the answers. *)
Fixpoint writes_in {R} (D : string * string -> Prop) (t : Prog R) : Prop :=
  match t with
  | Ret _ => True
  | OpGetStream _ _ next => forall x, writes_in D (next x)
  | OpPut b k _ _ next => D (b, k) /\ forall x, writes_in D (next x)
  | OpPutStream b k _ _ next => D (b, k) /\ forall x, writes_in D (next x)
  | OpCount _ next => writes_in D next
  end.

(** The same of an event. *)
Definition within (src dest : string * string) (e : Exchange) : Prop :=
  match e with
  | EvGetStream b k _ => (b, k) = src
  | EvPut b k _ _ _ => (b, k) = dest
  | EvPutStream b k _ _ _ => (b, k) = dest
  | EvCount f => increment f
  end.

(** ** Lemmas: programs and logs *)

Lemma trail_app {R} (t t1 t' : Prog R) log log' :
  trail t log t1 -> trail t1 log' t' -> trail t (log ++ log') t'.
Proof.
  revert t. induction log as [|e log IH]; intros t; cbn; [by intros ->|].
  intros (t2 & H & Ht) Ht'. exists t2. split; [done|]. by apply IH.
Qed.

Lemma resume_bind {R R'} (t : Prog R) (k : R -> Prog R') e t1 :
  resume (prog_bind t k) e t1 ->
  (exists r, t = Ret r /\ resume (k r) e t1) \/ exists t2, resume t e t2 /\ t1 = prog_bind t2 k.
Proof.
  destruct t, e; cbn; try done; try (by left; eexists); intros H; right; destruct_and?; subst; eauto 10.
Qed.

Lemma trail_bind {R R'} (t : Prog R) (k : R -> Prog R') log r' :
  trail (prog_bind t k) log (Ret r') ->
  exists r log1 log2, log = log1 ++ log2 /\ trail t log1 (Ret r) /\ trail (k r) log2 (Ret r').
Proof.
  revert t. induction log as [|e log IH]; intros t; cbn.
  - destruct t; cbn; [intros H; by exists r, [], []|done..].
  - intros (t1 & H & Ht). destruct (resume_bind _ _ _ _ H) as [(r & -> & H')|(t2 & H' & ->)].
    + exists r, [], (e :: log). split_and!; [done|done|]. cbn. eauto.
    + destruct (IH _ Ht) as (r & log1 & log2 & -> & H1 & H2). exists r, (e :: log1), log2.
      split_and!; [done| |done]. cbn. eauto.
Qed.

Lemma trail_task_bind {A B} (t : Task A) (k : A -> Task B) log r :
  trail (t ≫= k) log (Ret r) ->
  exists r1 log1 log2, log = log1 ++ log2 /\ trail t log1 (Ret r1) /\
    match r1 with Ok a => trail (k a) log2 (Ret r) | Err x => log2 = [] /\ r = Err x end.
Proof.
  intros (r1 & log1 & log2 & -> & H1 & H2)%trail_bind. exists r1, log1, log2. split_and!; [done|done|].
  destruct r1 as [a|x]; [done|]. destruct log2; cbn in H2; [by injection H2|]. by destruct H2 as (? & ? & _).
Qed.

Lemma trail_try {A} (t : Task A) log r :
  trail (task_try t) log (Ret r) ->
  exists r1, trail t log (Ret r1) /\
    r = match r1 with Ok a => Ok (Ok a) | Err (Fail e) => Ok (Err e) | Err (Panic msg) => Err (Panic msg) end.
Proof.
  intros (r1 & log1 & log2 & -> & H1 & H2)%trail_bind. exists r1.
  assert (log2 = [] /\ r = match r1 with Ok a => Ok (Ok a) | Err (Fail e) => Ok (Err e) | Err (Panic msg) => Err (Panic msg) end)
    as [-> ->]; [|by rewrite app_nil_r].
  destruct r1 as [a|[e|msg]]; (destruct log2; cbn in H2; [by injection H2|by destruct H2 as (? & ? & _)]).
Qed.

Lemma trail_poll {R R'} (t : Prog R) (k : Prog R -> Prog R') log r' :
  trail (poll t k) log (Ret r') ->
  (exists r, t = Ret r /\ trail (k t) log (Ret r')) \/
  exists e log' t', log = e :: log' /\ resume t e t' /\ trail (k t') log' (Ret r').
Proof.
  destruct t as [r|b key next|b key body meta next|b key body meta next|f next], log as [|e log];
    cbn; try done; try (by left; eauto);
    intros (t1 & H & Ht); right; destruct e; try done; destruct_and?; subst; eexists _, _, _; split_and!; eauto; cbn; eauto 10.
Qed.

Lemma trail_ret {R} (r : R) log t' : trail (Ret r) log t' -> log = [] /\ t' = Ret r.
Proof. destruct log; cbn; [done|]. by intros (? & ? & _). Qed.

(** A run leaves a log, and a log determines the run. *)
Lemma run_trail {S} {St : ObjectStore S} {R} (t : Prog R) (w : Env S) :
  exists log, trail t log (Ret (run t w).1) /\ replay log w (run t w).2.
Proof.
  revert w. induction t as [r|b k next IH|b k body meta next IH|b k body meta next IH|f next IH]; intros w; cbn.
  - by exists [].
  - destruct (store_get_stream b k (e_store w)) as [x s] eqn:E.
    destruct (IH x (mkEnv s (e_metrics w))) as (log & H1 & H2).
    exists (EvGetStream b k x :: log). split; [by exists (next x)|]. by exists (mkEnv s (e_metrics w)).
  - destruct (store_put b k body meta (e_store w)) as [x s] eqn:E.
    destruct (IH x (mkEnv s (e_metrics w))) as (log & H1 & H2).
    exists (EvPut b k body meta x :: log). split; [by exists (next x)|]. by exists (mkEnv s (e_metrics w)).
  - destruct (store_put_stream b k body meta (e_store w)) as [x s] eqn:E.
    destruct (IH x (mkEnv s (e_metrics w))) as (log & H1 & H2).
    exists (EvPutStream b k body meta x :: log). split; [by exists (next x)|]. by exists (mkEnv s (e_metrics w)).
  - destruct (IH (mkEnv (e_store w) (f (e_metrics w)))) as (log & H1 & H2).
    exists (EvCount f :: log). split; [by exists next|]. by eexists.
Qed.

Lemma replay_app {S} {St : ObjectStore S} log log' (w w' : Env S) :
  replay (log ++ log') w w' <-> exists w1, replay log w w1 /\ replay log' w1 w'.
Proof.
  revert w. induction log as [|e log IH]; intros w; cbn.
  - split; [eauto|]. by intros (? & -> & ?).
  - split.
    + intros (w1 & He & (w2 & H1 & H2)%IH). eauto.
    + intros (w2 & (w1 & He & H1) & H2). exists w1. split; [done|]. apply IH. eauto.
Qed.

(** *** What a program may ask for *)

Lemma obeys_bind {R R'} src dest (Q : R -> Prop) (Q' : R' -> Prop) (t : Prog R) (k : R -> Prog R') :
  obeys src dest Q t -> (forall r, Q r -> obeys src dest Q' (k r)) -> obeys src dest Q' (prog_bind t k).
Proof.
  intros Ht Hk. induction t; cbn in *; [by apply Hk|..]; destruct Ht; (split; [done|]); auto.
Qed.

Lemma obeys_mono {R} src dest (Q Q' : R -> Prop) (t : Prog R) :
  (forall r, Q r -> Q' r) -> obeys src dest Q t -> obeys src dest Q' t.
Proof. intros HQ. induction t; cbn; [apply HQ|..]; intros []; (split; [done|]); auto. Qed.

Lemma obeys_resume {R} src dest (Q : R -> Prop) (t t' : Prog R) e :
  obeys src dest Q t -> resume t e t' -> within src dest e /\ obeys src dest Q t'.
Proof. destruct t, e; cbn; try done; intros []; intros; destruct_and?; subst; split; auto. Qed.

Lemma obeys_trail {R} src dest (Q : R -> Prop) (t t' : Prog R) log :
  obeys src dest Q t -> trail t log t' -> Forall (within src dest) log /\ obeys src dest Q t'.
Proof.
  revert t. induction log as [|e log IH]; intros t Ht; cbn; [by intros ->|].
  intros (t1 & H & H'). destruct (obeys_resume _ _ _ _ _ _ Ht H) as [H1 H2].
  destruct (IH _ H2 H'). split; [by constructor|done].
Qed.

(** *** Where a program may write *)

Lemma obeys_writes {R} src dest (Q : R -> Prop) (D : string * string -> Prop) (t : Prog R) :
  D dest -> obeys src dest Q t -> writes_in D t.
Proof. intros HD. induction t; cbn; intros Hob; destruct_and?; subst; try split; auto. Qed.

Lemma writes_bind {R R'} D (t : Prog R) (k : R -> Prog R') :
  writes_in D t -> (forall r, writes_in D (k r)) -> writes_in D (prog_bind t k).
Proof. intros Ht Hk. induction t; cbn in *; destruct_and?; try split; auto. Qed.

Lemma writes_poll {R R'} D (t : Prog R) (k : Prog R -> Prog R') :
  writes_in D t -> (forall t', writes_in D t' -> writes_in D (k t')) -> writes_in D (poll t k).
Proof. intros Ht Hk. destruct t; cbn in *; [by apply Hk|..]; destruct_and?; try split; auto. Qed.

(** Everything else in the store is as it was, also when the program panicked. *)
Lemma writes_run {S} {St : ObjectStore S} {Laws : StoreLaws S} {R} D (t : Prog R) (w : Env S) bk :
  writes_in D t -> ~ D bk -> contents (e_store (run t w).2) !! bk = contents (e_store w) !! bk.
Proof.
  intros Ht HD. revert w. induction t as [r|b k next IH|b k body meta next IH|b k body meta next IH|f next IH];
    intros w; cbn in *; [done|..].
  - pose proof (get_stream_contents b k (e_store w)) as Hc. destruct (store_get_stream b k (e_store w)) as [x s].
    rewrite IH by done. cbn in *. by rewrite Hc.
  - pose proof (put_contents b k body meta (e_store w)) as Hc. destruct (store_put b k body meta (e_store w)) as [x s].
    destruct Ht as [Hbk Ht]. rewrite IH by done. cbn in *. rewrite Hc. destruct x; [|done].
    rewrite lookup_insert_ne; [done|congruence].
  - pose proof (put_stream_contents b k body meta (e_store w)) as Hc.
    destruct (store_put_stream b k body meta (e_store w)) as [[x n] s].
    destruct Ht as [Hbk Ht]. rewrite IH by done. cbn in *. rewrite Hc. destruct x; [|done].
    rewrite lookup_insert_ne; [done|congruence].
  - by rewrite IH.
Qed.

Section tasks.
Context (P : Prop) (src dest : string * string).

Abbreviation ok := (obeys src dest (panics_if P)).

Lemma obeys_task_bind {A B} (t : Task A) (k : A -> Task B) : ok t -> (forall a, ok (k a)) -> ok (t ≫= k).
Proof.
  intros Ht Hk. unfold mbind, task_bind. eapply obeys_bind; [exact Ht|].
  intros [a|[e|msg]] Hr; [apply Hk|done|exact Hr].
Qed.

Lemma obeys_ret {A} (a : A) : ok (mret a : Task A).
Proof. done. Qed.

Lemma obeys_fail {A} e : ok (task_fail (A := A) e).
Proof. done. Qed.

Lemma obeys_of_result {A} (r : result CoreError A) : ok (task_of_result r).
Proof. by destruct r. Qed.

Lemma obeys_try {A} (t : Task A) : ok t -> ok (task_try t).
Proof.
  intros Ht. unfold task_try. eapply obeys_bind; [exact Ht|].
  by intros [a|[e|msg]] Hr.
Qed.

Lemma obeys_count f : increment f -> ok (count_metric f).
Proof. by intros Hf. Qed.

Lemma obeys_get : ok (get_stream src.1 src.2).
Proof. split; [by destruct src|done]. Qed.

Lemma obeys_put body meta : ok (put dest.1 dest.2 body meta).
Proof. split; [by destruct dest|done]. Qed.

Lemma obeys_put_stream body meta : ok (put_stream dest.1 dest.2 body meta).
Proof. split; [by destruct dest|done]. Qed.
End tasks.

(** ** Increments *)

Lemma increment_event c n : increment (fetch_add c n).
Proof. by exists [EvAdd c n]. Qed.

Lemma increment_comp f g : increment f -> increment g -> increment (fun m => g (f m)).
Proof.
  intros [evs Hf] [evs' Hg]. exists (evs ++ evs'). intros m. unfold apply_events. rewrite foldl_app.
  rewrite Hg, Hf. done.
Qed.

Lemma increment_id : increment (fun m => m).
Proof. by exists []. Qed.

Lemma increment_commit {R : RegexCrate} t (e : Engine) : increment (RecordTally.commit t e).
Proof. exists (commit_events t e). intros m. apply commit_is_events. Qed.

Lemma increment_proper f m m' : increment f -> m ≡ m' -> f m ≡ f m'.
Proof. intros [evs Hf] H. rewrite !Hf. by apply apply_events_proper. Qed.

Lemma increment_comm f g m : increment f -> increment g -> f (g m) ≡ g (f m).
Proof.
  intros [evs Hf] [evs' Hg]. rewrite !Hf, !Hg.
  unfold apply_events. rewrite <-!foldl_app. apply (apply_events_perm (evs' ++ evs)), Permutation_app_comm.
Qed.

Lemma counted_by_proper fs m m' : Forall increment fs -> m ≡ m' -> counted_by fs m ≡ counted_by fs m'.
Proof.
  intros Hfs. revert m m'. induction Hfs as [|f fs Hf Hfs IH]; intros m m' H; [done|].
  apply IH. by apply increment_proper.
Qed.

(** The order of increments does not matter. *)
Lemma counted_by_perm fs fs' m : Forall increment fs -> fs ≡ₚ fs' -> counted_by fs m ≡ counted_by fs' m.
Proof.
  intros Hfs H. revert m. induction H as [|f fs fs' H IH|f g fs|fs1 fs2 fs3 H1 IH1 H2 IH2]; intros m.
  - done.
  - inversion Hfs; subst. by apply IH.
  - inversion Hfs as [|? ? Hf Hfs']; subst. inversion Hfs' as [|? ? Hg Hfs'']; subst.
    unfold counted_by. cbn [foldl]. apply (counted_by_proper fs); [done|]. by apply increment_comm.
  - rewrite IH1 by done. apply IH2. by rewrite <-H1.
Qed.

Lemma counted_by_app fs fs' m : counted_by (fs ++ fs') m = counted_by fs' (counted_by fs m).
Proof. apply foldl_app. Qed.

Lemma increments_app log log' : increments (log ++ log') = increments log ++ increments log'.
Proof. apply omap_app. Qed.

Lemma increments_within src dest log : Forall (within src dest) log -> Forall increment (increments log).
Proof.
  induction 1 as [|e log He Hlog IH]; [done|]. destruct e; cbn; [done|done|done|]. by constructor.
Qed.

(** ** Lemmas: what a log wrote *)

Lemma puts_app log log' M : puts (log ++ log') M = puts log' (puts log M).
Proof. apply foldl_app. Qed.

(** The last write of a key, if any. *)
Definition last_put (log : list Exchange) (bk : string * string) : option Bytes := puts log ∅ !! bk.

Lemma put_event_lookup e M bk :
  put_event e M !! bk = match put_event e ∅ !! bk with Some body => Some body | None => M !! bk end.
Proof.
  destruct e as [| ? ? ? ? [|]|? ? ? ? [[|] ?]|]; cbn; rewrite ?lookup_empty; try done;
    (destruct (decide (bk = (bucket, key))) as [->|Hne];
       [by rewrite !lookup_insert_eq|by rewrite !lookup_insert_ne, lookup_empty by done]).
Qed.

Lemma puts_lookup log M bk :
  puts log M !! bk = match last_put log bk with Some body => Some body | None => M !! bk end.
Proof.
  unfold last_put. induction log as [|e log IH] using rev_ind; [cbn; by rewrite lookup_empty|].
  rewrite !puts_app. change (puts [e] ?M) with (put_event e M).
  rewrite (put_event_lookup e (puts log M)), (put_event_lookup e (puts log ∅)), IH.
  by destruct (put_event e ∅ !! bk).
Qed.

Lemma last_put_app log log' bk :
  last_put (log ++ log') bk = match last_put log' bk with Some body => Some body | None => last_put log bk end.
Proof. unfold last_put at 1. by rewrite puts_app, puts_lookup. Qed.

Lemma last_put_none log bk : last_put log bk = None <-> Forall (fun e => put_event e ∅ !! bk = None) log.
Proof.
  induction log as [|e log IH] using rev_ind; [done|]. rewrite last_put_app, Forall_app, Forall_singleton, <-IH.
  change (last_put [e] bk) with (put_event e ∅ !! bk). destruct (put_event e ∅ !! bk); naive_solver.
Qed.

Lemma last_put_within src dest log bk :
  Forall (within src dest) log -> bk <> dest -> last_put log bk = None.
Proof.
  intros H Hne. induction log as [|e log IH] using rev_ind; [done|].
  apply Forall_app in H as [H [He _]%Forall_cons]. rewrite last_put_app, (IH H).
  destruct e as [| ? ? ? ? [|]|? ? ? ? [[|] ?]|]; cbn in *; try done; unfold last_put; cbn; subst;
    by rewrite lookup_insert_ne.
Qed.

Section replay.
Context {S : Type} {St : ObjectStore S} {Laws : StoreLaws S}.

Lemma happens_effect e (w w' : Env S) :
  happens e w w' ->
  contents (e_store w') = put_event e (contents (e_store w)) /\
  e_metrics w' = counted_by (increments [e]) (e_metrics w).
Proof.
  destruct e as [b k x|b k body meta x|b k body meta [x n]|f]; cbn.
  - intros [H ->]. split; [|done]. by rewrite <-(get_stream_contents b k (e_store w)), H.
  - intros [H ->]. split; [|done]. pose proof (put_contents b k body meta (e_store w)) as Hc. rewrite H in Hc.
    cbn in Hc. by destruct x.
  - intros [H ->]. split; [|done]. pose proof (put_stream_contents b k body meta (e_store w)) as Hc.
    rewrite H in Hc. cbn in Hc. by destruct x.
  - by intros ->.
Qed.

Lemma replay_effect log (w w' : Env S) :
  replay log w w' ->
  contents (e_store w') = puts log (contents (e_store w)) /\
  e_metrics w' = counted_by (increments log) (e_metrics w).
Proof.
  revert w. induction log as [|e log IH]; intros w; cbn [replay]; [by intros ->|].
  intros (w1 & [H1 H2]%happens_effect & [H3 H4]%IH). split.
  - by rewrite H3, H1.
  - change (e :: log) with ([e] ++ log). rewrite increments_app, counted_by_app. by rewrite H4, H2.
Qed.
End replay.

(** ** The scripted store *)

(** The objects a program sees, and the answers it is going to get.  An answer the laws of
    stores exclude is not given; with [clean], nor is a body that does not read to its end. *)
Record Scripted (clean : bool) := mkScripted {
  sp_objects : gmap (string * string) Bytes;
  sp_script : list Exchange;
}.
Arguments mkScripted {clean}.
Arguments sp_objects {clean}.
Arguments sp_script {clean}.

Definition lawful_read (clean : bool) (M : gmap (string * string) Bytes) (b k : string)
    (x : result StoreError Reader) : bool :=
  match x with
  | Ok reader =>
      match rd_error reader with
      | None => bool_decide (M !! (b, k) = Some (reader_bytes reader))
      | Some _ => negb clean
      end
  | Err (NotFound _ _) => bool_decide (M !! (b, k) = None)
  | Err (Backend _) => true
  end.

Definition lawful_upload (body : Reader) (x : result StoreError unit * N) : bool :=
  let n := byte_len (reader_bytes body) in
  (x.2 <=? n)%N &&
  match x.1, rd_error body with
  | Ok _, None => (x.2 =? n)%N
  | Ok _, Some _ => false
  | Err _, _ => true
  end.

(** The answer of [e] is lawful over the objects [M]. *)
Definition fits (clean : bool) (M : gmap (string * string) Bytes) (e : Exchange) : Prop :=
  match e with
  | EvGetStream b k x => lawful_read clean M b k x = true
  | EvPutStream _ _ body _ x => lawful_upload body x = true
  | _ => True
  end.

Module Scripted.
Section ops.
Context {clean : bool}.

Definition off_script : StoreError := Backend (Lit "off the script").

Definition get (b k : string) (s : Scripted clean) : result StoreError Bytes * Scripted clean := (Err off_script, s).

Definition get_stream (b k : string) (s : Scripted clean) : result StoreError Reader * Scripted clean :=
  match sp_script s with
  | EvGetStream _ _ x :: script =>
      if lawful_read clean (sp_objects s) b k x then (x, mkScripted (sp_objects s) script) else (Err off_script, s)
  | _ => (Err off_script, s)
  end.

Definition put (b k : string) (body : Bytes) (meta : PutMeta) (s : Scripted clean) :
    result StoreError unit * Scripted clean :=
  match sp_script s with
  | EvPut _ _ _ _ x :: script => (x, mkScripted (put_event (EvPut b k body meta x) (sp_objects s)) script)
  | _ => (Err off_script, s)
  end.

Definition put_stream (b k : string) (body : Reader) (meta : PutMeta) (s : Scripted clean) :
    result StoreError unit * N * Scripted clean :=
  match sp_script s with
  | EvPutStream _ _ _ _ x :: script =>
      if lawful_upload body x
      then (x, mkScripted (put_event (EvPutStream b k body meta x) (sp_objects s)) script)
      else (Err off_script, 0%N, s)
  | _ => (Err off_script, 0%N, s)
  end.
End ops.
End Scripted.

(** The increments of a program are not the store's: the script holds requests only. *)
Definition is_request (e : Exchange) : bool := match e with EvCount _ => false | _ => true end.

Definition script_of (log : list Exchange) : list Exchange := filter (fun e => is_request e = true) log.

#[export] Instance scripted_store clean : ObjectStore (Scripted clean) := {|
  store_get := Scripted.get;
  store_get_stream := Scripted.get_stream;
  store_put := Scripted.put;
  store_put_stream := Scripted.put_stream;
|}.

Lemma lawful_upload_spec body x :
  lawful_upload body x = true ->
  (x.2 <= byte_len (reader_bytes body))%N /\
  (x.1 = Ok tt -> rd_error body = None /\ x.2 = byte_len (reader_bytes body)).
Proof.
  unfold lawful_upload. intros [Hn Hx]%andb_true_iff. apply N.leb_le in Hn. split; [done|].
  intros E. rewrite E in Hx. destruct (rd_error body); [done|]. by apply N.eqb_eq in Hx.
Qed.

#[export] Instance scripted_laws clean : StoreLaws (Scripted clean).
Proof.
  refine (Build_StoreLaws _ _ sp_objects _ _ _ _ _ _ _ _);
    cbn [store_get_stream store_put store_put_stream scripted_store];
    unfold Scripted.get_stream, Scripted.put, Scripted.put_stream.
  - intros b k s. destruct (sp_script s) as [|[| | |] script]; try done. by destruct (lawful_read _ _ _ _ _).
  - intros b k s reader. destruct (sp_script s) as [|[b' k' x| | |] script]; try done.
    destruct (lawful_read _ _ _ _ _) eqn:H; cbn; [|done]. intros -> He. cbn in H. rewrite He in H.
    by apply bool_decide_eq_true in H.
  - intros b k s b' k'. destruct (sp_script s) as [|[b'' k'' x| | |] script]; try done.
    destruct (lawful_read _ _ _ _ _) eqn:H; cbn; [|done]. intros ->. cbn in H. by apply bool_decide_eq_true in H.
  - intros b k body meta s. destruct (sp_script s) as [|[| | |] script]; done.
  - intros b k body meta s. destruct (sp_script s) as [|[| |? ? ? ? [x n]|] script]; try done.
    destruct (lawful_upload _ _); [|done]. by destruct x.
  - intros b k body meta s e He. destruct (sp_script s) as [|[| |? ? ? ? [x n]|] script]; try (by eexists).
    destruct (lawful_upload _ _) eqn:H; [|by eexists]. apply lawful_upload_spec in H as [_ H].
    destruct x as [[]|]; [|by eexists]. destruct (H eq_refl). congruence.
  - intros b k body meta s. destruct (sp_script s) as [|[| |? ? ? ? [x n]|] script]; try done.
    destruct (lawful_upload _ _) eqn:H; [|done]. apply lawful_upload_spec in H as [_ H]. cbn. intros E. by apply H.
  - intros b k body meta s. destruct (sp_script s) as [|[| |? ? ? ? [x n]|] script]; try (cbn; lia).
    destruct (lawful_upload _ _) eqn:H; [|cbn; lia]. apply lawful_upload_spec in H as [H _]. done.
Defined.

Lemma scripted_clean b k (s : Scripted true) reader : (store_get_stream b k s).1 = Ok reader -> rd_error reader = None.
Proof.
  cbn. unfold Scripted.get_stream. destruct (sp_script s) as [|[b' k' x| | |] script]; try done.
  destruct (lawful_read _ _ _ _ _) eqn:H; cbn; [|done]. intros ->. cbn in H. by destruct (rd_error reader).
Qed.

(** Alone against its script, a program does what it did among others. *)
Lemma scripted_run {clean R} src dest (Q : R -> Prop) (t : Prog R) log r M m :
  obeys src dest Q t -> src <> dest -> trail t log (Ret r) -> Forall (fits clean M) log ->
  run t (mkEnv (mkScripted (clean := clean) M (script_of log)) m) =
  (r, mkEnv (mkScripted (puts log M) []) (counted_by (increments log) m)).
Proof.
  intros Ht Hne Hlog Hfits.
  assert (forall M', M' !! src = M !! src -> run t (mkEnv (mkScripted (clean := clean) M' (script_of log)) m) =
    (r, mkEnv (mkScripted (puts log M') []) (counted_by (increments log) m))) as H; [|by apply H].
  revert t m Ht Hlog. induction Hfits as [|e log He Hfits IH]; intros t m Ht Hlog M' HM.
  { cbn in Hlog. by subst t. }
  destruct Hlog as (t1 & Hr & Hlog). destruct (obeys_resume _ _ _ _ _ _ Ht Hr) as [Hw Ht1].
  destruct t as [|b k next|b k body meta next|b k body meta next|f next], e; try done; cbn in Hr; destruct_and?; subst.
  - cbn [run store_get_stream scripted_store e_store e_metrics]. unfold Scripted.get_stream.
    change (script_of (?e :: log)) with (e :: script_of log). cbn [sp_script sp_objects].
    assert (lawful_read clean M' b k x = true) as ->.
    { cbn in He. destruct x as [reader|[]]; cbn in *; [destruct (rd_error reader)| |];
        try done; subst src; by rewrite HM. }
    by apply (IH _ _ Ht1 Hlog).
  - apply (IH _ _ Ht1 Hlog). cbn in Hw. subst dest. by destruct x; cbn; rewrite ?lookup_insert_ne.
  - cbn [run store_put_stream scripted_store e_store e_metrics]. unfold Scripted.put_stream.
    change (script_of (?e :: log)) with (e :: script_of log). cbn [sp_script sp_objects].
    cbn in He. rewrite He.
    destruct x as [x n]. apply (IH _ _ Ht1 Hlog). cbn in Hw. subst dest. by destruct x; cbn; rewrite ?lookup_insert_ne.
  - apply (IH _ _ Ht1 Hlog). done.
Qed.

(** What a store answered, as long as no object the programs read is written, fits the objects
    it held at the start. *)
Lemma replay_fits {S} {St : ObjectStore S} {Laws : StoreLaws S} clean (D : list (string * string)) log (w w' : Env S) M :
  replay log w w' ->
  (clean = true -> forall b k (s : S) reader, (store_get_stream b k s).1 = Ok reader -> rd_error reader = None) ->
  Forall (fun e => exists src dest, within src dest e /\ dest ∈ D /\ src ∉ D) log ->
  (forall bk, bk ∉ D -> M !! bk = contents (e_store w) !! bk) ->
  Forall (fits clean M) log.
Proof.
  intros Hr Hclean Hlog. revert w Hr. induction Hlog as [|e log (src & dest & Hw & Hd & Hs) Hlog IH]; intros w Hr HM; [done|].
  destruct Hr as (w1 & He & Hr). constructor.
  - destruct e as [b k x| |b k body meta [x n]|]; cbn in *; try done; destruct He as [He _].
    + subst src. pose proof (get_stream_read b k (e_store w)) as Hread.
      pose proof (get_stream_missing b k (e_store w)) as Hmiss. rewrite He in Hread, Hmiss. cbn in Hread, Hmiss.
      specialize (HM _ Hs). destruct x as [reader|[b' k'|msg]]; cbn; [| |done].
      * destruct (rd_error reader) eqn:E; [|apply bool_decide_eq_true; rewrite HM; by apply Hread].
        destruct clean; [|done]. specialize (Hclean eq_refl b k (e_store w) reader). rewrite He in Hclean.
        by rewrite (Hclean eq_refl) in E.
      * apply bool_decide_eq_true. rewrite HM. by eapply Hmiss.
    + unfold lawful_upload. cbn [fst snd]. pose proof (put_stream_bound b k body meta (e_store w)) as Hb.
      pose proof (put_stream_read b k body meta (e_store w)) as Hn.
      pose proof (put_stream_error b k body meta (e_store w)) as Herr. rewrite He in Hb, Hn, Herr. cbn in *.
      apply andb_true_intro. split; [by apply N.leb_le|]. destruct x as [[]|]; [|done].
      destruct (rd_error body) as [e|]; [by destruct (Herr e eq_refl)|]. apply N.eqb_eq. by apply Hn.
  - apply (IH w1 Hr). intros bk Hbk. rewrite (HM bk Hbk). apply happens_effect in He as [-> _].
    rewrite put_event_lookup. assert (put_event e ∅ !! bk = None) as ->; [|done].
    apply (last_put_within src dest [e]); [by constructor|]. by intros ->.
Qed.
