(* ===== verification/Accounting.v ===== *)
(** * Accounting: what one object's processing does to the counters

    [mdelta n m m'] says how the metrics [m'] differ from [m] when [n] objects reached
    their fate in between (processed or skipped): the batch-level counters are untouched,
    and [RecordsIn - RecordsKept - RecordsDropped] is what it was.  Counters are machine
    words, so both are congruences modulo 2^64. *)

From S2P Require Import Prelude Model Json Path Regex Rules Reference Index Project Engine.
From S2P Require Import Settings Effects Metrics Ports Task Envelope Buffer Stream Cache Pipeline.
Open Scope Z_scope.

(** ** Congruence modulo 2^64 *)

Definition W64 : Z := 18446744073709551616.

Definition cong (a b : Z) : Prop := exists k, a = b + k * W64.

#[export] Instance cong_equivalence : Equivalence cong.
Proof.
  split.
  - intros a. exists 0. lia.
  - intros a b [k ->]. exists (- k). lia.
  - intros a b c [k ->] [j ->]. exists (k + j). lia.
Qed.

#[export] Instance cong_add : Proper (cong ==> cong ==> cong) Z.add.
Proof. intros a a' [k ->] b b' [j ->]. exists (k + j). lia. Qed.

#[export] Instance cong_sub : Proper (cong ==> cong ==> cong) Z.sub.
Proof. intros a a' [k ->] b b' [j ->]. exists (k - j). lia. Qed.

Lemma cong_wrapping a b : cong (Z.of_N (wrapping_add_u64 a b)) (Z.of_N a + Z.of_N b).
Proof.
  unfold cong, wrapping_add_u64, W64, U64_MAX. rewrite N2Z.inj_mod, N2Z.inj_add.
  change (Z.of_N (18446744073709551615 + 1)) with 18446744073709551616.
  exists (- ((Z.of_N a + Z.of_N b) / 18446744073709551616)).
  pose proof (Z.div_mod (Z.of_N a + Z.of_N b) 18446744073709551616). lia.
Qed.

(** Small congruent numbers are equal. *)
Lemma cong_small a b : 0 <= a < W64 -> 0 <= b < W64 -> cong a b -> a = b.
Proof. unfold cong, W64. intros ? ? [k Hk]. nia. Qed.

(** ** The measures *)

Definition counter (m : Metrics) (c : Counter) : Z := Z.of_N (m_counters m c).

(** Objects whose fate is decided without an error. *)
Definition fates (m : Metrics) : Z := counter m ObjectsProcessed + counter m ObjectsSkipped.

(** Records counted in but neither kept nor dropped. *)
Definition imbalance (m : Metrics) : Z :=
  counter m RecordsIn - counter m RecordsKept - counter m RecordsDropped.

(** The counters only the batch moves. *)
Definition batch_level (c : Counter) : bool :=
  match c with
  | ObjectsFailed | ObjectsExcludedByKey | ConfigLoadErrors | DecodeErrors | ItemsWithoutObjects => true
  | _ => false
  end.

Record mdelta (n : Z) (m m' : Metrics) : Prop := {
  md_fates : cong (fates m') (fates m + n);
  md_balance : cong (imbalance m') (imbalance m);
  md_batch c : batch_level c = true -> m_counters m' c = m_counters m c;
}.

Lemma mdelta_refl m : mdelta 0 m m.
Proof. split; [by rewrite Z.add_0_r|done|done]. Qed.

Lemma mdelta_trans a b m1 m2 m3 : mdelta a m1 m2 -> mdelta b m2 m3 -> mdelta (a + b) m1 m3.
Proof.
  intros [F1 B1 C1] [F2 B2 C2]. split.
  - by rewrite F2, F1, Z.add_assoc.
  - by rewrite B2.
  - intros c H. by rewrite C2, C1.
Qed.

Lemma mdelta_step a b m1 m2 m3 : mdelta 0 m1 m2 -> mdelta b m2 m3 -> a = b -> mdelta a m1 m3.
Proof. intros H1 H2 ->. exact (mdelta_trans 0 b _ _ _ H1 H2). Qed.

(** Counters that neither measure reads. *)
Definition neutral (c : Counter) : bool :=
  match c with
  | UnrecognizedObjects | ObjectsCopiedUnparsed | BytesIn | BytesOut | ParseErrors => true
  | _ => false
  end.

Lemma counter_fetch_add c c' n m :
  counter (fetch_add c n m) c' =
  if decide (c' = c) then Z.of_N (wrapping_add_u64 (m_counters m c) n) else counter m c'.
Proof. unfold counter, fetch_add. cbn. by case_decide. Qed.

Lemma mdelta_neutral c n m : neutral c = true -> mdelta 0 m (fetch_add c n m).
Proof.
  intros Hc. split.
  - unfold fates. rewrite !counter_fetch_add, Z.add_0_r. by destruct c.
  - unfold imbalance. rewrite !counter_fetch_add. by destruct c.
  - intros c' Hb. cbn. rewrite decide_False; [done|]. intros ->. by destruct c.
Qed.

(** Evaluate the counters of a sequence of increments. *)
Ltac eval_counters :=
  rewrite ?counter_fetch_add; cbn [m_counters fetch_add];
  repeat first [rewrite decide_True by done | rewrite decide_False by done].

Lemma mdelta_processed m : mdelta 1 m (add_objects_processed 1 m).
Proof.
  split.
  - unfold fates, add_objects_processed. eval_counters. rewrite cong_wrapping. unfold counter. exists 0. lia.
  - unfold imbalance, add_objects_processed. by eval_counters.
  - intros c' Hb. cbn. rewrite decide_False; [done|]. by intros ->.
Qed.

Lemma mdelta_skipped m : mdelta 1 m (add_objects_skipped 1 m).
Proof.
  split.
  - unfold fates, add_objects_skipped. eval_counters. rewrite cong_wrapping. unfold counter. exists 0. lia.
  - unfold imbalance, add_objects_skipped. by eval_counters.
  - intros c' Hb. cbn. rewrite decide_False; [done|]. by intros ->.
Qed.

Lemma mdelta_counters n m m' :
  mdelta n m m' -> forall m'', (forall c, m_counters m'' c = m_counters m' c) -> mdelta n m m''.
Proof.
  intros [F B C] m'' H. split.
  - unfold fates, counter in *. by rewrite !H.
  - unfold imbalance, counter in *. by rewrite !H.
  - intros c Hc. rewrite H. by apply C.
Qed.

(** Three record increments that balance. *)
Lemma mdelta_records i k d m :
  (k + d = i)%N ->
  mdelta 0 m (add_records_dropped d (add_records_kept k (add_records_in i m))).
Proof.
  intros H. split.
  - unfold fates, add_records_dropped, add_records_kept, add_records_in.
    eval_counters. by rewrite Z.add_0_r.
  - unfold imbalance, add_records_dropped, add_records_kept, add_records_in.
    eval_counters. rewrite !cong_wrapping. unfold counter. exists 0. lia.
  - intros c Hc. cbn. by repeat (rewrite decide_False by (by intros ->)).
Qed.

Section commit.
Context {R : RegexCrate}.

Lemma mdelta_commit t (e : Engine) m : (t_kept t <= t_records_in t)%N -> mdelta 0 m (RecordTally.commit t e m).
Proof.
  intros H. unfold RecordTally.commit.
  apply (mdelta_counters _ _ (add_parse_errors (t_parse_errors t)
    (add_records_dropped (t_records_in t - t_kept t) (add_records_kept (t_kept t)
      (add_records_in (t_records_in t) m))))).
  - eapply mdelta_step; [apply mdelta_records|by apply mdelta_neutral|done]. lia.
  - intros c. by rewrite drops_events_counters.
Qed.

(** A tally never keeps more than it counted. *)
Lemma tally_of_le {J : JsonCrate} (e : Engine) rs : (t_kept (tally_of e rs) <= t_records_in (tally_of e rs))%N.
Proof.
  induction rs as [|text rs IH] using rev_ind; [done|]. rewrite tally_of_snoc. unfold tally_record.
  destruct (evaluate_raw e text) as [[|i]|]; cbn; lia.
Qed.
End commit.

Lemma mdelta_bytes_in bs m : mdelta 0 m (apply_events (bytes_in_events bs) m).
Proof.
  revert m. induction bs as [|b bs IH]; intros m; [apply mdelta_refl|].
  eapply mdelta_step; [|apply IH|done]. by apply mdelta_neutral.
Qed.

Lemma mdelta_rule_drops name n m : mdelta 0 m (record_rule_drops name n m).
Proof.
  eapply mdelta_counters; [apply mdelta_refl|]. intros c. unfold record_rule_drops. by case_decide.
Qed.

Lemma mdelta_fold_rule_drops drops m : mdelta 0 m (fold_rule_drops drops m).
Proof.
  unfold fold_rule_drops. revert m. induction drops as [|d drops IH]; intros m; [apply mdelta_refl|].
  eapply mdelta_step; [|apply IH|done]. apply mdelta_rule_drops.
Qed.

(** ** The batch's counters *)

(** Every object of the batch: processed, skipped or failed. *)
Definition totals (m : Metrics) : Z := fates m + counter m ObjectsFailed.

Record bdelta (n : Z) (m m' : Metrics) : Prop := {
  bd_totals : cong (totals m') (totals m + n);
  bd_balance : cong (imbalance m') (imbalance m);
}.

Lemma bdelta_refl m : bdelta 0 m m.
Proof. split; [by rewrite Z.add_0_r|done]. Qed.

Lemma bdelta_trans a b c m1 m2 m3 : bdelta a m1 m2 -> bdelta b m2 m3 -> c = a + b -> bdelta c m1 m3.
Proof. intros [F1 B1] [F2 B2] ->. split; [by rewrite F2, F1, Z.add_assoc|by rewrite B2]. Qed.

Lemma mdelta_bdelta n m m' : mdelta n m m' -> bdelta n m m'.
Proof.
  intros [F B C]. split; [|done]. unfold totals, counter. rewrite (C ObjectsFailed) by done.
  fold (counter m ObjectsFailed). rewrite F. exists 0. lia.
Qed.

(** Counters outside both measures. *)
Lemma bdelta_other c n m :
  c ∈ [ObjectsExcludedByKey; ConfigLoadErrors; DecodeErrors; ItemsWithoutObjects] -> bdelta 0 m (fetch_add c n m).
Proof.
  intros Hc. assert (c <> ObjectsProcessed /\ c <> ObjectsSkipped /\ c <> ObjectsFailed /\ c <> RecordsIn /\
    c <> RecordsKept /\ c <> RecordsDropped) as (? & ? & ? & ? & ? & ?).
  { rewrite !elem_of_cons, elem_of_nil in Hc. naive_solver. }
  split.
  - unfold totals, fates. eval_counters. by rewrite Z.add_0_r.
  - unfold imbalance. by eval_counters.
Qed.

Lemma bdelta_failed m : bdelta 1 m (add_objects_failed 1 m).
Proof.
  split.
  - unfold totals, fates, add_objects_failed. eval_counters. rewrite cong_wrapping. unfold counter.
    exists 0. lia.
  - unfold imbalance, add_objects_failed. by eval_counters.
Qed.

Lemma bdelta_equiv n m m1 m2 : m1 ≡ m2 -> bdelta n m m1 -> bdelta n m m2.
Proof.
  intros (_ & Hc & _) [F B]. split; unfold totals, fates, imbalance, counter in *; by rewrite <-!Hc.
Qed.

(** ** Stream mode *)

Section stream.
Context {J : JsonCrate} {SH : ShallowCrate} {R : RegexCrate} {G : GzipCrate} {GL : GzipLaws G}.
Context {S : Type} {St : ObjectStore S} {Laws : StoreLaws S}.

Lemma mdelta_stream_run sched input engine cfg m (s : S) b k :
  mdelta 0 m (stream_run sched input engine cfg m s b k).1.2.
Proof.
  pose proof (stream_run_spec sched input engine cfg m s b k) as H.
  destruct (stream_run sched input engine cfg m s b k) as [[r m'] s']. cbn [fst snd].
  destruct H as (bs & rest & _ & H). destruct r as [[[w|]| |]|[e|msg]].
  - done.
  - destruct H as (_ & rs & gz & _ & _ & _ & _ & ->).
    eapply mdelta_step; [|apply mdelta_commit, tally_of_le|done].
    eapply mdelta_step; [apply mdelta_bytes_in|by apply mdelta_neutral|done].
  - destruct H as (_ & rs & _ & _ & _ & ->).
    eapply mdelta_step; [apply mdelta_bytes_in|apply mdelta_commit, tally_of_le|done].
  - destruct H as (_ & rs & _ & _ & ->).
    eapply mdelta_step; [apply mdelta_bytes_in|by apply mdelta_commit|done].
  - destruct H as (_ & ->). apply mdelta_bytes_in.
  - destruct H as (_ & _ & ->). apply mdelta_bytes_in.
Qed.

(** What a run leaves in the store: nothing changes, or the destination holds one object
    and the verdict is [Written]. *)
Lemma stream_run_contents sched input engine cfg m (s : S) b k :
  let '(r, _, s') := stream_run sched input engine cfg m s b k in
  (contents s' = contents s \/ r = Ok (Written None) /\ exists gz, contents s' = <[(b, k) := gz]> (contents s)) /\
  (forall w, r <> Ok (Written (Some w))).
Proof.
  pose proof (stream_run_spec sched input engine cfg m s b k) as H.
  destruct (stream_run sched input engine cfg m s b k) as [[r m'] s'].
  destruct H as (bs & rest & _ & H). destruct r as [[[w|]| |]|[e|msg]]; [done|..].
  - destruct H as (_ & rs & gz & _ & _ & _ & H & _). split; [right; eauto|done].
  - destruct H as (_ & rs & _ & _ & H & _). split; [by left|done].
  - destruct H as (_ & rs & _ & H & _). split; [by left|done].
  - destruct H as (H & _). split; [by left|done].
  - destruct H as (_ & -> & _). split; [by left|done].
Qed.
End stream.

(** ** The discarding store *)

Section discard.
Context {J : JsonCrate} {SH : ShallowCrate} {R : RegexCrate} {G : GzipCrate} {GL : GzipLaws G}.

(** A store whose [put_stream] accepts every body that ends cleanly. *)
Definition accepts_clean {S} `{ObjectStore S} (b k : string) (s : S) : Prop :=
  forall body meta, rd_error body = None -> (store_put_stream b k body meta s).1.1 = Ok tt.

(** The outcome and the counters of a run do not depend on which such store it uploads to. *)
Lemma stream_run_store_irrelevant {S S'} {St : ObjectStore S} {St' : ObjectStore S'}
    sched input engine cfg m (s : S) (s' : S') b k b' k' :
  accepts_clean b k s -> accepts_clean b' k' s' ->
  (stream_run sched input engine cfg m s b k).1 = (stream_run sched input engine cfg m s' b' k').1.
Proof.
  intros Hs Hs'. unfold stream_run, stream_program.
  destruct (enc_new (gzip_level cfg)) as [encoder|] eqn:Hnew; [|done]. unfold stream_joined_program.
  destruct (sch_panic sched) as [[n e]|]; cbv zeta; run_step.
  { destruct (processing engine encoder (take n _)) as [out r]. run_step.
    by destruct (store_put_stream b k _ _ s) as [[? ?] ?], (store_put_stream b' k' _ _ s') as [[? ?] ?]. }
  pose proof (processing_spec engine _ encoder (extraction input) Hnew) as Hp.
  destruct (processing engine encoder (extraction input)) as [out r]. run_step.
  specialize (Hs (reader_of_msgs out) STREAM_META). specialize (Hs' (reader_of_msgs out) STREAM_META).
  destruct (store_put_stream b k _ _ s) as [[u c] t], (store_put_stream b' k' _ _ s') as [[u' c'] t']. run_step.
  destruct r as [[[[w| |] bytes_out] tally]|e]; [|done..].
  cbn [processing_post] in Hp. destruct Hp as (_ & rs & rest & gz & _ & _ & He & _).
  by rewrite (Hs He), (Hs' He).
Qed.

Lemma discard_accepts b k : accepts_clean b k mkDiscardStore.
Proof. intros body meta He. cbn. unfold DiscardStore.put_stream, read_to_end. by rewrite He. Qed.

Lemma in_memory_accepts b k (s : InMemoryStore) : accepts_clean b k s.
Proof.
  intros body meta He. cbn [store_put_stream in_memory_store]. rewrite in_memory_put_stream. by rewrite He.
Qed.

Lemma discard_run sched input engine cfg m :
  (stream_run sched input engine cfg m mkDiscardStore "" "").1 =
  (stream_run sched input engine cfg m InMemoryStore.new "" "").1.
Proof. apply stream_run_store_irrelevant; [apply discard_accepts|apply in_memory_accepts]. Qed.

Lemma mdelta_discard sched input engine cfg m :
  mdelta 0 m (stream_run sched input engine cfg m mkDiscardStore "" "").1.2.
Proof. rewrite discard_run. apply mdelta_stream_run. Qed.

Lemma discard_not_some sched input engine cfg m w :
  (stream_run sched input engine cfg m mkDiscardStore "" "").1.1 <> Ok (Written (Some w)).
Proof.
  rewrite discard_run. pose proof (stream_run_contents sched input engine cfg m InMemoryStore.new "" "") as H.
  destruct (stream_run _ _ _ _ _ _ _ _) as [[r m'] s']. apply H.
Qed.

(** The fold of the scratch counters: what a balanced scratch adds keeps the balance. *)
Lemma mdelta_fold_scratch (scratch m : Metrics) :
  cong (imbalance scratch) 0 ->
  mdelta 0 m (add_records_dropped (m_counters scratch RecordsDropped)
    (add_records_kept (m_counters scratch RecordsKept) (add_records_in (m_counters scratch RecordsIn) m))).
Proof.
  intros H. split.
  - unfold fates, add_records_dropped, add_records_kept, add_records_in.
    eval_counters. by rewrite Z.add_0_r.
  - unfold imbalance, add_records_dropped, add_records_kept, add_records_in.
    eval_counters. rewrite !cong_wrapping.
    unfold imbalance, counter in *. destruct H as [k Hk]. exists k. lia.
  - intros c Hc. cbn. by repeat (rewrite decide_False by (by intros ->)).
Qed.

Lemma scratch_balanced sched input engine cfg :
  cong (imbalance (stream_run sched input engine cfg Metrics_default mkDiscardStore "" "").1.2) 0.
Proof. apply (md_balance _ _ _ (mdelta_discard sched input engine cfg Metrics_default)). Qed.
End discard.

(** ** Property *)

(** The preview is the live run.  Stream mode's dry run executes the same code against a
    store that discards what it is given: for every input, schedule and ruleset the outcome
    and the counters are those of a run whose destination accepts the upload. *)
Theorem dry_run_preview {J : JsonCrate} {SH : ShallowCrate} {R : RegexCrate} {G : GzipCrate}
    {GL : GzipLaws G} {S} {St : ObjectStore S} sched input engine cfg m (s : S) b k :
  accepts_clean b k s ->
  (stream_run sched input engine cfg m mkDiscardStore "" "").1 =
  (stream_run sched input engine cfg m s b k).1.
Proof. intros H. apply stream_run_store_irrelevant; [apply discard_accepts|done]. Qed.

Lemma dry_run_preview_witness :
  (stream_run (J := demo_json) (SH := demo_shallow) (R := ref_regex) (G := ref_gzip) (mkSchedule 0 None)
     demo_input demo_engine Processing_default Metrics_default mkDiscardStore "" "").1.1 = Ok (Written None).
Proof.
  rewrite (dry_run_preview (GL := ref_gzip_laws) (mkSchedule 0 None) demo_input demo_engine
             Processing_default Metrics_default InMemoryStore.new "siem" "k" (in_memory_accepts _ _ _)).
  vm_compute. reflexivity.
Defined.
