(* ===== verification/Source.v ===== *)
(** * What a source object is, and that both modes read it so

    [source_records], [source_unrecognized] and [source_unparsable] classify the bytes of
    an object; [delivers] is the policy matrix over them.  The lemmas show that the verdicts
    of [buffer_run] and [stream_run] are the classification. *)

From S2P Require Import Prelude Model Json Path Regex Rules Reference Index Project Engine.
From S2P Require Import Settings Effects Metrics Ports Task Envelope Buffer Stream Accounting.

(** ** What a source object is *)

Section source.
Context {J : JsonCrate} {SH : ShallowCrate} {R : RegexCrate} {G : GzipCrate}.

(** The records of an object, as either mode reads its envelope. *)
Definition source_records (src : Bytes) (rs : list string) : Prop :=
  exists body, gunzip src = (body, None) /\
    (parse_envelope (parse_shallow body None) = Some rs \/
     visit_envelope (parse_shallow body None) = (rs, Ok true)).

(** A document without one [Records] array. *)
Definition source_unrecognized (src : Bytes) : Prop :=
  exists body sent, gunzip src = (body, None) /\
    (parse_envelope (parse_shallow body None) = None \/ is_seq (parse_shallow body None) = true) /\
    visit_envelope (parse_shallow body None) = (sent, Ok false).

(** Bytes that are not gzip, or not JSON. *)
Definition source_unparsable (src : Bytes) : Prop :=
  (gunzip src).2 <> None \/
  exists body, gunzip src = (body, None) /\
    (parse_envelope (parse_shallow body None) = None /\ is_ok (json_from_str body) = false \/
     is_ok (visit_envelope (parse_shallow body None)).2 = false).

(** The policy matrix: the bytes that belong at the destination of an object, [None] for
    none. *)
Inductive delivers (b : Behavior) (engine : Engine) (src : Bytes) : option Bytes -> Prop :=
  | Dv_filtered rs gz :
      source_records src rs -> kept engine rs <> [] ->
      gunzip gz = (envelope_body (kept engine rs), None) -> delivers b engine src (Some gz)
  | Dv_nothing_kept rs :
      source_records src rs -> kept engine rs = [] -> delivers b engine src None
  | Dv_unrecognized_copy :
      source_unrecognized src -> on_unrecognized_object b = UoCopy -> delivers b engine src (Some src)
  | Dv_unrecognized_skip :
      source_unrecognized src -> on_unrecognized_object b = UoSkip -> delivers b engine src None
  | Dv_unparsable_copy :
      source_unparsable src -> on_parse_error b = PeCopy -> delivers b engine src (Some src).

(** ** Buffer mode reads a source as classified *)

Context {GL : GzipLaws G} {SL : ShallowLaws J SH}.

Lemma seq_visit_false s sent found : is_seq s = true -> visit_envelope s = (sent, Ok found) -> found = false.
Proof.
  destruct s as [[strict|items rest|fields rest] fin]; [done| |done]. intros _.
  unfold visit_envelope, envelope_visitor. cbn [sh_top sh_end].
  destruct (check_all shape_lax items) as [[]|], rest, fin; cbn; congruence.
Qed.

(** A clean document without one [Records] array is unrecognized. *)
Lemma clean_unrecognized body d :
  json_from_str body = Ok d -> parse_envelope (parse_shallow body None) = None ->
  exists sent, visit_envelope (parse_shallow body None) = (sent, Ok false).
Proof.
  intros Hd Hp. destruct (visit_envelope_clean _ (clean_of_value body d Hd)) as (sent & found & Hv).
  exists sent. rewrite Hv. destruct found; [|done]. exfalso.
  destruct (is_seq (parse_shallow body None)) eqn:Hs.
  - by apply (seq_visit_false _ _ _ Hs) in Hv.
  - by apply parse_envelope_visit in Hv; [congruence|].
Qed.

(** What the verdict of [buffer_run] says of the source. *)
Definition buffer_verdict (engine : Engine) (cfg : Processing) (src : Bytes)
    (r : result (Exit CoreError) (Outcome * RecordTally)) : Prop :=
  match r with
  | Ok (Written (Some gz), _) => exists rs, source_records src rs /\ kept engine rs <> [] /\
      gunzip gz = (envelope_body (kept engine rs), None)
  | Ok (Written None, _) => False
  | Ok (NothingKept, _) => exists rs, source_records src rs /\ kept engine rs = []
  | Ok (Unrecognized, _) => source_unrecognized src
  | Err (Fail e) => CoreError.is_unparsable_source e = true -> source_unparsable src
  | Err (Panic _) => no_level cfg
  end.

Lemma buffer_source engine src cfg :
  (byte_len (gunzip src).1 < U64_MAX)%N -> buffer_verdict engine cfg src (buffer_run src engine cfg).
Proof.
  intros Hlen. unfold buffer_run.
  destruct (decompress_capped src (max_object_bytes cfg)) as [body|e] eqn:Hd; cbn [map_err mbind result_bind].
  2:{ cbn. intros He. left. revert Hd. unfold decompress_capped, take_read_to_end, read_to_end.
      destruct (gunzip src) as [out [err|]]; [done|].
      cbn [rd_error fmap option_fmap option_map]. destruct (_ <=? _)%N; cbn; destruct (_ <? _)%N;
        intros [= <-]; done. }
  apply decompress_capped_ok in Hd as [Hg _]; [|done].
  destruct (parse_envelope (parse_shallow body None)) as [rs|] eqn:Hp.
  - assert (source_records src rs) as Hrs by (exists body; auto).
    rewrite buffer_records_empty. fold (kept engine rs).
    destruct (kept engine rs) as [|x xs] eqn:Hk; [by exists rs|].
    pose proof (gzip_chunked_ends (envelope_body (x :: xs)) (gzip_level cfg) (gzip_chunks cfg)) as Hends.
    destruct (gzip_compress_chunked _ _ _) as [gz|[e|msg]] eqn:Hz; cbn [mbind result_bind buffer_verdict].
    + exists rs. rewrite Hk. apply gzip_chunked_roundtrip in Hz. by split_and!.
    + by destruct Hends as [m ->].
    + exact Hends.
  - destruct (json_from_str body) as [d|e] eqn:Hj; cbn [buffer_verdict].
    + destruct (clean_unrecognized body d Hj Hp) as [sent Hv]. exists body, sent. auto.
    + intros _. right. exists body. split; [done|]. left. by rewrite Hj.
Qed.

Lemma buffer_run_panics engine src cfg : panics_if (no_level cfg) (buffer_run src engine cfg).
Proof.
  unfold buffer_run. destruct (decompress_capped _ _) as [body|]; cbn [map_err mbind result_bind]; [|done].
  destruct (parse_envelope _) as [records|]; [|by destruct (json_from_str body)].
  destruct (buffer_records _ _ _) as [tally [|x xs]]; [done|].
  pose proof (gzip_chunked_ends (envelope_body (x :: xs)) (gzip_level cfg) (gzip_chunks cfg)) as H.
  by destruct (gzip_compress_chunked _ _ _) as [|[|]].
Qed.

(** A tally of [buffer_run] counts at least what it keeps. *)
Lemma buffer_run_tally engine src cfg outcome tally :
  buffer_run src engine cfg = Ok (outcome, tally) ->
  (t_kept tally <= t_records_in tally)%N /\ outcome <> Written None.
Proof.
  unfold buffer_run. intros H. apply result_bind_ok in H as (body & _ & H).
  destruct (parse_envelope (parse_shallow body None)) as [rs|].
  - rewrite buffer_records_empty in H. pose proof (tally_of_le engine rs) as Ht.
    destruct (filter _ rs) as [|x xs]; [by injection H as <- <-|].
    apply result_bind_ok in H as (gz & _ & [= <- <-]). done.
  - destruct (json_from_str body); [|done]. by injection H as <- <-.
Qed.

(** ** Stream mode reads a source as classified *)

Lemma processing_errors engine level encoder msgs e :
  enc_new level = Some encoder -> (processing engine encoder msgs).2 = Err e ->
  (exists m, e = CoreInternal m) \/
  exists rs failure rest, msgs = map SRecord rs ++ SFinished (FkError failure) :: rest /\
    e = match failure with
        | PfGzip msg => CoreGzip (Lit msg)
        | PfJson msg => CoreJson (Lit msg)
        | PfTransport msg => CoreStore (Backend (Fmt "reading source object: {msg}" [msg]))
        end.
Proof.
  intros Hnew. unfold processing.
  destruct (enc_write ENVELOPE_OPEN encoder) as [opened|e'] eqn:Ew; cbn [snd]; [|intros [= <-]; eauto].
  pose proof (process_loop_inv engine msgs [] _ (processing_start engine level encoder opened Hnew Ew)) as H.
  destruct (process_loop engine msgs _) as [[p kind]|[out e']] eqn:El; cbn [snd].
  - destruct H as (rs & rest & Hm & _). destruct kind as [| |f]; cbn [finish_processing].
    + destruct (0 <? _)%N; [|done]. destruct (enc_write ENVELOPE_CLOSE _) as [enc|]; [|cbn; intros [= <-]; eauto].
      destruct (enc_finish enc) as [tail|]; [|cbn; intros [= <-]; eauto]. by destruct (str_is_empty tail).
    + done.
    + cbn. intros [= <-]. right. by exists rs, f, rest.
  - intros [= <-]. left. by eapply process_loop_internal.
Qed.

Lemma stream_run_panics {S} {St : ObjectStore S} sched input engine cfg m (s : S) b k :
  panics_if (no_level cfg) (stream_run sched input engine cfg m s b k).1.1.
Proof.
  unfold stream_run, stream_program. destruct (enc_new (gzip_level cfg)) as [encoder|] eqn:Hnew; [|by apply enc_new_none].
  unfold stream_joined_program. destruct (sch_panic sched) as [[n why]|]; cbv zeta; run_step;
    destruct (processing engine encoder _) as [out r]; run_step; destruct (store_put_stream b k _ _ s) as [[u c] s'];
    [done|]. by destruct r as [[[[] ?] ?]|], u.
Qed.

(** What the extraction of a body that reads to its end says of it. *)
Lemma extraction_source input rs kind :
  rd_error input = None -> extraction input = map SRecord rs ++ [SFinished kind] ->
  match kind with
  | RecordsFound => source_records (reader_bytes input) rs
  | FkUnrecognized => source_unrecognized (reader_bytes input)
  | FkError _ => source_unparsable (reader_bytes input)
  end.
Proof.
  intros Hr Hx. rewrite extraction_clean in Hx by done.
  destruct (gunzip (reader_bytes input)) as [body tail] eqn:Hg. cbn [fst snd] in Hx.
  destruct tail as [err|].
  { assert (is_ok (visit_envelope (parse_shallow body (Some err))).2 = false) as Hv.
    { pose proof (end_of_input body err) as He. unfold visit_envelope.
      destruct (envelope_visitor _) as [sent parsed]. cbn [snd].
      destruct parsed; cbn; [|done]. by destruct (sh_end _). }
    destruct (visit_envelope _) as [sent [found|e]]; [done|].
    apply finished_inj in Hx as (-> & <- & _). left. by rewrite Hg. }
  destruct (visit_envelope (parse_shallow body None)) as [sent [[|]|e]] eqn:Hv;
    apply finished_inj in Hx as (-> & <- & _).
  - exists body. auto.
  - exists body, rs. split; [done|]. split; [|done].
    destruct (is_seq (parse_shallow body None)) eqn:Hs; [by right|]. left.
    destruct (parse_envelope _) as [rs'|] eqn:Hp; [|done]. apply parse_envelope_visit in Hp; [|done].
    congruence.
  - right. exists body. split; [done|]. right. by rewrite Hv.
Qed.

Context {S : Type} {St : ObjectStore S} {Laws : StoreLaws S}.

(** What the verdict of a run says of the source and of the destination. *)
Definition stream_verdict (engine : Engine) (cfg : Processing) (src : Bytes) (s : S) (b k : string)
    (r : result (Exit CoreError) Outcome) (s' : S) : Prop :=
  match r with
  | Ok (Written None) => exists rs gz, source_records src rs /\ kept engine rs <> [] /\
      gunzip gz = (envelope_body (kept engine rs), None) /\ contents s' = <[(b, k) := gz]> (contents s)
  | Ok (Written (Some _)) => False
  | Ok NothingKept => contents s' = contents s /\ exists rs, source_records src rs /\ kept engine rs = []
  | Ok Unrecognized => contents s' = contents s /\ source_unrecognized src
  | Err (Panic _) => contents s' = contents s /\ no_level cfg
  | Err (Fail e) => contents s' = contents s /\
      (CoreError.is_unparsable_source e = true -> source_unparsable src) /\
      forall limit, e <> ObjectTooLarge limit
  end.

(** The errors of a run: inside, at the upload, or those of the extraction. *)
Lemma stream_run_errors sched input engine cfg m (s : S) b k e :
  (stream_run sched input engine cfg m s b k).1.1 = Err (Fail e) ->
  (exists m, e = CoreInternal m) \/ (exists e', e = CoreStore e') \/
  exists encoder, enc_new (gzip_level cfg) = Some encoder /\ (processing engine encoder (extraction input)).2 = Err e.
Proof.
  unfold stream_run, stream_program. destruct (enc_new (gzip_level cfg)) as [encoder|]; [|done].
  unfold stream_joined_program. destruct (sch_panic sched) as [[n why]|]; cbv zeta; run_step.
  - destruct (processing engine _ _) as [out r]. run_step.
    destruct (store_put_stream b k _ _ s) as [[u c] s']. cbn. intros [= <-]. eauto.
  - destruct (processing engine _ (extraction input)) as [out r] eqn:Hp. run_step.
    destruct (store_put_stream b k _ _ s) as [[u c] s']. run_step.
    destruct r as [[[o n] tally]|e']; cbn; [|intros [= <-]; right; right; exists encoder; by rewrite Hp].
    destruct o; cbn; try done. destruct u; cbn; [done|]. intros [= <-]. eauto.
Qed.

Lemma stream_source sched input engine cfg m (s : S) b k :
  rd_error input = None ->
  let '(r, _, s') := stream_run sched input engine cfg m s b k in
  stream_verdict engine cfg (reader_bytes input) s b k r s'.
Proof.
  intros Hr. pose proof (stream_run_spec sched input engine cfg m s b k) as H.
  pose proof (stream_run_errors sched input engine cfg m s b k) as He.
  destruct (stream_run sched input engine cfg m s b k) as [[r m'] s']. cbn [fst] in He.
  destruct H as (bs & rest & _ & H). destruct r as [[[w|]| |]|[e|msg]]; cbn [stream_verdict].
  - done.
  - destruct H as (_ & rs & gz & Hx & Hk & Hz & Hc & _). exists rs, gz.
    by apply extraction_source in Hx.
  - destruct H as (_ & rs & Hx & Hk & Hc & _). apply extraction_source in Hx; eauto.
  - destruct H as (_ & rs & Hx & Hc & _). by apply extraction_source in Hx.
  - destruct H as (Hc & _). split; [done|].
    destruct (He e eq_refl) as [[msg ->]|[[e' ->]|(encoder & Hnew & Hp)]]; [by split|by split|].
    destruct (processing_errors _ _ _ _ _ Hnew Hp) as [[msg ->]|(rs & f & rest' & Hx & ->)]; [by split|].
    unfold extraction in Hx.
    destruct (extract_records_shape (pump_input (input_bound input) input Metrics_default).1) as (sent & kind & Hs).
    pose proof Hx as Hx'. rewrite Hs in Hx'. apply finished_inj in Hx' as (_ & _ & ->).
    apply extraction_source in Hx; [|done]. split; [done|]. by destruct f.
  - destruct H as (Hnew & -> & _). split; [done|]. by apply enc_new_none.
Qed.

(** No run calls an object too large, whatever the store and the input do. *)
Lemma stream_run_not_too_large sched input engine cfg m (s : S) b k limit :
  (stream_run sched input engine cfg m s b k).1.1 <> Err (Fail (ObjectTooLarge limit)).
Proof.
  intros He%stream_run_errors. destruct He as [[? ?]|[[? ?]|(encoder & Hnew & Hp)]]; [done|done|].
  destruct (processing_errors _ _ _ _ _ Hnew Hp) as [[? ?]|(rs & f & rest & _ & He)]; [done|]. by destruct f.
Qed.
End source.

