(* ===== verification/Footprint.v ===== *)
(** * Footprints: what the task of one object may touch

    Whatever answers it gets, the task of an object reads that object, writes its destination
    and increments counters, and it panics only for a gzip level there is not
    ([process_work_obeys]). *)

From S2P Require Import Prelude Model Json Path Regex Rules Reference Index Project Engine.
From S2P Require Import Settings Effects Metrics Ports Task Envelope Buffer Stream Cache Pipeline.
From S2P Require Import Interleave Accounting Source.

Create HintDb obeys.
#[export] Hint Resolve obeys_ret obeys_fail obeys_of_result obeys_try obeys_count : obeys.
#[export] Hint Resolve increment_event increment_commit increment_id : obeys.
#[export] Hint Extern 1 (increment (_ _)) => apply increment_event : obeys.

Definition work_dest (x : Work) : string * string := (wk_dest_bucket x, wk_dest_key x).
Definition work_source (x : Work) : string * string := (or_bucket (wk_object x), or_key (wk_object x)).

Lemma increment_fold_drops drops : increment (fold_rule_drops drops).
Proof.
  exists (map (fun d => EvRuleDrops d.1 d.2) drops). intros m. unfold fold_rule_drops, apply_events.
  revert m. induction drops as [|d drops IH]; intros m; [done|]. apply IH.
Qed.

Lemma increment_pump n input : increment (fun m => (pump_input n input m).2).
Proof. destruct (pump_input_metrics n input) as (bs & rest & H & _). by exists (bytes_in_events bs). Qed.

#[export] Hint Resolve increment_fold_drops increment_pump : obeys.

Section footprint.
Context {J : JsonCrate} {SH : ShallowCrate} {R : RegexCrate} {G : GzipCrate} {GL : GzipLaws G}.
Context (p : Pipeline).

Abbreviation behavior := (s_behavior (p_settings p)).

(** What awaiting a run gets: no panic but for the level, and no body. *)
Definition ran (cfg : Processing) (r : result (Exit CoreError) Outcome) : Prop :=
  panics_if (no_level cfg) r /\ forall out, r <> Ok (Written (Some out)).

(** The same of what [task_try] makes of it. *)
Definition ran_or_failed (cfg : Processing) (r : result (Exit CoreError) (result CoreError Outcome)) : Prop :=
  panics_if (no_level cfg) r /\ forall out, r <> Ok (Ok (Written (Some out))).

Lemma stream_program_obeys src sched input engine cfg b k :
  obeys src (b, k) (ran cfg) (stream_program sched input engine cfg b k).
Proof.
  unfold stream_program. destruct (enc_new (gzip_level cfg)) as [encoder|] eqn:Hnew.
  2:{ split; [apply increment_pump|]. split; [by apply enc_new_none|done]. }
  unfold stream_joined_program. destruct (sch_panic sched) as [[n e]|]; cbv zeta; (split; [apply increment_pump|]).
  - destruct (processing engine encoder (take n _)) as [out r]. split; [done|]. by intros [u c].
  - pose proof (processing_spec engine _ encoder (extraction input) Hnew) as H.
    destruct (processing engine encoder (extraction input)) as [out r]. cbn [fst snd] in H.
    split; [done|]. intros [u c]. destruct r as [[[o n] tally]|e]; [|done].
    destruct o as [w| |]; [|split; [apply increment_commit|done]..].
    destruct u; [|done]. split; [apply increment_event|]. split; [apply increment_commit|].
    cbn in H. destruct H as [-> _]. done.
Qed.

Section object.
Context (object : ObjectRef) (dest_bucket dest_key : string).

Abbreviation ok := (obeys (or_bucket object, or_key object) (dest_bucket, dest_key) (panics_if (no_level (s_processing (p_settings p))))).

Lemma open_obeys : ok (open_with_missing_policy p (or_bucket object) (or_key object)).
Proof.
  unfold open_with_missing_policy. apply obeys_task_bind; [exact (obeys_get _ (_, _) _)|].
  intros [reader|[b k|m]]; auto with obeys.
  destruct (on_missing_object behavior); [auto with obeys|]. apply obeys_task_bind; auto with obeys.
Qed.

Lemma fetch_obeys : ok (fetch_with_missing_policy p (or_bucket object) (or_key object)).
Proof.
  unfold fetch_with_missing_policy. apply obeys_task_bind; [apply open_obeys|]. intros [reader|]; [|auto with obeys].
  cbv zeta. destruct (take_read_to_end _ _); [|auto with obeys]. destruct (_ <? _)%N; auto with obeys.
Qed.

Lemma stream_copy_obeys policy : ok (stream_copy p object dest_bucket dest_key policy).
Proof.
  unfold stream_copy. apply obeys_task_bind; [apply open_obeys|]. intros [reader|]; [|auto with obeys].
  apply obeys_task_bind; [exact (obeys_put_stream _ _ (_, _) _ _)|]. intros [up n]. apply obeys_task_bind.
  { unfold counting_reader. destruct policy; [destruct (0 <? n)%N|]; auto with obeys. }
  intros _. apply obeys_task_bind; [auto with obeys|]. intros _. apply obeys_task_bind; auto with obeys.
Qed.

Lemma copied_obeys policy :
  ok (copied ← stream_copy p object dest_bucket dest_key policy;
      if (copied : bool) then count_metric (add_objects_processed 1) else mret tt).
Proof. apply obeys_task_bind; [apply stream_copy_obeys|]. intros []; auto with obeys. Qed.

Lemma put_counted_obeys bytes : ok (put_counted dest_bucket dest_key bytes).
Proof.
  unfold put_counted. apply obeys_task_bind; [exact (obeys_put _ _ (_, _) _ _)|]. intros x.
  apply obeys_task_bind; auto with obeys.
Qed.

(** A dry run's copy has no destination, and makes none. *)
Lemma copy_unparsable_obeys b k bytes :
  dry_run behavior = true \/ b = dest_bucket /\ k = dest_key -> ok (copy_unparsable p object b k bytes).
Proof.
  intros Hdest. unfold copy_unparsable. apply obeys_task_bind; [auto with obeys|]. intros _.
  destruct (dry_run behavior); [auto with obeys|]. destruct Hdest as [?|[-> ->]]; [done|].
  destruct bytes as [bytes|]; [|apply copied_obeys]. apply obeys_task_bind; [apply put_counted_obeys|auto with obeys].
Qed.

Lemma unrecognized_obeys bytes : ok (apply_unrecognized_policy p object dest_bucket dest_key bytes).
Proof.
  unfold apply_unrecognized_policy. destruct (on_unrecognized_object behavior); [apply put_counted_obeys|auto with obeys..].
Qed.

Lemma bill_obeys (c : bool) n : ok ((if c then mret tt else count_metric (add_bytes_in n)) : Task unit).
Proof. destruct c; auto with obeys. Qed.

Lemma settle_obeys tally engine :
  ok (_ ← count_metric (RecordTally.commit tally engine); count_metric (add_objects_processed 1)).
Proof. apply obeys_task_bind; auto with obeys. Qed.

Lemma note_unrecognized_obeys outcome :
  ok (match outcome with Unrecognized => count_metric (add_unrecognized_objects 1) | _ => mret tt end : Task unit).
Proof. destruct outcome; auto with obeys. Qed.

Lemma via_buffer_obeys engine : ok (process_via_buffer p engine object dest_bucket dest_key).
Proof.
  unfold process_via_buffer, process_dry_run, process_buffer. destruct (dry_run behavior) eqn:Hdry;
    (apply obeys_task_bind; [apply fetch_obeys|]); (intros [bytes|]; [|auto with obeys]); cbv zeta;
    rewrite task_call_eq; pose proof (buffer_run_panics engine bytes (s_processing (p_settings p))) as Hq;
    destruct (buffer_run bytes engine _) as [[outcome tally]|[e|msg]] eqn:Hrun; try exact Hq;
    (apply obeys_task_bind; [apply bill_obeys|]; intros _).
  - apply obeys_task_bind; [apply note_unrecognized_obeys|]. intros _. apply settle_obeys.
  - destruct (copies_unparsable p e); [apply copy_unparsable_obeys; by left|auto with obeys].
  - apply obeys_task_bind; [|intros _; apply settle_obeys]. destruct outcome as [[out|]| |].
    + apply put_counted_obeys.
    + by apply buffer_run_tally in Hrun as [_ ?].
    + auto with obeys.
    + apply obeys_task_bind; [auto with obeys|]. intros _. apply unrecognized_obeys.
  - destruct (copies_unparsable p e); [apply copy_unparsable_obeys; by right|auto with obeys].
Qed.

Lemma via_stream_obeys sched engine : ok (process_via_stream p sched engine object dest_bucket dest_key).
Proof.
  unfold process_via_stream, process_dry_run_stream, process_stream. destruct (dry_run behavior) eqn:Hdry;
    (apply obeys_task_bind; [apply open_obeys|]); (intros [reader|]; [|auto with obeys]).
  - pose proof (stream_run_panics sched reader engine (s_processing (p_settings p)) Metrics_default mkDiscardStore "" "") as H.
    destruct (stream_run _ _ _ _ _ _ _ _) as [[outcome scratch] ds]. rewrite task_call_eq.
    destruct outcome as [o|[e|msg]]; [| |exact H];
      cbv zeta; do 6 (apply obeys_task_bind; [auto with obeys|]; intros _).
    + apply obeys_task_bind; [apply note_unrecognized_obeys|auto with obeys].
    + destruct (copies_unparsable p e); [apply copy_unparsable_obeys; by left|auto with obeys].
  - unfold mbind, task_bind, task_try. eapply (obeys_bind _ _ (ran_or_failed _)).
    { eapply obeys_bind; [apply stream_program_obeys|]. intros r [Hp Ho].
      destruct r as [o|[e|msg]]; (split; [exact Hp|]); [|done..]. intros out [= ->]. by apply (Ho out). }
    intros [[[[w|]| |]|e]|[e|msg]] [Hp Ho]; [by destruct (Ho w)|auto with obeys|auto with obeys| | |done|exact Hp].
    + apply obeys_task_bind; [auto with obeys|]. intros _.
      destruct (on_unrecognized_object behavior); [apply copied_obeys|auto with obeys..].
    + destruct (copies_unparsable p e); [apply copy_unparsable_obeys; by right|auto with obeys].
Qed.

Lemma process_object_obeys sched engine : ok (process_object p sched engine object dest_bucket dest_key).
Proof.
  unfold process_object. destruct (select_mode p (or_size object)); [|apply via_stream_obeys].
  apply obeys_task_bind; [apply obeys_try, via_buffer_obeys|]. intros result.
  destruct (retried_via_stream p result); [apply via_stream_obeys|auto with obeys].
Qed.
End object.

Lemma process_work_obeys sched engine x :
  obeys (work_source x) (work_dest x) (panics_if (no_level (s_processing (p_settings p)))) (process_work p sched engine x).
Proof.
  destruct engine as [engine|]; [apply process_object_obeys|]. apply copied_obeys.
Qed.
End footprint.
