(* ===== verification/Weave.v ===== *)
(** * Weaves: the log of a batch, task by task

    The log of the futures of a batch is their logs woven together, with the increments of
    the adjudication.  [weave] keeps which request is whose; the lemmas say what the log
    amounts to in terms of the tasks' own logs, whatever the order. *)

From S2P Require Import Prelude Model Json Path Regex Rules Reference Index Project Engine.
From S2P Require Import Settings Effects Metrics Ports Task Envelope Buffer Stream Cache Pipeline.
From S2P Require Import Interleave Accounting Footprint.
Open Scope nat_scope.

(** A log with the number of the future each request belongs to; [None] is pass 3. *)
Abbreviation Tagged := (list (option nat * Exchange)).

Definition events_of (i : nat) (l : Tagged) : list Exchange :=
  omap (fun q => if decide (q.1 = Some i) then Some q.2 else None) l.

Definition own_events (l : Tagged) : list Exchange :=
  omap (fun q => match q.1 with None => Some q.2 | Some _ => None end) l.

(** What pass 3 counts of one result. *)
Definition failure (o : result CoreError unit) : list Exchange :=
  match o with Ok _ => [] | Err _ => [EvCount (add_objects_failed 1)] end.

(** The futures [in_flight], numbered from [n], end with [outs], and their logs are woven into
    [l]. *)
Record weave (n : nat) (in_flight : list (Work * Task unit)) (outs : list (result CoreError unit)) (l : Tagged) :
    Prop := {
  wv_length : length outs = length in_flight;
  wv_trail i w t o : in_flight !! i = Some (w, t) -> outs !! i = Some o ->
    trail t (events_of (n + i) l) (Ret (map_err Fail o));
  wv_range j e : (Some j, e) ∈ l -> n <= j < n + length in_flight;
  wv_own : own_events l = outs ≫= failure;
}.

(** Once the future [j] has made a request, those [c] or more before it have made their last. *)
Definition windowed (c : N) (l : Tagged) : Prop :=
  forall l1 j e l2, l = l1 ++ (Some j, e) :: l2 -> forall i e', (N.of_nat i + c <= N.of_nat j)%N -> (Some i, e') ∉ l2.

(** The future [i] has begun and has not finished, between the two parts of a log. *)
Definition is_in_flight (l1 l2 : Tagged) (i : nat) : Prop := (exists e, (Some i, e) ∈ l1) /\ exists e, (Some i, e) ∈ l2.

(** ** Lemmas: tags *)

Lemma events_of_app i l l' : events_of i (l ++ l') = events_of i l ++ events_of i l'.
Proof. apply omap_app. Qed.

Lemma own_events_app l l' : own_events (l ++ l') = own_events l ++ own_events l'.
Proof. apply omap_app. Qed.

Lemma events_of_same i log : events_of i (map (pair (Some i)) log) = log.
Proof.
  induction log as [|e log IH]; [done|]. unfold events_of in *. cbn. by rewrite decide_True, IH.
Qed.

Lemma events_of_other (tag : option nat) i log : tag <> Some i -> events_of i (map (pair tag) log) = [].
Proof.
  intros H. induction log as [|e log IH]; [done|]. unfold events_of in *. cbn. by rewrite decide_False.
Qed.

Lemma own_events_none log : own_events (map (pair None) log) = log.
Proof. induction log as [|e log IH]; [done|]. unfold own_events in *. cbn. by rewrite IH. Qed.

Lemma own_events_some i log : own_events (map (pair (Some i)) log) = [].
Proof. by induction log as [|e log IH]. Qed.

Lemma events_of_absent i l : (forall e, (Some i, e) ∉ l) -> events_of i l = [].
Proof.
  induction l as [|[tag e] l IH]; intros H; [done|]. unfold events_of in *. cbn.
  rewrite decide_False; [|intros ->; apply (H e); left]. apply IH. intros e' He. apply (H e'). by right.
Qed.

Lemma elem_of_tagged (tag : option nat) j (e : Exchange) log : (Some j, e) ∈ map (pair tag) log -> tag = Some j.
Proof. by intros (? & [= -> ->] & _)%list_elem_of_fmap. Qed.

(** ** Lemmas: building a weave *)

Lemma weave_nil n : weave n [] [] [].
Proof. split; [done|done| |done]. intros j e H. by apply elem_of_nil in H. Qed.

(** One request. *)
Lemma weave_poll n in_flight i w t e t' outs l :
  in_flight !! i = Some (w, t) -> resume t e t' -> weave n (<[i := (w, t')]> in_flight) outs l ->
  weave n in_flight outs ((Some (n + i), e) :: l).
Proof.
  intros Hi Hr [Hlen Htr Hrg Hown]. rewrite length_insert in Hlen, Hrg.
  assert (i < length in_flight) as Hlt by by eapply lookup_lt_Some. split.
  - done.
  - intros j w' t'' o Hj Ho. unfold events_of. cbn. destruct (decide (i = j)) as [->|Hne].
    + rewrite decide_True by done. rewrite Hi in Hj. injection Hj as <- <-.
      exists t'. split; [done|]. eapply Htr; [|done]. by apply list_lookup_insert_eq.
    + rewrite decide_False by (intros [= ?]; lia). eapply Htr; [|done]. by rewrite list_lookup_insert_ne.
  - intros j e' [[= -> ->]|H]%elem_of_cons; [lia|]. by eapply Hrg.
  - done.
Qed.

(** The head is done. *)
Lemma weave_yield n w t in_flight log o outs l :
  trail t log (Ret (map_err Fail o)) -> weave (n + 1) in_flight outs l ->
  weave n ((w, t) :: in_flight) (o :: outs) (map (pair (Some n)) log ++ map (pair None) (failure o) ++ l).
Proof.
  intros Ht [Hlen Htr Hrg Hown]. split.
  - cbn. by rewrite Hlen.
  - intros [|i] w' t' o' Hi Ho; rewrite !events_of_app.
    + injection Hi as <- <-. injection Ho as <-. rewrite Nat.add_0_r, events_of_same, events_of_other by done.
      rewrite events_of_absent, app_nil_r; [done|]. intros e He. apply Hrg in He. lia.
    + rewrite !events_of_other by (try done; intros [= ?]; lia).
      replace (n + S i) with (n + 1 + i) by lia. by eapply Htr.
  - intros j e [H|[H|H]%elem_of_app]%elem_of_app.
    + apply elem_of_tagged in H as [= ->]. cbn. lia.
    + by apply elem_of_tagged in H.
    + apply Hrg in H. cbn. lia.
  - by rewrite !own_events_app, own_events_some, own_events_none, Hown.
Qed.

Lemma weave_log_yield (n : nat) (log : list Exchange) o (l : Tagged) :
  map snd (map (pair (Some n)) log ++ map (pair None) (failure o) ++ l) = log ++ failure o ++ map snd l.
Proof.
  rewrite !map_app, !map_map. cbn. by rewrite !map_id.
Qed.

(** *** The window *)

Lemma windowed_nil c : windowed c [].
Proof. by intros [|? ?] ? ? ?. Qed.

Lemma windowed_poll (c : N) n in_flight outs (l : Tagged) i e :
  (N.of_nat i < c)%N -> weave n in_flight outs l -> windowed c l -> windowed c ((Some (n + i), e) :: l).
Proof.
  intros Hi Hl Hw [|a l1] j e1 l2 Heq i' e' Hle; injection Heq as <- Heq; [|by eapply Hw].
  subst. intros [Hr _]%(wv_range _ _ _ _ Hl). lia.
Qed.

Lemma windowed_yield (c : N) n log o in_flight outs (l : Tagged) :
  (0 < c)%N -> weave (n + 1) in_flight outs l -> windowed c l ->
  windowed c (map (pair (Some n)) log ++ map (pair None) (failure o) ++ l).
Proof.
  intros Hc Hl Hw. assert (windowed c (map (pair None) (failure o) ++ l)) as Hw'.
  { destruct o; [done|]. intros [|a l1] j e1 l2 Heq; [done|]. injection Heq as <- Heq. by eapply Hw. }
  induction log as [|e log IH]; [done|]. intros [|a l1] j e1 l2 Heq i' e' Hle; [|injection Heq as <- Heq; by eapply IH].
  injection Heq as <- <- <-. intros [(? & [= -> _] & _)%list_elem_of_fmap|[(? & [=] & _)%list_elem_of_fmap|Hin]%elem_of_app]%elem_of_app;
    [lia|]. apply (wv_range _ _ _ _ Hl) in Hin. lia.
Qed.

(** At most [c] futures are in flight. *)
Lemma windowed_bound (c : N) l1 l2 is_ :
  windowed c (l1 ++ l2) -> NoDup is_ -> Forall (is_in_flight l1 l2) is_ -> (N.of_nat (length is_) <= c)%N.
Proof.
  intros Hw Hnd His. destruct is_ as [|i0 is_]; [cbn; lia|].
  assert (exists j, j ∈ i0 :: is_ /\ Forall (fun i => i <= j) (i0 :: is_)) as (j & Hj & Hmax).
  { clear. revert i0. induction is_ as [|i1 is_ IH]; intros i0; [exists i0; split; [left|by repeat constructor]|].
    destruct (IH i1) as (j & Hj & Hmax). destruct (decide (i0 <= j)) as [Hle|Hgt].
    - exists j. split; [by right|]. by constructor.
    - exists i0. split; [left|]. constructor; [lia|]. eapply Forall_impl; [exact Hmax|]. cbn. lia. }
  rewrite Forall_forall in His. destruct (His j Hj) as [[e (a & b & ->)%list_elem_of_split] _].
  assert (forall i, i ∈ i0 :: is_ -> (N.of_nat j < N.of_nat i + c)%N) as Hlow.
  { intros i Hi. destruct (N.lt_ge_cases (N.of_nat j) (N.of_nat i + c)) as [|Hge]; [done|].
    destruct (His i Hi) as [_ [e' He']]. destruct (Hw a j e (b ++ l2) ltac:(by rewrite <-app_assoc) i e' Hge).
    apply elem_of_app. by right. }
  assert (i0 :: is_ ⊆ seq (j + 1 - N.to_nat c) (N.to_nat c)) as Hsub.
  { intros i Hi. apply elem_of_seq. specialize (Hlow i Hi). rewrite Forall_forall in Hmax. specialize (Hmax i Hi). lia. }
  pose proof (submseteq_length _ _ (NoDup_submseteq _ _ Hnd Hsub)) as Hlen. rewrite length_seq in Hlen. lia.
Qed.

(** ** Lemmas: what a weave amounts to *)

(** The log is its parts, in some order. *)
Lemma weave_partition n k l :
  (forall j e, (Some j, e) ∈ l -> n <= j < n + k) ->
  map snd l ≡ₚ (seq n k ≫= fun i => events_of i l) ++ own_events l.
Proof.
  induction l as [|[tag e] l IH]; intros H.
  { cbn. rewrite app_nil_r. by induction (seq n k). }
  specialize (IH ltac:(intros j e' He; apply (H j e'); by right)). cbn [map snd]. rewrite IH.
  destruct tag as [j|].
  - destruct (H j e ltac:(left)) as [H1 H2].
    replace (seq n k) with (seq n (j - n) ++ j :: seq (S j) (k - (j - n) - 1)).
    2:{ replace k with ((j - n) + S (k - (j - n) - 1)) at 2 by lia. rewrite seq_app. f_equal.
        replace (n + (j - n)) with j by lia. done. }
    rewrite !bind_app, !bind_cons.
    assert (forall a b, (forall i, i ∈ seq a b -> i <> j) ->
              (seq a b ≫= fun i => events_of i ((Some j, e) :: l)) = (seq a b ≫= fun i => events_of i l)) as Hne.
    { intros a b Hab. apply Forall_bind_ext, Forall_forall. intros i Hi%Hab. unfold events_of. cbn. by rewrite decide_False by congruence. }
    assert (events_of j ((Some j, e) :: l) = e :: events_of j l) as Hj.
    { unfold events_of. cbn. by rewrite decide_True. }
    rewrite !Hne by (intros i [??]%elem_of_seq; lia). rewrite Hj.
    change (own_events ((Some j, e) :: l)) with (own_events l).
    rewrite <-!app_assoc. cbn. by rewrite Permutation_middle.
  - change (own_events ((None, e) :: l)) with (e :: own_events l). rewrite <-Permutation_middle. done.
Qed.

(** ** The tasks of a batch *)

Section batch.
Context {J : JsonCrate} {SH : ShallowCrate} {R : RegexCrate} {G : GzipCrate} {GL : GzipLaws G}.
Context {S : Type} {St : ObjectStore S} {Laws : StoreLaws S}.
Context (p : Pipeline) (scheds : nat -> Schedule) (engine : option Engine) (works : list Work).

(** The objects of the batch are processed side by side from [w] to [w'] and end with [outs]:
    the answers the store gave, in the order it gave them, are those of the tasks, and no more
    than [object_concurrency] of them are in flight. *)
Definition interleaved (w : Env S) (outs : list (result CoreError unit)) (w' : Env S) : Prop :=
  exists l, weave 0 (start_work p scheds engine works) outs l /\ replay (map snd l) w w' /\
    ((0 < object_concurrency (s_processing (p_settings p)))%N -> windowed (object_concurrency (s_processing (p_settings p))) l).

Lemma start_work_lookup i x t :
  start_work p scheds engine works !! i = Some (x, t) <->
  works !! i = Some x /\ t = process_work p (scheds i) engine x.
Proof.
  unfold start_work. rewrite list_lookup_imap. destruct (works !! i); cbn; naive_solver.
Qed.

Lemma start_work_length : length (start_work p scheds engine works) = length works.
Proof. apply length_imap. Qed.

(** No object of the batch is read where another is written. *)
Definition apart : Prop := forall x y, x ∈ works -> y ∈ works -> work_source y <> work_dest x.

Context (outs : list (result CoreError unit)) (l : Tagged).
Context (Hl : weave 0 (start_work p scheds engine works) outs l).

Lemma weave_lookup i x : works !! i = Some x -> exists o, outs !! i = Some o.
Proof.
  intros Hx%lookup_lt_Some. rewrite <-start_work_length, <-(wv_length _ _ _ _ Hl) in Hx.
  apply lookup_lt_is_Some_2 in Hx as [o Ho]. by exists o.
Qed.

Lemma weave_task i x o :
  works !! i = Some x -> outs !! i = Some o ->
  trail (process_work p (scheds i) engine x) (events_of i l) (Ret (map_err Fail o)).
Proof. intros Hx Ho. eapply (wv_trail _ _ _ _ Hl i); [|done]. by apply start_work_lookup. Qed.

(** Its footprint. *)
Lemma weave_task_within i x : works !! i = Some x -> Forall (within (work_source x) (work_dest x)) (events_of i l).
Proof.
  intros Hx. destruct (weave_lookup i x Hx) as [o Ho]. pose proof (weave_task i x o Hx Ho) as Ht.
  by destruct (obeys_trail _ _ _ _ _ _ (process_work_obeys p (scheds i) engine x) Ht).
Qed.

Lemma weave_within :
  apart -> Forall (fun e => exists src dest, within src dest e /\ dest ∈ map work_dest works /\ src ∉ map work_dest works)
    (map snd l).
Proof.
  intros Hsep.
  assert (forall x, x ∈ works -> work_dest x ∈ map work_dest works /\ work_source x ∉ map work_dest works) as Hx.
  { intros x Hx. split; [by apply list_elem_of_fmap_2|]. intros (y & Heq & Hy)%list_elem_of_fmap. by apply (Hsep y x). }
  apply Forall_forall. intros e ([tag e'] & -> & He)%list_elem_of_fmap. cbn [snd]. destruct tag as [j|].
  - destruct (wv_range _ _ _ _ Hl j e' He) as [_ Hj]. rewrite start_work_length in Hj.
    apply lookup_lt_is_Some_2 in Hj as [x Hj]. pose proof (weave_task_within j x Hj) as Hw.
    rewrite Forall_forall in Hw. exists (work_source x), (work_dest x).
    split; [|by apply Hx, list_elem_of_lookup_2 with j]. apply Hw.
    unfold events_of. apply list_elem_of_omap. exists (Some j, e'). split; [done|]. cbn. by rewrite decide_True.
  - assert (e' ∈ own_events l) as Ho by (unfold own_events; apply list_elem_of_omap; by exists (None, e')).
    rewrite (wv_own _ _ _ _ Hl) in Ho. apply list_elem_of_bind in Ho as (o & Ho & Hin).
    apply list_elem_of_lookup in Hin as [i Hi]. apply lookup_lt_Some in Hi.
    rewrite (wv_length _ _ _ _ Hl), start_work_length in Hi. apply lookup_lt_is_Some_2 in Hi as [x Hi%list_elem_of_lookup_2].
    exists (work_source x), (work_dest x). split; [|by apply Hx]. destruct o; cbn in Ho; [by apply elem_of_nil in Ho|].
    apply list_elem_of_singleton in Ho as ->. apply increment_event.
Qed.

(** *** From the replay *)

Context (w w' : Env S) (Hr : replay (map snd l) w w') (Hsep : apart).

(** The objects no task of the batch writes, as they were at the start. *)
Definition view : gmap (string * string) Bytes :=
  filter (fun kv : string * string * Bytes => kv.1 ∉ map work_dest works) (contents (e_store w)).

Lemma view_lookup bk : bk ∉ map work_dest works -> view !! bk = contents (e_store w) !! bk.
Proof.
  intros H. unfold view. destruct (contents (e_store w) !! bk) as [body|] eqn:E.
  - by apply map_lookup_filter_Some.
  - apply map_lookup_filter_None. by left.
Qed.

Lemma view_dest x : x ∈ works -> view !! work_dest x = None.
Proof.
  intros Hx. unfold view. apply map_lookup_filter_None. right. intros body _ H. apply H. exact (list_elem_of_fmap_2 work_dest _ _ Hx).
Qed.

Lemma view_source x : x ∈ works -> view !! work_source x = contents (e_store w) !! work_source x.
Proof.
  intros Hx. apply view_lookup. intros (y & Heq & Hy)%list_elem_of_fmap. by apply (Hsep y x).
Qed.

(** Every task ran as it would alone, against a store that answers what this store answered
    and holds the same source. *)
Lemma weave_private clean i x o m :
  (clean = true -> forall b k (s : S) reader, (store_get_stream b k s).1 = Ok reader -> rd_error reader = None) ->
  works !! i = Some x -> outs !! i = Some o ->
  process_work p (scheds i) engine x (mkEnv (mkScripted (clean := clean) view (script_of (events_of i l))) m) =
  (map_err Fail o, mkEnv (mkScripted (puts (events_of i l) view) []) (counted_by (increments (events_of i l)) m)).
Proof.
  intros Hclean Hx Ho. pose proof (list_elem_of_lookup_2 _ _ _ Hx) as Hin.
  eapply (scripted_run (work_source x) (work_dest x)); [apply process_work_obeys|by apply Hsep|by apply weave_task|].
  pose proof (replay_fits clean (map work_dest works) _ w w' view Hr Hclean (weave_within Hsep) view_lookup) as H.
  rewrite Forall_forall in H. apply Forall_forall. intros e He. apply H.
  unfold events_of in He. apply list_elem_of_omap in He as ([tag e'] & He & Htag). cbn in Htag.
  case_decide; [|done]. injection Htag as <-. by apply (list_elem_of_fmap_2 snd) in He.
Qed.

(** The last write of a key is the last write of a task. *)
Lemma weave_last_put bk body :
  last_put (map snd l) bk = Some body ->
  exists i x, works !! i = Some x /\ work_dest x = bk /\ last_put (events_of i l) bk = Some body.
Proof.
  clear Hr. assert (forall j e, (Some j, e) ∈ l -> exists x, works !! j = Some x) as Hrg.
  { intros j e He%(wv_range _ _ _ _ Hl). rewrite start_work_length in He. by apply lookup_lt_is_Some_2, He. }
  assert (forall e, (None, e) ∈ l -> exists f, e = EvCount f) as Hown.
  { intros e He. assert (e ∈ own_events l) as Ho by (unfold own_events; apply list_elem_of_omap; by exists (None, e)).
    rewrite (wv_own _ _ _ _ Hl) in Ho. apply list_elem_of_bind in Ho as (o & Ho & _).
    destruct o; cbn in Ho; [by apply elem_of_nil in Ho|]. apply list_elem_of_singleton in Ho as ->. by eexists. }
  pose proof weave_task_within as Hw.
  assert (forall i x l', works !! i = Some x -> (exists l'', l = l' ++ l'') -> Forall (within (work_source x) (work_dest x)) (events_of i l')) as Hw'.
  { intros i x l' Hx [l'' ->]. specialize (Hw i x Hx). rewrite events_of_app in Hw. by apply Forall_app in Hw as [? _]. }
  assert (exists l'', l = l ++ l'') as Hpre by (exists []; by rewrite app_nil_r).
  revert Hpre. generalize l at 2 3 4. intros l'.
  induction l' as [|[tag e] l' IH] using rev_ind; intros Hpre; [done|].
  rewrite map_app, last_put_app. cbn [map snd].
  assert (exists l'', l = l' ++ l'') as Hpre'.
  { destruct Hpre as [l'' ->]. exists ([(tag, e)] ++ l''). by rewrite app_assoc. }
  assert ((tag, e) ∈ l) as Hin.
  { destruct Hpre as [l'' ->]. apply elem_of_app. left. apply elem_of_app. right. left. }
  destruct (last_put [e] bk) as [body'|] eqn:E.
  - intros [= ->]. destruct tag as [j|]; [|by destruct (Hown _ Hin) as [f ->]].
    destruct (Hrg _ _ Hin) as [x Hx]. exists j, x. split; [done|].
    pose proof (Hw' j x _ Hx Hpre) as Hin'. rewrite events_of_app in *.
    assert (events_of j [(Some j, e)] = [e]) as Hone by (unfold events_of; cbn; by rewrite decide_True).
    rewrite Hone in *. apply Forall_app in Hin' as [_ Hin']. split.
    + destruct (decide (work_dest x = bk)) as [|Hne]; [done|].
      rewrite (last_put_within _ _ _ bk Hin') in E by congruence. done.
    + by rewrite last_put_app, E.
  - intros Hb. destruct (IH Hpre' Hb) as (i & x & Hx & Hd & H). exists i, x. split; [done|]. split; [done|].
    rewrite events_of_app, last_put_app. destruct (last_put (events_of i [(tag, e)]) bk) as [b'|] eqn:E'; [|done].
    unfold events_of in E'. cbn in E'. case_decide; [congruence|done].
Qed.

Lemma weave_put_none i bk : last_put (map snd l) bk = None -> last_put (events_of i l) bk = None.
Proof.
  rewrite !last_put_none, !Forall_forall. intros H e He. apply H. unfold events_of in He.
  apply list_elem_of_omap in He as ([tag e'] & He & Htag). cbn in Htag. case_decide; [|done]. injection Htag as <-.
  by apply (list_elem_of_fmap_2 snd) in He.
Qed.

(** The counters: those of the tasks, and one failure for each task that failed. *)
Lemma weave_counters :
  e_metrics w' ≡
  counted_by ((seq 0 (length works) ≫= fun i => increments (events_of i l)) ++ increments (outs ≫= failure)) (e_metrics w).
Proof.
  destruct (replay_effect _ _ _ Hr) as [_ ->].
  pose proof (weave_partition 0 (length works) l) as Hp. rewrite (wv_own _ _ _ _ Hl) in Hp.
  assert (map snd l ≡ₚ (seq 0 (length works) ≫= fun i => events_of i l) ++ outs ≫= failure) as Hp'.
  { apply Hp. intros j e He%(wv_range _ _ _ _ Hl). by rewrite start_work_length in He. }
  apply counted_by_perm.
  - pose proof (weave_within Hsep) as Hw. clear -Hw. induction Hw as [|e log (src & dest & He & _) _ IH]; [done|].
    destruct e; cbn; [done|done|done|]. by constructor.
  - unfold increments at 1. rewrite Hp'. rewrite omap_app. apply Permutation_app; [|done].
    clear. induction (seq 0 _) as [|i idxs IH]; [done|]. rewrite !bind_cons. rewrite omap_app. by apply Permutation_app.
Qed.
End batch.
