(* ===== verification/Objects.v ===== *)
(** * One object through the pipeline: the policy matrix

    The specification of [process_object] and of every path below it, against the
    [ObjectStore] interface: what reaches the destination ([delivers]), what the counters
    say ([mdelta]), that an error leaves the destination untouched, and that a path panics
    only for a gzip level there is not. *)

From S2P Require Import Prelude Model Json Path Regex Rules Reference Index Project Engine.
From S2P Require Import Settings Effects Metrics Ports Task Envelope Buffer Stream Cache Pipeline.
From S2P Require Import Accounting Source.

(** ** What one task does *)

Section spec.
Context {J : JsonCrate} {SH : ShallowCrate} {R : RegexCrate} {G : GzipCrate} {GL : GzipLaws G}.
Context {SL : ShallowLaws J SH}.
Context {S : Type} {St : ObjectStore S} {Laws : StoreLaws S}.
Context (p : Pipeline).

Abbreviation behavior := (s_behavior (p_settings p)).
Abbreviation cfg := (s_processing (p_settings p)).

(** The counters: [fate a] objects reached their fate on success, none on an error, and
    nothing panics. *)
Definition counted {A} (fate : A -> Z) (w : Env S) (r : result (Exit CoreError) A) (w' : Env S) : Prop :=
  match r with
  | Ok a => mdelta (fate a) (e_metrics w) (e_metrics w')
  | Err (Fail _) => mdelta 0 (e_metrics w) (e_metrics w')
  | Err (Panic _) => False
  end.

(** A task may also panic, for its gzip level; no object has its fate then. *)
Definition counted_or_panic {A} (fate : A -> Z) (w : Env S) (r : result (Exit CoreError) A) (w' : Env S) : Prop :=
  match r with
  | Err (Panic _) => no_level cfg /\ mdelta 0 (e_metrics w) (e_metrics w')
  | _ => counted fate w r w'
  end.

Definition same_store (w w' : Env S) : Prop := contents (e_store w') = contents (e_store w).

(** The only change is one object at [dest]. *)
Definition put_at (dest : string * string) (body : Bytes) (w w' : Env S) : Prop :=
  contents (e_store w') = <[dest := body]> (contents (e_store w)).

Definition at_most_put (dest : string * string) (w w' : Env S) : Prop :=
  same_store w w' \/ exists body, put_at dest body w w'.

(** Every body the store hands out reads to its end. *)
Definition clean_reads : Prop :=
  forall b k (s : S) reader, (store_get_stream b k s).1 = Ok reader -> rd_error reader = None.

(** The object at a key fits the address space, and so does what it decompresses to. *)
Definition small_object (b k : string) (w : Env S) : Prop :=
  forall src, contents (e_store w) !! (b, k) = Some src ->
    (byte_len src < U64_MAX)%N /\ (byte_len (gunzip src).1 < U64_MAX)%N.

Definition reliable (object : ObjectRef) (w : Env S) : Prop :=
  clean_reads /\ small_object (or_bucket object) (or_key object) w.

(** Missing under [skip] leaves nothing; else the matrix decides. *)
Definition delivered (engine : Engine) (object : ObjectRef) (dest : string * string) (w w' : Env S) : Prop :=
  (same_store w w' /\ contents (e_store w) !! (or_bucket object, or_key object) = None /\
     on_missing_object behavior = MoSkip) \/
  exists src, contents (e_store w) !! (or_bucket object, or_key object) = Some src /\
    (same_store w w' /\ delivers behavior engine src None \/
     exists body, put_at dest body w w' /\ delivers behavior engine src (Some body)).

(** One object: counted once, all or nothing at the destination, and under reliable reads
    what the matrix says. *)
Definition task_post (engine : Engine) (object : ObjectRef) (dest : string * string)
    (w : Env S) (r : result (Exit CoreError) unit) (w' : Env S) : Prop :=
  counted_or_panic (fun _ => 1%Z) w r w' /\
  match r with
  | Ok _ => if dry_run behavior then same_store w w'
            else at_most_put dest w w' /\ (reliable object w -> delivered engine object dest w w')
  | Err _ => same_store w w'
  end.

(** ** Lemmas: the building blocks *)

Lemma open_spec b k w :
  wp (open_with_missing_policy p b k) (fun r w' =>
    counted (fun o => if o is Some _ then 0%Z else 1%Z) w r w' /\ same_store w w' /\
    match r with
    | Ok (Some reader) => (store_get_stream b k (e_store w)).1 = Ok reader
    | Ok None => contents (e_store w) !! (b, k) = None /\ on_missing_object behavior = MoSkip
    | Err (Fail e) => exists e', e = CoreStore e'
    | Err (Panic _) => True
    end) w.
Proof.
  unfold open_with_missing_policy. wp_step. wp_step. unfold same_store.
  pose proof (get_stream_contents b k (e_store w)) as Hc.
  pose proof (get_stream_missing b k (e_store w)) as Hm.
  destruct (store_get_stream b k (e_store w)) as [[reader|e] s]; cbn [fst snd] in *.
  - split_and!; [apply mdelta_refl|done|done].
  - destruct e as [b' k'|m]; [|split_and!; [apply mdelta_refl|done|by eexists]].
    destruct (on_missing_object behavior) eqn:Hp; cbn.
    + split_and!; [apply mdelta_refl|done|by eexists].
    + split; [apply mdelta_skipped|]. split; [done|]. split; [by eapply Hm|done].
Qed.

(** The reads of a copy bill at most [BytesIn]. *)
Lemma counting_reader_spec policy n w :
  wp (counting_reader policy n) (fun (r : result (Exit CoreError) unit) (w' : Env S) =>
    r = Ok tt /\ mdelta 0 (e_metrics w) (e_metrics w') /\ e_store w' = e_store w) w.
Proof.
  unfold counting_reader. destruct policy; [|split_and!; [done|apply mdelta_refl|done]].
  destruct (0 <? n)%N; [|split_and!; [done|apply mdelta_refl|done]]. wp_step.
  split_and!; [done| |done]. by apply mdelta_neutral.
Qed.

Lemma stream_copy_spec object b k policy w :
  wp (stream_copy p object b k policy) (fun r w' =>
    counted (fun copied => if copied : bool then 0%Z else 1%Z) w r w' /\
    match r with
    | Ok true => exists body, put_at (b, k) body w w' /\
        (clean_reads -> contents (e_store w) !! (or_bucket object, or_key object) = Some body)
    | Ok false => same_store w w' /\ contents (e_store w) !! (or_bucket object, or_key object) = None /\
        on_missing_object behavior = MoSkip
    | Err (Fail e) => same_store w w' /\ exists e', e = CoreStore e'
    | Err _ => same_store w w'
    end) w.
Proof.
  unfold stream_copy. wp_step. eapply wp_mono; [|apply open_spec].
  intros [[reader|]|[e|msg]] w1 (Hd & Hs & H); cbn [counted] in Hd; [|by split|by split|done].
  cbv zeta. wp_step. wp_step.
  pose proof (put_stream_contents b k reader CANONICAL_META (e_store w1)) as Hc.
  destruct (store_put_stream b k reader CANONICAL_META (e_store w1)) as [[up n] s] eqn:Hput.
  cbn [fst snd] in *. wp_step.
  eapply wp_mono; [|apply (counting_reader_spec policy n (mkEnv s (e_metrics w1)))].
  intros r w2 (-> & Hd2 & Hs2). cbn [e_metrics e_store] in *. do 2 wp_step.
  pose proof (mdelta_trans 0 0 _ _ _ Hd Hd2) as Hd3. unfold same_store, put_at in *.
  destruct up as [[]|e]; cbn [map_err].
  - do 2 wp_step. wp_step. split.
    + exact (mdelta_step _ _ _ _ _ Hd3 (mdelta_neutral BytesOut n _ eq_refl) eq_refl).
    + exists (reader_bytes reader). cbn [e_store]. rewrite Hs2, Hc, Hs. split; [done|]. intros Hrel.
      eapply get_stream_read; [done|by eapply Hrel].
  - split; [exact Hd3|]. rewrite Hs2, Hc. eauto.
Qed.

Lemma put_counted_spec b k body w :
  wp (put_counted b k body) (fun r w' =>
    counted (fun _ => 0%Z) w r w' /\
    match r with
    | Ok _ => put_at (b, k) body w w'
    | Err (Fail e) => same_store w w' /\ exists e', e = CoreStore e'
    | Err _ => same_store w w'
    end) w.
Proof.
  unfold put_counted. cbv zeta. do 2 wp_step.
  pose proof (put_contents b k body CANONICAL_META (e_store w)) as Hc.
  destruct (store_put b k body CANONICAL_META (e_store w)) as [[[]|e] s]; cbn [fst snd map_err] in *.
  - wp_step. wp_step. split; [by apply mdelta_neutral|done].
  - wp_step. split; [apply mdelta_refl|]. split; [done|eauto].
Qed.

Lemma fetch_spec b k w :
  wp (fetch_with_missing_policy p b k) (fun r w' =>
    counted (fun o => if o is Some _ then 0%Z else 1%Z) w r w' /\ same_store w w' /\
    match r with
    | Ok (Some src) => clean_reads -> small_object b k w ->
        contents (e_store w) !! (b, k) = Some src
    | Ok None => contents (e_store w) !! (b, k) = None /\ on_missing_object behavior = MoSkip
    | Err (Fail e) => (exists e', e = CoreStore e') \/ e = ObjectTooLarge (max_object_bytes cfg)
    | Err (Panic _) => True
    end) w.
Proof.
  unfold fetch_with_missing_policy. wp_step. eapply wp_mono; [|apply open_spec].
  intros [[reader|]|[e|msg]] w1 (Hd & Hs & H); cbn [counted] in Hd; [|by split_and!|split_and!; [done|done|by left]|done].
  cbv zeta. unfold take_read_to_end, read_to_end.
  destruct (N.leb_spec (saturating_add_u64 (max_object_bytes cfg) 1) (byte_len (reader_bytes reader))) as [Hl|Hl].
  - destruct (_ <? _)%N eqn:Hlt; wp_step; (split; [done|]); (split; [done|]); [by right|].
    intros Hrel Hsmall. exfalso.
    destruct (Hsmall _ (get_stream_read _ _ _ _ H (Hrel _ _ _ _ H))) as [Hmax _].
    apply N.ltb_ge in Hlt. rewrite byte_len_take in Hlt. unfold saturating_add_u64 in *. lia.
  - destruct (rd_error reader) as [e|] eqn:He; [wp_step; split_and!; try done; left; eauto|].
    destruct (_ <? _)%N; wp_step; (split; [done|]); (split; [done|]); [by right|].
    intros Hrel _. by eapply get_stream_read.
Qed.

(** ** Lemmas: composing posts *)

Lemma counted_step {A} (fate : A -> Z) w w1 r w' :
  mdelta 0 (e_metrics w) (e_metrics w1) -> counted fate w1 r w' -> counted fate w r w'.
Proof.
  intros H. destruct r as [a|[e|msg]]; cbn; [| |done]; intros H'.
  - exact (mdelta_step _ _ _ _ _ H H' eq_refl).
  - exact (mdelta_step _ _ _ _ _ H H' eq_refl).
Qed.

Lemma counted_or_panic_step {A} (fate : A -> Z) w w1 r w' :
  mdelta 0 (e_metrics w) (e_metrics w1) -> counted_or_panic fate w1 r w' -> counted_or_panic fate w r w'.
Proof.
  intros H. destruct r as [a|[e|msg]]; [by apply counted_step..|].
  intros [Hn H']. split; [done|]. exact (mdelta_step _ _ _ _ _ H H' eq_refl).
Qed.

(** The last step of a task that reached its fate. *)
Lemma processed_counted w w1 :
  mdelta 0 (e_metrics w) (e_metrics w1) ->
  counted (fun _ : unit => 1%Z) w (Ok tt) (mkEnv (e_store w1) (add_objects_processed 1 (e_metrics w1))).
Proof. intros H. exact (mdelta_step _ _ _ _ _ H (mdelta_processed _) eq_refl). Qed.

Lemma task_post_step engine object dest w w1 r w' :
  same_store w w1 -> mdelta 0 (e_metrics w) (e_metrics w1) ->
  task_post engine object dest w1 r w' -> task_post engine object dest w r w'.
Proof.
  intros Hs Hd [Hc Hr]. split; [by eapply counted_or_panic_step|].
  unfold at_most_put, delivered, reliable, small_object, same_store, put_at in *.
  destruct r as [a|e]; [|by rewrite Hr]. destruct (dry_run behavior); [by rewrite Hr|].
  by rewrite <-Hs.
Qed.

Lemma reliable_same object w w' : same_store w w' -> reliable object w' -> reliable object w.
Proof. unfold reliable, small_object, same_store. by intros ->. Qed.

(** A task that failed before it wrote anything. *)
Lemma task_post_fail engine object dest w e :
  task_post engine object dest w (Err (Fail e)) w.
Proof. split; [apply mdelta_refl|done]. Qed.

(** A task that panicked for its level. *)
Lemma task_post_panic engine object dest w msg : no_level cfg -> task_post engine object dest w (Err (Panic msg)) w.
Proof. intros H. split; [split; [done|apply mdelta_refl]|done]. Qed.

(** A copy that found nothing to copy, or copied. *)
Lemma copied_spec engine object b k policy w :
  dry_run behavior = false ->
  (forall src, reliable object w -> contents (e_store w) !! (or_bucket object, or_key object) = Some src ->
     delivers behavior engine src (Some src)) ->
  wp (copied ← stream_copy p object b k policy;
      if (copied : bool) then count_metric (add_objects_processed 1) else mret tt)
    (task_post engine object (b, k) w) w.
Proof.
  intros Hdry Hdel. wp_step. eapply wp_mono; [|apply stream_copy_spec].
  intros [[|]|[e|msg]] w1 [Hd H]; unfold task_post; rewrite ?Hdry; cbn [counted] in Hd; [| |by destruct H|done].
  - destruct H as (body & Hput & Hrel). wp_step. split; [by apply processed_counted|].
    split; [right; by exists body|]. intros Hr. right. exists body. split; [by apply Hrel, Hr|]. right.
    exists body. split; [done|]. apply Hdel; [done|]. apply Hrel, Hr.
  - destruct H as (Hs & Hm & Hp). wp_step. split; [done|]. split; [by left|]. intros _. left. by split_and!.
Qed.

(** ** Lemmas: copy_unparsable *)

Lemma copy_unparsable_spec engine object b k bytes w :
  on_parse_error behavior = PeCopy ->
  (forall src, reliable object w -> contents (e_store w) !! (or_bucket object, or_key object) = Some src ->
     source_unparsable src) ->
  (forall src, bytes = Some src -> reliable object w ->
     contents (e_store w) !! (or_bucket object, or_key object) = Some src) ->
  wp (copy_unparsable p object b k bytes) (task_post engine object (b, k) w) w.
Proof.
  intros Hpol Hsrc Hbytes. unfold copy_unparsable. rewrite wp_count.
  assert (mdelta 0 (e_metrics w) (add_objects_copied_unparsed 1 (e_metrics w))) as Hd
    by by apply mdelta_neutral.
  destruct (dry_run behavior) eqn:Hdry.
  { wp_step. unfold task_post. rewrite Hdry. split; [|done].
    exact (mdelta_step _ _ _ _ _ Hd (mdelta_processed _) eq_refl). }
  set (w1 := mkEnv _ _). destruct bytes as [body|].
  - wp_step. eapply wp_mono; [|apply put_counted_spec].
    intros [[]|[e|msg]] w2 [Hd2 H]; unfold task_post; rewrite ?Hdry; cbn [counted] in Hd2; [| |done].
    + wp_step. split.
      { apply processed_counted. exact (mdelta_step _ _ _ _ _ Hd Hd2 eq_refl). }
      split; [right; by exists body|]. intros Hr. right. exists body. split; [by apply Hbytes|]. right.
      exists body. split; [done|]. apply Dv_unparsable_copy; auto.
    + destruct H as [H _]. split; [exact (mdelta_step _ _ _ _ _ Hd Hd2 eq_refl)|done].
  - eapply wp_mono; [|apply (copied_spec engine); [done|]].
    + intros r w'. by apply task_post_step.
    + intros src Hr Hs. apply Dv_unparsable_copy; auto.
Qed.

(** ** Lemmas: the four paths *)

(** The optional [BytesIn] of a buffered object. *)
Lemma wp_bill (c : bool) n (io : Task unit) engine object dest w :
  (forall w1, same_store w w1 -> mdelta 0 (e_metrics w) (e_metrics w1) ->
     e_store w1 = e_store w -> wp io (task_post engine object dest w1) w1) ->
  wp (_ ← (if c then mret tt else count_metric (add_bytes_in n)); io) (task_post engine object dest w) w.
Proof.
  intros H. destruct c.
  - apply (H w); [done|apply mdelta_refl|done].
  - rewrite wp_count. eapply wp_mono; [|apply H]; [|done|by apply mdelta_neutral|done].
    intros r w'. apply task_post_step; [done|by apply mdelta_neutral].
Qed.

(** After the outcome is settled at the destination: the tally and the fate. *)
Lemma wp_settle (tally : RecordTally) engine w w1 (Q : result (Exit CoreError) unit -> Env S -> Prop) :
  (t_kept tally <= t_records_in tally)%N -> mdelta 0 (e_metrics w) (e_metrics w1) ->
  (forall w', e_store w' = e_store w1 -> counted (fun _ => 1%Z) w (Ok tt) w' -> Q (Ok tt) w') ->
  wp (_ ← count_metric (RecordTally.commit tally engine); count_metric (add_objects_processed 1)) Q w1.
Proof.
  intros Ht Hd HQ. rewrite wp_count. wp_step. apply HQ; [done|].
  cbn [e_store e_metrics]. refine (processed_counted w (mkEnv (e_store w1) _) _).
  exact (mdelta_step _ _ _ _ _ Hd (mdelta_commit _ _ _ Ht) eq_refl).
Qed.

(** The rest of a buffered task, from the state its outcome left. *)
Definition settle (tally : RecordTally) (engine : Engine) : Task unit :=
  _ ← count_metric (RecordTally.commit tally engine); count_metric (add_objects_processed 1).

Section outcome.
Context (engine : Engine) (object : ObjectRef) (b k : string) (bytes : Bytes) (tally : RecordTally).
Context (w : Env S) (Hdry : dry_run behavior = false) (Ht : (t_kept tally <= t_records_in tally)%N).
Context (Hsrc : reliable object w -> contents (e_store w) !! (or_bucket object, or_key object) = Some bytes).

Lemma settle_put body w1 :
  put_at (b, k) body w w1 -> mdelta 0 (e_metrics w) (e_metrics w1) ->
  (reliable object w -> delivers behavior engine bytes (Some body)) ->
  wp (settle tally engine) (task_post engine object (b, k) w) w1.
Proof.
  intros Hp Hd Hv. eapply wp_settle; [done|done|]. intros w' Hs Hc. split; [done|].
  rewrite Hdry. unfold at_most_put, delivered, same_store, put_at in *. rewrite Hs. split; [eauto|].
  intros Hr. right. exists bytes. split; [by apply Hsrc|]. right. exists body. auto.
Qed.

Lemma settle_none w1 :
  same_store w w1 -> mdelta 0 (e_metrics w) (e_metrics w1) ->
  (reliable object w -> delivers behavior engine bytes None) ->
  wp (settle tally engine) (task_post engine object (b, k) w) w1.
Proof.
  intros Hp Hd Hv. eapply wp_settle; [done|done|]. intros w' Hs Hc. split; [done|].
  rewrite Hdry. unfold at_most_put, delivered, same_store in *. rewrite Hs. split; [eauto|].
  intros Hr. right. exists bytes. split; [by apply Hsrc|]. left. auto.
Qed.

Lemma put_and_settle body w1 :
  same_store w w1 -> mdelta 0 (e_metrics w) (e_metrics w1) ->
  (reliable object w -> delivers behavior engine bytes (Some body)) ->
  wp (put_counted b k body) (wp_then (fun _ => settle tally engine) (task_post engine object (b, k) w)) w1.
Proof.
  intros Hs Hd Hv. eapply wp_mono; [|apply put_counted_spec].
  intros [[]|[e|msg]] w2 [Hd2 H]; cbn [counted] in Hd2; [| |done].
  - eapply settle_put; [|exact (mdelta_step _ _ _ _ _ Hd Hd2 eq_refl)|done].
    unfold put_at, same_store in *. by rewrite <-Hs.
  - destruct H as [H _]. split; [exact (mdelta_step _ _ _ _ _ Hd Hd2 eq_refl)|].
    unfold same_store in *. congruence.
Qed.
End outcome.

(** One buffered object whose outcome is known. *)
Lemma buffer_outcome_spec engine object b k bytes outcome tally w :
  dry_run behavior = false ->
  buffer_run bytes engine cfg = Ok (outcome, tally) ->
  (reliable object w -> contents (e_store w) !! (or_bucket object, or_key object) = Some bytes /\
     buffer_verdict engine cfg bytes (Ok (outcome, tally))) ->
  wp (_ ← match outcome with
          | Written (Some out_bytes) => put_counted b k out_bytes
          | NothingKept => mret tt
          | Unrecognized =>
              _ ← count_metric (add_unrecognized_objects 1);
              apply_unrecognized_policy p object b k bytes
          | Written None => task_panic "buffer_run always returns Written(Some(_))"
          end;
      settle tally engine) (task_post engine object (b, k) w) w.
Proof.
  intros Hdry Hrun Hrel. destruct (buffer_run_tally _ _ _ _ _ Hrun) as [Ht Hsome].
  pose proof (fun Hr => proj1 (Hrel Hr)) as Hsrc. rewrite wp_task_bind. destruct outcome as [[out|]| |].
  - apply (put_and_settle _ _ _ _ bytes); try done; [apply mdelta_refl|].
    intros Hr. destruct (Hrel Hr) as [_ (rs & H1 & H2 & H3)]. by eapply Dv_filtered.
  - done.
  - apply (settle_none _ _ _ _ bytes); try done; [apply mdelta_refl|].
    intros Hr. destruct (Hrel Hr) as [_ (rs & H1 & H2)]. by eapply Dv_nothing_kept.
  - rewrite wp_count. unfold apply_unrecognized_policy. destruct (on_unrecognized_object behavior) eqn:Hu.
    + apply (put_and_settle _ _ _ _ bytes); try done; [by apply mdelta_neutral|].
      intros Hr. apply Dv_unrecognized_copy; [by apply Hrel|done].
    + apply (settle_none _ _ _ _ bytes); try done; [by apply mdelta_neutral|].
      intros Hr. apply Dv_unrecognized_skip; [by apply Hrel|done].
    + split; [by apply mdelta_neutral|done].
Qed.

Lemma copies_unparsable_inv e :
  copies_unparsable p e = true ->
  on_parse_error behavior = PeCopy /\ CoreError.is_unparsable_source e = true.
Proof. unfold copies_unparsable. by destruct (on_parse_error behavior). Qed.

Lemma process_buffer_spec engine object b k w :
  dry_run behavior = false ->
  wp (process_buffer p engine object b k) (task_post engine object (b, k) w) w.
Proof.
  intros Hdry. unfold process_buffer. wp_step. eapply wp_mono; [|apply fetch_spec].
  intros [[bytes|]|[e|msg]] w1 (Hd & Hs & H); cbn [counted] in Hd; [| |by split|done].
  2:{ wp_step. split; [done|]. rewrite Hdry. split; [by left|]. intros _. left. destruct H. by split_and!. }
  cbv zeta. eapply wp_mono; [intros r w'; by apply task_post_step|].
  rewrite task_call_eq. pose proof (buffer_run_panics engine bytes cfg) as Hp.
  assert (forall w2, same_store w1 w2 -> reliable object w2 ->
            contents (e_store w2) !! (or_bucket object, or_key object) = Some bytes /\
            buffer_verdict engine cfg bytes (buffer_run bytes engine cfg)) as Hrel'.
  { intros w2 Hs2 [Hr Hsm]. unfold small_object, same_store in *. rewrite Hs2, Hs in *.
    specialize (H Hr Hsm). split; [done|]. by apply buffer_source, Hsm. }
  destruct (buffer_run bytes engine cfg) as [[outcome tally]|[e|msg]] eqn:Hrun; [| |by apply task_post_panic];
    apply wp_bill; intros w2 Hs2 Hd2 _; pose proof (Hrel' w2 Hs2) as Hrel; [by apply buffer_outcome_spec|].
  destruct (copies_unparsable p e) eqn:Hc; [|apply task_post_fail].
  apply copies_unparsable_inv in Hc as [Hpol Hun]. apply copy_unparsable_spec; [done| |].
  - intros src Hr Hs'. destruct (Hrel Hr) as [H1 H2]. rewrite H1 in Hs'. injection Hs' as <-. by apply H2.
  - intros src [= <-] Hr. by apply Hrel.
Qed.

Lemma process_dry_run_spec engine object w :
  dry_run behavior = true ->
  forall dest, wp (process_dry_run p engine object) (task_post engine object dest w) w.
Proof.
  intros Hdry dest. unfold process_dry_run. wp_step. eapply wp_mono; [|apply fetch_spec].
  intros [[bytes|]|[e|msg]] w1 (Hd & Hs & H); cbn [counted] in Hd; [| |by split|done].
  2:{ wp_step. split; [done|]. by rewrite Hdry. }
  cbv zeta. eapply wp_mono; [intros r w'; by apply task_post_step|].
  rewrite task_call_eq. pose proof (buffer_run_panics engine bytes cfg) as Hp.
  destruct (buffer_run bytes engine cfg) as [[outcome tally]|[e|msg]] eqn:Hrun; [| |by apply task_post_panic];
    apply wp_bill; intros w2 _ _ _.
  - destruct (buffer_run_tally _ _ _ _ _ Hrun) as [Ht _].
    assert (forall w3, e_store w3 = e_store w2 -> mdelta 0 (e_metrics w2) (e_metrics w3) ->
              wp (settle tally engine) (task_post engine object dest w2) w3) as Hset.
    { intros w3 Hs3 Hd3. eapply wp_settle; [done|done|]. intros w' Hs' Hc. split; [done|].
      rewrite Hdry. unfold same_store. by rewrite Hs', Hs3. }
    rewrite wp_task_bind. destruct outcome as [o| |]; (apply Hset; [done|]);
      [apply mdelta_refl|apply mdelta_refl|by apply mdelta_neutral].
  - destruct (copies_unparsable p e) eqn:Hc; [|apply task_post_fail].
    unfold copy_unparsable. rewrite wp_count, Hdry. wp_step.
    split; [|by rewrite Hdry].
    exact (mdelta_step _ _ _ _ _ (mdelta_neutral ObjectsCopiedUnparsed 1 _ eq_refl) (mdelta_processed _) eq_refl).
Qed.

(** A streamed object whose destination is settled. *)
Lemma stream_done engine object b k w w2 :
  dry_run behavior = false -> mdelta 0 (e_metrics w) (e_metrics w2) -> at_most_put (b, k) w w2 ->
  (reliable object w -> delivered engine object (b, k) w w2) ->
  wp (count_metric (add_objects_processed 1)) (task_post engine object (b, k) w) w2.
Proof.
  intros Hdry Hd Hput Hdel. wp_step. split; [by apply processed_counted|].
  rewrite Hdry. by split.
Qed.

(** What [process_stream] does with the verdict of its run. *)
Lemma stream_outcome_spec engine object b k reader (r : result CoreError Outcome) w w2 :
  dry_run behavior = false -> mdelta 0 (e_metrics w) (e_metrics w2) ->
  (contents (e_store w2) = contents (e_store w) \/
     r = Ok (Written None) /\ exists gz, contents (e_store w2) = <[(b, k) := gz]> (contents (e_store w))) ->
  (forall o, r <> Ok (Written (Some o))) ->
  (reliable object w -> contents (e_store w) !! (or_bucket object, or_key object) = Some (reader_bytes reader) /\
     stream_verdict engine cfg (reader_bytes reader) (e_store w) b k (map_err Fail r) (e_store w2)) ->
  wp (match r with
     | Err e => if copies_unparsable p e then copy_unparsable p object b k None else task_fail e
     | Ok (Written None) | Ok NothingKept => count_metric (add_objects_processed 1)
     | Ok Unrecognized =>
         _ ← count_metric (add_unrecognized_objects 1);
         match on_unrecognized_object behavior with
         | UoCopy =>
             copied ← stream_copy p object b k AlreadyCounted;
             if (copied : bool) then count_metric (add_objects_processed 1) else mret tt
         | UoSkip => count_metric (add_objects_processed 1)
         | UoError => task_fail (UnrecognizedObject (or_bucket object) (or_key object))
         end
     | Ok (Written (Some _)) => task_panic "stream_run never returns Written(Some(_))"
     end : Task unit) (task_post engine object (b, k) w) w2.
Proof.
  intros Hdry Hd Hput Hno Hrel. destruct r as [[[o|]| |]|e].
  - by destruct (Hno o).
  - apply stream_done; [done|done|by destruct Hput as [|[_ ?]]; [left|right]|].
    intros Hr. destruct (Hrel Hr) as [Hs (rs & gz & H1 & H2 & H3 & H4)]. right. eexists. split; [done|].
    right. exists gz. split; [done|]. by eapply Dv_filtered.
  - destruct Hput as [Hs|[? _]]; [|done]. apply stream_done; [done|done|by left|].
    intros Hr. destruct (Hrel Hr) as [Hs' (_ & rs & H1 & H2)]. right. eexists. split; [done|].
    left. split; [done|]. by eapply Dv_nothing_kept.
  - destruct Hput as [Hs|[? _]]; [|done]. rewrite wp_count.
    set (w3 := mkEnv _ _).
    assert (mdelta 0 (e_metrics w) (e_metrics w3)) as Hd3
      by exact (mdelta_step _ _ _ _ _ Hd (mdelta_neutral UnrecognizedObjects 1 _ eq_refl) eq_refl).
    destruct (on_unrecognized_object behavior) eqn:Hu.
    + apply (wp_mono _ (task_post engine object (b, k) w3)); [intros r' w'; by apply task_post_step|]. apply copied_spec; [done|].
      intros src Hr%(reliable_same _ w); [|exact Hs]. intros Hsrc. change (e_store w3) with (e_store w2) in Hsrc. rewrite Hs in Hsrc.
      destruct (Hrel Hr) as [H1 [_ H2]]. rewrite H1 in Hsrc. injection Hsrc as <-.
      by apply Dv_unrecognized_copy.
    + apply stream_done; [done|done|by left|]. intros Hr. destruct (Hrel Hr) as [H1 [_ H2]].
      right. eexists. split; [done|]. left. split; [done|]. by apply Dv_unrecognized_skip.
    + split; [done|]. exact Hs.
  - destruct Hput as [Hs|[? _]]; [|done]. destruct (copies_unparsable p e) eqn:Hc; [|by split].
    apply copies_unparsable_inv in Hc as [Hpol Hun].
    eapply wp_mono; [intros r' w'; by apply task_post_step|]. apply copy_unparsable_spec; [done| |done].
    intros src Hr%(reliable_same _ w); [|exact Hs]. intros Hsrc. rewrite Hs in Hsrc.
    destruct (Hrel Hr) as [H1 (_ & H2 & _)].
    rewrite H1 in Hsrc. injection Hsrc as <-. auto.
Qed.

Lemma process_stream_spec sched engine object b k w :
  dry_run behavior = false ->
  wp (process_stream p sched engine object b k) (task_post engine object (b, k) w) w.
Proof.
  intros Hdry. unfold process_stream. wp_step. eapply wp_mono; [|apply open_spec].
  intros [[reader|]|[e|msg]] w1 (Hd & Hs & H); cbn [counted] in Hd; [| |by split|done].
  2:{ wp_step. split; [done|]. rewrite Hdry. split; [by left|]. intros _. left. destruct H. by split_and!. }
  cbv zeta. eapply wp_mono; [intros r w'; by apply task_post_step|].
  rewrite wp_task_bind, wp_task_try, wp_stream. unfold wp_then.
  pose proof (stream_run_panics sched reader engine cfg (e_metrics w1) (e_store w1) b k) as Hp.
  pose proof (mdelta_stream_run sched reader engine cfg (e_metrics w1) (e_store w1) b k) as Hm.
  pose proof (stream_run_contents sched reader engine cfg (e_metrics w1) (e_store w1) b k) as Hc.
  pose proof (stream_source sched reader engine cfg (e_metrics w1) (e_store w1) b k) as Hv.
  destruct (stream_run sched reader engine cfg (e_metrics w1) (e_store w1) b k) as [[r m] s] eqn:Hrun.
  cbn [fst snd] in *. destruct Hc as [Hc Hno].
  assert (reliable object w1 -> contents (e_store w1) !! (or_bucket object, or_key object) = Some (reader_bytes reader) /\
     stream_verdict engine cfg (reader_bytes reader) (e_store w1) b k r s) as Hrel.
  { intros [Hr _]. pose proof (Hr _ _ _ _ H) as He. split; [|by apply Hv].
    unfold same_store in Hs. rewrite Hs. by eapply get_stream_read. }
  destruct r as [o|[e|msg]].
  - apply (stream_outcome_spec engine object b k reader (Ok o) w1 (mkEnv s m)); try done.
    + destruct Hc as [|[[= ->] ?]]; [by left|by right].
    + intros o' [= ->]. by apply (Hno o').
  - apply (stream_outcome_spec engine object b k reader (Err e) w1 (mkEnv s m)); try done.
    destruct Hc as [|[? _]]; [by left|done].
  - destruct Hc as [Hc|[? _]]; [|done]. by split.
Qed.

(** The fold of the scratch counters of a streamed dry run, and what follows it. *)
Lemma wp_fold_scratch engine object dest scratch w (k : Task unit) :
  cong (imbalance scratch) 0 ->
  (forall w2, same_store w w2 -> mdelta 0 (e_metrics w) (e_metrics w2) -> wp k (task_post engine object dest w) w2) ->
  let snapshot := (snapshot_and_reset scratch).1 in
  wp (_ ← count_metric (add_bytes_in (ms_bytes_in snapshot));
      _ ← count_metric (add_records_in (ms_records_in snapshot));
      _ ← count_metric (add_records_kept (ms_records_kept snapshot));
      _ ← count_metric (add_records_dropped (ms_records_dropped snapshot));
      _ ← count_metric (add_parse_errors (ms_parse_errors snapshot));
      _ ← count_metric (fold_rule_drops (ms_rule_drops snapshot));
      k) (task_post engine object dest w) w.
Proof.
  intros Hb H. cbv zeta. do 6 rewrite wp_count. apply H; [done|]. cbn [e_store e_metrics].
  eapply mdelta_step; [|apply mdelta_fold_rule_drops|done].
  eapply mdelta_step; [|by apply mdelta_neutral|done].
  eapply mdelta_step; [exact (mdelta_neutral BytesIn (m_counters scratch BytesIn) _ eq_refl)| |done].
  exact (mdelta_fold_scratch scratch _ Hb).
Qed.

Lemma process_dry_run_stream_spec sched engine object w :
  dry_run behavior = true ->
  forall dest, wp (process_dry_run_stream p sched engine object) (task_post engine object dest w) w.
Proof.
  intros Hdry dest. unfold process_dry_run_stream. wp_step. eapply wp_mono; [|apply open_spec].
  intros [[reader|]|[e|msg]] w1 (Hd & Hs & H); cbn [counted] in Hd; [| |by split|done].
  2:{ wp_step. split; [done|]. by rewrite Hdry. }
  cbv zeta. eapply wp_mono; [intros r w'; by apply task_post_step|].
  pose proof (scratch_balanced sched reader engine cfg) as Hb.
  pose proof (stream_run_panics sched reader engine cfg Metrics_default mkDiscardStore "" "") as Hp.
  destruct (stream_run sched reader engine cfg Metrics_default mkDiscardStore "" "") as [[outcome scratch] ds].
  cbn [fst snd] in Hb, Hp. rewrite task_call_eq.
  assert (forall w3, same_store w1 w3 -> mdelta 0 (e_metrics w1) (e_metrics w3) ->
            wp (count_metric (add_objects_processed 1)) (task_post engine object dest w1) w3) as Hdone.
  { intros w3 Hs3 Hd3. wp_step. split; [by apply processed_counted|]. by rewrite Hdry. }
  destruct outcome as [o|[e|msg]]; [| |by apply task_post_panic];
    apply wp_fold_scratch; [done| |done|]; intros w2 Hs2 Hd2.
  - rewrite wp_task_bind. destruct o; [by apply Hdone|by apply Hdone|].
    apply Hdone; [done|]. exact (mdelta_step _ _ _ _ _ Hd2 (mdelta_neutral UnrecognizedObjects 1 _ eq_refl) eq_refl).
  - destruct (copies_unparsable p e); [|by split].
    unfold copy_unparsable. rewrite wp_count, Hdry. apply Hdone; [done|].
    exact (mdelta_step _ _ _ _ _ Hd2 (mdelta_neutral ObjectsCopiedUnparsed 1 _ eq_refl) eq_refl).
Qed.

(** ** Lemmas: the whole object *)

Lemma process_via_buffer_spec engine object b k w :
  wp (process_via_buffer p engine object b k) (task_post engine object (b, k) w) w.
Proof.
  unfold process_via_buffer. destruct (dry_run behavior) eqn:Hdry.
  - by apply process_dry_run_spec.
  - by apply process_buffer_spec.
Qed.

Lemma process_via_stream_spec sched engine object b k w :
  wp (process_via_stream p sched engine object b k) (task_post engine object (b, k) w) w.
Proof.
  unfold process_via_stream. destruct (dry_run behavior) eqn:Hdry.
  - by apply process_dry_run_stream_spec.
  - by apply process_stream_spec.
Qed.

Lemma process_object_spec sched engine object b k w :
  wp (process_object p sched engine object b k) (task_post engine object (b, k) w) w.
Proof.
  unfold process_object. destruct (select_mode p (or_size object)); [|apply process_via_stream_spec].
  wp_step. rewrite wp_task_try. eapply wp_mono; [|apply process_via_buffer_spec].
  intros [[]|[e|msg]] w1 Hpost; unfold wp_then; [|destruct Hpost as [Hd Hs]|exact Hpost].
  - unfold retried_via_stream. by destruct (on_object_too_large behavior).
  - destruct (retried_via_stream p _).
    + eapply wp_mono; [|apply process_via_stream_spec]. intros r w'. by apply task_post_step.
    + rewrite wp_task_of_result. by split.
Qed.

(** [raw_copy]: the degraded path, without an engine. *)
Definition raw_post (object : ObjectRef) (dest : string * string)
    (w : Env S) (r : result (Exit CoreError) unit) (w' : Env S) : Prop :=
  counted (fun _ => 1%Z) w r w' /\
  match r with
  | Ok _ => same_store w w' /\ contents (e_store w) !! (or_bucket object, or_key object) = None \/
            exists body, put_at dest body w w' /\
              (clean_reads -> contents (e_store w) !! (or_bucket object, or_key object) = Some body)
  | Err _ => same_store w w'
  end.

Lemma raw_copy_spec object b k w :
  wp (raw_copy p object b k) (raw_post object (b, k) w) w.
Proof.
  unfold raw_copy. wp_step. eapply wp_mono; [|apply stream_copy_spec].
  intros [[|]|[e|msg]] w1 [Hd H]; cbn [counted] in Hd; [| |by destruct H|done].
  - wp_step. split; [by apply processed_counted|by right].
  - wp_step. split; [done|]. left. by destruct H as (? & ? & _).
Qed.

(** ** Lemmas: which paths can find an object too large *)

Definition not_too_large {A} (r : result (Exit CoreError) A) (_ : Env S) : Prop :=
  forall limit, r <> Err (Fail (ObjectTooLarge limit)).

Lemma copied_not_too_large object b k policy w :
  wp (copied ← stream_copy p object b k policy;
      if (copied : bool) then count_metric (add_objects_processed 1) else mret tt) not_too_large w.
Proof.
  wp_step. eapply wp_mono; [|apply stream_copy_spec].
  intros [[|]|[e|msg]] w1 [Hd H]; [by intros ?|by intros ?| |by intros ?]. destruct H as (_ & e' & ->). by intros ?.
Qed.

Lemma copy_streamed_not_too_large object b k w :
  wp (copy_unparsable p object b k None) not_too_large w.
Proof.
  unfold copy_unparsable. rewrite wp_count. destruct (dry_run behavior); [by intros ?|].
  apply copied_not_too_large.
Qed.

Lemma via_stream_not_too_large sched engine object b k w :
  wp (process_via_stream p sched engine object b k) not_too_large w.
Proof.
  assert (forall e w1, (forall limit, e <> ObjectTooLarge limit) ->
            wp ((if copies_unparsable p e then copy_unparsable p object b k None else task_fail e) : Task unit) not_too_large w1)
    as Hfail.
  { intros e w1 He. destruct (copies_unparsable p e); [apply copy_streamed_not_too_large|].
    wp_step. intros limit [= ->]. by eapply He. }
  unfold process_via_stream, process_dry_run_stream, process_stream.
  destruct (dry_run behavior) eqn:Hdry; wp_step; (eapply wp_mono; [|apply open_spec]);
    (intros [[reader|]|[e|msg]] w1 (_ & _ & H); [|done|by destruct H as [e' ->]|done]); cbv beta iota.
  - pose proof (stream_run_not_too_large sched reader engine cfg Metrics_default mkDiscardStore "" "") as Hn.
    destruct (stream_run _ _ _ _ _ mkDiscardStore _ _) as [[r m] ds]. cbn [fst] in Hn.
    rewrite task_call_eq. destruct r as [o|[e|msg]]; [|cbv zeta|by intros ?]; do 6 rewrite wp_count; [by destruct o|].
    unfold copy_unparsable. destruct (copies_unparsable p e); [rewrite wp_count, Hdry; done|].
    wp_step. intros limit [= ->]. by eapply Hn.
  - cbv zeta. rewrite wp_task_bind, wp_task_try, wp_stream. unfold wp_then.
    pose proof (stream_run_not_too_large sched reader engine cfg (e_metrics w1) (e_store w1) b k) as Hn.
    destruct (stream_run _ _ _ _ _ _ b k) as [[r m] s]. cbn [fst snd] in *.
    destruct r as [[[o|]| |]|[e|msg]]; [done|done|done| |apply Hfail; intros limit ->; by eapply Hn|done].
    rewrite wp_count. destruct (on_unrecognized_object behavior); [apply copied_not_too_large|done|done].
Qed.
End spec.

(** ** Properties *)

(** C2: the policy matrix.  With a store whose bodies read to their end and an object that,
    compressed and not, is shorter than 2^64 bytes ([reliable]), an object that is processed
    without an error leaves at its destination exactly what its bytes and the policies call
    for: the envelope of the records no rule drops, nothing when every record is dropped, and
    for an unrecognized or unparsable object its bytes verbatim or nothing, as configured; a
    dry run leaves every object of the store as it was, and so does every error.  It panics
    only at a gzip level above 9, which [Settings::validate] rejects, and then too it has left
    the store as it was. *)
Theorem process_object_delivers {J : JsonCrate} {SH : ShallowCrate} {SL : ShallowLaws J SH}
    {R : RegexCrate} {G : GzipCrate} {GL : GzipLaws G} {S} {St : ObjectStore S} {Laws : StoreLaws S}
    p sched engine object b k (w : Env S) :
  reliable object w ->
  let '(r, w') := process_object p sched engine object b k w in
  match r with
  | Ok _ => if dry_run (s_behavior (p_settings p)) then same_store w w'
            else delivered p engine object (b, k) w w'
  | Err (Fail _) => same_store w w'
  | Err (Panic _) => (9 < gzip_level (s_processing (p_settings p)))%N /\ same_store w w'
  end.
Proof.
  intros Hr. pose proof (process_object_spec p sched engine object b k w) as H. unfold wp in H.
  destruct (process_object p sched engine object b k w) as [r w']. cbn [fst snd] in H.
  destruct H as [Hc H]. destruct r as [[]|[e|msg]]; [|done|by destruct Hc].
  destruct (dry_run _); [done|]. by apply H.
Qed.

(** All or nothing, whatever the store does.  Processing one object changes at most the
    destination key; when it fails, no object of the store has changed; and it panics only
    at a gzip level above 9. *)
Theorem process_object_all_or_nothing {J : JsonCrate} {SH : ShallowCrate} {SL : ShallowLaws J SH}
    {R : RegexCrate} {G : GzipCrate} {GL : GzipLaws G} {S} {St : ObjectStore S} {Laws : StoreLaws S}
    p sched engine object b k (w : Env S) :
  let '(r, w') := process_object p sched engine object b k w in
  at_most_put (b, k) w w' /\ (is_ok r = false -> same_store w w') /\
  panics_if (no_level (s_processing (p_settings p))) r.
Proof.
  pose proof (process_object_spec p sched engine object b k w) as H. unfold wp in H.
  destruct (process_object p sched engine object b k w) as [r w']. cbn [fst snd] in H.
  destruct H as [Hc H]. destruct r as [[]|[e|msg]]; [|by split_and!; [left| |]|by destruct Hc; split_and!; [left| |]].
  split_and!; try done. destruct (dry_run _); [by left|by destruct H].
Qed.

(** Every object is accounted for once.  A run that succeeds moves exactly one of
    [ObjectsProcessed] and [ObjectsSkipped], by one, a run that fails moves neither; in
    both cases [RecordsIn - RecordsKept - RecordsDropped] and the batch's own counters are
    as they were. *)
Theorem process_object_accounted {J : JsonCrate} {SH : ShallowCrate} {SL : ShallowLaws J SH}
    {R : RegexCrate} {G : GzipCrate} {GL : GzipLaws G} {S} {St : ObjectStore S} {Laws : StoreLaws S}
    p sched engine object b k (w : Env S) :
  let '(r, w') := process_object p sched engine object b k w in
  mdelta (if is_ok r then 1 else 0) (e_metrics w) (e_metrics w').
Proof.
  pose proof (process_object_spec p sched engine object b k w) as H. unfold wp in H.
  destruct (process_object p sched engine object b k w) as [r w']. cbn [fst snd] in H.
  destruct H as [Hc _]. destruct r as [[]|[e|msg]]; [done|done|apply Hc].
Qed.

(** No poison pill.  With [on_object_too_large = stream], no object of any size, in any
    mode, fails with [ObjectTooLarge]: what does not fit in memory is retried through stream
    mode. *)
Theorem process_object_never_too_large {J : JsonCrate} {SH : ShallowCrate} {SL : ShallowLaws J SH}
    {R : RegexCrate} {G : GzipCrate} {GL : GzipLaws G} {S} {St : ObjectStore S} {Laws : StoreLaws S}
    p sched engine object b k (w : Env S) limit :
  on_object_too_large (s_behavior (p_settings p)) = TlStream ->
  (process_object p sched engine object b k w).1 <> Err (Fail (ObjectTooLarge limit)).
Proof.
  intros Hpol. revert limit.
  change (wp (process_object p sched engine object b k) not_too_large w).
  unfold process_object. destruct (select_mode p (or_size object)); [|apply via_stream_not_too_large].
  wp_step. rewrite wp_task_try. eapply wp_mono; [|apply process_via_buffer_spec].
  intros [[]|[e|msg]] w1 Hpost; unfold wp_then, retried_via_stream; [done| |done].
  rewrite ?Hpol. destruct e; rewrite ?Hpol; try apply via_stream_not_too_large; wp_step; by intros ?.
Qed.

(** ** Witnesses *)

Definition demo_pipeline : Pipeline (R := ref_regex) :=
  mkPipeline ref_regex
    (mkSettings Source_default (mkDestination "siem" "filtered/") Processing_default Behavior_default
       Sqs_default RulesSettings_default Observability_default)
    (mkKeyFilter ref_regex "^a\.json$" "Digest").

Definition demo_object : ObjectRef := mkObjectRef "trail" "a.json" (Some 5%N).

Definition demo_store_env : Env InMemoryStore :=
  mkEnv (InMemoryStore.seed "trail" "a.json" "three" InMemoryStore.new) Metrics_default.

Definition demo_sched : Schedule := mkSchedule 0 None.

Lemma demo_reliable : reliable (G := ref_gzip) demo_object demo_store_env.
Proof.
  split.
  - intros b k s reader. cbn [store_get_stream in_memory_store].
    unfold InMemoryStore.get_stream, InMemoryStore.get. cbn.
    destruct (InMemoryStore.object b k s); cbn; [|done]. by intros [= <-].
  - intros src [= <-]. by split.
Defined.

Abbreviation demo_run :=
  (process_object (J := demo_json) (SH := demo_shallow) (R := ref_regex) (G := ref_gzip)
     demo_pipeline demo_sched demo_engine demo_object "siem" "filtered/a.json" demo_store_env).

Lemma process_object_delivers_witness :
  demo_run.1 = Ok tt /\
  delivered (J := demo_json) (SH := demo_shallow) (G := ref_gzip) demo_pipeline demo_engine demo_object
    ("siem", "filtered/a.json") demo_store_env demo_run.2.
Proof.
  split; [vm_compute; reflexivity|].
  exact (process_object_delivers (J := demo_json) (SH := demo_shallow) (SL := demo_shallow_laws demo_json)
           (G := ref_gzip) demo_pipeline demo_sched demo_engine demo_object "siem" "filtered/a.json"
           demo_store_env demo_reliable).
Defined.

(** A cap of three bytes: the object is five, and is streamed instead. *)
Definition tiny_pipeline : Pipeline (R := ref_regex) :=
  mkPipeline ref_regex
    (mkSettings Source_default (mkDestination "siem" "filtered/")
       (mkProcessing PmBuffer 1 3 5242880 6 1 1) Behavior_default
       Sqs_default RulesSettings_default Observability_default)
    (mkKeyFilter ref_regex "^a\.json$" "Digest").

Abbreviation tiny_run :=
  (process_object (J := demo_json) (SH := demo_shallow) (R := ref_regex) (G := ref_gzip)
     tiny_pipeline demo_sched demo_engine demo_object "siem" "filtered/a.json" demo_store_env).

Lemma process_object_never_too_large_witness :
  tiny_run.1 = Ok tt /\ tiny_run.1 <> Err (Fail (ObjectTooLarge 3)).
Proof.
  split; [vm_compute; reflexivity|].
  apply (process_object_never_too_large (J := demo_json) (SH := demo_shallow)
           (SL := demo_shallow_laws demo_json) (G := ref_gzip)). reflexivity.
Defined.

(** The same cap without the retry: the object fails and nothing is written. *)
Definition strict_pipeline : Pipeline (R := ref_regex) :=
  mkPipeline ref_regex
    (mkSettings Source_default (mkDestination "siem" "filtered/") (mkProcessing PmBuffer 1 3 5242880 6 1 1)
       (mkBehavior false CeOpen MoError UoCopy PeCopy TlError true)
       Sqs_default RulesSettings_default Observability_default)
    (mkKeyFilter ref_regex "^a\.json$" "Digest").

Lemma process_object_all_or_nothing_witness :
  let '(r, w') := process_object (J := demo_json) (SH := demo_shallow) (R := ref_regex) (G := ref_gzip)
     strict_pipeline demo_sched demo_engine demo_object "siem" "filtered/a.json" demo_store_env in
  is_ok r = false /\ same_store demo_store_env w'.
Proof.
  pose proof (process_object_all_or_nothing (J := demo_json) (SH := demo_shallow) (SL := demo_shallow_laws demo_json)
    (G := ref_gzip) strict_pipeline demo_sched demo_engine demo_object "siem" "filtered/a.json" demo_store_env) as H.
  assert (is_ok (process_object (J := demo_json) (SH := demo_shallow) (R := ref_regex) (G := ref_gzip)
     strict_pipeline demo_sched demo_engine demo_object "siem" "filtered/a.json" demo_store_env).1 = false) as Hr
    by (vm_compute; reflexivity).
  destruct (process_object (J := demo_json) (SH := demo_shallow) (R := ref_regex) (G := ref_gzip)
     strict_pipeline demo_sched demo_engine demo_object "siem" "filtered/a.json" demo_store_env) as [r w'].
  destruct H as (_ & H & _). split; [exact Hr|exact (H Hr)].
Defined.
