(* ===== verification/Batch.v ===== *)
(** * One invocation: the three passes and the snapshot

    The specification of [handle]: which objects become work, that the self-trigger guard
    fires before any I/O, that the batch's verdict is that of its lowest failing item, that
    every object is accounted for, and that exactly one snapshot is emitted.  A run of passes
    2 and 3 is a weave of the logs of its tasks ([run_work_spec]). *)

From S2P Require Import Prelude Model Json Path Regex Rules Reference Index Project Engine.
From S2P Require Import Settings Effects Metrics Ports Task Envelope Buffer Stream Cache Pipeline.
From S2P Require Import Interleave Accounting Source Footprint Objects Weave.
Open Scope Z_scope.

(** ** What the batch is *)

Section spec.
Context {R : RegexCrate} (p : Pipeline).

Abbreviation behavior := (s_behavior (p_settings p)).
Abbreviation destination := (s_destination (p_settings p)).

(** The work of one item: its objects that pass the key filter. *)
Definition item_work (item_idx : nat) (item : SourceItem) : list Work :=
  match si_decode_error item with
  | Some _ => []
  | None =>
      map (fun o => mkWork item_idx o (bucket destination) (dest_key_of p o))
        (filter (fun o => key_allowed p (or_key o) = true) (si_objects item))
  end.

Fixpoint batch_work (item_idx : nat) (items : list SourceItem) : list Work :=
  match items with
  | [] => []
  | item :: items => item_work item_idx item ++ batch_work (item_idx + 1) items
  end.

Definition triggers (w : Work) : Prop := is_self_trigger p (wk_object w) = true.

(** Items that did not decode: those isolated by their ack id, and those that fail the
    batch. *)
Definition item_isolated_error (item_idx : nat) (item : SourceItem) : list nat :=
  match si_decode_error item with
  | Some _ => if isolated p item then [item_idx] else []
  | None => []
  end.

Definition item_hard_error (item_idx : nat) (item : SourceItem) : list (nat * CoreError) :=
  match si_decode_error item with
  | Some msg => if isolated p item then [] else [(item_idx, CoreDecode (InvalidPayload msg))]
  | None => []
  end.

Fixpoint decode_isolated (item_idx : nat) (items : list SourceItem) : list nat :=
  match items with
  | [] => []
  | item :: items => item_isolated_error item_idx item ++ decode_isolated (item_idx + 1) items
  end.

Fixpoint decode_hard (item_idx : nat) (items : list SourceItem) : list (nat * CoreError) :=
  match items with
  | [] => []
  | item :: items => item_hard_error item_idx item ++ decode_hard (item_idx + 1) items
  end.

(** The same of the objects that failed. *)
Definition item_isolated (items : list SourceItem) (idx : nat) : bool :=
  match items !! idx with Some item => isolated p item | None => false end.

Fixpoint object_isolated (items : list SourceItem) (work : list Work) (outs : list (result CoreError unit)) :
    list nat :=
  match work, outs with
  | w :: work, Err _ :: outs =>
      (if item_isolated items (wk_item_idx w) then [wk_item_idx w] else []) ++ object_isolated items work outs
  | _ :: work, Ok _ :: outs => object_isolated items work outs
  | _, _ => []
  end.

Fixpoint object_hard (items : list SourceItem) (work : list Work) (outs : list (result CoreError unit)) :
    list (nat * CoreError) :=
  match work, outs with
  | w :: work, Err e :: outs =>
      (if item_isolated items (wk_item_idx w) then [] else [(wk_item_idx w, e)]) ++ object_hard items work outs
  | _ :: work, Ok _ :: outs => object_hard items work outs
  | _, _ => []
  end.

(** The first entry of the lowest item. *)
Definition lowest_failure (hard : list (nat * CoreError)) (e : CoreError) : Prop :=
  exists i before after, hard = before ++ (i, e) :: after /\
    Forall (fun x => (i < x.1)%nat) before /\ Forall (fun x => (i <= x.1)%nat) after.

(** The ack ids of the items numbered in [failed], in item order. *)
Definition ack_ids (items : list SourceItem) (failed : list nat) : list string :=
  omap (fun q : nat * SourceItem => if decide (q.1 ∈ failed) then si_ack_id q.2 else None) (imap pair items).

Definition set_all (failed : list nat) (l : list bool) : list bool :=
  foldl (fun l i => <[i := true]> l) l failed.

Definition note_all (hard : list (nat * CoreError)) (slot : option (nat * CoreError)) : option (nat * CoreError) :=
  foldl (fun slot x => note_hard_error slot x.1 x.2) slot hard.

(** ** Lemmas: the pure parts *)

Lemma note_all_some hard i e :
  exists j e', note_all hard (Some (i, e)) = Some (j, e') /\ (j <= i)%nat /\
    ((j = i /\ e' = e /\ Forall (fun x => (i <= x.1)%nat) hard) \/
     ((j < i)%nat /\ exists before after, hard = before ++ (j, e') :: after /\
        Forall (fun x => (j < x.1)%nat) before /\ Forall (fun x => (j <= x.1)%nat) after)).
Proof.
  revert i e. induction hard as [|[k x] hard IH]; intros i e; unfold note_all; cbn [foldl].
  - exists i, e. split_and!; auto.
  - cbn [note_hard_error fst snd]. destruct (Nat.ltb_spec k i) as [Hk|Hk].
    + destruct (IH k x) as (j & e' & Hn & Hj & H). exists j, e'. split; [exact Hn|]. split; [lia|]. right.
      split; [lia|]. destruct H as [(-> & -> & Hall)|(Hlt & b & a & -> & Hb & Ha)].
      * by exists [], hard.
      * exists ((k, x) :: b), a. split_and!; [done| |done]. constructor; [cbn; lia|done].
    + destruct (IH i e) as (j & e' & Hn & Hj & H). exists j, e'. split; [exact Hn|]. split; [lia|].
      destruct H as [(-> & -> & Hall)|(Hlt & b & a & -> & Hb & Ha)].
      * left. split_and!; [done|done|]. constructor; [cbn; lia|done].
      * right. split; [done|]. exists ((k, x) :: b), a. split_and!; [done| |done].
        constructor; [cbn; lia|done].
Qed.

(** What [note_hard_error] keeps of a batch's failures. *)
Lemma note_all_lowest hard :
  match note_all hard None with
  | None => hard = []
  | Some (_, e) => lowest_failure hard e
  end.
Proof.
  destruct hard as [|[i e] hard]; [done|]. unfold note_all. cbn [foldl note_hard_error fst snd].
  fold (note_all hard (Some (i, e))). destruct (note_all_some hard i e) as (j & e' & -> & Hj & H).
  destruct H as [(-> & -> & Hall)|(Hlt & b & a & -> & Hb & Ha)].
  - by exists i, [], hard.
  - exists j, ((i, e) :: b), a. split_and!; [done| |done]. constructor; [cbn; lia|done].
Qed.

Lemma set_all_length failed l : length (set_all failed l) = length l.
Proof.
  unfold set_all. revert l. induction failed as [|i failed IH]; intros l; cbn [foldl]; [done|].
  by rewrite IH, length_insert.
Qed.

Lemma set_all_lookup failed l i :
  (i < length l)%nat -> set_all failed l !! i = (if decide (i ∈ failed) then Some true else l !! i).
Proof.
  unfold set_all. revert l. induction failed as [|j failed IH]; intros l Hi; cbn [foldl].
  - by rewrite decide_False by apply not_elem_of_nil.
  - rewrite IH by (by rewrite length_insert). rewrite list_lookup_insert.
    repeat case_decide; set_solver.
Qed.

Lemma collect_failed_spec items failed :
  collect_failed items (set_all failed (replicate (length items) false)) = ack_ids items failed.
Proof.
  unfold collect_failed, ack_ids.
  assert (forall l k, length l = length items ->
            (forall i, (i < length items)%nat -> l !! i = Some (bool_decide ((k + i)%nat ∈ failed))) ->
            omap (fun q : SourceItem * bool => if q.2 then si_ack_id q.1 else None) (zip items l) =
            omap (fun q : nat * SourceItem => if decide (q.1 ∈ failed) then si_ack_id q.2 else None)
              (imap (fun i => pair (k + i)%nat) items)) as H.
  { induction items as [|item items IH]; intros [|c l] k Hlen Hl; try done. cbn [imap].
    specialize (Hl 0%nat) as H0. cbn in H0. rewrite Nat.add_0_r in H0.
    cbn [zip zip_with omap list_omap fst snd]. rewrite Nat.add_0_r.
    assert (c = bool_decide (k ∈ failed)) as -> by (specialize (H0 ltac:(lia)); congruence).
    assert (imap (fun i => pair (k + S i)%nat) items = imap (fun i => pair (S k + i)%nat) items) as Hm.
    { apply imap_ext. intros i x _. f_equal. lia. }
    unfold compose in *. rewrite Hm. rewrite (IH l (S k)); [|cbn in Hlen; lia|].
    - case_bool_decide as Hd; [by rewrite decide_True|by rewrite decide_False].
    - intros i Hi. etrans; [exact (Hl (S i) ltac:(cbn; lia))|].
      do 2 f_equal. replace (k + S i)%nat with (S k + i)%nat by lia. done. }
  apply (H _ 0%nat); [by rewrite set_all_length, length_replicate|].
  intros i Hi. rewrite set_all_lookup by (by rewrite length_replicate).
  rewrite lookup_replicate_2 by done. cbn.
  case_decide; [by rewrite bool_decide_eq_true_2|by rewrite bool_decide_eq_false_2].
Qed.

Lemma isolated_ack item : isolated p item = true -> is_Some (si_ack_id item).
Proof. unfold isolated. intros [_ H]%andb_true_iff. by apply bool_decide_eq_true in H. Qed.

(** A failure that is not among the hard ones is among the isolated ones. *)
Lemma decode_error_isolated idx items i item msg :
  decode_hard idx items = [] -> items !! i = Some item -> si_decode_error item = Some msg ->
  isolated p item = true /\ (idx + i)%nat ∈ decode_isolated idx items.
Proof.
  revert idx i. induction items as [|item' items IH]; intros idx [|i] Hh Hi He; try done;
    cbn [decode_hard decode_isolated] in *; apply app_eq_nil in Hh as [Hh1 Hh2].
  - injection Hi as ->. unfold item_hard_error, item_isolated_error in *. rewrite He in *.
    destruct (isolated p item); [|done]. split; [done|]. apply elem_of_app. left. rewrite Nat.add_0_r. left.
  - destruct (IH (idx + 1)%nat i Hh2 Hi He) as [H1 H2]. split; [done|]. apply elem_of_app. right.
    by replace (idx + S i)%nat with (idx + 1 + i)%nat by lia.
Qed.

Lemma object_error_isolated items works outs k x e :
  object_hard items works outs = [] -> works !! k = Some x -> outs !! k = Some (Err e) ->
  item_isolated items (wk_item_idx x) = true /\ wk_item_idx x ∈ object_isolated items works outs.
Proof.
  revert outs k. induction works as [|y works IH]; intros [|[[]|e'] outs] [|k] Hh Hx He; try done;
    cbn [object_hard object_isolated] in *.
  - by eapply IH.
  - injection Hx as ->. apply app_eq_nil in Hh as [Hh _]. destruct (item_isolated items (wk_item_idx x)); [|done].
    split; [done|]. left.
  - apply app_eq_nil in Hh as [_ Hh]. destruct (IH outs k Hh Hx He) as [H1 H2]. split; [done|].
    apply elem_of_app. by right.
Qed.

Lemma ack_ids_elem items failed i item ack :
  items !! i = Some item -> si_ack_id item = Some ack -> i ∈ failed -> ack ∈ ack_ids items failed.
Proof.
  intros Hi Ha Hf. unfold ack_ids. apply list_elem_of_omap. exists (i, item). split.
  - apply list_elem_of_lookup. exists i. by rewrite list_lookup_imap, Hi.
  - cbn. by rewrite decide_True.
Qed.
End spec.

(** ** Pass 1 *)

Section batch.
Context {J : JsonCrate} {SH : ShallowCrate} {SL : ShallowLaws J SH} {R : RegexCrate}.
Context {G : GzipCrate} {GL : GzipLaws G}.
Context {S : Type} {St : ObjectStore S} {Laws : StoreLaws S}.
Context (p : Pipeline).

Abbreviation behavior := (s_behavior (p_settings p)).
Abbreviation destination := (s_destination (p_settings p)).

(** Classification touches no object; it fails only on a self-trigger. *)
Definition classified (works : list Work) (b : Batch) (soft : list nat) (hard : list (nat * CoreError))
    (w : Env S) (r : result (Exit CoreError) Batch) (w' : Env S) : Prop :=
  e_store w' = e_store w /\
  match r with
  | Ok b' => bdelta 0 (e_metrics w) (e_metrics w') /\ Forall (fun x => ~ triggers p x) works /\
      b' = mkBatch (set_all soft (b_item_failed b)) (b_work b ++ works) (note_all hard (b_hard_error b))
  | Err (Fail e) => bdelta 1 (e_metrics w) (e_metrics w') /\ exists x, x ∈ works /\ triggers p x /\
      e = SelfTrigger (wk_dest_bucket x) (wk_dest_key x)
  | Err (Panic _) => False
  end.

Lemma classified_step works b soft hard w w1 r w' :
  e_store w1 = e_store w -> bdelta 0 (e_metrics w) (e_metrics w1) ->
  classified works b soft hard w1 r w' -> classified works b soft hard w r w'.
Proof.
  intros Hs Hd [Hs' H]. split; [congruence|]. destruct r as [b'|[e|msg]]; [| |done];
    destruct H as [H1 H2]; (split; [|exact H2]); by eapply bdelta_trans.
Qed.

Definition objects_work (idx : nat) (objects : list ObjectRef) : list Work :=
  map (fun o => mkWork idx o (bucket destination) (dest_key_of p o))
    (filter (fun o => key_allowed p (or_key o) = true) objects).

Lemma classify_objects_spec idx objects b w :
  wp (classify_objects p idx objects b) (classified (objects_work idx objects) b [] [] w) w.
Proof.
  revert b w. induction objects as [|o objects IH]; intros b w; cbn [classify_objects].
  - split; [done|]. cbn. split_and!; [apply bdelta_refl|constructor|by destruct b; rewrite app_nil_r].
  - unfold objects_work. rewrite filter_cons.
    destruct (key_allowed p (or_key o)) eqn:Ha; cbn [negb].
    + rewrite decide_True by done. cbn [map]. destruct (is_self_trigger p o) eqn:Ht.
      * rewrite wp_count. split; [done|]. split; [apply bdelta_failed|].
        eexists. split; [by left|]. by split.
      * eapply wp_mono; [|apply IH]. intros r w' [Hs H]. split; [done|].
        destruct r as [b'|[e|msg]]; [| |done].
        -- destruct H as (Hd & Hall & ->). split_and!; [done| |].
           { constructor; [|done]. unfold triggers. cbn. congruence. }
           cbn. by rewrite <-app_assoc.
        -- destruct H as (Hd & x & Hx & Htr & ->). split; [done|]. exists x. split_and!; [by right|done|done].
    + rewrite decide_False by done. rewrite wp_count. eapply wp_mono; [|apply IH].
      intros r w'. apply classified_step; [done|]. apply bdelta_other. set_solver.
Qed.

Lemma classified_app works works' b b1 soft soft' hard hard' w w1 r w' :
  classified works b soft hard w (Ok b1) w1 -> classified works' b1 soft' hard' w1 r w' ->
  classified (works ++ works') b (soft ++ soft') (hard ++ hard') w r w'.
Proof.
  intros [Hs (Hd & Hall & ->)] [Hs' H]. split; [congruence|]. destruct r as [b'|[e|msg]]; [| |done].
  - destruct H as (Hd' & Hall' & ->). split_and!; [by eapply bdelta_trans|by apply Forall_app|].
    cbn. unfold set_all, note_all. by rewrite !foldl_app, app_assoc.
  - destruct H as (Hd' & x & Hx & Ht & ->). split; [by eapply bdelta_trans|]. exists x.
    split_and!; [|done|done]. apply elem_of_app. by right.
Qed.

Lemma classified_fail works works' b soft soft' hard hard' w e w' :
  classified works b soft hard w (Err e) w' ->
  classified (works ++ works') b (soft ++ soft') (hard ++ hard') w (Err e) w'.
Proof.
  intros [Hs H]. split; [done|]. destruct e as [e|msg]; [|done]. destruct H as (Hd & x & Hx & Ht & ->).
  split; [done|]. exists x. split_and!; [|done|done]. apply elem_of_app. by left.
Qed.

Lemma classify_items_spec idx items b w :
  wp (classify_items p idx items b)
    (classified (batch_work p idx items) b (decode_isolated p idx items) (decode_hard p idx items) w) w.
Proof.
  revert idx b w. induction items as [|item items IH]; intros idx b w; cbn [classify_items].
  { split; [done|]. cbn. split_and!; [apply bdelta_refl|constructor|by destruct b; rewrite app_nil_r]. }
  cbn [batch_work decode_isolated decode_hard]. rewrite wp_task_bind.
  assert (forall r w1,
    classified (item_work p idx item) b (item_isolated_error p idx item) (item_hard_error p idx item) w r w1 ->
    wp_then (fun b => classify_items p (idx + 1) items b)
      (classified (item_work p idx item ++ batch_work p (idx + 1) items) b
         (item_isolated_error p idx item ++ decode_isolated p (idx + 1) items)
         (item_hard_error p idx item ++ decode_hard p (idx + 1) items) w) r w1) as Hthen.
  { intros [b1|e] w1 H; cbn [wp_then]; [|by apply classified_fail].
    eapply wp_mono; [|apply IH]. intros r w'. by eapply classified_app. }
  unfold item_work, item_isolated_error, item_hard_error in *.
  destruct (si_decode_error item) as [msg|].
  - rewrite wp_count. apply Hthen. split; [done|].
    split; [apply bdelta_other; set_solver|]. split; [constructor|].
    destruct (isolated p item); cbn; by rewrite app_nil_r.
  - assert (forall w1, e_store w1 = e_store w -> bdelta 0 (e_metrics w) (e_metrics w1) ->
              wp (classify_objects p idx (si_objects item) b) (wp_then
                (fun b => classify_items p (idx + 1) items b) (classified
                 (objects_work idx (si_objects item) ++ batch_work p (idx + 1) items) b
                 ([] ++ decode_isolated p (idx + 1) items) ([] ++ decode_hard p (idx + 1) items) w)) w1) as Hobj.
    { intros w1 Hs Hd. eapply wp_mono; [|apply classify_objects_spec].
      intros r w' H. apply Hthen. by eapply classified_step. }
    destruct (si_objects item) as [|o objects].
    + rewrite wp_count. apply Hobj; [done|]. apply bdelta_other. set_solver.
    + apply Hobj; [done|apply bdelta_refl].
Qed.

Lemma batch_work_idx idx items :
  Forall (fun x => (idx <= wk_item_idx x < idx + length items)%nat) (batch_work p idx items).
Proof.
  revert idx. induction items as [|item items IH]; intros idx; cbn [batch_work]; [constructor|].
  apply Forall_app. split.
  - unfold item_work. destruct (si_decode_error item); [constructor|]. apply Forall_map, Forall_true.
    intros o. cbn. lia.
  - eapply Forall_impl; [apply IH|]. cbn. intros x Hx. lia.
Qed.

(** Every piece of work goes to the configured destination. *)
Lemma batch_work_dest idx items :
  Forall (fun x => wk_dest_bucket x = bucket destination /\ wk_dest_key x = dest_key_of p (wk_object x))
    (batch_work p idx items).
Proof.
  revert idx. induction items as [|item items IH]; intros idx; cbn [batch_work]; [constructor|].
  apply Forall_app. split; [|apply IH]. unfold item_work. destruct (si_decode_error item); [constructor|].
  apply Forall_map, Forall_true. by intros o.
Qed.

(** ** Passes 2 and 3 *)

Lemma process_work_spec sched engine x w :
  wp (process_work p sched engine x) (fun r w' =>
    counted_or_panic p (fun _ => 1%Z) w r w' /\ at_most_put (work_dest x) w w' /\
    (is_ok r = false -> same_store w w') /\
    (dry_run behavior = true -> engine <> None -> same_store w w')) w.
Proof.
  destruct engine as [engine|]; cbn [process_work].
  - eapply wp_mono; [|apply process_object_spec]. intros [[]|[e|msg]] w' [Hc H]; [|by split_and!; [|left| |]..].
    destruct (dry_run behavior); [by split_and!; [|left| |]|]. by destruct H as [? _].
  - eapply wp_mono; [|apply raw_copy_spec]. intros [[]|[e|msg]] w' [Hc H]; [|by split_and!; [|left| |]|done].
    split_and!; [done| |done|done]. destruct H as [[? _]|(body & ? & _)]; [by left|right; by exists body].
Qed.

(** Settings a batch runs with: the encoder has the level, and the window holds a future.
    [Settings::validate] accepts no others ([settings_valid_runnable]). *)
Record runnable : Prop := {
  rn_level : ~ no_level (s_processing (p_settings p));
  rn_window : (0 < object_concurrency (s_processing (p_settings p)))%N;
}.

Lemma settings_valid_runnable : settings_valid (p_settings p) -> runnable.
Proof. intros H. destruct (sv_concurrency _ H). pose proof (sv_gzip_level _ H). split; unfold no_level; lia. Qed.

(** What pass 3 makes of the results [outs] of [works]. *)
Definition noted (items : list SourceItem) (works : list Work) (outs : list (result CoreError unit)) (b : Batch) : Batch :=
  mkBatch (set_all (object_isolated p items works outs) (b_item_failed b)) (b_work b)
    (note_all (object_hard p items works outs) (b_hard_error b)).

Lemma noted_nil items b : noted items [] [] b = b.
Proof. by destruct b. Qed.

Lemma noted_cons items x works o outs b :
  noted items works outs (noted items [x] [o] b) = noted items (x :: works) (o :: outs) b.
Proof.
  unfold noted, set_all, note_all. destruct o; cbn; [done|]. destruct (item_isolated p items (wk_item_idx x)); done.
Qed.

(** One result taken. *)
Lemma yield_trail items x (t : Task unit) (k : Batch -> Task Batch) b log r :
  (wk_item_idx x < length items)%nat -> obeys (work_source x) (work_dest x) quiet t ->
  trail (outcome ← task_try t; b ← adjudicate p items x outcome b; k b) log (Ret r) ->
  exists o log1 log2, log = log1 ++ failure o ++ log2 /\ trail t log1 (Ret (map_err Fail o)) /\
    trail (k (noted items [x] [o] b)) log2 (Ret r).
Proof.
  intros Hidx Hob (r1 & log1 & log2 & -> & (r2 & Ht & ->)%trail_try & H)%trail_task_bind.
  destruct (obeys_trail _ _ _ _ _ _ Hob Ht) as [_ Hq].
  destruct (lookup_lt_is_Some_2 items _ Hidx) as [item Hitem].
  destruct r2 as [[]|[e|msg]]; [| |by destruct (Hq msg)];
    apply trail_task_bind in H as (r3 & log3 & log4 & -> & H1 & H2); unfold adjudicate in H1.
  - exists (Ok tt), log1, log4. apply trail_ret in H1 as [-> [= ->]]. split_and!; [done|done|].
    destruct b; exact H2.
  - rewrite Hitem in H1. destruct log3 as [|ev log3]; [done|]. destruct H1 as (t1 & Hres & H1).
    destruct ev; cbn in Hres; [done..|]. destruct Hres as [-> ->]. cbn in H1. apply trail_ret in H1 as [-> [= ->]].
    exists (Err e), log1, log4. split_and!; [done|done|].
    unfold noted. cbn [object_isolated object_hard]. unfold item_isolated. rewrite Hitem.
    by destruct (isolated p item).
Qed.

Abbreviation window := (object_concurrency (s_processing (p_settings p))).

(** The futures that may be in flight. *)
Definition in_order (items : list SourceItem) (in_flight : list (Work * Task unit)) : Prop :=
  forall i x t, in_flight !! i = Some (x, t) ->
    (wk_item_idx x < length items)%nat /\ obeys (work_source x) (work_dest x) quiet t.

Definition woven (items : list SourceItem) (n : nat) (in_flight : list (Work * Task unit)) (b : Batch)
    (log : list Exchange) (r : result (Exit CoreError) Batch) : Prop :=
  exists outs l, map snd l = log /\ weave n in_flight outs l /\ ((0 < window)%N -> windowed window l) /\
    r = Ok (noted items (map fst in_flight) outs b).

Lemma woven_yield items n x t in_flight b o log1 log2 r :
  trail t log1 (Ret (map_err Fail o)) -> woven items (n + 1) in_flight (noted items [x] [o] b) log2 r ->
  woven items n ((x, t) :: in_flight) b (log1 ++ failure o ++ log2) r.
Proof.
  intros Ht (outs & l & <- & Hw & Hwin & ->). eexists (o :: outs), _. split; [apply weave_log_yield|].
  split; [by apply weave_yield|]. split; [|cbn [map fst]; by rewrite noted_cons].
  intros Hc. eapply windowed_yield; eauto.
Qed.

Lemma in_order_tail items x t in_flight : in_order items ((x, t) :: in_flight) -> in_order items in_flight.
Proof. intros H i x' t' Hi. by apply (H (Datatypes.S i)). Qed.

Lemma finish_work_woven items n in_flight b log r :
  in_order items in_flight -> trail (finish_work p items in_flight b) log (Ret r) -> woven items n in_flight b log r.
Proof.
  revert n b log. induction in_flight as [|[x t] in_flight IH]; intros n b log Hord; cbn [finish_work].
  - intros [-> [= ->]]%trail_ret. exists [], []. split; [done|]. split; [apply weave_nil|].
    split; [intros _; apply windowed_nil|]. by rewrite noted_nil.
  - destruct (Hord 0%nat x t eq_refl) as [Hidx Hob].
    intros (o & log1 & log2 & -> & H1 & H2)%yield_trail; [|done|done].
    apply woven_yield; [done|]. apply IH; [by eapply in_order_tail|done].
Qed.

(** Whatever the moves, the log of the batch is the logs of its tasks, woven. *)
Lemma run_work_woven moves items n in_flight b log r :
  in_order items in_flight -> trail (run_work p moves items in_flight b) log (Ret r) -> woven items n in_flight b log r.
Proof.
  revert n in_flight b log. induction moves as [|[i|] moves IH]; intros n in_flight b log Hord; cbn [run_work];
    [by apply finish_work_woven| |].
  - destruct (in_flight !! i) as [[x t]|] eqn:Hi; [|by apply IH].
    destruct (N.ltb_spec (N.of_nat i) window) as [Hlt|_]; [|by apply IH]. destruct (Hord i x t Hi) as [Hidx Hob].
    assert (forall t', obeys (work_source x) (work_dest x) quiet t' -> in_order items (<[i := (x, t')]> in_flight)) as Hord'.
    { intros t' Ht' j y u Hj. destruct (decide (i = j)) as [->|Hne].
      - rewrite list_lookup_insert_eq in Hj by (by eapply lookup_lt_Some). by injection Hj as <- <-.
      - rewrite list_lookup_insert_ne in Hj by done. by apply (Hord j). }
    assert (forall t' log, obeys (work_source x) (work_dest x) quiet t' ->
      trail (match t' with Ret (Err (Panic msg)) => task_panic msg
             | _ => run_work p moves items (<[i := (x, t')]> in_flight) b end) log (Ret r) ->
      woven items n (<[i := (x, t')]> in_flight) b log r) as Hk.
    { intros t' log' Ht' Htr. specialize (Hord' t' Ht').
      destruct t' as [[a|[e|msg]]| | | |]; try (by apply IH). by destruct (Ht' msg). }
    intros [(r1 & -> & H)|(e & log' & t' & -> & Hres & H)]%trail_poll.
    + apply (Hk (Ret r1)) in H; [|done]. by rewrite list_insert_id in H.
    + apply obeys_resume with (t' := t') (e := e) in Hob as [_ Hob]; [|done].
      apply (Hk t') in H as (outs & l & <- & Hw & Hwin & ->); [|done]. exists outs, ((Some (n + i)%nat, e) :: l). split; [done|].
      split; [by eapply weave_poll|]. split; [intros Hc; eapply windowed_poll; eauto|]. do 2 f_equal. rewrite list_fmap_insert. cbn.
      rewrite list_insert_id; [done|]. rewrite list_lookup_fmap. exact (f_equal (fmap fst) Hi).
  - destruct in_flight as [|[x [r1| | | |]] in_flight]; try by apply IH.
    destruct (Hord 0%nat x _ eq_refl) as [Hidx Hob].
    intros (o & log1 & log2 & -> & H1 & H2)%yield_trail; [|done|done].
    apply woven_yield; [done|]. apply IH; [by eapply in_order_tail|done].
Qed.

(** *** The frame, of any settings *)

Lemma adjudicate_writes D items x o b : writes_in D (adjudicate p items x o b).
Proof. destruct o; [done|]. cbn. by destruct (items !! _). Qed.

Lemma yield_writes D items x (t : Task unit) (k : Batch -> Task Batch) b :
  writes_in D t -> (forall b, writes_in D (k b)) ->
  writes_in D (outcome ← task_try t; b ← adjudicate p items x outcome b; k b).
Proof.
  intros Ht Hk. apply writes_bind; [apply writes_bind; [done|by intros [|[]]]|]. intros [o|e]; [|done].
  apply writes_bind; [apply adjudicate_writes|]. by intros [b'|e].
Qed.

Lemma run_work_writes D moves items (in_flight : list (Work * Task unit)) b :
  Forall (fun q : Work * Task unit => writes_in D q.2) in_flight -> writes_in D (run_work p moves items in_flight b).
Proof.
  revert in_flight b. induction moves as [|[i|] moves IH]; intros in_flight b H; cbn [run_work].
  - revert b. induction H as [|[x t] in_flight Ht H IHf]; intros b; [done|]. by apply yield_writes.
  - destruct (in_flight !! i) as [[x t]|] eqn:Hi; [|by apply IH]. destruct (_ <? _)%N; [|by apply IH].
    pose proof (Forall_lookup_1 _ _ _ _ H Hi) as Ht. apply writes_poll; [exact Ht|]. intros t' Ht'.
    assert (writes_in D (run_work p moves items (<[i := (x, t')]> in_flight) b)) as Hrest
      by by apply IH, Forall_insert.
    by destruct t' as [[a|[e|msg]]| | | |].
  - destruct in_flight as [|[x [r| | | |]] in_flight]; try by apply IH.
    apply yield_writes; [done|]. intros b'. apply IH. by inversion H.
Qed.

Lemma start_work_writes scheds engine works :
  Forall (fun q : Work * Task unit => writes_in (fun bk => bk ∈ map work_dest works) q.2) (start_work p scheds engine works).
Proof.
  apply Forall_lookup. intros i [x t] [Hi ->]%start_work_lookup.
  eapply obeys_writes; [|apply process_work_obeys]. by eapply list_elem_of_fmap_2, list_elem_of_lookup_2.
Qed.

(** *** The trace, of runnable settings *)

Context (Hrun : runnable).

Lemma start_work_in_order scheds engine items works :
  Forall (fun x => (wk_item_idx x < length items)%nat) works -> in_order items (start_work p scheds engine works).
Proof.
  intros Hidx i x t [Hi ->]%start_work_lookup. rewrite Forall_forall in Hidx.
  split; [by eapply Hidx, list_elem_of_lookup_2|]. eapply obeys_mono; [|apply process_work_obeys].
  intros r. apply panics_if_quiet, Hrun.
Qed.

Lemma start_work_works scheds engine works : map fst (start_work p scheds engine works) = works.
Proof.
  apply list_eq. intros i. change (map fst ?l) with (fst <$> l). rewrite list_lookup_fmap. unfold start_work.
  rewrite list_lookup_imap. by destruct (works !! i).
Qed.

Lemma run_work_spec sched engine items works b w :
  Forall (fun x => (wk_item_idx x < length items)%nat) works ->
  exists outs w', interleaved p (bs_streams sched) engine works w outs w' /\
    run_work p (bs_moves sched) items (start_work p (bs_streams sched) engine works) b w =
    (Ok (noted items works outs b), w').
Proof.
  intros Hidx. destruct (run_trail (run_work p (bs_moves sched) items (start_work p (bs_streams sched) engine works) b) w)
    as (log & Ht & Hr).
  apply (run_work_woven _ _ 0) in Ht as (outs & l & <- & Hw & Hwin & Hres); [|by apply start_work_in_order].
  rewrite start_work_works in Hres. exists outs. eexists. split; [exists l; split_and!; [done|exact Hr|done]|]. rewrite <-Hres.
  unfold run_task. by destruct (run _ w).
Qed.

End batch.

(** ** What became of the objects *)

Section outcome.
Context {J : JsonCrate} {SH : ShallowCrate} {SL : ShallowLaws J SH} {R : RegexCrate}.
Context {G : GzipCrate} {GL : GzipLaws G}.
Context {S : Type} {St : ObjectStore S} {Laws : StoreLaws S}.
Context (p : Pipeline).

Abbreviation behavior := (s_behavior (p_settings p)).
Abbreviation destination := (s_destination (p_settings p)).

Context (scheds : nat -> Schedule) (engine : option Engine) (works : list Work).
Context (outs : list (result CoreError unit)) (l : Tagged) (w w' : Env S).
Context (Hl : weave 0 (start_work p scheds engine works) outs l) (Hr : replay (map snd l) w w') (Hsep : apart works).

Lemma view_unchanged x log : x ∈ works -> puts log (view works w) = view works w -> last_put log (work_dest x) = None.
Proof.
  intros Hx H. pose proof (puts_lookup log (view works w) (work_dest x)) as Hp. rewrite H, view_dest in Hp by done.
  by destruct (last_put log (work_dest x)).
Qed.

(** Each task counted itself, and wrote its destination only if it succeeded. *)
Lemma weave_task_post i x o m :
  works !! i = Some x -> outs !! i = Some o ->
  mdelta (if is_ok o then 1 else 0) m (counted_by (increments (events_of i l)) m) /\
  (is_ok o = false -> last_put (events_of i l) (work_dest x) = None) /\
  (dry_run behavior = true -> engine <> None -> last_put (events_of i l) (work_dest x) = None).
Proof.
  intros Hx Ho. pose proof (list_elem_of_lookup_2 _ _ _ Hx) as Hin.
  pose proof (weave_private p scheds engine works outs l Hl w w' Hr Hsep false i x o m ltac:(done) Hx Ho) as H.
  pose proof (wp_run _ _ _ _ _ H (process_work_spec p (scheds i) engine x _)) as (Hc & _ & He & Hd).
  split_and!.
  - destruct o as [[]|e]; exact Hc.
  - intros Hf. apply view_unchanged; [done|]. apply He. by destruct o.
  - intros H1 H2. apply view_unchanged; [done|]. by apply Hd.
Qed.

(** What each task settled at its destination, with a store whose bodies read to their end. *)
Lemma weave_delivered i x e :
  clean_reads (S := S) -> (forall y, y ∈ works -> small_object (work_source y).1 (work_source y).2 w) ->
  engine = Some e -> dry_run behavior = false -> works !! i = Some x -> outs !! i = Some (Ok tt) ->
  (last_put (events_of i l) (work_dest x) = None /\ contents (e_store w) !! work_source x = None /\
     on_missing_object behavior = MoSkip) \/
  exists src, contents (e_store w) !! work_source x = Some src /\
    delivers behavior e src (last_put (events_of i l) (work_dest x)).
Proof.
  intros Hclean Hsmall -> Hdry Hx Ho. pose proof (list_elem_of_lookup_2 _ _ _ Hx) as Hin.
  pose proof (weave_private p scheds _ works outs l Hl w w' Hr Hsep true i x _ Metrics_default ltac:(done) Hx Ho) as H.
  pose proof (wp_run _ _ _ _ _ H
    (process_object_spec p (scheds i) e (wk_object x) (wk_dest_bucket x) (wk_dest_key x) _)) as [_ Hpost].
  cbn [map_err] in Hpost. rewrite Hdry in Hpost. destruct Hpost as [_ Hdel].
  destruct Hdel as [(Hs & Hm & Hp)|(src & Hsrc & Hdel)].
  { split; [exact scripted_clean|]. intros src. cbn [e_store contents scripted_laws sp_objects].
    change (or_bucket (wk_object x), or_key (wk_object x)) with (work_source x).
    rewrite (view_source works w Hsep x Hin). exact (Hsmall x Hin src). }
  - left. split; [by apply view_unchanged|]. split; [|done].
    rewrite <-(view_source works w Hsep x Hin). exact Hm.
  - right. exists src. split; [rewrite <-(view_source works w Hsep x Hin); exact Hsrc|].
    destruct Hdel as [[Hs Hd]|(body & Hput & Hd)].
    + by rewrite view_unchanged.
    + unfold put_at in Hput. cbn in Hput.
      pose proof (puts_lookup (events_of i l) (view works w) (work_dest x)) as Hp.
      rewrite Hput, view_dest in Hp by done. change (wk_dest_bucket x, wk_dest_key x) with (work_dest x) in Hp.
      rewrite lookup_insert_eq in Hp. destruct (last_put _ _); [|done]. by injection Hp as <-.
Qed.
End outcome.

Lemma concat_delta (f : nat -> list (Metrics -> Metrics)) n (outs : list (result CoreError unit)) m :
  (forall i o, outs !! i = Some o -> forall m, bdelta (if is_ok o then 1 else 0) m (counted_by (f (n + i)%nat) m)) ->
  bdelta (Z.of_nat (length (filter (fun o => is_ok o = true) outs))) m
    (counted_by (seq n (length outs) ≫= f) m).
Proof.
  revert n m. induction outs as [|o outs IH]; intros n m H; [apply bdelta_refl|].
  cbn [length seq]. rewrite bind_cons, counted_by_app.
  eapply bdelta_trans; [pose proof (H 0%nat o eq_refl m) as H0; rewrite Nat.add_0_r in H0; exact H0| |].
  - apply IH. intros i o' Ho m'. replace (Datatypes.S n + i)%nat with (n + Datatypes.S i)%nat by lia. by apply H.
  - rewrite filter_cons. destruct (is_ok o); [rewrite decide_True by done|rewrite decide_False by done]; cbn [length]; lia.
Qed.

Lemma failures_delta (outs : list (result CoreError unit)) m :
  bdelta (Z.of_nat (length outs) - Z.of_nat (length (filter (fun o => is_ok o = true) outs))) m
    (counted_by (increments (outs ≫= failure)) m).
Proof.
  revert m. induction outs as [|o outs IH]; intros m; [apply bdelta_refl|].
  rewrite bind_cons, increments_app, counted_by_app, filter_cons. destruct o as [u|e]; cbn [is_ok].
  - rewrite decide_True by done. cbn [length]. replace (_ - _) with
      (Z.of_nat (length outs) - Z.of_nat (length (filter (fun o => is_ok o = true) outs))) by lia. apply IH.
  - rewrite decide_False by done. eapply bdelta_trans; [apply bdelta_failed|apply IH|]. cbn [length]. lia.
Qed.

Section settled.
Context {J : JsonCrate} {SH : ShallowCrate} {SL : ShallowLaws J SH} {R : RegexCrate}.
Context {G : GzipCrate} {GL : GzipLaws G}.
Context {S : Type} {St : ObjectStore S} {Laws : StoreLaws S}.
Context (p : Pipeline).

Abbreviation behavior := (s_behavior (p_settings p)).

(** What a whole batch does to the counters and to the store. *)
Lemma interleaved_post scheds engine works w outs w' :
  interleaved p scheds engine works w outs w' -> apart works ->
  length outs = length works /\
  bdelta (Z.of_nat (length works)) (e_metrics w) (e_metrics w') /\
  (forall bk, bk ∉ map work_dest works -> contents (e_store w') !! bk = contents (e_store w) !! bk) /\
  (dry_run behavior = true -> engine <> None -> same_store w w').
Proof.
  intros (l & Hl & Hr & _) Hsep. pose proof (wv_length _ _ _ _ Hl) as Hlen. rewrite start_work_length in Hlen.
  pose proof (weave_task_post p scheds engine works outs l w w' Hl Hr Hsep) as Htask.
  destruct (replay_effect _ _ _ Hr) as [Hc _].
  assert (forall bk, last_put (map snd l) bk = None -> contents (e_store w') !! bk = contents (e_store w) !! bk) as Hput.
  { intros bk Hbk. by rewrite Hc, puts_lookup, Hbk. }
  split_and!; [done| | |].
  - eapply bdelta_equiv; [symmetry; by eapply weave_counters|]. rewrite counted_by_app, <-Hlen.
    eapply bdelta_trans; [apply concat_delta|apply failures_delta|lia].
    intros i o Ho m. cbn [Nat.add]. pose proof Ho as Hi%lookup_lt_Some. rewrite Hlen in Hi.
    apply lookup_lt_is_Some_2 in Hi as [x Hx]. destruct (Htask i x o m Hx Ho) as [Hd _].
    destruct (is_ok o); by apply mdelta_bdelta.
  - intros bk Hbk. apply Hput. destruct (last_put (map snd l) bk) as [body|] eqn:E; [|done].
    apply (weave_last_put p scheds engine works outs l Hl) in E as (i & x & Hx & <- & _).
    destruct Hbk. by apply list_elem_of_fmap_2, list_elem_of_lookup_2 with i.
  - intros Hdry Heng. apply map_eq. intros bk. apply Hput.
    destruct (last_put (map snd l) bk) as [body|] eqn:E; [|done].
    apply (weave_last_put p scheds engine works outs l Hl) in E as (i & x & Hx & <- & Hlast).
    destruct (weave_lookup p scheds engine works outs l Hl i x Hx) as [o Ho].
    destruct (Htask i x o Metrics_default Hx Ho) as (_ & _ & Hn). by rewrite Hn in Hlast.
Qed.

(** What the batch leaves at the destination of an object. *)
Definition settled (engine : Engine) (x : Work) (o : result CoreError unit) (w w' : Env S) : Prop :=
  let before := contents (e_store w) !! work_dest x in
  let after := contents (e_store w') !! work_dest x in
  match o with
  | Ok _ =>
      (contents (e_store w) !! work_source x = None /\ on_missing_object behavior = MoSkip /\ after = before) \/
      exists src, contents (e_store w) !! work_source x = Some src /\
        (after = before /\ delivers behavior engine src None \/
         exists body, after = Some body /\ delivers behavior engine src (Some body))
  | Err _ => after = before
  end.

(** With a store whose bodies read to their end, and when the objects of the batch that share
    a destination are one object, each object that was processed is settled; so is one that
    failed, unless the batch names it again. *)
Lemma interleaved_settled scheds e works w outs w' :
  interleaved p scheds (Some e) works w outs w' -> apart works -> dry_run behavior = false ->
  clean_reads (S := S) -> (forall y, y ∈ works -> small_object (work_source y).1 (work_source y).2 w) ->
  (forall x y, x ∈ works -> y ∈ works -> work_dest x = work_dest y -> work_source x = work_source y) ->
  forall i x o, works !! i = Some x -> outs !! i = Some o ->
  is_ok o = true \/ (forall j y, works !! j = Some y -> work_dest y = work_dest x -> j = i) ->
  settled e x o w w'.
Proof.
  intros (l & Hl & Hr & _) Hsep Hdry Hclean Hsmall Hsame i x o Hx Ho Honce.
  pose proof (list_elem_of_lookup_2 _ _ _ Hx) as Hin.
  pose proof (weave_task_post p scheds (Some e) works outs l w w' Hl Hr Hsep) as Htask.
  destruct (replay_effect _ _ _ Hr) as [Hc _].
  assert (contents (e_store w') !! work_dest x =
          match last_put (map snd l) (work_dest x) with
          | Some body => Some body | None => contents (e_store w) !! work_dest x end) as Hafter.
  { by rewrite Hc, puts_lookup. }
  unfold settled. rewrite Hafter. clear Hc Hafter.
  destruct (last_put (map snd l) (work_dest x)) as [body|] eqn:E.
  - apply (weave_last_put p scheds _ works outs l Hl) in E as (j & y & Hy & Hd & Hlast).
    destruct (weave_lookup p scheds _ works outs l Hl j y Hy) as [oy Hoy].
    destruct (Htask j y oy Metrics_default Hy Hoy) as (_ & Herr & _).
    rewrite <-Hd in Hlast. destruct oy as [[]|ey]; [|by rewrite Herr in Hlast].
    destruct o as [[]|eo]; cycle 1.
    { destruct Honce as [?|Honce]; [done|]. rewrite (Honce j y Hy Hd) in Hoy. congruence. }
    pose proof (list_elem_of_lookup_2 _ _ _ Hy) as Hiny.
    destruct (weave_delivered p scheds _ works outs l w w' Hl Hr Hsep j y e Hclean Hsmall eq_refl Hdry Hy Hoy)
      as [(Hn & _)|(src & Hsrc & Hdel)]; [congruence|].
    right. exists src. rewrite <-(Hsame y x Hiny Hin Hd). split; [done|]. right. exists body.
    rewrite Hlast in Hdel. by split.
  - destruct o as [[]|eo]; [|done].
    pose proof (weave_put_none l i _ E) as Hn.
    destruct (weave_delivered p scheds _ works outs l w w' Hl Hr Hsep i x e Hclean Hsmall eq_refl Hdry Hx Ho)
      as [(_ & Hm & Hp)|(src & Hsrc & Hdel)]; [by left|].
    right. exists src. split; [done|]. left. rewrite Hn in Hdel. by split.
Qed.

(** Two works of a batch without self-trigger: the destination of one is not the source of
    the other. *)
Lemma batch_work_apart items : Forall (fun x => ~ triggers p x) (batch_work p 0 items) -> apart (batch_work p 0 items).
Proof.
  intros Hall x y Hx Hy Heq. symmetry in Heq. rewrite Forall_forall in Hall. apply (Hall y Hy). unfold triggers, is_self_trigger.
  pose proof (batch_work_dest p 0 items) as Hd. rewrite Forall_forall in Hd. destruct (Hd x Hx) as [Hb Hk].
  unfold work_dest, work_source in Heq. rewrite Hb, Hk in Heq. injection Heq as Hb' Hk'.
  rewrite bool_decide_eq_true_2 by done. cbn [andb]. unfold dest_key_of in *.
  destruct (key_prefix (s_destination (p_settings p))) as [|c prefix] eqn:Hp.
  - by rewrite bool_decide_eq_true_2.
  - rewrite <-Hk'. cbn [str_is_empty negb andb]. rewrite (proj2 (starts_with_spec _ _)) by (by eexists). apply orb_true_r.
Qed.

(** ** The three passes *)

(** What a batch that classified returns. *)
Definition batch_verdict (items : list SourceItem) (outs : list (result CoreError unit))
    (r : result (Exit CoreError) BatchOutcome) : Prop :=
  let works := batch_work p 0 items in
  let hard := decode_hard p 0 items ++ object_hard p items works outs in
  let soft := decode_isolated p 0 items ++ object_isolated p items works outs in
  (exists e, lowest_failure hard e /\ r = Err (Fail e)) \/
  (hard = [] /\ r = Ok (mkBatchOutcome (ack_ids items soft))).

Lemma run_batch_spec sched engine items w :
  let works := batch_work p 0 items in
  let '(r, w') := run_batch p sched engine items w in
  (exists x, x ∈ works /\ triggers p x /\ r = Err (Fail (SelfTrigger (wk_dest_bucket x) (wk_dest_key x))) /\
     e_store w' = e_store w /\ bdelta 1 (e_metrics w) (e_metrics w')) \/
  (Forall (fun x => ~ triggers p x) works /\
   exists w1, e_store w1 = e_store w /\ bdelta 0 (e_metrics w) (e_metrics w1) /\
     (forall bk, bk ∉ map work_dest works -> contents (e_store w') !! bk = contents (e_store w1) !! bk) /\
     (runnable p -> exists outs, interleaved p (bs_streams sched) engine works w1 outs w' /\ batch_verdict items outs r)).
Proof.
  cbv zeta. destruct (run_batch p sched engine items w) as [r w'] eqn:Hrun. unfold run_batch in Hrun.
  destruct (classify_items p 0 items (mkBatch (replicate (length items) false) [] None) w) as [c w1] eqn:Hc.
  pose proof (wp_run _ _ _ _ _ Hc (classify_items_spec p 0 items _ w)) as [Hs H].
  rewrite run_bind, Hc in Hrun. destruct c as [b1|[e|msg]]; [| |done].
  - right. destruct H as (Hd & Hall & ->). cbn [b_item_failed b_work b_hard_error app] in Hrun.
    split; [done|]. exists w1. split; [done|]. split; [done|]. split.
    { intros bk Hbk. change w' with (r, w').2. rewrite <-Hrun. apply (writes_run (fun bk => bk ∈ map work_dest (batch_work p 0 items))); [|exact Hbk].
      apply writes_bind; [|intros [b'|e]; [by destruct (b_hard_error b') as [[]|]|done]].
      case_match; [done|]. apply run_work_writes, start_work_writes. }
    intros Hok. destruct (N.eqb_spec (object_concurrency (s_processing (p_settings p))) 0) as [Hz|_];
      [by destruct Hok; lia|].
    destruct (run_work_spec p Hok sched engine items (batch_work p 0 items)
      (mkBatch (set_all (decode_isolated p 0 items) (replicate (length items) false))
         (batch_work p 0 items) (note_all (decode_hard p 0 items) None)) w1) as (outs & w2 & Ht & Hw).
    { eapply Forall_impl; [apply batch_work_idx|]. cbn. lia. }
    rewrite run_bind, Hw in Hrun. cbn [noted b_item_failed b_hard_error] in Hrun.
    unfold set_all, note_all in Hrun. rewrite <-!foldl_app in Hrun.
    fold (note_all (decode_hard p 0 items ++ object_hard p items (batch_work p 0 items) outs) None) in Hrun.
    fold (set_all (decode_isolated p 0 items ++ object_isolated p items (batch_work p 0 items) outs)
            (replicate (length items) false)) in Hrun.
    exists outs. pose proof (note_all_lowest (decode_hard p 0 items ++ object_hard p items (batch_work p 0 items) outs)) as Hl.
    destruct (note_all _ None) as [[i e]|]; injection Hrun as <- <-; split_and!; try done.
    + left. by exists e.
    + right. split; [done|]. by rewrite collect_failed_spec.
  - injection Hrun as <- <-. left. destruct H as (Hd & x & Hx & Htr & ->). exists x. by split_and!.
Qed.
End settled.
