(* ===== verification/Handle.v ===== *)
(** * The handler's guarantees

    [handle] from the outside: one snapshot per invocation, the guard against
    self-triggering, the frame of what it writes, the batch's verdict and the accounting,
    whatever the concurrency and the interleaving. *)

From S2P Require Import Prelude Model Json Path Regex Rules Reference Index Project Engine.
From S2P Require Import Settings Effects Metrics Ports Task Envelope Buffer Stream Cache Pipeline.
From S2P Require Import Interleave Accounting Source Footprint Objects Weave Batch.
Open Scope Z_scope.

Section handle.
Context {J : JsonCrate} {SH : ShallowCrate} {SL : ShallowLaws J SH} {R : RegexCrate}.
Context {G : GzipCrate} {GL : GzipLaws G}.
Context {S : Type} {St : ObjectStore S} {Laws : StoreLaws S}.
Context {C : Type} {Src : ConfigSource C} {D : EventDecoder}.
Context (ttl : N) (compile : Bytes -> result ConfigError Engine) (p : Pipeline).

Abbreviation behavior := (s_behavior (p_settings p)).

(** The engine an invocation at [now] runs with. *)
Definition engine_at (now : N) (w : World S C) : option Engine :=
  (ConfigStore.get ttl compile now (w_config w, e_metrics (w_env w))).1.

(** The batch is not refused for want of a ruleset. *)
Definition admitted_batch (now : N) (w : World S C) : Prop :=
  engine_at now w <> None \/ on_config_error behavior = CeOpen.

(** ** Lemmas *)

Lemma config_get_metrics now st :
  bdelta 0 st.2 (ConfigStore.get (T := Engine) (S := C) ttl compile now st).2.2.
Proof.
  unfold ConfigStore.get. cbn [snd]. destruct (ConfigStore.is_stale ttl now st.1); [|apply bdelta_refl].
  destruct (refresh_spec compile now st) as [(-> & _)|(-> & _)]; [apply bdelta_refl|].
  apply bdelta_other. set_solver.
Qed.

(** What the inner handler returns, case by case. *)
Definition inner_post (now : N) (payload : Bytes) (w : World S C) (sched : BatchSchedule)
    (r : result (Exit CoreError) BatchOutcome) (w' : World S C) : Prop :=
  w_emitted w' = w_emitted w /\
  ((exists e, r = Err (Fail e) /\ e_store (w_env w') = e_store (w_env w) /\
      bdelta 0 (e_metrics (w_env w)) (e_metrics (w_env w')) /\
      ((exists e', decode payload = Err e') \/ ~ admitted_batch now w)) \/
   (exists items env0, decode payload = Ok items /\ admitted_batch now w /\
      e_store env0 = e_store (w_env w) /\ bdelta 0 (e_metrics (w_env w)) (e_metrics env0) /\
      run_batch p sched (engine_at now w) items env0 = (r, w_env w'))).

Lemma handle_inner_spec sched now payload w :
  wp (handle_inner ttl compile p sched now payload) (inner_post now payload w sched) w.
Proof.
  unfold handle_inner. destruct (decode payload) as [items|e] eqn:Hdec.
  2:{ split; [done|]. left. eexists. split_and!; [done|done|apply bdelta_other; set_solver|left; eauto]. }
  wp_step. unfold wp at 1, config_get. cbv beta.
  pose proof (config_get_metrics now (w_config w, e_metrics (w_env w))) as Hd.
  destruct (ConfigStore.get ttl compile now (w_config w, e_metrics (w_env w))) as [engine [config m]] eqn:Hg.
  assert (engine_at now w = engine) as He by (unfold engine_at; by rewrite Hg).
  cbn [fst snd] in *. set (w1 := mkWorld _ _ _).
  assert (admitted_batch now w ->
    wp (on_env (run_batch p sched engine items)) (inner_post now payload w sched) w1) as Hrun.
  { intros Ha. unfold wp, on_env. subst w1. cbn [w_env].
    destruct (run_batch p sched engine items (mkEnv (e_store (w_env w)) m)) as [r env] eqn:Hr.
    split; [done|]. right. exists items, (mkEnv (e_store (w_env w)) m). rewrite He. by split_and!. }
  unfold admitted_batch in *. rewrite He in Hrun. destruct engine as [engine|]; [by apply Hrun; left|].
  destruct (on_config_error behavior) eqn:Hce; [by apply Hrun; right|].
  split; [done|]. left. eexists. split_and!; [done|done|done|]. right. unfold admitted_batch.
  rewrite He, Hce. by intros [?|?].
Qed.

Lemma inner_quiet now payload w sched r w' : runnable p -> inner_post now payload w sched r w' -> quiet r.
Proof.
  intros Hok (_ & [(e & -> & _)|(items & env0 & _ & _ & _ & _ & Hrun)]); [done|].
  pose proof (run_batch_spec p sched (engine_at now w) items env0) as H. cbv zeta in H. rewrite Hrun in H.
  destruct H as [(x & _ & _ & -> & _)|(_ & w1 & _ & _ & _ & H)]; [done|].
  by destruct (H Hok) as (outs & _ & [(e & _ & ->)|(_ & ->)]).
Qed.

(** The snapshot, unless a panic came before it. *)
Definition emitted {A} (r : result (Exit CoreError) A) (w1 : World S C) : World S C :=
  match r with
  | Err (Panic _) => w1
  | _ => mkWorld (mkEnv (e_store (w_env w1)) (snapshot_and_reset (e_metrics (w_env w1))).2) (w_config w1)
           (w_emitted w1 ++ [(snapshot_and_reset (e_metrics (w_env w1))).1])
  end.

Lemma emitted_store {A} (r : result (Exit CoreError) A) w1 : e_store (w_env (emitted r w1)) = e_store (w_env w1).
Proof. by destruct r as [|[]]. Qed.

Lemma emitted_quiet {A} (r : result (Exit CoreError) A) w1 :
  quiet r -> emitted r w1 = emitted (Ok tt) w1.
Proof. destruct r as [|[e|msg]]; [done|done|]. intros H. by destruct (H msg). Qed.

Lemma handle_spec sched now payload w :
  let '(r, w') := handle ttl compile p sched now payload w in
  exists w1, inner_post now payload w sched r w1 /\ w' = emitted r w1.
Proof.
  pose proof (handle_inner_spec sched now payload w) as H. unfold wp in H.
  unfold handle, emit_snapshot, io_modify, io_try, mbind, io_bind.
  destruct (handle_inner ttl compile p sched now payload w) as [r w1]. cbn [fst snd] in H.
  destruct r as [o|[e|msg]]; cbn [io_of_result]; by exists w1.
Qed.

(** A batch that ran: its classification, its trace and its verdict. *)
Lemma handle_batch sched now payload items w :
  runnable p -> decode payload = Ok items -> admitted_batch now w ->
  let '(r, w') := handle ttl compile p sched now payload w in
  exists env1, w' = mkWorld (mkEnv (e_store env1) (snapshot_and_reset (e_metrics env1)).2) (w_config w')
                     (w_emitted w ++ [(snapshot_and_reset (e_metrics env1)).1]) /\
  ((exists x, x ∈ batch_work p 0 items /\ triggers p x /\
      r = Err (Fail (SelfTrigger (wk_dest_bucket x) (wk_dest_key x))) /\
      e_store env1 = e_store (w_env w) /\ bdelta 1 (e_metrics (w_env w)) (e_metrics env1)) \/
   (Forall (fun x => ~ triggers p x) (batch_work p 0 items) /\
    exists env0 outs, e_store env0 = e_store (w_env w) /\ bdelta 0 (e_metrics (w_env w)) (e_metrics env0) /\
      interleaved p (bs_streams sched) (engine_at now w) (batch_work p 0 items) env0 outs env1 /\
      batch_verdict p items outs r)).
Proof.
  intros Hok Hdec Ha. pose proof (handle_spec sched now payload w) as H.
  destruct (handle ttl compile p sched now payload w) as [r w'].
  destruct H as (w1 & Hpost & ->). pose proof (inner_quiet _ _ _ _ _ _ Hok Hpost) as Hq. destruct Hpost as [Hem H].
  exists (w_env w1). rewrite (emitted_quiet r) by done. cbn [emitted w_config]. rewrite Hem. split; [done|].
  destruct H as [(e & _ & _ & _ & [[e' He]|Hn])|(items' & env0 & Hdec' & _ & Hs & Hd & Hrun)];
    [congruence|done|]. rewrite Hdec in Hdec'. injection Hdec' as <-.
  pose proof (run_batch_spec p sched (engine_at now w) items env0) as H. cbv zeta in H. rewrite Hrun in H.
  destruct H as [(x & H1 & H2 & H3 & H4 & H5)|(Hall & w2 & H1 & H2 & _ & (outs & H3 & H4)%(fun f => f Hok))].
  - left. exists x. split_and!; [done|done|done|congruence|]. by eapply bdelta_trans.
  - right. split; [done|]. exists w2, outs. split_and!; [congruence| |done|done]. by eapply bdelta_trans.
Qed.

(** The inner handler keeps the balance of the records. *)
Lemma inner_balance now payload w sched r w' :
  runnable p -> inner_post now payload w sched r w' ->
  cong (imbalance (e_metrics (w_env w'))) (imbalance (e_metrics (w_env w))).
Proof.
  intros Hok (_ & [(e & _ & _ & [_ Hb] & _)|(items & env0 & _ & _ & _ & [_ Hb] & Hrun)]); [done|].
  pose proof (run_batch_spec p sched (engine_at now w) items env0) as H. cbv zeta in H. rewrite Hrun in H.
  destruct H as [(x & _ & _ & _ & _ & [_ Hb'])|(Hall & w1 & _ & [_ Hb'] & _ & (outs & Ht & _)%(fun f => f Hok))]; [by rewrite Hb'|].
  apply interleaved_post in Ht as (_ & [_ Hb2] & _); [|by apply batch_work_apart]. by rewrite Hb2, Hb'.
Qed.

(** What an [Ok] outcome says of every item. *)
Lemma verdict_acked items outs ids i item :
  length outs = length (batch_work p 0 items) ->
  batch_verdict p items outs (Ok (mkBatchOutcome ids)) -> items !! i = Some item ->
  (exists ack, si_ack_id item = Some ack /\ ack ∈ ids) \/
  (si_decode_error item = None /\ forall k x, batch_work p 0 items !! k = Some x ->
     wk_item_idx x = i -> outs !! k = Some (Ok tt)).
Proof.
  intros Hlen [(e & _ & ?)|[Hhard [= ->]]] Hi; [done|]. apply app_eq_nil in Hhard as [Hd Ho].
  destruct (si_decode_error item) as [msg|] eqn:He.
  { left. destruct (decode_error_isolated p 0 items i item msg Hd Hi He) as [Hiso Hin].
    destruct (isolated_ack p item Hiso) as [ack Hack]. exists ack. split; [done|].
    eapply ack_ids_elem; [done|done|]. apply elem_of_app. by left. }
  destruct (decide (i ∈ object_isolated p items (batch_work p 0 items) outs)) as [Hin|Hout].
  { left. assert (item_isolated p items i = true) as Hiso.
    { clear -Hin. revert outs Hin. induction (batch_work p 0 items) as [|x works IH]; intros [|[[]|e] outs] Hin;
        cbn [object_isolated] in Hin; try by apply elem_of_nil in Hin.
      - by eapply IH.
      - apply elem_of_app in Hin as [Hin|Hin]; [|by eapply IH].
        destruct (item_isolated p items (wk_item_idx x)) eqn:E; [|by apply elem_of_nil in Hin].
        apply list_elem_of_singleton in Hin as ->. done. }
    unfold item_isolated in Hiso. rewrite Hi in Hiso. destruct (isolated_ack p item Hiso) as [ack Hack].
    exists ack. split; [done|]. eapply ack_ids_elem; [done|done|]. apply elem_of_app. by right. }
  right. split; [done|]. intros k x Hx <-.
  destruct (outs !! k) as [[[]|e]|] eqn:Hk; [done| |].
  - destruct (object_error_isolated p items _ outs k x e Ho Hx Hk) as [_ H]. done.
  - apply lookup_ge_None in Hk. apply lookup_lt_Some in Hx. lia.
Qed.

Lemma handle_acked sched now payload w w' ids :
  runnable p -> handle ttl compile p sched now payload w = (Ok (mkBatchOutcome ids), w') ->
  exists items env0 outs env1, decode payload = Ok items /\
    interleaved p (bs_streams sched) (engine_at now w) (batch_work p 0 items) env0 outs env1 /\
    e_store env0 = e_store (w_env w) /\ e_store (w_env w') = e_store env1 /\
    forall i item, items !! i = Some item ->
      (exists ack, si_ack_id item = Some ack /\ ack ∈ ids) \/
      (si_decode_error item = None /\ forall k x, batch_work p 0 items !! k = Some x ->
         wk_item_idx x = i -> outs !! k = Some (Ok tt)).
Proof.
  intros Hok Hh. pose proof (handle_spec sched now payload w) as H. rewrite Hh in H.
  destruct H as (w1 & (_ & [(e & ? & _)|(items & env0 & Hdec & _ & Hs & _ & Hrun)]) & ->); [done|].
  pose proof (run_batch_spec p sched (engine_at now w) items env0) as H. cbv zeta in H. rewrite Hrun in H.
  destruct H as [(x & _ & _ & ? & _)|(Hall & w2 & Hs2 & _ & _ & (outs & Ht & Hv)%(fun f => f Hok))]; [done|].
  exists items, w2, outs, (w_env w1). split_and!; [done|done|congruence|done|].
  intros i item. apply verdict_acked; [|done]. by apply interleaved_post in Ht as [? _]; [|apply batch_work_apart].
Qed.
(** A batch that ran and did not trigger itself. *)
Lemma handle_verdict_weave sched now payload items w :
  runnable p ->
  decode payload = Ok items -> admitted_batch now w -> Forall (fun x => ~ triggers p x) (batch_work p 0 items) ->
  let '(r, w') := handle ttl compile p sched now payload w in
  exists env0 outs env1, e_store env0 = e_store (w_env w) /\ e_store (w_env w') = e_store env1 /\
    interleaved p (bs_streams sched) (engine_at now w) (batch_work p 0 items) env0 outs env1 /\
    length outs = length (batch_work p 0 items) /\ batch_verdict p items outs r.
Proof.
  intros Hok Hdec Ha Hno. pose proof (handle_batch sched now payload items w Hok Hdec Ha) as H.
  destruct (handle ttl compile p sched now payload w) as [r w'].
  destruct H as (env1 & -> & [(y & Hy & Hty & _)|(_ & env0 & outs & H1 & _ & H3 & H4)]).
  - rewrite Forall_forall in Hno. by destruct (Hno y Hy).
  - exists env0, outs, env1. split_and!; try done. by apply interleaved_post in H3 as [H3 _]; [|apply batch_work_apart].
Qed.
End handle.

(** ** Properties *)

(** C13: the self-trigger guard.  When any object of the batch that passes the key filter
    would be written back where the batch reads from, the invocation fails with
    [SelfTrigger] and the store is as it was: no object was read or written before the
    guard fired. *)
Theorem handle_self_trigger {J : JsonCrate} {SH : ShallowCrate} {SL : ShallowLaws J SH}
    {R : RegexCrate} {G : GzipCrate} {GL : GzipLaws G} {S} {St : ObjectStore S} {Laws : StoreLaws S}
    {C} {Src : ConfigSource C} {D : EventDecoder} ttl compile p sched now payload items (w : World S C) x :
  decode payload = Ok items -> admitted_batch ttl compile p now w ->
  x ∈ batch_work p 0 items -> triggers p x ->
  let '(r, w') := handle ttl compile p sched now payload w in
  e_store (w_env w') = e_store (w_env w) /\
  exists y, y ∈ batch_work p 0 items /\ triggers p y /\
    r = Err (Fail (SelfTrigger (wk_dest_bucket y) (wk_dest_key y))).
Proof.
  intros Hdec Ha Hx Ht. pose proof (handle_spec ttl compile p sched now payload w) as H.
  destruct (handle ttl compile p sched now payload w) as [r w'].
  destruct H as (w1 & (_ & [(e & _ & _ & _ & [[e' He]|Hn])|(items' & env0 & Hdec' & _ & Hs & _ & Hrun)]) & ->);
    [congruence|done|]. rewrite Hdec in Hdec'. injection Hdec' as <-. rewrite emitted_store.
  pose proof (run_batch_spec p sched (engine_at ttl compile now w) items env0) as H. cbv zeta in H. rewrite Hrun in H.
  destruct H as [(y & Hy & Hty & -> & Hs' & _)|(Hall & _)]; [split; [congruence|by exists y]|].
  rewrite Forall_forall in Hall. by destruct (Hall x Hx).
Qed.

(** C5: the handler writes only to its destination, and never over its input.  Every object
    of the store that an invocation changes is the destination of an object of the batch,
    [destination.bucket] and [key_prefix] followed by its key, and none of the objects of
    the batch is read from there. *)
Theorem handle_writes_only_destinations {J : JsonCrate} {SH : ShallowCrate} {SL : ShallowLaws J SH}
    {R : RegexCrate} {G : GzipCrate} {GL : GzipLaws G} {S} {St : ObjectStore S} {Laws : StoreLaws S}
    {C} {Src : ConfigSource C} {D : EventDecoder} ttl compile p sched now payload (w : World S C) bk :
  let w' := (handle ttl compile p sched now payload w).2 in
  contents (e_store (w_env w')) !! bk <> contents (e_store (w_env w)) !! bk ->
  exists items x, decode payload = Ok items /\ x ∈ batch_work p 0 items /\
    bk = (bucket (s_destination (p_settings p)), key_prefix (s_destination (p_settings p)) +:+ or_key (wk_object x)) /\
    Forall (fun y => bk <> (or_bucket (wk_object y), or_key (wk_object y))) (batch_work p 0 items).
Proof.
  cbv zeta. pose proof (handle_spec ttl compile p sched now payload w) as H.
  destruct (handle ttl compile p sched now payload w) as [r w']. cbn [snd].
  destruct H as (w1 & (_ & [(e & _ & Hs & _)|(items & env0 & Hdec & _ & Hs & _ & Hrun)]) & ->);
    rewrite emitted_store; intros Hne; [by rewrite Hs in Hne|].
  pose proof (run_batch_spec p sched (engine_at ttl compile now w) items env0) as H. cbv zeta in H.
  rewrite Hrun in H. destruct H as [(x & _ & _ & _ & Hs' & _)|(Hall & w2 & Hs' & _ & Hframe & _)].
  { by rewrite Hs', Hs in Hne. }
  pose proof (batch_work_apart p items Hall) as Hsep.
  destruct (decide (bk ∈ map work_dest (batch_work p 0 items))) as [Hin|Hout].
  2:{ destruct Hne. by rewrite Hframe, Hs', Hs. }
  apply list_elem_of_fmap in Hin as (x & -> & Hx). exists items, x. split; [done|]. split; [done|].
  pose proof (batch_work_dest p 0 items) as Hd. rewrite Forall_forall in Hd. destruct (Hd x Hx) as [Hb Hk].
  split; [unfold work_dest; by rewrite Hb, Hk|]. apply Forall_forall. intros y Hy Heq.
  by destruct (Hsep x y Hx Hy).
Qed.

(** C6: the verdict of a batch.  An event that decodes, that is not refused for want of a
    ruleset and that names no self-triggering object has every object that passes the key
    filter attempted, whatever becomes of the others and however they interleave.  The
    invocation fails with the error of the lowest item that is not isolated, a message that
    did not decode included, and otherwise reports exactly the ack ids of the isolated items
    that did not decode or had an object that failed.  (A batch that does name a
    self-triggering object attempts none of its objects.)  The settings are
    [runnable], as all that [Settings::validate] accepts are. *)
Theorem handle_verdict {J : JsonCrate} {SH : ShallowCrate} {SL : ShallowLaws J SH}
    {R : RegexCrate} {G : GzipCrate} {GL : GzipLaws G} {S} {St : ObjectStore S} {Laws : StoreLaws S}
    {C} {Src : ConfigSource C} {D : EventDecoder} ttl compile p sched now payload items (w : World S C) :
  runnable p -> decode payload = Ok items -> admitted_batch ttl compile p now w ->
  Forall (fun x => ~ triggers p x) (batch_work p 0 items) ->
  let '(r, w') := handle ttl compile p sched now payload w in
  exists env0 outs env1, e_store env0 = e_store (w_env w) /\ e_store (w_env w') = e_store env1 /\
    interleaved p (bs_streams sched) (engine_at ttl compile now w) (batch_work p 0 items) env0 outs env1 /\
    length outs = length (batch_work p 0 items) /\ batch_verdict p items outs r.
Proof. apply handle_verdict_weave. Qed.

(** C21: one snapshot per invocation.  With settings a batch runs with ([runnable]: a gzip
    level of at most 9 and an [object_concurrency] of at least 1, as [Settings::validate]
    demands) and whatever the payload, the store and the configuration do, [handle] returns
    without a panic, emits exactly one snapshot and leaves every counter at zero; the
    snapshot's [RecordsIn - RecordsKept - RecordsDropped] is what it was when the invocation
    started, modulo 2^64. *)
Theorem handle_emits_one_snapshot {J : JsonCrate} {SH : ShallowCrate} {SL : ShallowLaws J SH}
    {R : RegexCrate} {G : GzipCrate} {GL : GzipLaws G} {S} {St : ObjectStore S} {Laws : StoreLaws S}
    {C} {Src : ConfigSource C} {D : EventDecoder} ttl compile p sched now payload (w : World S C) :
  runnable p ->
  let '(r, w') := handle ttl compile p sched now payload w in
  (forall msg, r <> Err (Panic msg)) /\
  exists snap, w_emitted w' = w_emitted w ++ [snap] /\
    (forall c, m_counters (e_metrics (w_env w')) c = 0%N) /\ m_rule_drops (e_metrics (w_env w')) = ∅ /\
    cong (Z.of_N (ms_records_in snap) - Z.of_N (ms_records_kept snap) - Z.of_N (ms_records_dropped snap))
         (imbalance (e_metrics (w_env w))).
Proof.
  intros Hok. pose proof (handle_spec ttl compile p sched now payload w) as H.
  destruct (handle ttl compile p sched now payload w) as [r w']. destruct H as (w1 & Hpost & ->).
  pose proof (inner_quiet _ _ _ _ _ _ _ _ _ Hok Hpost) as Hq. split; [exact Hq|]. eexists.
  rewrite (emitted_quiet r) by done.
  split; [cbn [emitted w_emitted]; by rewrite (proj1 Hpost)|]. split; [done|]. split; [done|].
  exact (inner_balance ttl compile p now payload w sched r w1 Hok Hpost).
Qed.

(** C20: every object of the batch is accounted for.  With [runnable] settings, the snapshot
    of an invocation that ran its batch, one without a self-triggering object, counts each
    object that passed the key filter exactly once, as processed, skipped or failed, on top
    of what the counters held before, modulo 2^64. *)
Theorem handle_accounts_every_object {J : JsonCrate} {SH : ShallowCrate} {SL : ShallowLaws J SH}
    {R : RegexCrate} {G : GzipCrate} {GL : GzipLaws G} {S} {St : ObjectStore S} {Laws : StoreLaws S}
    {C} {Src : ConfigSource C} {D : EventDecoder} ttl compile p sched now payload items (w : World S C) :
  runnable p -> decode payload = Ok items -> admitted_batch ttl compile p now w ->
  Forall (fun x => ~ triggers p x) (batch_work p 0 items) ->
  let w' := (handle ttl compile p sched now payload w).2 in
  exists snap, w_emitted w' = w_emitted w ++ [snap] /\
    cong (Z.of_N (ms_objects_processed snap) + Z.of_N (ms_objects_skipped snap) + Z.of_N (ms_objects_failed snap))
         (totals (e_metrics (w_env w)) + Z.of_nat (length (batch_work p 0 items))).
Proof.
  cbv zeta. intros Hok Hdec Ha Hno. pose proof (handle_batch ttl compile p sched now payload items w Hok Hdec Ha) as H.
  destruct (handle ttl compile p sched now payload w) as [r w']. cbn [snd].
  destruct H as (env1 & -> & [(y & Hy & Hty & _)|(_ & env0 & outs & _ & Hd & Ht & _)]).
  - rewrite Forall_forall in Hno. by destruct (Hno y Hy).
  - eexists. split; [done|]. apply interleaved_post in Ht as (_ & Hd' & _); [|by apply batch_work_apart].
    exact (bd_totals _ _ _ (bdelta_trans _ _ _ _ _ _ Hd Hd' eq_refl)).
Qed.

(** A dry run with a ruleset writes nothing: whatever the batch holds and whatever fails,
    the objects of the store are as they were. *)
Theorem handle_dry_run_writes_nothing {J : JsonCrate} {SH : ShallowCrate} {SL : ShallowLaws J SH}
    {R : RegexCrate} {G : GzipCrate} {GL : GzipLaws G} {S} {St : ObjectStore S} {Laws : StoreLaws S}
    {C} {Src : ConfigSource C} {D : EventDecoder} ttl compile p sched now payload (w : World S C) :
  runnable p -> dry_run (s_behavior (p_settings p)) = true -> engine_at ttl compile now w <> None ->
  contents (e_store (w_env (handle ttl compile p sched now payload w).2)) = contents (e_store (w_env w)).
Proof.
  intros Hok Hdry Heng. pose proof (handle_spec ttl compile p sched now payload w) as H.
  destruct (handle ttl compile p sched now payload w) as [r w']. cbn [snd].
  destruct H as (w1 & (_ & [(e & _ & Hs & _)|(items & env0 & Hdec & _ & Hs & _ & Hrun)]) & ->);
    rewrite emitted_store; [by rewrite Hs|].
  pose proof (run_batch_spec p sched (engine_at ttl compile now w) items env0) as H. cbv zeta in H.
  rewrite Hrun in H. destruct H as [(x & _ & _ & _ & Hs' & _)|(Hall & w2 & Hs' & _ & _ & (outs & Ht & _)%(fun f => f Hok))].
  { by rewrite Hs', Hs. }
  apply interleaved_post in Ht as (_ & _ & _ & Hsame); [|by apply batch_work_apart]. unfold same_store in Hsame.
  by rewrite Hsame, Hs', Hs.
Qed.

(** ** Witnesses *)

(** Two messages: one references an object, the other did not decode. *)
Definition demo_items : list SourceItem :=
  [SourceItem.new (Some "m1") [demo_object]; SourceItem.undecodable (Some "m2") (Lit "not json")].

Definition demo_decoder : EventDecoder := {| decode payload := Ok demo_items |}.

Definition demo_world : World (R := ref_regex) InMemoryStore StaticConfigSource :=
  mkWorld demo_store_env (ConfigStore.new (StaticConfigSource.new "rules" NoVersion)) [].

Definition demo_engine_compile (_ : Bytes) : result ConfigError (Engine (R := ref_regex)) := Ok demo_engine.

(** Nothing to interleave. *)
Definition demo_batch_sched : BatchSchedule := mkBatchSchedule [] (fun _ => demo_sched).

(** A pipeline whose destination is its source. *)
Definition looping_pipeline : Pipeline (R := ref_regex) :=
  mkPipeline ref_regex
    (mkSettings Source_default (mkDestination "trail" "") Processing_default Behavior_default
       Sqs_default RulesSettings_default Observability_default)
    (mkKeyFilter ref_regex "^a\.json$" "Digest").

Definition dry_behavior : Behavior := mkBehavior true CeOpen MoError UoCopy PeCopy TlStream true.

Definition dry_pipeline : Pipeline (R := ref_regex) :=
  mkPipeline ref_regex
    (mkSettings Source_default (mkDestination "siem" "filtered/") Processing_default dry_behavior
       Sqs_default RulesSettings_default Observability_default)
    (mkKeyFilter ref_regex "^a\.json$" "Digest").

Abbreviation run_demo compile pipeline :=
  (handle (J := demo_json) (SH := demo_shallow) (R := ref_regex) (G := ref_gzip) (D := demo_decoder)
     300 compile pipeline demo_batch_sched 0 "event" demo_world).

Lemma demo_runnable : runnable demo_pipeline.
Proof. split; [by intros [=]|reflexivity]. Defined.

Lemma demo_no_trigger : Forall (fun x => ~ triggers demo_pipeline x) (batch_work demo_pipeline 0 demo_items).
Proof.
  assert (batch_work demo_pipeline 0 demo_items = [mkWork 0 demo_object "siem" "filtered/a.json"]) as ->
    by (vm_compute; reflexivity).
  apply List.Forall_cons; [|apply List.Forall_nil]. intros H. vm_compute in H. discriminate.
Defined.

Lemma demo_engine_at : engine_at 300 demo_engine_compile 0 demo_world <> None.
Proof.
  assert (bool_decide (is_Some (engine_at 300 demo_engine_compile 0 demo_world)) = true) as H by (vm_compute; reflexivity).
  intros E. rewrite E in H. discriminate.
Defined.

Lemma demo_admitted : admitted_batch 300 demo_engine_compile demo_pipeline 0 demo_world.
Proof. left. exact demo_engine_at. Defined.

Lemma handle_self_trigger_witness :
  e_store (w_env (run_demo demo_engine_compile looping_pipeline).2) = e_store (w_env demo_world).
Proof.
  pose proof (handle_self_trigger (J := demo_json) (SH := demo_shallow) (SL := demo_shallow_laws demo_json)
    (G := ref_gzip) (D := demo_decoder) 300 demo_engine_compile looping_pipeline demo_batch_sched 0 "event"
    demo_items demo_world (mkWork 0 demo_object "trail" "a.json") eq_refl) as H.
  assert (admitted_batch 300 demo_engine_compile looping_pipeline 0 demo_world) as Ha
    by (left; exact demo_engine_at).
  assert (mkWork 0 demo_object "trail" "a.json" ∈ batch_work looping_pipeline 0 demo_items) as Hx by (left).
  specialize (H Ha Hx eq_refl).
  destruct (run_demo demo_engine_compile looping_pipeline) as [r w']. exact (proj1 H).
Defined.

Lemma handle_writes_only_destinations_witness :
  exists items x, decode (EventDecoder := demo_decoder) "event" = Ok items /\ x ∈ batch_work demo_pipeline 0 items /\
    or_key (wk_object x) = "a.json".
Proof.
  destruct (handle_writes_only_destinations (J := demo_json) (SH := demo_shallow) (SL := demo_shallow_laws demo_json)
    (G := ref_gzip) (D := demo_decoder) 300 demo_engine_compile demo_pipeline demo_batch_sched 0 "event"
    demo_world ("siem", "filtered/a.json")) as (items & x & Hd & Hx & Hk & _).
  - vm_compute. discriminate.
  - exists items, x. split; [exact Hd|]. split; [exact Hx|]. cbn in Hk. congruence.
Defined.

Lemma handle_verdict_witness :
  exists outs, batch_verdict demo_pipeline demo_items outs (run_demo demo_engine_compile demo_pipeline).1 /\
    (run_demo demo_engine_compile demo_pipeline).1 = Ok (mkBatchOutcome ["m2"]).
Proof.
  pose proof (handle_verdict (J := demo_json) (SH := demo_shallow) (SL := demo_shallow_laws demo_json)
    (G := ref_gzip) (D := demo_decoder) 300 demo_engine_compile demo_pipeline demo_batch_sched 0 "event"
    demo_items demo_world demo_runnable eq_refl demo_admitted demo_no_trigger) as H.
  assert ((run_demo demo_engine_compile demo_pipeline).1 = Ok (mkBatchOutcome ["m2"])) as Hr
    by (vm_compute; reflexivity).
  destruct (run_demo demo_engine_compile demo_pipeline) as [r w'].
  destruct H as (env0 & outs & env1 & _ & _ & _ & _ & H). exists outs. by split.
Defined.

Lemma handle_accounts_every_object_witness :
  exists snap, w_emitted (run_demo demo_engine_compile demo_pipeline).2 = [snap] /\
    cong (Z.of_N (ms_objects_processed snap) + Z.of_N (ms_objects_skipped snap) + Z.of_N (ms_objects_failed snap)) 1.
Proof.
  exact (handle_accounts_every_object (J := demo_json) (SH := demo_shallow) (SL := demo_shallow_laws demo_json)
    (G := ref_gzip) (D := demo_decoder) 300 demo_engine_compile demo_pipeline demo_batch_sched 0 "event"
    demo_items demo_world demo_runnable eq_refl demo_admitted demo_no_trigger).
Defined.

Lemma handle_dry_run_writes_nothing_witness :
  contents (e_store (w_env (run_demo demo_engine_compile dry_pipeline).2)) = contents (e_store (w_env demo_world)).
Proof.
  apply (handle_dry_run_writes_nothing (SL := demo_shallow_laws demo_json)); [split; [by intros [=]|reflexivity]|reflexivity|].
  exact demo_engine_at.
Defined.

Lemma handle_emits_one_snapshot_witness :
  exists snap, w_emitted (run_demo demo_engine_compile demo_pipeline).2 = [snap] /\
    m_counters (e_metrics (w_env (run_demo demo_engine_compile demo_pipeline).2)) RecordsIn = 0%N.
Proof.
  pose proof (handle_emits_one_snapshot (J := demo_json) (SH := demo_shallow) (SL := demo_shallow_laws demo_json)
    (G := ref_gzip) (D := demo_decoder) 300 demo_engine_compile demo_pipeline demo_batch_sched 0 "event"
    demo_world demo_runnable) as H.
  destruct (run_demo demo_engine_compile demo_pipeline) as [r w'].
  destruct H as (_ & snap & He & Hz & _). exists snap. split; [exact He|]. cbn. apply Hz.
Defined.

(** The hypothesis on the engine is needed: without a ruleset and with [on_config_error =
    open] the objects are copied whole, dry run or not. *)
Lemma dry_run_without_rules_writes :
  dry_run (s_behavior (p_settings dry_pipeline)) = true /\
  InMemoryStore.object "siem" "filtered/a.json"
    (e_store (w_env (run_demo (fun _ => Err (CfgParse (Lit "bad rules"))) dry_pipeline).2)) = Some "three".
Proof. split; vm_compute; reflexivity. Qed.
