(* ===== verification/Concurrent.v ===== *)
(** * Concurrency changes nothing that is decided

    The comment on pass 2 of [core/src/pipeline.rs]: results come in submission order, so
    the batch decides the same at any [object_concurrency], and at 1 it is the sequential
    path.  Over a store whose answers depend on its objects alone ([SteadyStore]) the whole
    invocation is the same: its verdict, its snapshot and the objects it leaves. *)

From S2P Require Import Prelude Model Json Path Regex Rules Reference Index Project Engine.
From S2P Require Import Settings Effects Metrics Ports Task Envelope Buffer Stream Cache Pipeline.
From S2P Require Import Interleave Accounting Source Footprint Objects Weave Batch Handle.
Open Scope nat_scope.

(** ** Specification *)

(** A read is answered by the object alone, a write by what is written. *)
Class SteadyStore (S : Type) {St : ObjectStore S} {Laws : StoreLaws S} := {
  steady_get_stream b k (s s' : S) :
    contents s !! (b, k) = contents s' !! (b, k) -> (store_get_stream b k s).1 = (store_get_stream b k s').1;
  steady_put b k body meta (s s' : S) : (store_put b k body meta s).1 = (store_put b k body meta s').1;
  steady_put_stream b k body meta (s s' : S) :
    (store_put_stream b k body meta s).1 = (store_put_stream b k body meta s').1;
}.

(** The same settings at another [processing.object_concurrency]. *)
Definition with_concurrency {R : RegexCrate} (n : N) (p : Pipeline) : Pipeline :=
  let s := p_settings p in
  let c := s_processing s in
  mkPipeline _
    (mkSettings (s_source s) (s_destination s)
       (mkProcessing (mode c) (stream_threshold_bytes c) (max_object_bytes c) (multipart_part_bytes c) (gzip_level c)
          n (gzip_chunks c))
       (s_behavior s) (s_sqs s) (s_rules s) (s_observability s))
    (p_key_filter p).

(** Two objects of the batch that go to one destination are one object, processed alike. *)
Definition one_object_per_dest (scheds : nat -> Schedule) (works : list Work) : Prop :=
  forall i j x y, works !! i = Some x -> works !! j = Some y -> work_dest x = work_dest y ->
    wk_object x = wk_object y /\ scheds i = scheds j.

#[export] Instance in_memory_steady : SteadyStore InMemoryStore.
Proof.
  split.
  - intros b k s s' H. cbn in *. unfold InMemoryStore.get_stream, InMemoryStore.get, InMemoryStore.object. by rewrite H.
  - done.
  - intros b k body meta s s'. cbn. unfold InMemoryStore.put_stream. by destruct (drain_all _ body) as [buf [e|]].
Defined.

(** ** Lemmas: one future at a time *)

Section sequential.
Context {J : JsonCrate} {SH : ShallowCrate} {R : RegexCrate} {G : GzipCrate}.
Context {S : Type} {St : ObjectStore S}.
Context (p : Pipeline) (Hone : object_concurrency (s_processing (p_settings p)) = 1%N).

(** The head's task, partly run: the rest of the queue takes it from there. *)
Lemma finish_head items x (t : Task unit) in_flight b (w : Env S) :
  run (finish_work p items ((x, t) :: in_flight) b) w =
  let '(r, w) := run t w in run (finish_work p items ((x, Ret r) :: in_flight) b) w.
Proof.
  cbn [finish_work]. unfold mbind, task_bind, task_try. rewrite !run_prog_bind.
  destruct (run t w) as [[a|[e|msg]] w1]; cbn [run prog_bind]; by rewrite ?run_prog_bind.
Qed.

(** With a window of one the only future in flight is the head. *)
Lemma run_work_sequential moves items in_flight b (w : Env S) :
  run (run_work p moves items in_flight b) w = run (finish_work p items in_flight b) w.
Proof.
  revert in_flight b w. induction moves as [|[i|] moves IH]; intros in_flight b w; cbn [run_work]; [done| |].
  - destruct (in_flight !! i) as [[x t]|] eqn:Hi; [|apply IH]. rewrite Hone.
    destruct (N.ltb_spec (N.of_nat i) 1) as [Hlt|_]; [|apply IH].
    assert (i = 0) as -> by lia. destruct in_flight as [|head in_flight]; [done|]. injection Hi as ->.
    cbn [list_insert insert]. rewrite finish_head.
    apply (run_poll t _ (fun r w => run (finish_work p items ((x, Ret r) :: in_flight) b) w)).
    clear w. intros t' w. destruct t' as [[a|[e|msg]]| | | |]; rewrite ?IH; try apply finish_head. done.
  - destruct in_flight as [|[x [r| | | |]] in_flight]; try apply IH.
    cbn [finish_work]. unfold mbind, task_bind. rewrite !run_prog_bind.
    destruct (run (task_try (Ret r)) w) as [[o|?] w1]; [|done]. rewrite !run_prog_bind.
    destruct (run (adjudicate p items x o b) w1) as [[b1|?] w2]; [apply IH|done].
Qed.
End sequential.

(** ** Lemmas: steady answers *)

Section steady.
Context {S : Type} {St : ObjectStore S} {Laws : StoreLaws S} {Steady : SteadyStore S}.

(** The answer of [e] is the one [s] gives. *)
Definition answered (s : S) (e : Exchange) : Prop :=
  match e with
  | EvGetStream b k x => x = (store_get_stream b k s).1
  | EvPut b k body meta x => x = (store_put b k body meta s).1
  | EvPutStream b k body meta x => x = (store_put_stream b k body meta s).1
  | EvCount _ => True
  end.

(** A program that gets the same answers does the same. *)
Lemma trail_determined {Q} (s : S) (t : Prog Q) log log' r r' :
  trail t log (Ret r) -> trail t log' (Ret r') -> Forall (answered s) log -> Forall (answered s) log' ->
  log = log' /\ r = r'.
Proof.
  intros Ht Ht' Hlog. revert t Ht log' Ht'. induction Hlog as [|e log He Hlog IH]; intros t Ht log' Ht' Hlog'.
  - cbn in Ht. subst t. apply trail_ret in Ht' as [-> [= ->]]. done.
  - destruct Ht as (t1 & Hr & Ht). destruct Hlog' as [|e' log' He' Hlog'].
    { cbn in Ht'. by subst t. }
    destruct Ht' as (t1' & Hr' & Ht').
    assert (e = e' /\ t1 = t1') as [<- <-].
    { destruct t, e; try done; destruct e'; try done; cbn in *; destruct_and?; subst; by split. }
    destruct (IH t1 Ht log' Ht' Hlog') as [-> ->]. done.
Qed.

(** As long as the programs write only to [D], and read elsewhere, the store answers as it did
    at the start. *)
Lemma replay_answered (D : list (string * string)) log (s : S) (w w' : Env S) :
  replay log w w' -> (forall bk, bk ∉ D -> contents (e_store w) !! bk = contents s !! bk) ->
  Forall (fun e => exists src dest, within src dest e /\ dest ∈ D /\ src ∉ D) log -> Forall (answered s) log.
Proof.
  intros Hr HD Hlog. revert w Hr HD. induction Hlog as [|e log (src & dest & Hw & Hd & Hs) Hlog IH]; intros w Hr HD; [done|].
  destruct Hr as (w1 & He & Hr). constructor.
  - destruct e as [b k x|b k body meta x|b k body meta x|f]; cbn in *; [| | |done]; destruct He as [He _].
    + subst src. rewrite <-(steady_get_stream b k (e_store w) s (HD _ Hs)). by rewrite He.
    + rewrite <-(steady_put b k body meta (e_store w) s). by rewrite He.
    + rewrite <-(steady_put_stream b k body meta (e_store w) s). by rewrite He.
  - apply (IH w1 Hr). intros bk Hbk. rewrite <-(HD bk Hbk). apply happens_effect in He as [-> _].
    rewrite put_event_lookup. assert (put_event e ∅ !! bk = None) as ->; [|done].
    apply (last_put_within src dest [e]); [by constructor|]. by intros ->.
Qed.

Lemma events_answered i l s : Forall (answered s) (map snd l) -> Forall (answered s) (events_of i l).
Proof.
  rewrite !Forall_forall. intros H e He. apply H. unfold events_of in He.
  apply list_elem_of_omap in He as ([tag e'] & He & Htag). cbn in Htag. case_decide; [|done]. injection Htag as <-.
  by apply (list_elem_of_fmap_2 snd) in He.
Qed.
End steady.

(** ** Lemmas: two weaves of the same batch *)

Section weaves.
Context {J : JsonCrate} {SH : ShallowCrate} {R : RegexCrate} {G : GzipCrate} {GL : GzipLaws G}.
Context {S : Type} {St : ObjectStore S} {Laws : StoreLaws S} {Steady : SteadyStore S}.
Context (p : Pipeline) (scheds : nat -> Schedule) (engine : option Engine) (works : list Work).
Context (Hsep : apart works) (Hdest : one_object_per_dest scheds works).
Context (w : Env S).

Lemma weave_answered outs l w' :
  weave 0 (start_work p scheds engine works) outs l -> replay (map snd l) w w' ->
  Forall (answered (e_store w)) (map snd l).
Proof.
  intros Hl Hr. eapply (replay_answered (map work_dest works)); [exact Hr|done|]. by eapply weave_within.
Qed.

(** Objects that share a task and its inputs leave the same log, in one weave or two. *)
Lemma weave_tasks_agree outs l w1 outs' l' w1' i j x y o o' :
  weave 0 (start_work p scheds engine works) outs l -> replay (map snd l) w w1 ->
  weave 0 (start_work p scheds engine works) outs' l' -> replay (map snd l') w w1' ->
  works !! i = Some x -> works !! j = Some y -> work_dest x = work_dest y ->
  outs !! i = Some o -> outs' !! j = Some o' -> events_of i l = events_of j l' /\ o = o'.
Proof.
  intros Hl Hr Hl' Hr' Hx Hy Hd Ho Ho'. destruct (Hdest i j x y Hx Hy Hd) as [Hobj Hsched].
  pose proof (weave_task p scheds engine works outs l Hl i x o Hx Ho) as Ht.
  pose proof (weave_task p scheds engine works outs' l' Hl' j y o' Hy Ho') as Ht'.
  assert (process_work p (scheds j) engine y = process_work p (scheds i) engine x) as Heq.
  { injection Hd as Hb Hk. unfold process_work. by rewrite Hsched, Hobj, Hb, Hk. }
  rewrite Heq in Ht'.
  destruct (trail_determined (e_store w) _ _ _ _ _ Ht Ht') as [He Hout];
    [eapply events_answered, weave_answered; done..|]. split; [done|].
  destruct o as [[]|], o' as [[]|]; [done|done|done|]. by injection Hout as ->.
Qed.

(** Whatever the two orders, the results, the objects and the counters are the same. *)
Lemma interleaved_determined n outs w1 outs' w1' :
  interleaved p scheds engine works w outs w1 -> interleaved (with_concurrency n p) scheds engine works w outs' w1' ->
  outs = outs' /\ contents (e_store w1) = contents (e_store w1') /\ e_metrics w1 ≡ e_metrics w1'.
Proof.
  intros (l & Hl & Hr & _) (l' & Hl' & Hr' & _). change (start_work (with_concurrency n p)) with (start_work p) in Hl'.
  pose proof (wv_length _ _ _ _ Hl) as Hlen. pose proof (wv_length _ _ _ _ Hl') as Hlen'.
  rewrite start_work_length in Hlen, Hlen'.
  assert (forall i x, works !! i = Some x -> outs !! i = outs' !! i /\ events_of i l = events_of i l') as Hsame.
  { intros i x Hx. destruct (weave_lookup p scheds engine works outs l Hl i x Hx) as [o Ho].
    destruct (weave_lookup p scheds engine works outs' l' Hl' i x Hx) as [o' Ho'].
    destruct (weave_tasks_agree _ _ _ _ _ _ i i x x o o' Hl Hr Hl' Hr' Hx Hx eq_refl Ho Ho') as [He ->].
    by rewrite Ho, Ho'. }
  assert (outs = outs') as <-.
  { apply list_eq. intros i. destruct (works !! i) as [x|] eqn:Hx; [by apply (Hsame i x)|].
    apply lookup_ge_None in Hx. rewrite !lookup_ge_None_2 by lia. done. }
  split; [done|]. split.
  - destruct (replay_effect _ _ _ Hr) as [-> _]. destruct (replay_effect _ _ _ Hr') as [-> _].
    apply map_eq. intros bk. rewrite !puts_lookup.
    destruct (last_put (map snd l) bk) as [body|] eqn:E, (last_put (map snd l') bk) as [body'|] eqn:E'; [| | |done].
    + apply (weave_last_put p scheds engine works outs l Hl) in E as (i & x & Hx & Hd & Hi).
      apply (weave_last_put p scheds engine works outs l' Hl') in E' as (j & y & Hy & Hd' & Hj).
      destruct (weave_lookup p scheds engine works outs l Hl i x Hx) as [o Ho].
      destruct (weave_lookup p scheds engine works outs l' Hl' j y Hy) as [o' Ho'].
      destruct (weave_tasks_agree _ _ _ _ _ _ i j x y o o' Hl Hr Hl' Hr' Hx Hy ltac:(congruence) Ho Ho') as [He _].
      rewrite He in Hi. congruence.
    + apply (weave_last_put p scheds engine works outs l Hl) in E as (i & x & Hx & _ & Hi).
      destruct (Hsame i x Hx) as [_ He]. rewrite He in Hi. by rewrite (weave_put_none l' i bk E') in Hi.
    + apply (weave_last_put p scheds engine works outs l' Hl') in E' as (i & x & Hx & _ & Hi).
      destruct (Hsame i x Hx) as [_ He]. rewrite <-He in Hi. by rewrite (weave_put_none l i bk E) in Hi.
  - rewrite (weave_counters p scheds engine works outs l Hl w w1 Hr Hsep).
    rewrite (weave_counters p scheds engine works outs l' Hl' w w1' Hr' Hsep).
    assert ((seq 0 (length works) ≫= fun i => increments (events_of i l)) =
            (seq 0 (length works) ≫= fun i => increments (events_of i l'))) as ->; [|done].
    apply Forall_bind_ext, Forall_forall. intros i [_ Hi]%elem_of_seq.
    apply lookup_lt_is_Some_2 in Hi as [x Hx]. by destruct (Hsame i x Hx) as [_ ->].
Qed.
End weaves.

(** ** Lemmas: the handler *)

Section handler.
Context {J : JsonCrate} {SH : ShallowCrate} {SL : ShallowLaws J SH} {R : RegexCrate}.
Context {G : GzipCrate} {GL : GzipLaws G}.
Context {S : Type} {St : ObjectStore S} {Laws : StoreLaws S}.
Context (p : Pipeline).

Lemma process_work_concurrency n : process_work (with_concurrency n p) = process_work p.
Proof. reflexivity. Qed.

Lemma classify_items_concurrency n : classify_items (with_concurrency n p) = classify_items p.
Proof. reflexivity. Qed.

Lemma run_batch_sequential sched engine items (w : Env S) :
  object_concurrency (s_processing (p_settings p)) = 1%N ->
  run_batch p sched engine items w = run_batch p (mkBatchSchedule [] (bs_streams sched)) engine items w.
Proof.
  intros Hone. unfold run_batch. rewrite !run_bind.
  destruct (classify_items p 0 items _ w) as [[b|x] w1]; [|done].
  destruct (N.eqb_spec (object_concurrency (s_processing (p_settings p))) 0) as [|_]; [congruence|]. rewrite !run_bind. cbn [bs_moves bs_streams].
  pose proof (run_work_sequential p Hone (bs_moves sched) items
    (start_work p (bs_streams sched) engine (b_work b)) b w1) as H.
  change (run_task ?t w1) with (run t w1). by rewrite H.
Qed.

Lemma runnable_concurrency n : runnable p -> (0 < n)%N -> runnable (with_concurrency n p).
Proof. intros [Hl _] Hn. by split. Qed.

Lemma run_batch_determined {Steady : SteadyStore S} n sched sched' engine items (w : Env S) :
  runnable p -> (0 < n)%N ->
  bs_streams sched = bs_streams sched' -> one_object_per_dest (bs_streams sched) (batch_work p 0 items) ->
  let '(r, w1) := run_batch p sched engine items w in
  let '(r', w1') := run_batch (with_concurrency n p) sched' engine items w in
  r = r' /\ quiet r /\ contents (e_store w1) = contents (e_store w1') /\ e_metrics w1 ≡ e_metrics w1'.
Proof.
  intros Hok Hn Hs Hdest. pose proof (runnable_concurrency n Hok Hn) as Hok'.
  unfold run_batch. rewrite !run_bind, classify_items_concurrency.
  destruct (classify_items p 0 items _ w) as [[b|[e|msg]] w1] eqn:Hc; [|by split_and!|].
  2:{ by destruct (wp_run _ _ _ _ _ Hc (classify_items_spec p 0 items _ w)) as [_ []]. }
  pose proof (wp_run _ _ _ _ _ Hc (classify_items_spec p 0 items _ w)) as [_ (_ & Hall & ->)].
  cbn [b_work app] in *. set (b := mkBatch _ _ _).
  assert (Forall (fun x => (wk_item_idx x < length items)%nat) (batch_work p 0 items)) as Hidx.
  { eapply Forall_impl; [apply batch_work_idx|]. cbn. lia. }
  rewrite !(proj2 (N.eqb_neq _ _)) by (pose proof (rn_window _ Hok); pose proof (rn_window _ Hok'); lia).
  destruct (run_work_spec p Hok sched engine items (batch_work p 0 items) b w1 Hidx) as (outs & w2 & Hi & Hw).
  destruct (run_work_spec (with_concurrency n p) Hok' sched' engine items (batch_work p 0 items) b w1 Hidx)
    as (outs' & w2' & Hi' & Hw').
  rewrite !run_bind, Hw, Hw'. rewrite <-Hs in Hi'.
  destruct (interleaved_determined p (bs_streams sched) engine (batch_work p 0 items) (batch_work_apart p items Hall)
    Hdest w1 n outs w2 outs' w2' Hi Hi') as (<- & Hcont & Hm).
  change (noted (with_concurrency n p) items (batch_work p 0 items) outs b) with (noted p items (batch_work p 0 items) outs b).
  destruct (b_hard_error (noted p items (batch_work p 0 items) outs b)) as [[i e]|]; by split_and!.
Qed.
End handler.

Lemma snapshot_same m m' : m ≡ m' -> snapshot_and_reset m = snapshot_and_reset m'.
Proof. intros (H1 & H2 & H3). unfold snapshot_and_reset. by rewrite !H2, H1, H3. Qed.

(** What the batch leaves at the destinations of an event that decodes. *)
Lemma handle_settles {J : JsonCrate} {SH : ShallowCrate} {SL : ShallowLaws J SH}
    {R : RegexCrate} {G : GzipCrate} {GL : GzipLaws G} {S} {St : ObjectStore S} {Laws : StoreLaws S}
    {C} {Src : ConfigSource C} {D : EventDecoder} ttl compile p sched now payload items e (w : World S C) :
  runnable p -> decode payload = Ok items -> engine_at ttl compile now w = Some e ->
  Forall (fun x => ~ triggers p x) (batch_work p 0 items) -> dry_run (s_behavior (p_settings p)) = false ->
  clean_reads (S := S) ->
  (forall x, x ∈ batch_work p 0 items -> small_object (work_source x).1 (work_source x).2 (w_env w)) ->
  (forall x y, x ∈ batch_work p 0 items -> y ∈ batch_work p 0 items ->
     work_dest x = work_dest y -> work_source x = work_source y) ->
  let '(r, w') := handle ttl compile p sched now payload w in
  exists outs, length outs = length (batch_work p 0 items) /\ batch_verdict p items outs r /\
    forall i x o, batch_work p 0 items !! i = Some x -> outs !! i = Some o ->
      is_ok o = true \/ (forall j y, batch_work p 0 items !! j = Some y -> work_dest y = work_dest x -> j = i) ->
      settled p e x o (w_env w) (w_env w').
Proof.
  intros Hok Hdec Heng Hno Hdry Hclean Hsmall Hsame.
  assert (admitted_batch ttl compile p now w) as Ha by (left; congruence).
  pose proof (handle_batch ttl compile p sched now payload items w Hok Hdec Ha) as H.
  destruct (handle ttl compile p sched now payload w) as [r w'].
  destruct H as (env1 & -> & [(y & Hy & Hty & _)|(_ & env0 & outs & Hs & _ & Hi & Hv)]).
  { rewrite Forall_forall in Hno. by destruct (Hno y Hy). }
  pose proof (batch_work_apart p items Hno) as Hsep. exists outs.
  split; [by apply interleaved_post in Hi as [? _]|]. split; [done|]. rewrite Heng in Hi.
  intros i x o Hx Ho Honce.
  pose proof (interleaved_settled p (bs_streams sched) e (batch_work p 0 items) env0 outs env1 Hi Hsep Hdry Hclean) as H.
  unfold small_object, settled in *. rewrite Hs in H. exact (H Hsmall Hsame i x o Hx Ho Honce).
Qed.

(** ** Properties *)

(** C1: what an invocation delivers.  Take a live invocation with [runnable] settings (those
    [Settings::validate] accepts), a ruleset, and a store whose bodies read to their end and
    whose objects are smaller than 2^64.  When the batch names no self-triggering object, and
    objects of it that share a destination have one source too (one key in two source buckets
    is where the claim would fail: [collision_depends_on_order]), every object of the batch is
    processed, [object_concurrency] at a time in any interleaving: an object that was
    processed is settled at its destination as the policy matrix and the ruleset say, one that
    failed left its destination alone unless the batch names it again, and the failures are
    the verdict's. *)
Theorem handle_delivers {J : JsonCrate} {SH : ShallowCrate} {SL : ShallowLaws J SH}
    {R : RegexCrate} {G : GzipCrate} {GL : GzipLaws G} {S} {St : ObjectStore S} {Laws : StoreLaws S}
    {C} {Src : ConfigSource C} {D : EventDecoder} ttl compile p sched now payload items e (w : World S C) :
  runnable p -> decode payload = Ok items -> engine_at ttl compile now w = Some e ->
  Forall (fun x => ~ triggers p x) (batch_work p 0 items) -> dry_run (s_behavior (p_settings p)) = false ->
  clean_reads (S := S) ->
  (forall x, x ∈ batch_work p 0 items -> small_object (work_source x).1 (work_source x).2 (w_env w)) ->
  (forall x y, x ∈ batch_work p 0 items -> y ∈ batch_work p 0 items ->
     work_dest x = work_dest y -> work_source x = work_source y) ->
  let '(r, w') := handle ttl compile p sched now payload w in
  exists outs, length outs = length (batch_work p 0 items) /\ batch_verdict p items outs r /\
    forall i x o, batch_work p 0 items !! i = Some x -> outs !! i = Some o ->
      is_ok o = true \/ (forall j y, batch_work p 0 items !! j = Some y -> work_dest y = work_dest x -> j = i) ->
      settled p e x o (w_env w) (w_env w').
Proof. apply handle_settles. Qed.

(** C22: at [object_concurrency = 1] the batch is the sequential loop.  Whatever the runtime
    polls and whenever it yields, each object is processed from its first request to its last before the
    next begins, in submission order, and its failure is noted in between. *)
Theorem handle_sequential {J : JsonCrate} {SH : ShallowCrate} {SL : ShallowLaws J SH}
    {R : RegexCrate} {G : GzipCrate} {GL : GzipLaws G} {S} {St : ObjectStore S} {Laws : StoreLaws S}
    {C} {Src : ConfigSource C} {D : EventDecoder} ttl compile p sched now payload (w : World S C) :
  object_concurrency (s_processing (p_settings p)) = 1%N ->
  handle ttl compile p sched now payload w =
  handle ttl compile p (mkBatchSchedule [] (bs_streams sched)) now payload w.
Proof.
  intros Hone. unfold handle, handle_inner, io_try, mbind, io_bind, on_env. destruct (decode payload) as [items|e]; [|done].
  destruct (config_get ttl compile now w) as [[engine|x] w1]; [|done].
  pose proof (run_batch_sequential p sched engine items (w_env w1) Hone) as H.
  destruct engine as [engine|]; [|destruct (on_config_error _)]; cbv beta; rewrite ?H; done.
Qed.

(** C7: concurrency changes nothing that is decided or counted.  Over a steady store, with
    [runnable] settings, when the objects of the batch that share a destination are one
    object, the invocation at any [object_concurrency] of at least 1 and in any interleaving
    returns the same verdict, emits the same snapshot, leaves the same configuration and the
    same objects. *)
Theorem handle_concurrency_transparent {J : JsonCrate} {SH : ShallowCrate} {SL : ShallowLaws J SH}
    {R : RegexCrate} {G : GzipCrate} {GL : GzipLaws G} {S} {St : ObjectStore S} {Laws : StoreLaws S}
    {Steady : SteadyStore S} {C} {Src : ConfigSource C} {D : EventDecoder}
    ttl compile p n moves moves' streams now payload (w : World S C) :
  runnable p -> (0 < n)%N ->
  (forall items, decode payload = Ok items -> one_object_per_dest streams (batch_work p 0 items)) ->
  let '(r, w1) := handle ttl compile p (mkBatchSchedule moves streams) now payload w in
  let '(r', w1') := handle ttl compile (with_concurrency n p) (mkBatchSchedule moves' streams) now payload w in
  r = r' /\ w_emitted w1 = w_emitted w1' /\ w_config w1 = w_config w1' /\
  e_metrics (w_env w1) = e_metrics (w_env w1') /\ contents (e_store (w_env w1)) = contents (e_store (w_env w1')).
Proof.
  intros Hok Hn Hdest. unfold handle, handle_inner, io_try, mbind, io_bind, on_env.
  destruct (decode payload) as [items|e]; [|done]. specialize (Hdest items eq_refl).
  destruct (config_get ttl compile now w) as [[engine|x] w1]; [|by destruct x].
  pose proof (run_batch_determined p n (mkBatchSchedule moves streams) (mkBatchSchedule moves' streams) engine items
    (w_env w1) Hok Hn eq_refl Hdest) as H.
  cbn [p_settings s_behavior with_concurrency].
  destruct engine as [engine|]; [|destruct (on_config_error _)]; [| |by split_and!]; cbv beta;
    destruct (run_task (run_batch p _ _ items) _) as [r w2],
      (run_task (run_batch (with_concurrency n p) _ _ items) _) as [r' w2'];
    destruct H as (<- & Hq & Hc & Hm%snapshot_same);
    (destruct r as [o|[e|msg]]; [| |by destruct (Hq msg)]; unfold emit_snapshot, io_modify; cbn [w_env w_emitted w_config e_metrics e_store];
      rewrite Hm; destruct (snapshot_and_reset (e_metrics w2')); by split_and!).
Qed.

(** C23: the window.  With [runnable] settings, the store serves the requests of the objects
    of an admitted batch without a self-triggering object in some order; at no point of it
    have more than [object_concurrency] objects made their first request and not yet their
    last. *)
Theorem handle_bounds_in_flight {J : JsonCrate} {SH : ShallowCrate} {SL : ShallowLaws J SH}
    {R : RegexCrate} {G : GzipCrate} {GL : GzipLaws G} {S} {St : ObjectStore S} {Laws : StoreLaws S}
    {C} {Src : ConfigSource C} {D : EventDecoder} ttl compile p sched now payload items (w : World S C) :
  runnable p -> decode payload = Ok items -> admitted_batch ttl compile p now w ->
  Forall (fun x => ~ triggers p x) (batch_work p 0 items) ->
  let w' := (handle ttl compile p sched now payload w).2 in
  exists env0 outs l env1, e_store env0 = e_store (w_env w) /\ e_store (w_env w') = e_store env1 /\
    weave 0 (start_work p (bs_streams sched) (engine_at ttl compile now w) (batch_work p 0 items)) outs l /\
    replay (map snd l) env0 env1 /\
    forall l1 l2 is_, l = l1 ++ l2 -> NoDup is_ -> Forall (is_in_flight l1 l2) is_ ->
      (N.of_nat (length is_) <= object_concurrency (s_processing (p_settings p)))%N.
Proof.
  intros Hok Hdec Ha Hno. pose proof (handle_verdict_weave ttl compile p sched now payload items w Hok Hdec Ha Hno) as H.
  destruct (handle ttl compile p sched now payload w) as [r w']. cbn [snd].
  destruct H as (env0 & outs & env1 & H1 & H2 & (l & Hl & Hr & Hwin) & _). exists env0, outs, l, env1.
  split_and!; [done..|]. intros l1 l2 is_ ->. by apply windowed_bound, Hwin, Hok.
Qed.

(** ** Witnesses *)

Lemma in_memory_clean : clean_reads (S := InMemoryStore).
Proof. exact (proj1 demo_reliable). Defined.

Lemma demo_dest_sources :
  Forall (fun x => Forall (fun y => work_dest x = work_dest y -> work_source x = work_source y)
    (batch_work demo_pipeline 0 demo_items)) (batch_work demo_pipeline 0 demo_items).
Proof.
  assert (batch_work demo_pipeline 0 demo_items = [mkWork 0 demo_object "siem" "filtered/a.json"]) as ->
    by (vm_compute; reflexivity).
  by repeat constructor.
Defined.

Lemma handle_delivers_witness :
  exists o, is_ok o = true /\ settled (J := demo_json) (SH := demo_shallow) (G := ref_gzip) demo_pipeline demo_engine
    (mkWork 0 demo_object "siem" "filtered/a.json") o demo_store_env (w_env (run_demo demo_engine_compile demo_pipeline).2) /\
  (run_demo demo_engine_compile demo_pipeline).1 = Ok (mkBatchOutcome ["m2"]).
Proof.
  assert ((run_demo demo_engine_compile demo_pipeline).1 = Ok (mkBatchOutcome ["m2"])) as Hr by (vm_compute; reflexivity).
  assert (batch_work demo_pipeline 0 demo_items = [mkWork 0 demo_object "siem" "filtered/a.json"]) as Hworks
    by (vm_compute; reflexivity).
  pose proof (handle_delivers (J := demo_json) (SH := demo_shallow) (SL := demo_shallow_laws demo_json)
    (G := ref_gzip) (D := demo_decoder) 300 demo_engine_compile demo_pipeline demo_batch_sched 0 "event"
    demo_items demo_engine demo_world demo_runnable eq_refl eq_refl demo_no_trigger eq_refl in_memory_clean) as H.
  pose proof demo_dest_sources as Hsame. rewrite Hworks in *.
  specialize (H ltac:(intros x ->%list_elem_of_singleton; exact (proj2 demo_reliable))
    ltac:(intros x y ->%list_elem_of_singleton ->%list_elem_of_singleton; done)).
  destruct (run_demo demo_engine_compile demo_pipeline) as [r w']. cbn [fst snd] in *. subst r.
  destruct H as (outs & Hlen & Hv & H). destruct outs as [|o [|]]; [done| |done]. exists o. split; [|split; [|done]].
  - destruct o as [[]|e]; [done|]. destruct Hv as [(e' & _ & [=])|[_ Hids]].
    vm_compute in Hids. discriminate.
  - apply (H 0 _ o eq_refl eq_refl). right. by intros [|j] y.
Defined.

(** Two messages, an object each. *)
Definition pair_items (b b' k k' : string) : list SourceItem :=
  [SourceItem.new (Some "m1") [mkObjectRef b k None]; SourceItem.new (Some "m2") [mkObjectRef b' k' None]].

Definition pair_decoder (items : list SourceItem) : EventDecoder := {| decode payload := Ok items |}.

Definition pair_world (b b' k k' : string) : World (R := ref_regex) InMemoryStore StaticConfigSource :=
  mkWorld (mkEnv (InMemoryStore.seed b k "three" (InMemoryStore.seed b' k' "other" InMemoryStore.new)) Metrics_default)
    (ConfigStore.new (StaticConfigSource.new "rules" NoVersion)) [].

Definition pair_pipeline : Pipeline (R := ref_regex) :=
  mkPipeline ref_regex
    (mkSettings Source_default (mkDestination "siem" "filtered/") Processing_default Behavior_default
       Sqs_default RulesSettings_default Observability_default)
    (mkKeyFilter ref_regex "^(a|b)\.json$" "Digest").

(** The second future runs to its end before the first starts. *)
Definition second_first : BatchSchedule := mkBatchSchedule (repeat (Poll 1) 20) (fun _ => demo_sched).

Abbreviation run_pair n sched b b' k k' :=
  (handle (J := demo_json) (SH := demo_shallow) (R := ref_regex) (G := ref_gzip) (D := pair_decoder (pair_items b b' k k'))
     300 demo_engine_compile (with_concurrency n pair_pipeline) sched 0 "event" (pair_world b b' k k')).

Lemma handle_sequential_witness :
  w_emitted (run_pair 1 second_first "trail" "trail" "a.json" "b.json").2 =
  w_emitted (run_pair 1 demo_batch_sched "trail" "trail" "a.json" "b.json").2.
Proof.
  rewrite (handle_sequential (SL := demo_shallow_laws demo_json) (D := pair_decoder (pair_items "trail" "trail" "a.json" "b.json"))
    300 demo_engine_compile (with_concurrency 1 pair_pipeline) second_first); reflexivity.
Defined.

Lemma handle_concurrency_transparent_witness :
  contents (e_store (w_env (run_pair 1 demo_batch_sched "trail" "trail" "a.json" "b.json").2)) =
  contents (e_store (w_env (run_pair 2 second_first "trail" "trail" "a.json" "b.json").2)).
Proof.
  pose proof (handle_concurrency_transparent (SL := demo_shallow_laws demo_json) (G := ref_gzip)
    (D := pair_decoder (pair_items "trail" "trail" "a.json" "b.json")) 300 demo_engine_compile
    (with_concurrency 1 pair_pipeline) 2 [] (repeat (Poll 1) 20) (fun _ => demo_sched) 0 "event"
    (pair_world "trail" "trail" "a.json" "b.json")) as H.
  assert (forall items, Ok (pair_items "trail" "trail" "a.json" "b.json") = Ok (E := DecodeError) items ->
    one_object_per_dest (fun _ => demo_sched) (batch_work (with_concurrency 1 pair_pipeline) 0 items)) as Hdest.
  { intros items [= <-].
    assert (batch_work (with_concurrency 1 pair_pipeline) 0 (pair_items "trail" "trail" "a.json" "b.json") =
      [mkWork 0 (mkObjectRef "trail" "a.json" None) "siem" "filtered/a.json";
       mkWork 1 (mkObjectRef "trail" "b.json" None) "siem" "filtered/b.json"]) as -> by (vm_compute; reflexivity).
    intros [|[|i]] [|[|j]] x y [= <-] [= <-] Hd; (split; [|reflexivity]); first [reflexivity|discriminate Hd]. }
  specialize (H ltac:(split; [by intros [=]|reflexivity]) ltac:(reflexivity) Hdest).
  change (with_concurrency 2 (with_concurrency 1 pair_pipeline)) with (with_concurrency 2 pair_pipeline) in H.
  change (mkBatchSchedule [] (fun _ => demo_sched)) with demo_batch_sched in H.
  change (mkBatchSchedule (repeat (Poll 1) 20) (fun _ => demo_sched)) with second_first in H.
  destruct (run_pair 1 demo_batch_sched "trail" "trail" "a.json" "b.json") as [r w1],
    (run_pair 2 second_first "trail" "trail" "a.json" "b.json") as [r' w1'].
  apply H.
Defined.

(** The hypothesis on destinations is needed: a destination key leaves out the source bucket,
    so one key in two buckets is one destination, and the object that is written last stays. *)
Lemma collision_depends_on_order :
  let w1 := (run_pair 2 demo_batch_sched "trail" "audit" "a.json" "a.json").2 in
  let w2 := (run_pair 2 second_first "trail" "audit" "a.json" "a.json").2 in
  w_emitted w1 = w_emitted w2 /\
  InMemoryStore.object "siem" "filtered/a.json" (e_store (w_env w1)) <>
  InMemoryStore.object "siem" "filtered/a.json" (e_store (w_env w2)).
Proof. cbv zeta. split; [vm_compute; reflexivity|]. vm_compute. discriminate. Qed.

Lemma handle_bounds_in_flight_witness :
  exists l, map fst l <> [] /\ forall l1 l2 is_, l = l1 ++ l2 -> NoDup is_ -> Forall (is_in_flight l1 l2) is_ -> length is_ <= 1.
Proof.
  destruct (handle_bounds_in_flight (J := demo_json) (SH := demo_shallow) (SL := demo_shallow_laws demo_json)
    (G := ref_gzip) (D := demo_decoder) 300 demo_engine_compile demo_pipeline demo_batch_sched 0 "event"
    demo_items demo_world demo_runnable eq_refl demo_admitted demo_no_trigger) as (env0 & outs & l & env1 & Hs & Hs' & _ & Hr & H).
  exists l. split.
  - intros E. destruct l; [|discriminate]. cbn in Hr. subst env1. rewrite Hs in Hs'. vm_compute in Hs'. discriminate.
  - intros l1 l2 is_ Hl Hnd His. specialize (H l1 l2 is_ Hl Hnd His). change (N.of_nat (length is_) <= 1)%N in H. lia.
Defined.
