(* ===== verification/S3Store.v ===== *)
(** * The S3 object store ([aws/src/s3_store.rs])

    [S3ObjectStore] over the SDK client, which is third-party: [S3Client] holds the
    operations the store calls and [S3Laws] what S3 documents of them.  The store is shown
    to implement the [ObjectStore] port ([s3_store_laws]), so every theorem about the
    pipeline holds of it. *)

From S2P Require Import Prelude Model Json Path Regex Rules Reference Index Project Engine.
From S2P Require Import Settings Effects Metrics Ports.

(** ** The SDK client *)

Inductive GetObjectError : Type :=
  | NoSuchKey
  | OtherGetError (shown : Msg).

(** One page of [ListObjectsV2]. *)
Record ListPage := mkListPage {
  lp_keys : list (option string);
  lp_next_token : option string;
  lp_is_truncated : option bool;
}.

(** Errors are given as [DisplayErrorContext] shows them. *)
Class S3Client (S : Type) := {
  get_object : string -> string -> S -> result GetObjectError Reader * S;
  put_object : string -> string -> PutMeta -> Bytes -> S -> result Msg unit * S;
  create_multipart_upload : string -> string -> PutMeta -> S -> result Msg (option string) * S;
  upload_part : string -> string -> string -> nat -> Bytes -> S -> result Msg (option string) * S;
  complete_multipart_upload : string -> string -> string -> list (nat * string) -> S -> result Msg unit * S;
  abort_multipart_upload : string -> string -> string -> S -> result Msg unit * S;
  list_objects_v2 : string -> string -> option string -> S -> result Msg ListPage * S;
}.

(** An upload in progress: its destination and the parts received, by number. *)
Record Upload := mkUpload {
  up_dest : string * string;
  up_parts : gmap nat (string * Bytes);
}.

(** What S3 documents: an object changes only by a [PutObject] or a completed upload that
    succeeds; a completed upload is the concatenation of the listed parts. *)
Class S3Laws (S : Type) {Cl : S3Client S} := {
  objects : S -> gmap (string * string) Bytes;
  uploads : S -> gmap string Upload;
  get_object_state b k s :
    objects (get_object b k s).2 = objects s /\ uploads (get_object b k s).2 = uploads s;
  get_object_ok b k s reader :
    (get_object b k s).1 = Ok reader -> rd_error reader = None ->
    objects s !! (b, k) = Some (reader_bytes reader);
  get_object_missing b k s : (get_object b k s).1 = Err NoSuchKey -> objects s !! (b, k) = None;
  put_object_state b k meta body s :
    objects (put_object b k meta body s).2 =
      match (put_object b k meta body s).1 with
      | Ok _ => <[(b, k) := body]> (objects s)
      | Err _ => objects s
      end /\
    uploads (put_object b k meta body s).2 = uploads s;
  create_state b k meta s :
    objects (create_multipart_upload b k meta s).2 = objects s /\
    match (create_multipart_upload b k meta s).1 with
    | Ok (Some id) => uploads s !! id = None /\
        uploads (create_multipart_upload b k meta s).2 = <[id := mkUpload (b, k) ∅]> (uploads s)
    | Ok None => True
    | Err _ => uploads (create_multipart_upload b k meta s).2 = uploads s
    end;
  upload_part_state b k id n body s up :
    uploads s !! id = Some up ->
    objects (upload_part b k id n body s).2 = objects s /\
    exists up', uploads (upload_part b k id n body s).2 = <[id := up']> (uploads s) /\
      up_dest up' = up_dest up /\
      match (upload_part b k id n body s).1 with
      | Ok (Some tag) => up_parts up' = <[n := (tag, body)]> (up_parts up)
      | _ => True
      end;
  complete_state b k id parts s up :
    uploads s !! id = Some up ->
    match (complete_multipart_upload b k id parts s).1 with
    | Ok _ => exists bodies,
        Forall2 (fun p body => up_parts up !! p.1 = Some (p.2, body)) parts bodies /\
        objects (complete_multipart_upload b k id parts s).2 = <[up_dest up := str_join "" bodies]> (objects s) /\
        uploads (complete_multipart_upload b k id parts s).2 = delete id (uploads s)
    | Err _ => objects (complete_multipart_upload b k id parts s).2 = objects s /\
        uploads (complete_multipart_upload b k id parts s).2 = uploads s
    end;
  abort_state b k id s :
    objects (abort_multipart_upload b k id s).2 = objects s /\
    match (abort_multipart_upload b k id s).1 with
    | Ok _ => uploads (abort_multipart_upload b k id s).2 = delete id (uploads s)
    | Err _ => True
    end;
}.

(** ** The store *)

Definition DEFAULT_MULTIPART_PART_BYTES : N := 8 * 1024 * 1024.

(** [T::try_from(v).unwrap_or(default)], for a type of values up to [max]. *)
Definition checked_or_default (max v default : N) : N := if (v <=? max)%N then v else default.

Record S3ObjectStore := mkS3ObjectStore { multipart_part_bytes : N }.

(** [from_settings], on a target whose [usize] reaches [usize_max]. *)
Definition from_settings (usize_max : N) (processing : Processing) : S3ObjectStore :=
  mkS3ObjectStore (checked_or_default usize_max (Settings.multipart_part_bytes processing)
                     DEFAULT_MULTIPART_PART_BYTES).

Definition map_get_error (e : GetObjectError) (bucket key : string) : StoreError :=
  match e with
  | NoSuchKey => NotFound bucket key
  | OtherGetError shown => Backend shown
  end.

Module S3ObjectStore.
Section store.
Context {S : Type} {Cl : S3Client S} (self : S3ObjectStore).

Definition get (b k : string) (s : S) : result StoreError Bytes * S :=
  let '(r, s) := get_object b k s in
  (out ← map_err (fun e => map_get_error e b k) r;
   map_err (fun e => Backend (Fmt "reading object body: {e}" [e])) (read_to_end out), s).

Definition get_stream (b k : string) (s : S) : result StoreError Reader * S :=
  let '(r, s) := get_object b k s in (map_err (fun e => map_get_error e b k) r, s).

Definition put (b k : string) (body : Bytes) (meta : PutMeta) (s : S) : result StoreError unit * S :=
  let '(r, s) := put_object b k meta body s in (map_err Backend r, s).

Definition abort_upload (b k id : string) (s : S) : S := (abort_multipart_upload b k id s).2.

(** [while filled < part_size]: one part's worth of bytes, fewer at the end of the body.
    [fuel] exceeds the bytes left, and every read but the last takes one. *)
Fixpoint fill_part (fuel room : nat) (body : Reader) (buf : Bytes) : Bytes * option Msg * Reader :=
  match fuel, room with
  | O, _ | _, O => (buf, None, body)
  | Datatypes.S fuel, _ =>
      match read room body with
      | (Ok b, body) =>
          if str_is_empty b then (buf, None, body)
          else fill_part fuel (room - String.length b) body (buf +:+ b)
      | (Err e, body) => (buf, Some e, body)
      end
  end.

(** [upload_parts]: the parts in order, the bytes read, and the service afterwards. *)
Fixpoint upload_parts (fuel : nat) (b k id : string) (body : Reader) (part_number : nat)
    (parts : list (nat * string)) (total : N) (s : S) : result StoreError (list (nat * string)) * N * S :=
  match fuel with
  | O => (Ok parts, total, s)
  | Datatypes.S fuel =>
      let part_size := N.to_nat (multipart_part_bytes self) in
      match fill_part (Datatypes.S (String.length (reader_bytes body))) part_size body "" with
      | (buf, Some e, _) =>
          (Err (Backend (Fmt "reading upload body: {e}" [e])), (total + byte_len buf)%N, s)
      | (buf, None, body) =>
          let total := (total + byte_len buf)%N in
          if str_is_empty buf then (Ok parts, total, s)
          else
            match upload_part b k id part_number buf s with
            | (Err e, s) => (Err (Backend e), total, s)
            | (Ok None, s) => (Err (Backend (Lit "UploadPart response missing e_tag")), total, s)
            | (Ok (Some e_tag), s) =>
                let parts := parts ++ [(part_number, e_tag)] in
                if (String.length buf <? part_size)%nat then (Ok parts, total, s)
                else upload_parts fuel b k id body (part_number + 1) parts total s
            end
      end
  end.

Definition put_stream (b k : string) (body : Reader) (meta : PutMeta) (s : S) :
    result StoreError unit * N * S :=
  match create_multipart_upload b k meta s with
  | (Err e, s) => (Err (Backend e), 0%N, s)
  | (Ok None, s) => (Err (Backend (Lit "CreateMultipartUpload response missing upload_id")), 0%N, s)
  | (Ok (Some id), s) =>
      match upload_parts (Datatypes.S (String.length (reader_bytes body))) b k id body 1 [] 0 s with
      | (Err e, n, s) => (Err e, n, abort_upload b k id s)
      | (Ok [], n, s) => let '(r, s) := put b k "" meta (abort_upload b k id s) in (r, n, s)
      | (Ok parts, n, s) =>
          match complete_multipart_upload b k id parts s with
          | (Err e, s) => (Err (Backend e), n, abort_upload b k id s)
          | (Ok _, s) => (Ok tt, n, s)
          end
      end
  end.

(** [list_keys]: [None] when [fuel] pages were not enough. *)
Fixpoint list_keys (fuel : nat) (bucket prefix : string) (continuation : option string)
    (keys : list string) (s : S) : option (result StoreError (list string) * S) :=
  match fuel with
  | O => None
  | Datatypes.S fuel =>
      match list_objects_v2 bucket prefix continuation s with
      | (Err e, s) => Some (Err (Backend e), s)
      | (Ok out, s) =>
          let keys := keys ++ omap id (lp_keys out) in
          match lp_next_token out, lp_is_truncated out with
          | Some token, Some true => list_keys fuel bucket prefix (Some token) keys s
          | _, _ => Some (Ok keys, s)
          end
      end
  end.
End store.
End S3ObjectStore.

Definition s3_object_store {S} {Cl : S3Client S} (self : S3ObjectStore) : ObjectStore S := {|
  store_get := S3ObjectStore.get;
  store_get_stream := S3ObjectStore.get_stream;
  store_put := S3ObjectStore.put;
  store_put_stream := S3ObjectStore.put_stream self;
|}.

(** ** Lemmas: reading parts *)

Lemma fill_part_spec fuel room body acc :
  String.length (reader_bytes body) < fuel ->
  let '(buf, e, body') := S3ObjectStore.fill_part fuel room body acc in
  exists got, buf = acc +:+ got /\ String.length got <= room /\
    match e with
    | None => reader_bytes body = got +:+ reader_bytes body' /\ rd_error body' = rd_error body /\
        (String.length got = room \/ reader_bytes body' = "" /\ rd_error body = None)
    | Some er => reader_bytes body = got /\ rd_error body = Some er
    end.
Proof.
  revert room body acc. induction fuel as [|fuel IH]; intros room body acc Hf; [lia|].
  destruct room as [|room]; cbn [S3ObjectStore.fill_part].
  { exists "". rewrite str_app_nil_r. split_and!; try done. by left. }
  pose proof (read_spec (S room) body ltac:(lia)) as Hr. pose proof (read_length (S room) body) as Hn.
  destruct (read (S room) body) as [[b|er] body']; cbn [fst] in Hn.
  - destruct Hr as (Hb & He & Hempty). destruct b as [|a b]; cbn [str_is_empty].
    + destruct (Hempty eq_refl) as [H1 H2]. exists "". rewrite str_app_nil_r.
      split_and!; [done|cbn; lia|done|done|]. right. by rewrite H1 in Hb.
    + rewrite Hb, str_length_app in Hf. cbn [String.length] in Hf, Hn.
      specialize (IH (S room - String.length (String a b)) body' (acc +:+ String a b) ltac:(lia)).
      destruct (S3ObjectStore.fill_part _ _ body' _) as [[buf e] body''].
      destruct IH as (got & H1 & H2 & H3). exists (String a b +:+ got).
      rewrite H1, Hb, !str_app_assoc, str_length_app. cbn [String.length] in *.
      split_and!; [done|lia|]. destruct e as [er|].
      * destruct H3 as [H3 H4]. split; congruence.
      * destruct H3 as (H3 & H4 & H5). rewrite H3. split_and!; [done|congruence|].
        destruct H5 as [H5|[H5 H6]]; [left; lia|right; split; congruence].
  - destruct Hr as [Hb He]. exists "". rewrite str_app_nil_r. by split_and!; [|cbn; lia| |].
Qed.

Section spec.
Context {S : Type} {Cl : S3Client S} {Laws : S3Laws S} (self : S3ObjectStore).
Context (Hsize : (0 < multipart_part_bytes self)%N).

Abbreviation part_size := (N.to_nat (multipart_part_bytes self)).

(** The parts the service holds are the ones listed, in order. *)
Definition parts_hold (up : Upload) (parts : list (nat * string)) (bodies : list Bytes) : Prop :=
  Forall2 (fun p body => up_parts up !! p.1 = Some (p.2, body)) parts bodies.

(** Every part but the last is full, and no part is empty. *)
Definition parts_sized (bodies : list Bytes) : Prop :=
  Forall (fun body => 0 < String.length body <= part_size) bodies /\
  forall i body, bodies !! i = Some body -> i + 1 < length bodies -> String.length body = part_size.

Lemma parts_hold_insert up parts bodies n tag body :
  Forall (fun p => p.1 < n) parts -> parts_hold up parts bodies ->
  parts_hold (mkUpload (up_dest up) (<[n := (tag, body)]> (up_parts up))) (parts ++ [(n, tag)]) (bodies ++ [body]).
Proof.
  intros Hlt H. apply Forall2_app.
  - induction H as [|p b parts bodies Hp H IH]; [constructor|].
    apply Forall_cons in Hlt as [Hn Hlt]. constructor; [|by apply IH].
    cbn. rewrite lookup_insert_ne by lia. done.
  - constructor; [|constructor]. cbn. by rewrite lookup_insert_eq.
Qed.

Lemma parts_sized_cons body bodies :
  0 < String.length body <= part_size -> (bodies <> [] -> String.length body = part_size) ->
  parts_sized bodies -> parts_sized (body :: bodies).
Proof.
  intros Hb Hfull [H1 H2]. split; [by constructor|]. intros [|i] x; cbn; intros Hx Hi.
  - injection Hx as <-. apply Hfull. by destruct bodies; [cbn in Hi; lia|].
  - apply (H2 i); [done|lia].
Qed.

(** What [upload_parts] leaves behind: an upload that holds the listed parts, and on
    success the parts make up the body. *)
Definition uploaded (id : string) (body : Reader) (pn : nat) (parts : list (nat * string)) (bodies : list Bytes)
    (total : N) (up : Upload) (s : S) (r : result StoreError (list (nat * string))) (n : N) (s' : S) : Prop :=
  objects s' = objects s /\ (n <= total + byte_len (reader_bytes body))%N /\
  exists up', uploads s' = <[id := up']> (uploads s) /\ up_dest up' = up_dest up /\
  match r with
  | Ok parts' => rd_error body = None /\ n = (total + byte_len (reader_bytes body))%N /\
      exists new, parts_hold up' parts' (bodies ++ new) /\ str_join "" new = reader_bytes body /\
        parts_sized new /\ map fst parts' = map fst parts ++ seq pn (length new)
  | Err _ => True
  end.

Lemma upload_parts_spec fuel b k id body pn parts bodies total up s :
  String.length (reader_bytes body) < fuel -> uploads s !! id = Some up ->
  parts_hold up parts bodies -> Forall (fun p => p.1 < pn) parts ->
  let '(r, n, s') := S3ObjectStore.upload_parts self fuel b k id body pn parts total s in
  uploaded id body pn parts bodies total up s r n s'.
Proof.
  revert body pn parts bodies total up s. induction fuel as [|fuel IH]; intros body pn parts bodies total up s Hf Hup Hp Hlt; [lia|].
  cbn [S3ObjectStore.upload_parts]. cbv zeta. unfold uploaded in *.
  pose proof (fill_part_spec (Datatypes.S (String.length (reader_bytes body))) part_size body "" ltac:(lia)) as Hfill.
  destruct (S3ObjectStore.fill_part _ part_size body "") as [[buf e] body'].
  destruct Hfill as (got & Hbuf & Hroom & Hend). cbn in Hbuf. subst got.
  assert (uploads s = <[id := up]> (uploads s)) as Hself by by rewrite insert_id.
  destruct e as [er|]; [destruct Hend as [Hb _]; rewrite Hb; split_and!; [done|lia|]; by exists up|].
  destruct Hend as (Hbody & Herr & Hend).
  assert (byte_len (reader_bytes body) = byte_len buf + byte_len (reader_bytes body'))%N as Hlen
    by (rewrite Hbody; unfold byte_len; rewrite str_length_app; lia).
  destruct (str_is_empty buf) eqn:Hempty.
  { destruct buf; [|done]. destruct Hend as [Hend|[Hend He]]; [cbn in Hend; lia|].
    rewrite Hend in Hbody. split; [done|]. split; [lia|]. exists up. split; [done|]. split; [done|].
    rewrite He, Hbody. split; [done|]. split; [cbn; lia|]. exists []. rewrite !app_nil_r.
    split_and!; [done|done| |done]. split; [constructor|done]. }
  assert (0 < String.length buf) as Hpos by (destruct buf; [done|cbn; lia]).
  pose proof (upload_part_state b k id pn buf s up Hup) as (Ho & up1 & Hu & Hdest & Hpart).
  destruct (upload_part b k id pn buf s) as [[[tag|]|er] s1]; cbn [fst snd] in *;
    [|by split_and!; [done|lia|exists up1]|by split_and!; [done|lia|exists up1]].
  set (up2 := mkUpload (up_dest up) (<[pn := (tag, buf)]> (up_parts up))).
  assert (up1 = up2) as -> by (destruct up1; cbn in *; subst; done).
  pose proof (parts_hold_insert up parts bodies pn tag buf Hlt Hp) as Hp2. fold up2 in Hp2.
  destruct (String.length buf <? part_size)%nat eqn:Hshort.
  - apply Nat.ltb_lt in Hshort. destruct Hend as [Hend|[Hend He]]; [lia|].
    rewrite Hend, str_app_nil_r in Hbody. split; [done|]. split; [lia|]. exists up2. split; [done|]. split; [done|].
    rewrite He, Hbody. split; [done|]. split; [done|]. exists [buf]. split_and!; [done|done| |].
    + apply parts_sized_cons; [lia|done|]. split; [constructor|done].
    + by rewrite map_app.
  - apply Nat.ltb_ge in Hshort.
    assert (String.length (reader_bytes body') < fuel) as Hf' by (rewrite Hbody, str_length_app in Hf; lia).
    assert (Forall (fun p : nat * string => p.1 < pn + 1) (parts ++ [(pn, tag)])) as Hlt'.
    { apply Forall_app. split; [eapply Forall_impl; [done|]; cbn; lia|]. constructor; [cbn; lia|constructor]. }
    assert (uploads s1 !! id = Some up2) as Hup2 by by rewrite Hu, lookup_insert_eq.
    specialize (IH body' (pn + 1) _ _ (total + byte_len buf)%N up2 s1 Hf' Hup2 Hp2 Hlt').
    destruct (S3ObjectStore.upload_parts self fuel b k id body' _ _ _ s1) as [[r n] s2].
    destruct IH as (Ho2 & Hn & up3 & Hu3 & Hd3 & Hr). split; [congruence|]. split; [lia|].
    exists up3. split; [by rewrite Hu3, Hu, insert_insert_eq|]. split; [by rewrite Hd3|].
    destruct r as [parts'|er]; [|done]. destruct Hr as (He & -> & new & H1 & H2 & H3 & H4).
    split; [by rewrite <-Herr|]. split; [lia|]. exists (buf :: new). rewrite <-app_assoc in H1.
    split; [exact H1|]. split; [by rewrite str_join_empty_cons, H2, Hbody|]. split.
    + apply parts_sized_cons; [lia|lia|done].
    + rewrite H4, map_app, <-app_assoc. cbn. by rewrite Nat.add_1_r.
Qed.

(** Aborting an upload in progress. *)
Lemma abort_spec b k id s0 up s :
  uploads s = <[id := up]> (uploads s0) -> uploads s0 !! id = None ->
  objects (S3ObjectStore.abort_upload b k id s) = objects s /\
  ((abort_multipart_upload b k id s).1 = Ok tt -> uploads (S3ObjectStore.abort_upload b k id s) = uploads s0).
Proof.
  intros Hu Hnone. unfold S3ObjectStore.abort_upload.
  destruct (abort_state b k id s) as [Ho Ha]. split; [done|]. intros E. rewrite E in Ha.
  by rewrite Ha, Hu, delete_insert_id.
Qed.

(** Every abort reaches the service, and every created upload has an id. *)
Definition aborts_work : Prop :=
  (forall b k id (s : S), (abort_multipart_upload b k id s).1 = Ok tt) /\
  (forall b k meta (s : S), (create_multipart_upload b k meta s).1 <> Ok None).

(** One streamed upload: the object, the bytes read and what is left of the upload. *)
Definition put_stream_post (b k : string) (body : Reader) (s : S) (r : result StoreError unit) (n : N) (s' : S) :
    Prop :=
  (n <= byte_len (reader_bytes body))%N /\ (aborts_work -> uploads s' = uploads s) /\
  match r with
  | Ok _ => rd_error body = None /\ n = byte_len (reader_bytes body) /\
      objects s' = <[(b, k) := reader_bytes body]> (objects s)
  | Err _ => objects s' = objects s
  end.

Lemma put_stream_spec b k body meta s :
  let '(r, n, s') := S3ObjectStore.put_stream self b k body meta s in put_stream_post b k body s r n s'.
Proof.
  unfold S3ObjectStore.put_stream, put_stream_post. pose proof (create_state b k meta s) as [Ho Hc].
  destruct (create_multipart_upload b k meta s) as [[[id|]|e] s0] eqn:Hcreate; cbn [fst snd] in *.
  2:{ split_and!; [lia| |done]. intros [_ Hid]. destruct (Hid b k meta s). by rewrite Hcreate. }
  2:{ split_and!; [lia|done|done]. }
  destruct Hc as [Hnone Hu].
  assert (uploads s0 !! id = Some (mkUpload (b, k) ∅)) as Hup by by rewrite Hu, lookup_insert_eq.
  pose proof (upload_parts_spec (Datatypes.S (String.length (reader_bytes body))) b k id body 1 [] [] 0
    (mkUpload (b, k) ∅) s0 ltac:(lia) Hup ltac:(constructor) ltac:(constructor)) as Hparts.
  destruct (S3ObjectStore.upload_parts self _ b k id body 1 [] 0 s0) as [[r n] s1].
  destruct Hparts as (Ho1 & Hn & up & Hu1 & Hdest & Hr). rewrite Hu, insert_insert_eq in Hu1.
  destruct (abort_spec b k id s up s1 Hu1 Hnone) as [Hao Hau].
  destruct r as [parts|e].
  2:{ split_and!; [done|intros [Ha _]; by apply Hau|congruence]. }
  destruct Hr as (He & -> & new & Hhold & Hjoin & _ & _). cbn [app] in Hhold. destruct parts as [|part parts].
  - apply Forall2_nil_inv_l in Hhold as ->. unfold S3ObjectStore.put.
    pose proof (put_object_state b k meta "" (S3ObjectStore.abort_upload b k id s1)) as [Hpo Hpu].
    destruct (put_object b k meta "" (S3ObjectStore.abort_upload b k id s1)) as [[[]|e] s2]; cbn [fst snd map_err] in *.
    + split_and!; [done|intros [Ha _]; by rewrite Hpu, Hau|done|done|].
      rewrite Hpo, Hao, Ho1, Ho, <-Hjoin. done.
    + split_and!; [done|intros [Ha _]; by rewrite Hpu, Hau|congruence].
  - assert (uploads s1 !! id = Some up) as Hup1 by by rewrite Hu1, lookup_insert_eq.
    pose proof (complete_state b k id (part :: parts) s1 up Hup1) as Hcomp.
    destruct (complete_multipart_upload b k id (part :: parts) s1) as [[[]|e] s2]; cbn [fst snd] in Hcomp.
    + destruct Hcomp as (bodies & Hb & Hobj & Hupl). rewrite Hdest in Hobj. cbn [up_dest] in Hobj.
      assert (bodies = new) as ->.
      { clear -Hb Hhold. revert new Hhold. induction Hb as [|p b0 ps bs Hp Hb IH]; intros new Hn;
          inversion Hn; subst; [done|]. f_equal; [congruence|by apply IH]. }
      split_and!; [done| |done|done|].
      * intros _. by rewrite Hupl, Hu1, delete_insert_id.
      * by rewrite Hobj, Ho1, Ho, Hjoin.
    + destruct Hcomp as [Hco Hcu].
      destruct (abort_spec b k id s up s2 ltac:(congruence) Hnone) as [Hao2 Hau2].
      split_and!; [done|intros [Ha _]; by apply Hau2|congruence].
Qed.
End spec.

(** ** The port *)

(** [S3ObjectStore] keeps the laws of the [ObjectStore] port. *)
Definition s3_store_laws {S} {Cl : S3Client S} {Laws : S3Laws S} (self : S3ObjectStore)
    (Hsize : (0 < multipart_part_bytes self)%N) : @StoreLaws S (s3_object_store self).
Proof.
  refine (@Build_StoreLaws S (s3_object_store self) objects _ _ _ _ _ _ _ _);
    cbn [store_get_stream store_put store_put_stream s3_object_store].
  - intros b k s. unfold S3ObjectStore.get_stream. destruct (get_object_state b k s) as [H _].
    by destruct (get_object b k s).
  - intros b k s reader. unfold S3ObjectStore.get_stream. pose proof (get_object_ok b k s) as H.
    destruct (get_object b k s) as [[r|e] s']; cbn; [|done]. intros [= ->]. by apply H.
  - intros b k s b' k'. unfold S3ObjectStore.get_stream. pose proof (get_object_missing b k s) as H.
    destruct (get_object b k s) as [[r|[|shown]] s']; cbn; try done. intros _. by apply H.
  - intros b k body meta s. unfold S3ObjectStore.put. destruct (put_object_state b k meta body s) as [H _].
    by destruct (put_object b k meta body s) as [[[]|e] s'].
  - intros b k body meta s. pose proof (put_stream_spec self Hsize b k body meta s) as H.
    destruct (S3ObjectStore.put_stream self b k body meta s) as [[[[]|e] n] s']; apply H.
  - intros b k body meta s e He. pose proof (put_stream_spec self Hsize b k body meta s) as H.
    destruct (S3ObjectStore.put_stream self b k body meta s) as [[[[]|e'] n] s']; [|eauto].
    destruct H as (_ & _ & H & _). congruence.
  - intros b k body meta s. pose proof (put_stream_spec self Hsize b k body meta s) as H.
    destruct (S3ObjectStore.put_stream self b k body meta s) as [[[[]|e'] n] s']; [|done]. intros _. apply H.
  - intros b k body meta s. pose proof (put_stream_spec self Hsize b k body meta s) as H.
    destruct (S3ObjectStore.put_stream self b k body meta s) as [[r n] s']. apply H.
Defined.

(** ** Listing *)

(** The pages the service serves from a continuation token on. *)
Inductive serves {S} {Cl : S3Client S} (bucket prefix : string) :
    option string -> S -> list string -> S -> nat -> Prop :=
  | Serves_last token s out s' :
      list_objects_v2 bucket prefix token s = (Ok out, s') ->
      lp_next_token out = None \/ lp_is_truncated out <> Some true ->
      serves bucket prefix token s (omap id (lp_keys out)) s' 1
  | Serves_next token s out next s1 keys s' n :
      list_objects_v2 bucket prefix token s = (Ok out, s1) ->
      lp_next_token out = Some next -> lp_is_truncated out = Some true ->
      serves bucket prefix (Some next) s1 keys s' n ->
      serves bucket prefix token s (omap id (lp_keys out) ++ keys) s' (Datatypes.S n).

(** Listing follows the pagination to its end: as many requests as there are pages give the
    keys of every page in order. *)
Lemma list_keys_serves {S} {Cl : S3Client S} bucket prefix token (s : S) keys s' n acc :
  serves bucket prefix token s keys s' n ->
  S3ObjectStore.list_keys n bucket prefix token acc s = Some (Ok (acc ++ keys), s').
Proof.
  intros H. revert acc. induction H as [token s out s' Hl Hend|token s out next s1 keys s' n Hl Hn Ht H IH]; intros acc;
    cbn [S3ObjectStore.list_keys]; rewrite Hl.
  - destruct (lp_next_token out), (lp_is_truncated out) as [[|]|]; try done. by destruct Hend.
  - rewrite Hn, Ht, app_assoc. apply IH.
Qed.

(** ** A reference service *)

Module RefS3.
Record service := mkService {
  objects : gmap (string * string) Bytes;
  uploads : gmap string Upload;
}.

(** Longer than every id in use. *)
Definition new_id (s : service) : string := String "u" (str_join "" (map fst (map_to_list (uploads s)))).

Definition bodies (up : Upload) (parts : list (nat * string)) : option (list Bytes) :=
  mapM (fun p => match up_parts up !! p.1 with
                 | Some (tag, body) => if decide (tag = p.2) then Some body else None
                 | None => None
                 end) parts.

Lemma bodies_spec up parts bs :
  bodies up parts = Some bs -> Forall2 (fun p body => up_parts up !! p.1 = Some (p.2, body)) parts bs.
Proof.
  intros H%mapM_Some. eapply Forall2_impl; [exact H|]. intros p body. cbn beta.
  destruct (up_parts up !! p.1) as [[tag b]|]; [|done]. case_decide; congruence.
Qed.

Lemma new_id_fresh s : uploads s !! new_id s = None.
Proof.
  destruct (uploads s !! new_id s) as [up|] eqn:E; [|done]. exfalso.
  apply elem_of_map_to_list in E.
  assert (forall l : list (string * Upload), (new_id s, up) ∈ l ->
            String.length (new_id s) <= String.length (str_join "" (map fst l))) as H.
  { induction l as [|x l IH]; intros Hin; [by apply elem_of_nil in Hin|]. cbn [map].
    rewrite str_join_empty_cons, str_length_app.
    apply elem_of_cons in Hin as [<-|Hin]; [cbn [fst]; lia|]. specialize (IH Hin). lia. }
  specialize (H _ E). unfold new_id in H at 1. cbn [String.length] in H. lia.
Qed.
End RefS3.

#[export] Instance ref_s3 : S3Client RefS3.service := {|
  get_object b k s :=
    (match RefS3.objects s !! (b, k) with Some body => Ok (mkReader [body] None) | None => Err NoSuchKey end, s);
  put_object b k _ body s := (Ok tt, RefS3.mkService (<[(b, k) := body]> (RefS3.objects s)) (RefS3.uploads s));
  create_multipart_upload b k _ s :=
    (Ok (Some (RefS3.new_id s)),
     RefS3.mkService (RefS3.objects s) (<[RefS3.new_id s := mkUpload (b, k) ∅]> (RefS3.uploads s)));
  upload_part b k id n body s :=
    match RefS3.uploads s !! id with
    | Some up => (Ok (Some "tag"), RefS3.mkService (RefS3.objects s)
                    (<[id := mkUpload (up_dest up) (<[n := ("tag", body)]> (up_parts up))]> (RefS3.uploads s)))
    | None => (Err (Lit "NoSuchUpload"), s)
    end;
  complete_multipart_upload b k id parts s :=
    match RefS3.uploads s !! id with
    | Some up =>
        match RefS3.bodies up parts with
        | Some bodies => (Ok tt, RefS3.mkService (<[up_dest up := str_join "" bodies]> (RefS3.objects s))
                                   (delete id (RefS3.uploads s)))
        | None => (Err (Lit "InvalidPart"), s)
        end
    | None => (Err (Lit "NoSuchUpload"), s)
    end;
  abort_multipart_upload _ _ id s := (Ok tt, RefS3.mkService (RefS3.objects s) (delete id (RefS3.uploads s)));
  list_objects_v2 _ _ _ s := (Ok (mkListPage [] None None), s);
|}.

#[export] Instance ref_s3_laws : S3Laws RefS3.service.
Proof.
  refine (Build_S3Laws _ ref_s3 RefS3.objects RefS3.uploads _ _ _ _ _ _ _ _).
  - done.
  - intros b k s reader. cbn. destruct (RefS3.objects s !! (b, k)); [|done]. by intros [= <-].
  - intros b k s. cbn. by destruct (RefS3.objects s !! (b, k)).
  - done.
  - intros b k meta s. cbn. split; [done|]. split; [apply RefS3.new_id_fresh|done].
  - intros b k id n body s up H. cbn. rewrite H. cbn. split; [done|]. by eexists.
  - intros b k id parts s up H. cbn. rewrite H. destruct (RefS3.bodies up parts) as [bs|] eqn:E; [|done].
    exists bs. split; [by apply RefS3.bodies_spec|done].
  - done.
Defined.

(** The parts of an upload that starts from nothing. *)
Lemma upload_parts_numbered {S} {Cl : S3Client S} {Laws : S3Laws S} self
    (Hsize : (0 < multipart_part_bytes self)%N) b k id body (s : S) up parts n s' :
  uploads s !! id = Some up ->
  S3ObjectStore.upload_parts self (Datatypes.S (String.length (reader_bytes body))) b k id body 1 [] 0 s =
    (Ok parts, n, s') ->
  exists up' bodies, uploads s' !! id = Some up' /\ parts_hold up' parts bodies /\
    parts_sized self bodies /\ str_join "" bodies = reader_bytes body /\ map fst parts = seq 1 (length bodies).
Proof.
  intros Hup Hrun.
  pose proof (upload_parts_spec self Hsize (Datatypes.S (String.length (reader_bytes body))) b k id body 1 [] [] 0
    up s ltac:(lia) Hup ltac:(constructor) ltac:(constructor)) as H.
  rewrite Hrun in H. destruct H as (_ & _ & up' & Hu & _ & _ & _ & new & H1 & H2 & H3 & H4).
  exists up', new. split; [by rewrite Hu, lookup_insert_eq|]. by split_and!.
Qed.

(** ** Properties *)

(** C29: the streamed upload implements the port.  Whatever the service answers, [put_stream]
    changes at most its own key; it succeeds only when the body was read to its end, and
    then the object is the body; every failure, the body's own error included, leaves the
    object as it was; and as long as the service honours aborts, no upload is left behind,
    on any path. *)
Theorem s3_put_stream_refines {S} {Cl : S3Client S} {Laws : S3Laws S} self b k body meta (s : S) :
  (0 < multipart_part_bytes self)%N ->
  let '(r, n, s') := S3ObjectStore.put_stream self b k body meta s in
  (aborts_work -> uploads s' = uploads s) /\ (n <= byte_len (reader_bytes body))%N /\
  match r with
  | Ok _ => rd_error body = None /\ n = byte_len (reader_bytes body) /\
      objects s' = <[(b, k) := reader_bytes body]> (objects s)
  | Err _ => objects s' = objects s
  end.
Proof.
  intros Hsize. pose proof (put_stream_spec self Hsize b k body meta s) as H.
  destruct (S3ObjectStore.put_stream self b k body meta s) as [[r n] s']. by destruct H as (H1 & H2 & H3).
Qed.

(** The parts of an upload.  When [upload_parts] succeeds the parts are numbered from 1
    without a gap, none is empty, every part but the last is exactly [multipart_part_bytes]
    long and the last no longer, and together they are the body. *)
Theorem s3_parts_sized {S} {Cl : S3Client S} {Laws : S3Laws S} self b k id body (s : S) up parts n s' :
  (0 < multipart_part_bytes self)%N -> uploads s !! id = Some up ->
  S3ObjectStore.upload_parts self (Datatypes.S (String.length (reader_bytes body))) b k id body 1 [] 0 s =
    (Ok parts, n, s') ->
  exists up' bodies, uploads s' !! id = Some up' /\ parts_hold up' parts bodies /\
    parts_sized self bodies /\ str_join "" bodies = reader_bytes body /\ map fst parts = seq 1 (length bodies).
Proof. intros Hsize. by apply upload_parts_numbered. Qed.

(** ** Witnesses *)

Definition demo_s3 : S3ObjectStore := mkS3ObjectStore 4.
Definition demo_service : RefS3.service := RefS3.mkService ∅ ∅.
Definition demo_body : Reader := mkReader ["abcde"; "fgh"; "ij"] None.

Lemma s3_put_stream_refines_witness :
  RefS3.objects (S3ObjectStore.put_stream demo_s3 "siem" "k" demo_body (mkPutMeta "t" "gzip") demo_service).2
    !! ("siem", "k") = Some "abcdefghij" /\
  RefS3.uploads (S3ObjectStore.put_stream demo_s3 "siem" "k" demo_body (mkPutMeta "t" "gzip") demo_service).2 = ∅.
Proof.
  pose proof (s3_put_stream_refines demo_s3 "siem" "k" demo_body (mkPutMeta "t" "gzip") demo_service eq_refl) as H.
  assert ((S3ObjectStore.put_stream demo_s3 "siem" "k" demo_body (mkPutMeta "t" "gzip") demo_service).1.1 = Ok tt)
    as Hr by (vm_compute; reflexivity).
  destruct (S3ObjectStore.put_stream demo_s3 "siem" "k" demo_body (mkPutMeta "t" "gzip") demo_service) as [[r n] s'].
  cbn [fst snd] in *. subst r. destruct H as (Hu & _ & _ & _ & Ho). split.
  - change (RefS3.objects s' = <[("siem", "k") := reader_bytes demo_body]> ∅) in Ho. rewrite Ho.
    vm_compute. reflexivity.
  - apply Hu. split; intros; [reflexivity|discriminate].
Defined.

Lemma s3_parts_sized_witness :
  exists bodies, parts_sized demo_s3 bodies /\ str_join "" bodies = "abcdefghij" /\ length bodies = 3.
Proof.
  destruct (s3_parts_sized demo_s3 "siem" "k" "u" demo_body
    (RefS3.mkService ∅ {["u" := mkUpload ("siem", "k") ∅]}) (mkUpload ("siem", "k") ∅)
    [(1, "tag"); (2, "tag"); (3, "tag")] 10
    (S3ObjectStore.upload_parts demo_s3 11 "siem" "k" "u" demo_body 1 [] 0
       (RefS3.mkService ∅ {["u" := mkUpload ("siem", "k") ∅]})).2)
    as (up' & bodies & _ & Hh & Hs & Hj & Hn).
  - reflexivity.
  - vm_compute. reflexivity.
  - vm_compute. reflexivity.
  - exists bodies. split; [exact Hs|]. split; [exact Hj|]. apply Forall2_length in Hh. cbn in Hh. congruence.
Defined.
