(* ===== verification/Decode.v ===== *)
(** * The event decoders ([core/src/decode/])

    The four shapes an event reaches a Lambda in.  The structs are the source's; their
    derived deserializers, [serde_json]'s parser and [percent_encoding] are parameters
    ([DecodeCrates]), the last with its documented behaviour ([DecodeLaws]); Wire says what
    the derived deserializers read. *)

From S2P Require Import Prelude Model Json Path Regex Rules Reference Index Project Engine.
From S2P Require Import Settings Effects Metrics Ports.

(** ** The wire structs *)

Record S3Record := mkS3Record {
  s3_event_name : option string;
  s3_bucket_name : string;
  s3_object_key : string;
  s3_object_size : option N;
}.

Record SqsRecord := mkSqsRecord {
  message_id : string;
  body : string;
}.

Record EventBridgeEvent := mkEventBridgeEvent {
  detail_type : string;
  event_version : string;
  eb_bucket_name : string;
  eb_object_key : string;
  eb_object_size : option N;
}.

(** What the decoders call: [from_value] and [from_slice] of the derived structs, with the
    error's text, and [percent_decode_str(..).decode_utf8()]. *)
Class DecodeCrates {J : JsonCrate} := {
  s3_notification_of_value : Value Number -> result string (list S3Record);
  sns_messages_of_slice : Bytes -> result string (list string);
  sqs_event_of_slice : Bytes -> result string (list SqsRecord);
  sns_message_of_str : string -> result string string;
  (** [TypeSniff]: the [Type] field. *)
  type_of_str : string -> result string (option string);
  eventbridge_of_slice : Bytes -> result string EventBridgeEvent;
  percent_decode_utf8 : string -> result string string;
}.

Definition invalid_payload (text : string) : DecodeError := InvalidPayload (Lit text).

Section decode.
Context {J : JsonCrate} {Cr : DecodeCrates}.

(** ** S3 notifications *)

Definition is_object_created (event_name : option string) : bool :=
  match event_name with
  | None => true
  | Some name => starts_with "ObjectCreated:" (default name (strip_prefix "s3:" name))
  end.

Definition decode_form_urlencoded_key (key : string) : result DecodeError string :=
  let plus_decoded := replace_char "+" " " key in
  map_err invalid_payload (percent_decode_utf8 plus_decoded).

(** [for r in notification.records] *)
Fixpoint s3_objects (records : list S3Record) (objects : list ObjectRef) (skipped : bool) :
    result DecodeError (list ObjectRef * bool) :=
  match records with
  | [] => Ok (objects, skipped)
  | r :: records =>
      if negb (is_object_created (s3_event_name r)) then s3_objects records objects true
      else
        key ← decode_form_urlencoded_key (s3_object_key r);
        s3_objects records (objects ++ [mkObjectRef (s3_bucket_name r) key (s3_object_size r)]) skipped
  end.

(** [value.get("Event").and_then(as_str)] *)
Definition event_field (v : Value Number) : option string :=
  match v with
  | VObject fields => match obj_get "Event" fields with Some (VString s) => Some s | _ => None end
  | _ => None
  end.

Definition parse_s3_notification (payload : Bytes) : result DecodeError (list ObjectRef * bool) :=
  value ← map_err invalid_payload (from_str_value payload);
  if decide (event_field value = Some "s3:TestEvent") then Ok ([], false)
  else
    records ← map_err invalid_payload (s3_notification_of_value value);
    s3_objects records [] false.

Definition as_source_item (objects : list ObjectRef) : option SourceItem :=
  match objects with [] => None | _ => Some (SourceItem.new None objects) end.

Definition S3EventDecoder_decode (payload : Bytes) : result DecodeError (list SourceItem) :=
  parsed ← parse_s3_notification payload;
  Ok (match as_source_item parsed.1 with Some item => [item] | None => [] end).

(** ** SNS *)

(** [for record in notification.records] *)
Fixpoint sns_items (messages : list string) (items : list SourceItem) : result DecodeError (list SourceItem) :=
  match messages with
  | [] => Ok items
  | message :: messages =>
      parsed ← parse_s3_notification message;
      sns_items messages (items ++ match as_source_item parsed.1 with Some item => [item] | None => [] end)
  end.

Definition SnsEventDecoder_decode (payload : Bytes) : result DecodeError (list SourceItem) :=
  messages ← map_err invalid_payload (sns_messages_of_slice payload);
  sns_items messages [].

(** ** SQS *)

Definition looks_like_sns_notification (body : string) : bool :=
  match type_of_str body with
  | Ok type => bool_decide (type = Some "Notification")
  | Err _ => false
  end.

Definition unwrap_sns (body : string) : result DecodeError Bytes :=
  map_err invalid_payload (sns_message_of_str body).

Definition decode_body (body : string) (format : SqsBodyFormat) : result DecodeError (list ObjectRef * bool) :=
  s3_payload ←
    match format with
    | SfS3 =>
        if looks_like_sns_notification body then
          Err (invalid_payload "sqs.body_format is `s3` but this message body is an SNS Notification envelope; set sqs.body_format to `sns` (or `auto`)")
        else Ok body
    | SfSns => unwrap_sns body
    | SfAuto => if looks_like_sns_notification body then unwrap_sns body else Ok body
    end;
  parse_s3_notification s3_payload.

(** One record of the loop; [None] is [continue]. *)
Definition sqs_item (format : SqsBodyFormat) (record : SqsRecord) : option SourceItem :=
  match decode_body (body record) format with
  | Ok ([], true) => None
  | Ok (objects, _) => Some (SourceItem.new (Some (message_id record)) objects)
  | Err e => Some (SourceItem.undecodable (Some (message_id record)) (decode_error_to_string e))
  end.

Definition SqsEventDecoder_decode (format : SqsBodyFormat) (payload : Bytes) : result DecodeError (list SourceItem) :=
  records ← map_err invalid_payload (sqs_event_of_slice payload);
  Ok (omap (sqs_item format) (records : list SqsRecord)).

(** ** EventBridge *)

Definition OBJECT_CREATED : string := "Object Created".

Definition event_version_major (event_version : string) : result DecodeError N :=
  ok_or (InvalidPayload (Fmt "invalid detail.event-version {event_version:?}" [Lit event_version]))
    (major ← head (split_char "." event_version); parse_uint U64_MAX major).

Definition EventBridgeDecoder_decode (payload : Bytes) : result DecodeError (list SourceItem) :=
  event ← map_err invalid_payload (eventbridge_of_slice payload);
  if negb (bool_decide (detail_type event = OBJECT_CREATED)) then Ok []
  else
    major ← event_version_major (event_version event);
    if negb (major =? 1)%N then
      Err (InvalidPayload (Fmt "unsupported detail.event-version {:?}: expected major version 1"
                             [Lit (event_version event)]))
    else
      Ok [SourceItem.new None [mkObjectRef (eb_bucket_name event) (eb_object_key event) (eb_object_size event)]].
End decode.

(** ** Specification: form-urlencoded keys *)

(** One hexadecimal digit, as a value and as a character. *)
Definition hex_value (c : ascii) : option N :=
  let n := N_of_ascii c in
  if is_ascii_digit c then Some (n - 48)%N
  else if ((65 <=? n) && (n <=? 70))%N then Some (n - 55)%N
  else if ((97 <=? n) && (n <=? 102))%N then Some (n - 87)%N
  else None.

Definition hex_digit (n : N) : ascii := ascii_of_N (if (n <? 10)%N then 48 + n else 55 + n).

(** What [percent_decode_str] documents: an escape of two hexadecimal digits is its byte,
    everything else stands for itself. *)
Fixpoint percent_decode (s : string) : string :=
  match s with
  | String "%" (String a (String b s' as tail) as rest) =>
      match hex_value a, hex_value b with
      | Some h, Some l => String (ascii_of_N (16 * h + l)) (percent_decode s')
      | _, _ => String "%" (percent_decode rest)
      end
  | String c s' => String c (percent_decode s')
  | EmptyString => EmptyString
  end.

Class DecodeLaws {J : JsonCrate} (Cr : DecodeCrates) := {
  (** [decode_utf8]: whether bytes are UTF-8. *)
  is_utf8 : string -> bool;
  percent_decode_utf8_spec s :
    if is_utf8 (percent_decode s) then percent_decode_utf8 s = Ok (percent_decode s)
    else exists e, percent_decode_utf8 s = Err e;
}.

(** The encoding S3 writes keys with: letters, digits and [-_./] stand for themselves, a space
    is [+], every other byte is escaped. *)
Definition is_unreserved (c : ascii) : bool :=
  is_ascii_alphanumeric c || (c =? "-")%char || (c =? "_")%char || (c =? ".")%char || (c =? "/")%char.

Fixpoint form_urlencode (s : string) : string :=
  match s with
  | EmptyString => EmptyString
  | String c s' =>
      if is_unreserved c then String c (form_urlencode s')
      else if (c =? " ")%char then String "+" (form_urlencode s')
      else String "%" (String (hex_digit (N_of_ascii c / 16)) (String (hex_digit (N_of_ascii c mod 16)) (form_urlencode s')))
  end.

(** The decoder each binary is built with. *)
Definition s3_event_decoder {J : JsonCrate} {Cr : DecodeCrates} : EventDecoder := {| decode := S3EventDecoder_decode |}.
Definition sns_event_decoder {J : JsonCrate} {Cr : DecodeCrates} : EventDecoder := {| decode := SnsEventDecoder_decode |}.
Definition sqs_event_decoder {J : JsonCrate} {Cr : DecodeCrates} (format : SqsBodyFormat) : EventDecoder :=
  {| decode := SqsEventDecoder_decode format |}.
Definition eventbridge_decoder {J : JsonCrate} {Cr : DecodeCrates} : EventDecoder :=
  {| decode := EventBridgeDecoder_decode |}.

(** ** Lemmas *)

(** A check over every byte, by computation. *)
Definition all_bytes (p : ascii -> bool) : bool := forallb (fun n => p (ascii_of_nat n)) (seq 0 256).

Lemma all_bytes_spec p : all_bytes p = true -> forall c, p c = true.
Proof.
  intros H c. unfold all_bytes in H. rewrite forallb_forall in H.
  specialize (H (nat_of_ascii c)). rewrite ascii_nat_embedding in H. apply H, in_seq.
  pose proof (nat_ascii_bounded c). lia.
Qed.

(** The escape of a byte decodes to it. *)
Definition escape_ok (c : ascii) : bool :=
  let h := hex_digit (N_of_ascii c / 16) in
  let l := hex_digit (N_of_ascii c mod 16) in
  bool_decide (hex_value h = Some (N_of_ascii c / 16)%N) &&
  bool_decide (hex_value l = Some (N_of_ascii c mod 16)%N) &&
  bool_decide (ascii_of_N (16 * (N_of_ascii c / 16) + N_of_ascii c mod 16) = c) &&
  bool_decide (h <> "+"%char) && bool_decide (l <> "+"%char).

Lemma escape_ok_all c : escape_ok c = true.
Proof. apply (all_bytes_spec escape_ok). vm_compute. reflexivity. Qed.

Lemma hex_escape c :
  hex_value (hex_digit (N_of_ascii c / 16)) = Some (N_of_ascii c / 16)%N /\
  hex_value (hex_digit (N_of_ascii c mod 16)) = Some (N_of_ascii c mod 16)%N /\
  ascii_of_N (16 * (N_of_ascii c / 16) + N_of_ascii c mod 16) = c /\
  hex_digit (N_of_ascii c / 16) <> "+"%char /\ hex_digit (N_of_ascii c mod 16) <> "+"%char.
Proof.
  pose proof (escape_ok_all c) as H. unfold escape_ok in H. repeat rewrite andb_true_iff in H.
  rewrite !bool_decide_eq_true in H. tauto.
Qed.

Lemma unreserved_plain c : is_unreserved c = true -> c <> "%"%char /\ c <> "+"%char.
Proof.
  intros H. split; intros ->; by vm_compute in H.
Qed.

Lemma percent_decode_plain c s : c <> "%"%char -> percent_decode (String c s) = String c (percent_decode s).
Proof.
  intros H. destruct c as [[] [] [] [] [] [] [] []]; try done.
Qed.

(** Decoding undoes the encoding. *)
Lemma percent_decode_encode s : percent_decode (replace_char "+" " " (form_urlencode s)) = s.
Proof.
  induction s as [|c s IH]; [done|]. cbn [form_urlencode]. destruct (is_unreserved c) eqn:Hu.
  - apply unreserved_plain in Hu as [Hp Hplus]. cbn [replace_char]. rewrite decide_False by done.
    by rewrite percent_decode_plain, IH.
  - destruct (Ascii.eqb_spec c " ") as [->|Hsp].
    + cbn [replace_char]. rewrite decide_True by done. by rewrite percent_decode_plain, IH.
    + destruct (hex_escape c) as (H1 & H2 & H3 & H4 & H5). cbn [replace_char].
      rewrite !decide_False by done. cbn [percent_decode]. by rewrite H1, H2, H3, IH.
Qed.

(** The loop over the records of a notification. *)
Section notification.
Context {J : JsonCrate} {Cr : DecodeCrates}.

(** The object a record is read as. *)
Definition refers (r : S3Record) (o : ObjectRef) : Prop :=
  or_bucket o = s3_bucket_name r /\ or_size o = s3_object_size r /\
  decode_form_urlencoded_key (s3_object_key r) = Ok (or_key o).

Definition created (r : S3Record) : bool := is_object_created (s3_event_name r).

Lemma s3_objects_spec records objects skipped :
  match s3_objects records objects skipped with
  | Ok (objects', skipped') =>
      (exists more, objects' = objects ++ more /\ Forall2 refers (filter (fun r => created r = true) records) more) /\
      skipped' = skipped || existsb (fun r => negb (created r)) records
  | Err e =>
      exists before r after, records = before ++ r :: after /\ created r = true /\
        decode_form_urlencoded_key (s3_object_key r) = Err e /\
        Forall (fun q => created q = true -> exists key, decode_form_urlencoded_key (s3_object_key q) = Ok key) before
  end.
Proof.
  revert objects skipped. induction records as [|r records IH]; intros objects skipped; cbn [s3_objects].
  { split; [exists []; by rewrite app_nil_r|]. by rewrite orb_false_r. }
  change (is_object_created (s3_event_name r)) with (created r). destruct (created r) eqn:Hc; cbn [negb].
  - destruct (decode_form_urlencoded_key (s3_object_key r)) as [key|e] eqn:Hk; cbn [mbind result_bind].
    2:{ exists [], r, records. by split_and!. }
    specialize (IH (objects ++ [mkObjectRef (s3_bucket_name r) key (s3_object_size r)]) skipped).
    destruct (s3_objects records _ skipped) as [[objects' skipped']|e].
    + destruct IH as [(more & -> & Hmore) ->]. rewrite filter_cons_True by done. cbn [existsb]. rewrite Hc.
      split; [|done]. eexists. rewrite <-app_assoc. split; [reflexivity|]. by constructor.
    + destruct IH as (before & q & after & -> & Hq & He & Hb). exists (r :: before), q, after.
      split_and!; [done|done|done|]. constructor; eauto.
  - specialize (IH objects true). destruct (s3_objects records objects true) as [[objects' skipped']|e].
    + destruct IH as [Hm ->]. rewrite filter_cons_False by congruence. cbn [existsb]. rewrite Hc.
      split; [done|]. cbn. by rewrite orb_true_r.
    + destruct IH as (before & q & after & -> & Hq & He & Hb). exists (r :: before), q, after.
      split_and!; [done|done|done|]. constructor; [congruence|done].
Qed.
End notification.

(** ** Properties *)

(** S3 keys round-trip.  A key written the way S3 writes it in a notification, form
    encoded, is decoded to the key itself, whatever bytes of UTF-8 it holds. *)
Theorem s3_key_roundtrip {J : JsonCrate} {Cr : DecodeCrates} {L : DecodeLaws Cr} key :
  is_utf8 key = true -> decode_form_urlencoded_key (form_urlencode key) = Ok key.
Proof.
  intros Hu. unfold decode_form_urlencoded_key.
  pose proof (percent_decode_utf8_spec (replace_char "+" " " (form_urlencode key))) as H.
  rewrite percent_decode_encode, Hu in H. by rewrite H.
Qed.

(** A notification is read in full.  Every record that names a creation, or names no
    event at all, becomes the object it refers to, in order and with its key decoded; the
    others only set [skipped]; the notification fails exactly on the first such record
    whose key does not decode. *)
Theorem s3_notification_spec {J : JsonCrate} {Cr : DecodeCrates} payload value records :
  from_str_value payload = Ok value -> event_field value <> Some "s3:TestEvent" ->
  s3_notification_of_value value = Ok records ->
  match parse_s3_notification payload with
  | Ok (objects, skipped) =>
      Forall2 refers (filter (fun r => created r = true) records) objects /\
      (skipped = true <-> exists r, r ∈ records /\ created r = false)
  | Err e =>
      exists before r after, records = before ++ r :: after /\ created r = true /\
        decode_form_urlencoded_key (s3_object_key r) = Err e /\
        Forall (fun q => created q = true -> exists key, decode_form_urlencoded_key (s3_object_key q) = Ok key) before
  end.
Proof.
  intros Hv Ht Hr. unfold parse_s3_notification. rewrite Hv. cbn. rewrite decide_False by done.
  rewrite Hr. cbn. pose proof (s3_objects_spec records [] false) as H.
  destruct (s3_objects records [] false) as [[objects skipped]|e]; [|done].
  destruct H as [(more & -> & Hmore) ->]. split; [done|]. rewrite orb_false_l, existsb_exists.
  split; intros (r & Hin & Hc); exists r; rewrite ?list_elem_of_In in *; split; try done.
  - by apply negb_true_iff in Hc.
  - by rewrite Hc.
Qed.

(** ** Witnesses *)

(** One message with three records, the second a deletion. *)
Definition demo_records : list S3Record :=
  [mkS3Record (Some "ObjectCreated:Put") "trail" "a+b%2F.json" (Some 9%N);
   mkS3Record (Some "s3:ObjectRemoved:Delete") "trail" "gone.json" None;
   mkS3Record None "trail" "a.json" (Some 5%N)].

Definition demo_crates {J : JsonCrate} : DecodeCrates := {|
  s3_notification_of_value v := match v with VObject _ => Ok demo_records | _ => Err "expected struct S3Notification" end;
  sns_messages_of_slice _ := Err "missing field `Records`";
  sqs_event_of_slice payload :=
    if decide (payload = "event") then Ok [mkSqsRecord "m1" "r1"; mkSqsRecord "m2" "not json"]
    else Err "missing field `Records`";
  sns_message_of_str _ := Err "missing field `Message`";
  type_of_str _ := Ok None;
  eventbridge_of_slice _ := Err "missing field `detail`";
  percent_decode_utf8 s := Ok (percent_decode s);
|}.

Definition demo_decode_laws {J : JsonCrate} : DecodeLaws demo_crates.
Proof. refine {| is_utf8 _ := true |}. done. Defined.

Lemma s3_key_roundtrip_witness :
  is_utf8 (DecodeLaws := demo_decode_laws (J := demo_json)) "AWSLogs/a+b c.json" = true /\
  decode_form_urlencoded_key (Cr := demo_crates (J := demo_json)) "AWSLogs/a%2Bb+c.json" = Ok "AWSLogs/a+b c.json".
Proof.
  split; [reflexivity|].
  exact (s3_key_roundtrip (Cr := demo_crates (J := demo_json)) (L := demo_decode_laws) "AWSLogs/a+b c.json" eq_refl).
Defined.

Lemma s3_notification_spec_witness :
  exists objects, parse_s3_notification (J := demo_json) (Cr := demo_crates) "r1" = Ok (objects, true) /\
    Forall2 (refers (Cr := demo_crates (J := demo_json))) (filter (fun r => created r = true) demo_records) objects.
Proof.
  pose proof (s3_notification_spec (J := demo_json) (Cr := demo_crates) "r1"
    (match from_str_value (J := demo_json) "r1" with Ok v => v | Err _ => VNull end) demo_records) as H.
  assert (parse_s3_notification (J := demo_json) (Cr := demo_crates) "r1" =
    Ok ([mkObjectRef "trail" "a b/.json" (Some 9%N); mkObjectRef "trail" "a.json" (Some 5%N)], true)) as He
    by (vm_compute; reflexivity).
  rewrite He in H. eexists. split; [exact He|]. apply H; vm_compute; [reflexivity|discriminate|reflexivity].
Defined.
