(* ===== verification/Queue.v ===== *)
(** * The queue-fed handler

    [handle] behind [SqsEventDecoder]: what a success answer says of every message of the
    queue's batch. *)

From S2P Require Import Prelude Model Json Path Regex Rules Reference Index Project Engine.
From S2P Require Import Settings Effects Metrics Ports Task Envelope Buffer Stream Cache Pipeline.
From S2P Require Import Interleave Accounting Source Footprint Objects Weave Batch Handle Decode.

Section queue.
Context {R : RegexCrate} (p : Pipeline).

(** An allowed object of an item that decoded is a piece of the batch's work. *)
Lemma batch_work_covers idx items i item o :
  items !! i = Some item -> si_decode_error item = None -> o ∈ si_objects item ->
  key_allowed p (or_key o) = true ->
  exists k x, batch_work p idx items !! k = Some x /\ wk_item_idx x = (idx + i)%nat /\ wk_object x = o.
Proof.
  intros Hi He Ho Hk.
  assert (exists x, x ∈ batch_work p idx items /\ wk_item_idx x = (idx + i)%nat /\ wk_object x = o) as (x & Hx & H).
  { revert idx i Hi. induction items as [|it items IH]; intros idx [|i] Hi; [done|done| |];
      cbn [batch_work].
    - injection Hi as ->. exists (mkWork idx o (bucket (s_destination (p_settings p))) (dest_key_of p o)).
      split; [|cbn; split; [lia|done]]. apply elem_of_app. left. unfold item_work. rewrite He.
      apply list_elem_of_fmap. exists o. split; [done|]. by apply list_elem_of_filter.
    - destruct (IH (idx + 1)%nat i Hi) as (x & Hx & Hidx & Hobj). exists x. split; [apply elem_of_app; by right|]. split; [lia|done]. }
  apply list_elem_of_lookup in Hx as [k Hx]. by exists k, x.
Qed.
End queue.

(** When an invocation fed by the queue succeeds, each message of the batch is reported as
    failed, so that the queue keeps it, or its body decoded and each object it names that
    passes the key filter was processed without an error in this invocation. *)
Lemma queue_loses_nothing {J : JsonCrate} {SH : ShallowCrate} {SL : ShallowLaws J SH} {Cr : DecodeCrates}
    {R : RegexCrate} {G : GzipCrate} {GL : GzipLaws G} {S} {St : ObjectStore S} {Laws : StoreLaws S}
    {C} {Src : ConfigSource C} format ttl compile p sched now payload (w w' : World S C) ids :
  runnable p ->
  handle (D := sqs_event_decoder format) ttl compile p sched now payload w = (Ok (mkBatchOutcome ids), w') ->
  exists records env0 outs env1,
    sqs_event_of_slice payload = Ok records /\
    let work := batch_work p 0 (omap (sqs_item format) records) in
    interleaved p (bs_streams sched) (engine_at ttl compile now w) work env0 outs env1 /\
    e_store env0 = e_store (w_env w) /\ e_store (w_env w') = e_store env1 /\
    forall record, record ∈ records ->
      message_id record ∈ ids \/
      (exists objects skipped, decode_body (body record) format = Ok (objects, skipped) /\
        forall o, o ∈ objects -> key_allowed p (or_key o) = true ->
          exists k x, work !! k = Some x /\ wk_object x = o /\ outs !! k = Some (Ok tt)).
Proof.
  intros Hrun Hh. apply (handle_acked (D := sqs_event_decoder format)) in Hh; [|done]. destruct Hh
    as (items & env0 & outs & env1 & Hd & Ht & H0 & H1 & Hall).
  cbn [decode sqs_event_decoder] in Hd. unfold SqsEventDecoder_decode in Hd.
  destruct (sqs_event_of_slice payload) as [records|e]; [|discriminate]. cbn in Hd. injection Hd as <-.
  exists records, env0, outs, env1. split; [done|]. cbv zeta. split_and!; [done|done|done|].
  intros record Hin.
  destruct (sqs_item format record) as [item|] eqn:Hitem; cycle 1.
  { right. unfold sqs_item in Hitem. destruct (decode_body (body record) format) as [[[|o os] []]|e] eqn:Hb; try done.
    exists [], true. split; [done|]. intros o Ho. by apply elem_of_nil in Ho. }
  assert (item ∈ omap (sqs_item format) records) as Hi by (apply list_elem_of_omap; by exists record).
  apply list_elem_of_lookup in Hi as [i Hi].
  destruct (Hall i item Hi) as [(ack & Hack & Hids)|[Herr Hok]]; unfold sqs_item in Hitem.
  - left. destruct (decode_body (body record) format) as [[[|o os] []]|e]; try done;
      injection Hitem as <-; cbn in Hack; congruence.
  - right. destruct (decode_body (body record) format) as [[objects skipped]|e] eqn:Hb.
    2:{ injection Hitem as <-. done. }
    exists objects, skipped. split; [done|]. intros o Ho Hk.
    assert (item = SourceItem.new (Some (message_id record)) objects) as ->
      by (destruct objects as [|o' os], skipped; by simplify_eq).
    destruct (batch_work_covers p 0 _ i _ o Hi Herr Ho Hk) as (k & x & Hx & Hidx & Hobj).
    exists k, x. split_and!; [done|done|]. by eapply Hok.
Qed.
