(* ===== verification/Sources.v ===== *)
(** * Configuration sources ([core/src/config/uri.rs], [core/src/config/file_source.rs],
    [aws/src/s3_config.rs], [aws/src/ssm_config.rs])

    Where the rules document lives, and the three adapters that read it.  [DocumentSource]
    is what the cache needs of a source beyond [ConfigSource]: that a version tag still in
    force means the bytes read under it are still the document.  Each adapter implements it,
    so the cached ruleset is never older than the last revalidation ([reload_current]). *)

From S2P Require Import Prelude Model Json Path Regex Rules Reference Index Project Engine.
From S2P Require Import Metrics Ports Cache.

(** ** [ConfigUri] *)

Inductive ConfigUri : Type :=
  | UriSsm (path : string)
  | UriS3 (bucket key : string)
  | UriFile (path : string).

Definition ConfigUri_parse (uri : string) : result ConfigError ConfigUri :=
  match strip_prefix "ssm://" uri with
  | Some path => Ok (UriSsm path)
  | None =>
      match strip_prefix "s3://" uri with
      | Some rest =>
          '(bucket, key) ← ok_or (CfgSource (Fmt "invalid s3:// uri {uri:?}: expected s3://bucket/key" [Lit uri]))
                             (split_once "/" rest);
          Ok (UriS3 bucket key)
      | None =>
          match strip_prefix "file://" uri with
          | Some path => Ok (UriFile path)
          | None =>
              Err (CfgSource (Fmt "unsupported config uri scheme in {uri:?}: expected ssm://, s3://, or file://"
                                [Lit uri]))
          end
      end
  end.

(** The text a URI is written as. *)
Definition render_uri (u : ConfigUri) : string :=
  match u with
  | UriSsm path => "ssm://" +:+ path
  | UriS3 bucket key => "s3://" +:+ bucket +:+ "/" +:+ key
  | UriFile path => "file://" +:+ path
  end.

Definition wf_uri (u : ConfigUri) : bool :=
  match u with UriS3 bucket _ => negb (char_in "/" bucket) | _ => true end.

(** ** The interface *)

(** What the cache relies on.  [later] orders the states of the source, [during s s' b] says
    that [b] was the document at some moment between [s] and [s'], and [tagged s b v] that [b]
    was read under the tag [v] before [s]. *)
Class DocumentSource (S : Type) {Src : ConfigSource S} := {
  later : S -> S -> Prop;
  during : S -> S -> Bytes -> Prop;
  tagged : S -> Bytes -> VersionTag -> Prop;
  later_refl s : later s s;
  later_trans s1 s2 s3 : later s1 s2 -> later s2 s3 -> later s1 s3;
  during_later s s1 s2 b : later s s1 -> during s1 s2 b -> during s s2 b;
  tagged_later s s' b v : later s s' -> tagged s b v -> tagged s' b v;
  version_later s : later s (source_version s).2;
  fetch_later s : later s (source_fetch s).2;
  version_tagged s s' b v : source_version s = (Ok v, s') -> tagged s b v -> during s s' b;
  fetch_tagged s s' b v : source_fetch s = (Ok (b, v), s') -> during s s' b /\ tagged s' b v;
}.

(** ** [FileConfigSource] *)

(** The file operations of the standard library the source uses, on the state of the file
    system at one moment.  A [SystemTime] is its nanoseconds after the epoch. *)
Class FileSystem (F : Type) := {
  fs_metadata : string -> F -> result Msg (result Msg Z);
  fs_read : string -> F -> result Msg Bytes;
  (** What the file holds; a read that succeeds returns it. *)
  fs_content : string -> F -> option Bytes;
  fs_read_content path fs b : fs_read path fs = Ok b -> fs_content path fs = Some b;
}.

Record FileConfigSource := mkFileConfigSource { fc_path : string }.

(** The source on a file system that other processes write: [history n] is its state at the
    program's [n]-th file operation. *)
Record FileSource {F : Type} (history : nat -> F) := mkFileSource {
  fsrc : FileConfigSource;
  fsrc_ops : nat;
}.
Arguments mkFileSource {F history}.
Arguments fsrc {F history}.
Arguments fsrc_ops {F history}.

Module FileConfigSource.
Section file.
Context {F : Type} {Fs : FileSystem F} {history : nat -> F}.

(** The tag of a modification time, [as_secs] and [subsec_nanos] of its distance from the
    epoch recombined with saturation. *)
Definition nanos (modified : N) : N :=
  saturating_add_u64 (saturating_mul_u64 (modified / 1000000000) 1000000000) (modified mod 1000000000).

Definition mtime (self : FileConfigSource) (fs : F) : result ConfigError VersionTag :=
  meta ← map_err (fun e => CfgSource (Fmt "failed to stat {:?}: {e}" [Lit (fc_path self); e]))
           (fs_metadata (fc_path self) fs);
  modified ← map_err (fun e => CfgSource (Fmt "no mtime for {:?}: {e}" [Lit (fc_path self); e])) meta;
  if (modified <? 0)%Z then
    Err (CfgSource (Fmt "mtime before epoch for {:?}: {e}"
                      [Lit (fc_path self); Lit "second time provided was later than self"]))
  else Ok (Mtime (nanos (Z.to_N modified))).

Definition new (path : string) : FileConfigSource := mkFileConfigSource path.

Definition version (s : FileSource history) : result ConfigError VersionTag * FileSource history :=
  (mtime (fsrc s) (history (fsrc_ops s)), mkFileSource (fsrc s) (fsrc_ops s + 1)).

(** The stat comes first. *)
Definition fetch (s : FileSource history) :
    result ConfigError (Bytes * VersionTag) * FileSource history :=
  match mtime (fsrc s) (history (fsrc_ops s)) with
  | Err e => (Err e, mkFileSource (fsrc s) (fsrc_ops s + 1))
  | Ok version =>
      (bytes ← map_err (fun e => CfgSource (Fmt "failed to read {:?}: {e}" [Lit (fc_path (fsrc s)); e]))
                 (fs_read (fc_path (fsrc s)) (history (fsrc_ops s + 1)));
       Ok (bytes, version),
       mkFileSource (fsrc s) (fsrc_ops s + 2))
  end.
End file.
End FileConfigSource.

#[export] Instance file_config_source {F} {Fs : FileSystem F} (history : nat -> F) :
  ConfigSource (FileSource history) := {|
  source_version := FileConfigSource.version;
  source_fetch := FileConfigSource.fetch;
|}.

(** ** [S3ConfigSource] *)

(** The two calls of the SDK client; errors as [DisplayErrorContext] shows them. *)
Class S3ConfigClient (S : Type) := {
  head_object : string -> string -> S -> result Msg (option string) * S;
  get_config_object : string -> string -> S -> result Msg (option string * Reader) * S;
}.

Record S3ConfigSource := mkS3ConfigSource { s3c_bucket : string; s3c_key : string }.

Module S3ConfigSource.
Section s3.
Context {S : Type} {Cl : S3ConfigClient S} (self : S3ConfigSource).

Definition version (s : S) : result ConfigError VersionTag * S :=
  let '(r, s) := head_object (s3c_bucket self) (s3c_key self) s in
  (e_tag ← map_err CfgSource r;
   etag ← ok_or (CfgSource (Lit "HeadObject response missing ETag")) e_tag;
   Ok (Etag etag), s).

Definition fetch (s : S) : result ConfigError (Bytes * VersionTag) * S :=
  let '(r, s) := get_config_object (s3c_bucket self) (s3c_key self) s in
  ('(e_tag, body) ← map_err CfgSource r;
   etag ← ok_or (CfgSource (Lit "GetObject response missing ETag")) e_tag;
   bytes ← map_err (fun e => CfgSource (Fmt "reading config object body: {e}" [e])) (read_to_end body);
   Ok (bytes, Etag etag), s).
End s3.
End S3ConfigSource.

(** ** [SsmConfigSource] *)

(** A parameter: its value, and [version()]. *)
Record SsmParameter := mkSsmParameter { pa_value : option string; pa_version : Z }.

(** [GetParameter], with decryption. *)
Class SsmClient (S : Type) := {
  ssm_get_parameter : string -> S -> result Msg (option SsmParameter) * S;
}.

Record SsmConfigSource := mkSsmConfigSource { ssm_name : string }.

Module SsmConfigSource.
Section ssm.
Context {S : Type} {Cl : SsmClient S} (self : SsmConfigSource).

Definition get_parameter (s : S) : result ConfigError SsmParameter * S :=
  let '(r, s) := ssm_get_parameter (ssm_name self) s in
  (out ← map_err CfgSource r;
   ok_or (CfgSource (Lit "GetParameter response missing parameter")) out, s).

Definition version (s : S) : result ConfigError VersionTag * S :=
  let '(r, s) := get_parameter s in (param ← r; Ok (Version (pa_version param)), s).

Definition fetch (s : S) : result ConfigError (Bytes * VersionTag) * S :=
  let '(r, s) := get_parameter s in
  (param ← r;
   value ← ok_or (CfgSource (Lit "GetParameter response missing value")) (pa_value param);
   Ok (value, Version (pa_version param)), s).
End ssm.
End SsmConfigSource.

(** The adapters as sources: a location, and the state of the service. *)
Record Located (L S : Type) := mkLocated { loc_at : L; loc_state : S }.
Arguments mkLocated {L S}.
Arguments loc_at {L S}.
Arguments loc_state {L S}.

Definition located_op {L S A} (op : L -> S -> A * S) (s : Located L S) : A * Located L S :=
  let '(a, s') := op (loc_at s) (loc_state s) in (a, mkLocated (loc_at s) s').

#[export] Instance s3_config_source {S} {Cl : S3ConfigClient S} : ConfigSource (Located S3ConfigSource S) := {|
  source_version := located_op S3ConfigSource.version;
  source_fetch := located_op S3ConfigSource.fetch;
|}.

#[export] Instance ssm_config_source {S} {Cl : SsmClient S} : ConfigSource (Located SsmConfigSource S) := {|
  source_version := located_op SsmConfigSource.version;
  source_fetch := located_op SsmConfigSource.fetch;
|}.

(** ** The adapters implement the interface *)

(** *** Files *)

(** What is asked of the file system's modification times, at one path: they are within the
    tag's range (they reach it in the year 2554), and a file whose time has not changed has
    not been written in between. *)
Definition honest_mtimes {F} {Fs : FileSystem F} (history : nat -> F) (path : string) : Prop :=
  (forall i t, fs_metadata path (history i) = Ok (Ok t) -> (t < Z.of_N U64_MAX)%Z) /\
  (forall i j k t, i <= k <= j ->
     fs_metadata path (history i) = Ok (Ok t) -> fs_metadata path (history j) = Ok (Ok t) ->
     fs_content path (history k) = fs_content path (history j)).

Lemma nanos_spec n : FileConfigSource.nanos n = N.min U64_MAX n.
Proof.
  unfold FileConfigSource.nanos, saturating_add_u64, saturating_mul_u64.
  pose proof (N.div_mod n 1000000000 ltac:(discriminate)) as H. rewrite (N.mul_comm (n / _)).
  revert H. generalize (1000000000 * (n / 1000000000))%N (n mod 1000000000)%N. lia.
Qed.

Section file_laws.
Context {F : Type} {Fs : FileSystem F} {history : nat -> F}.

Lemma mtime_ok (self : FileConfigSource) fs v :
  FileConfigSource.mtime self fs = Ok v ->
  exists t, fs_metadata (fc_path self) fs = Ok (Ok t) /\ (0 <= t)%Z /\ v = Mtime (N.min U64_MAX (Z.to_N t)).
Proof.
  unfold FileConfigSource.mtime. destruct (fs_metadata (fc_path self) fs) as [[t|e]|e]; cbn; try done.
  destruct (t <? 0)%Z eqn:Ht; [done|]. intros [= <-]. exists t. rewrite nanos_spec. split_and!; [done|lia|done].
Qed.

(** Two files with the same tag have the same modification time. *)
Lemma mtime_inj (self : FileConfigSource) fs fs' v :
  (forall t, fs_metadata (fc_path self) fs = Ok (Ok t) -> (t < Z.of_N U64_MAX)%Z) ->
  (forall t, fs_metadata (fc_path self) fs' = Ok (Ok t) -> (t < Z.of_N U64_MAX)%Z) ->
  FileConfigSource.mtime self fs = Ok v -> FileConfigSource.mtime self fs' = Ok v ->
  exists t, fs_metadata (fc_path self) fs = Ok (Ok t) /\ fs_metadata (fc_path self) fs' = Ok (Ok t).
Proof.
  intros Hr Hr' H H'. apply mtime_ok in H as (t & Hm & Ht & ->). apply mtime_ok in H' as (t' & Hm' & Ht' & Heq).
  specialize (Hr t Hm). specialize (Hr' t' Hm'). injection Heq as Heq. exists t. split; [done|].
  by replace t with t' by lia.
Qed.

(** The file held [b] at one of the operations from [s] to [s']. *)
Definition file_during (s s' : FileSource history) (b : Bytes) : Prop :=
  exists k, fsrc_ops s <= k < fsrc_ops s' /\ fs_content (fc_path (fsrc s)) (history k) = Some b.

(** [b] was read right after a stat that gave [v]. *)
Definition file_tagged (s : FileSource history) (b : Bytes) (v : VersionTag) : Prop :=
  exists i, i + 1 < fsrc_ops s /\ FileConfigSource.mtime (fsrc s) (history i) = Ok v /\
    fs_content (fc_path (fsrc s)) (history (i + 1)) = Some b.

(** A fetch brackets the read with its stat. *)
Lemma file_fetch_inv (s s' : FileSource history) b v :
  FileConfigSource.fetch s = (Ok (b, v), s') ->
  fsrc s' = fsrc s /\ fsrc_ops s' = fsrc_ops s + 2 /\
  FileConfigSource.mtime (fsrc s) (history (fsrc_ops s)) = Ok v /\
  fs_content (fc_path (fsrc s)) (history (fsrc_ops s + 1)) = Some b.
Proof.
  unfold FileConfigSource.fetch.
  destruct (FileConfigSource.mtime (fsrc s) (history (fsrc_ops s))) as [v'|e]; [|done].
  destruct (fs_read (fc_path (fsrc s)) (history (fsrc_ops s + 1))) as [b'|e] eqn:Hr; cbn; [|done].
  intros [= -> -> <-]. split_and!; [done|done|done|]. by apply fs_read_content.
Qed.

(** A tag that is still in force: the bytes read under it are the file's. *)
Lemma file_tag_current (s : FileSource history) b v :
  honest_mtimes history (fc_path (fsrc s)) -> file_tagged s b v ->
  FileConfigSource.mtime (fsrc s) (history (fsrc_ops s)) = Ok v ->
  fs_content (fc_path (fsrc s)) (history (fsrc_ops s)) = Some b.
Proof.
  intros [Hrange Hhonest] (i & Hi & Hv & <-) Hnow.
  destruct (mtime_inj (fsrc s) (history i) (history (fsrc_ops s)) v) as (t & H1 & H2); [by apply Hrange|by apply Hrange|done|done|].
  symmetry. apply (Hhonest i (fsrc_ops s) (i + 1) t); [lia|done|done].
Qed.
End file_laws.

(** The source on a file system with honest times. *)
Definition file_document_source {F} {Fs : FileSystem F} (history : nat -> F)
    (honest : forall path, honest_mtimes history path) : DocumentSource (FileSource history).
Proof.
  refine {| later s s' := fsrc s' = fsrc s /\ fsrc_ops s <= fsrc_ops s';
            during := file_during; tagged := file_tagged |}.
  - by intros.
  - intros s1 s2 s3 [H1 H2] [H3 H4]. split; [congruence|lia].
  - intros s s1 s2 b [H1 H2] (k & Hk & Hc). exists k. rewrite H1 in Hc. split; [lia|done].
  - intros s s' b v [H1 H2] (i & Hi & Hv & Hc). exists i. rewrite H1. split_and!; [lia|done|done].
  - intros s. cbn. split; [done|lia].
  - intros s. cbn. unfold FileConfigSource.fetch. case_match; cbn; (split; [done|lia]).
  - intros s s' b v Hv Ht. cbn in Hv. unfold FileConfigSource.version in Hv. injection Hv as Hv <-.
    exists (fsrc_ops s). cbn. split; [lia|]. by apply (file_tag_current s b v (honest _)).
  - intros s s' b v Hf. apply file_fetch_inv in Hf as (H1 & H2 & Hv & Hc). split.
    + exists (fsrc_ops s + 1). split; [lia|done].
    + exists (fsrc_ops s). rewrite H1, H2. split_and!; [lia|done|done].
Defined.

(** *** Documents a service keeps under versions *)

(** A service whose documents are named by version: [sees loc s s' v d] says that between [s]
    and [s'] the location held the document [d] under the version [v]. *)
Class VersionedService (S L V D : Type) := {
  sv_later : S -> S -> Prop;
  sees : L -> S -> S -> V -> D -> Prop;
  sv_later_refl s : sv_later s s;
  sv_later_trans s1 s2 s3 : sv_later s1 s2 -> sv_later s2 s3 -> sv_later s1 s3;
  sees_later loc s s1 s2 v d : sv_later s s1 -> sees loc s1 s2 v d -> sees loc s s2 v d;
  (** A version is not used again for another document: an ETag names contents; the versions
      of a parameter count upwards, as long as it is not deleted and created anew. *)
  version_names loc s1 s1' s2 s2' v d d' :
    sees loc s1 s1' v d -> sv_later s1' s2 -> sees loc s2 s2' v d' -> d = d';
}.

(** [b] was seen under [v] before [s]. *)
Definition seen_before {S L V D} {Vs : VersionedService S L V D} (loc : L) (s : S) (v : V) (d : D) : Prop :=
  exists s1 s1', sees loc s1 s1' v d /\ sv_later s1' s.

Lemma seen_before_later {S L V D} {Vs : VersionedService S L V D} (loc : L) (s s' : S) (v : V) (d : D) :
  sv_later s s' -> seen_before loc s v d -> seen_before loc s' v d.
Proof. intros H (s1 & s1' & Hs & Hl). exists s1, s1'. split; [done|]. by eapply sv_later_trans. Qed.

Class S3ConfigLaws (S : Type) {Cl : S3ConfigClient S} := {
  s3c_versions :: VersionedService S (string * string) string Bytes;
  head_object_later b k s : sv_later s (head_object b k s).2;
  get_config_object_later b k s : sv_later s (get_config_object b k s).2;
  head_object_sees b k s s' e :
    head_object b k s = (Ok (Some e), s') -> exists d, sees (b, k) s s' e d;
  get_config_object_sees b k s s' e body :
    get_config_object b k s = (Ok (Some e, body), s') -> rd_error body = None ->
    sees (b, k) s s' e (reader_bytes body);
}.

Class SsmLaws (S : Type) {Cl : SsmClient S} := {
  ssm_versions :: VersionedService S string Z (option string);
  ssm_get_parameter_later n s : sv_later s (ssm_get_parameter n s).2;
  ssm_get_parameter_sees n s s' p :
    ssm_get_parameter n s = (Ok (Some p), s') -> sees n s s' (pa_version p) (pa_value p);
}.

Lemma located_op_inv {L S A} (op : L -> S -> A * S) (s : Located L S) a s' :
  located_op op s = (a, s') -> op (loc_at s) (loc_state s) = (a, loc_state s') /\ loc_at s' = loc_at s.
Proof. unfold located_op. destruct (op _ _). by intros [= <- <-]. Qed.

(** A service of versioned documents, seen through one location; [name] and [tag] are how the
    adapter addresses and tags them, [doc] how it represents a document it can return. *)
Section located.
Context {L S N V D : Type} {Vs : VersionedService S N V D} (name : L -> N) (tag : V -> VersionTag) (doc : Bytes -> D).
Context (tag_inj : forall v v', tag v = tag v' -> v = v').

Definition located_later (s s' : Located L S) : Prop :=
  loc_at s' = loc_at s /\ sv_later (loc_state s) (loc_state s').
Definition located_during (s s' : Located L S) (b : Bytes) : Prop :=
  exists v, sees (name (loc_at s)) (loc_state s) (loc_state s') v (doc b).
Definition located_tagged (s : Located L S) (b : Bytes) (t : VersionTag) : Prop :=
  exists v, t = tag v /\ seen_before (name (loc_at s)) (loc_state s) v (doc b).

(** What one adapter has to show. *)
Definition located_document_source {Src : ConfigSource (Located L S)}
    (Hv : forall s, located_later s (source_version s).2)
    (Hf : forall s, located_later s (source_fetch s).2)
    (Hversion : forall s s' t, source_version s = (Ok t, s') ->
       exists v d, t = tag v /\ sees (name (loc_at s)) (loc_state s) (loc_state s') v d)
    (Hfetch : forall s s' b t, source_fetch s = (Ok (b, t), s') ->
       exists v, t = tag v /\ sees (name (loc_at s)) (loc_state s) (loc_state s') v (doc b)) :
  DocumentSource (Located L S).
Proof.
  refine {| later := located_later; during := located_during; tagged := located_tagged |}.
  - intros s. split; [done|apply sv_later_refl].
  - intros s1 s2 s3 [H1 H2] [H3 H4]. split; [congruence|by eapply sv_later_trans].
  - intros s s1 s2 b [H1 H2] (v & Hs). exists v. rewrite H1 in Hs. by eapply sees_later.
  - intros s s' b t [H1 H2] (v & -> & Hs). exists v. split; [done|]. rewrite H1. by eapply seen_before_later.
  - exact Hv.
  - exact Hf.
  - intros s s' b t Ho (v & -> & s1 & s1' & Hs & Hl). destruct (Hversion _ _ _ Ho) as (v' & d & Ht & Hd).
    apply tag_inj in Ht as <-. exists v. by rewrite (version_names _ _ _ _ _ _ _ _ Hs Hl Hd).
  - intros s s' b t Ho. destruct (Hfetch _ _ _ _ Ho) as (v & -> & Hs). split; [by exists v|].
    exists v. split; [done|]. exists (loc_state s), (loc_state s'). specialize (Hf s). rewrite Ho in Hf.
    cbn in Hf. destruct Hf as [-> _]. split; [done|apply sv_later_refl].
Defined.
End located.

Definition s3_document_source {S} {Cl : S3ConfigClient S} {Laws : S3ConfigLaws S} :
  DocumentSource (Located S3ConfigSource S).
Proof.
  apply (located_document_source (fun l => (s3c_bucket l, s3c_key l)) Etag id); [by intros v v' [= ->]| | | |].
  - intros s. cbn. unfold located_op, located_later, S3ConfigSource.version.
    pose proof (head_object_later (s3c_bucket (loc_at s)) (s3c_key (loc_at s)) (loc_state s)) as H.
    by destruct (head_object _ _ _).
  - intros s. cbn. unfold located_op, located_later, S3ConfigSource.fetch.
    pose proof (get_config_object_later (s3c_bucket (loc_at s)) (s3c_key (loc_at s)) (loc_state s)) as H.
    by destruct (get_config_object _ _ _).
  - intros s s' t H. apply located_op_inv in H as [H _]. unfold S3ConfigSource.version in H.
    destruct (head_object _ _ _) as [[[e|]|m] s''] eqn:Hh; cbn in H; try done. injection H as <- ->.
    apply head_object_sees in Hh as (d & Hd). by exists e, d.
  - intros s s' b t H. apply located_op_inv in H as [H _]. unfold S3ConfigSource.fetch in H.
    destruct (get_config_object _ _ _) as [[[[e|] body]|m] s''] eqn:Hg; cbn in H; try done.
    unfold read_to_end in H. destruct (rd_error body) eqn:Hb; cbn in H; [done|]. injection H as <- <- ->.
    exists e. split; [done|]. by apply get_config_object_sees in Hg.
Defined.

Definition ssm_document_source {S} {Cl : SsmClient S} {Laws : SsmLaws S} :
  DocumentSource (Located SsmConfigSource S).
Proof.
  apply (located_document_source ssm_name Version Some); [by intros v v' [= ->]| | | |].
  - intros s. cbn. unfold located_op, located_later, SsmConfigSource.version, SsmConfigSource.get_parameter.
    pose proof (ssm_get_parameter_later (ssm_name (loc_at s)) (loc_state s)) as H.
    by destruct (ssm_get_parameter _ _).
  - intros s. cbn. unfold located_op, located_later, SsmConfigSource.fetch, SsmConfigSource.get_parameter.
    pose proof (ssm_get_parameter_later (ssm_name (loc_at s)) (loc_state s)) as H.
    by destruct (ssm_get_parameter _ _).
  - intros s s' t H. apply located_op_inv in H as [H _].
    unfold SsmConfigSource.version, SsmConfigSource.get_parameter in H.
    destruct (ssm_get_parameter _ _) as [[[p|]|m] s''] eqn:Hg; cbn in H; try done. injection H as <- <-.
    exists (pa_version p), (pa_value p). split; [done|]. by apply ssm_get_parameter_sees.
  - intros s s' b t H. apply located_op_inv in H as [H _].
    unfold SsmConfigSource.fetch, SsmConfigSource.get_parameter in H.
    destruct (ssm_get_parameter _ _) as [[[p|]|m] s''] eqn:Hg; cbn in H; try done.
    destruct (pa_value p) as [value|] eqn:Hp; cbn in H; [|done]. injection H as <- <- <-.
    exists (pa_version p). split; [done|]. apply ssm_get_parameter_sees in Hg. by rewrite Hp in Hg.
Defined.

(** ** The cache over a document source *)

Section reload.
Context {T S : Type} {Src : ConfigSource S} {Doc : DocumentSource S}.
Context (ttl : N) (compile : Bytes -> result ConfigError T).

Abbreviation St := (ConfigStore.St (T := T) (S := S)).

(** The cached value was compiled from bytes read under the version it is remembered with. *)
Definition cache_tagged (st : St) : Prop :=
  forall c, cs_cached st.1 = Some c ->
    exists b, compile b = Ok (c_value c) /\ tagged (cs_src st.1) b (c_version c).

(** Confirmed at this call: the served value is that of a document of this call. *)
Definition confirmed (st st' : St) : Prop :=
  later (cs_src st.1) (cs_src st'.1) /\
  exists c b, cs_cached st'.1 = Some c /\ compile b = Ok (c_value c) /\
    during (cs_src st.1) (cs_src st'.1) b /\ tagged (cs_src st'.1) b (c_version c).

Definition load_failed (st st' : St) : Prop :=
  later (cs_src st.1) (cs_src st'.1) /\ cs_cached st'.1 = cs_cached st.1 /\
  st'.2 = add_config_load_errors 1 st.2.

Lemma load_confirms now st :
  let st' := ConfigStore.load compile now st in confirmed st st' /\ st'.2 = st.2 \/ load_failed st st'.
Proof.
  destruct st as [cs m]. unfold ConfigStore.load, ConfigStore.fetch_and_compile, confirmed, load_failed.
  pose proof (fetch_later (cs_src cs)) as Hl.
  destruct (source_fetch (cs_src cs)) as [[[b v]|e] src] eqn:Hf; cbn in Hl; [|by right].
  destruct (compile b) as [value|e] eqn:Hc; [|by right]. left. split; [|done]. split; [done|].
  apply fetch_tagged in Hf as [Hd Ht]. exists (mkCached value v now), b. by split_and!.
Qed.

Lemma refresh_confirms now st :
  cache_tagged st ->
  let st' := ConfigStore.refresh compile now st in confirmed st st' /\ st'.2 = st.2 \/ load_failed st st'.
Proof.
  destruct st as [cs m]. intros Htag. unfold ConfigStore.refresh.
  destruct (cs_cached cs) as [c|] eqn:Hc; [cbn [fmap option_fmap option_map]|apply load_confirms].
  pose proof (version_later (cs_src cs)) as Hl.
  destruct (source_version (cs_src cs)) as [[v|e] src] eqn:Hv; cbn in Hl; [|by right; split].
  destruct (Htag c Hc) as (b & Hb & Ht). case_decide as Heq.
  - left. split; [|done]. split; [done|]. exists (mkCached (c_value c) (c_version c) now), b. subst v.
    split_and!; [done|done| |]; [by eapply version_tagged|by eapply tagged_later].
  - pose proof (load_confirms now (mkConfigStore src (Some c), m)) as H. cbv zeta in H.
    destruct (ConfigStore.load compile now (mkConfigStore src (Some c), m)) as [cs' m'].
    unfold confirmed, load_failed in *. cbn [fst snd cs_src cs_cached] in *.
    destruct H as [[(H1 & c' & b' & H2 & H3 & H4 & H5) H6]|(H1 & H2 & H3)].
    + left. split; [|done]. split; [by eapply later_trans|]. exists c', b'. split_and!; try done. by eapply during_later.
    + right. split_and!; [by eapply later_trans|congruence|done].
Qed.

Lemma confirms_tagged st st' :
  cache_tagged st -> confirmed st st' /\ st'.2 = st.2 \/ load_failed st st' -> cache_tagged st'.
Proof.
  intros Htag [[(Hl & c & b & Hc & Hb & _ & Ht) _]|(Hl & Hc & _)] c' Hc'.
  - rewrite Hc in Hc'. injection Hc' as <-. by exists b.
  - rewrite Hc in Hc'. destruct (Htag c' Hc') as (b & Hb & Ht). exists b. split; [done|]. by eapply tagged_later.
Qed.

Lemma run_op_tagged op st : cache_tagged st -> cache_tagged (run_op ttl compile st op).
Proof.
  intros Htag. destruct op as [now|now]; cbn [run_op]; [|unfold ConfigStore.get; cbn [snd]; case_match; [|done]].
  - eapply confirms_tagged, load_confirms; done.
  - by eapply confirms_tagged, refresh_confirms.
Qed.

Lemma run_ops_tagged ops st : cache_tagged st -> cache_tagged (foldl (run_op ttl compile) st ops).
Proof. revert st. induction ops as [|op ops IH]; intros st H; [done|]. by apply IH, run_op_tagged. Qed.

(** One more load error is a different count. *)
Lemma load_error_counted m : m_counters (add_config_load_errors 1 m) ConfigLoadErrors <> m_counters m ConfigLoadErrors.
Proof.
  cbn. unfold wrapping_add_u64. intros H.
  set (n := m_counters m ConfigLoadErrors) in *. change (U64_MAX + 1)%N with 18446744073709551616%N in H.
  rewrite decide_True in H by done. pose proof (N.mod_lt (n + 1) 18446744073709551616 ltac:(discriminate)) as Hlt.
  destruct (decide (n + 1 < 18446744073709551616)%N) as [Hs|Hs]; [rewrite N.mod_small in H by done; lia|].
  rewrite H in Hlt. assert (n = 18446744073709551615)%N as Hn by (clear H; lia). rewrite Hn in H. by vm_compute in H.
Qed.
End reload.

(** ** URIs *)

Lemma split_once_Some c s u v : split_once c s = Some (u, v) <-> s = u +:+ String c v /\ char_in c u = false.
Proof.
  unfold split_once. split.
  - destruct (find_char c s) as [i|] eqn:Hf; [|done]. cbn [mbind option_bind].
    apply find_char_Some in Hf as (u' & v' & -> & <- & Hu). rewrite str_take_app, str_drop_app_cons. by intros [= <- <-].
  - intros [-> Hu]. rewrite find_char_here by done. cbn [mbind option_bind].
    by rewrite str_take_app, str_drop_app_cons.
Qed.

Lemma strip_prefix_None_other p s t : strip_prefix p (s +:+ t) = None -> strip_prefix p s = None.
Proof.
  revert s. induction p as [|a p IH]; intros [|b s]; cbn; try done. case_decide; [apply IH|done].
Qed.

(** ** Properties *)

(** The URI of a document is read back exactly.  A text parses to a location precisely when
    it is how that location is written, and its bucket holds no slash: nothing is trimmed,
    unescaped or guessed, and two locations never share a URI. *)
Theorem config_uri_roundtrip s u : ConfigUri_parse s = Ok u <-> s = render_uri u /\ wf_uri u = true.
Proof.
  unfold ConfigUri_parse. split.
  - destruct (strip_prefix "ssm://" s) as [path|] eqn:H1.
    { intros [= <-]. by apply strip_prefix_Some in H1. }
    destruct (strip_prefix "s3://" s) as [rest|] eqn:H2.
    { destruct (split_once "/" rest) as [[bucket key]|] eqn:H3; cbn; [|done]. intros [= <-].
      apply strip_prefix_Some in H2. apply split_once_Some in H3 as [-> Hb]. split; [done|]. cbn. by rewrite Hb. }
    destruct (strip_prefix "file://" s) as [path|] eqn:H3; [|done].
    intros [= <-]. by apply strip_prefix_Some in H3.
  - intros [-> Hwf]. destruct u as [path|bucket key|path]; try done.
    change (strip_prefix "ssm://" (render_uri (UriS3 bucket key))) with (@None string).
    change (strip_prefix "s3://" (render_uri (UriS3 bucket key))) with (Some (bucket +:+ "/" +:+ key)). cbv iota.
    rewrite (proj2 (split_once_Some "/" _ bucket key)); [done|]. split; [done|]. by apply negb_true_iff.
Qed.

(** C30: the tag of a file is sound.  Whatever other processes write, and whenever they write
    it, the bytes [fetch] returned are what the file holds as long as [version] returns the tag
    they came with: a write that races the read leaves a tag that no longer holds. *)
Theorem file_tag_sound {F} {Fs : FileSystem F} (history : nat -> F) (s s1 s2 s3 : FileSource history) b v :
  honest_mtimes history (fc_path (fsrc s)) ->
  source_fetch s = (Ok (b, v), s1) -> fsrc s2 = fsrc s1 -> fsrc_ops s1 <= fsrc_ops s2 ->
  source_version s2 = (Ok v, s3) ->
  fs_content (fc_path (fsrc s)) (history (fsrc_ops s2)) = Some b.
Proof.
  intros Hh Hf H1 H2 Hv. apply file_fetch_inv in Hf as (H3 & H4 & Hm & Hc).
  assert (fsrc s2 = fsrc s) as Hs by congruence. rewrite <-Hs. apply (file_tag_current s2 b v).
  - by rewrite Hs.
  - exists (fsrc_ops s). rewrite Hs. split_and!; [lia|done|done].
  - cbn in Hv. unfold FileConfigSource.version in Hv. by injection Hv.
Qed.

(** C24: the ruleset in force is never stale.  After any sequence of [prime] and [get] calls, a
    [get] past the time to live that counts no load error serves the value compiled from what
    the document held at a moment of that very call, whether it was fetched anew or only its
    version was compared. *)
Theorem reload_current {T S} {Src : ConfigSource S} {Doc : DocumentSource S} ttl
    (compile : Bytes -> result ConfigError T) (src : S) m ops now :
  let st := foldl (run_op ttl compile) (ConfigStore.new src, m) ops in
  ConfigStore.is_stale ttl now st.1 = true ->
  let '(r, st') := ConfigStore.get ttl compile now st in
  m_counters st'.2 ConfigLoadErrors = m_counters st.2 ConfigLoadErrors ->
  exists value b, r = Some value /\ compile b = Ok value /\ during (cs_src st.1) (cs_src st'.1) b.
Proof.
  intros st Hs. unfold ConfigStore.get. rewrite Hs. intros Hm.
  assert (cache_tagged compile st) as Htag by (by apply run_ops_tagged).
  destruct (refresh_confirms compile now st Htag) as [[(_ & c & b & Hc & Hb & Hd & _) _]|(_ & _ & He)].
  - exists (c_value c), b. rewrite Hc. by split_and!.
  - rewrite He in Hm. by apply load_error_counted in Hm.
Qed.

(** ** Witnesses *)

(** A file system is its files with their times; the document is rewritten once. *)
Definition DemoFs : Type := string -> option (Z * Bytes).

#[export] Instance demo_fs : FileSystem DemoFs.
Proof.
  refine {| fs_metadata path fs := match fs path with Some f => Ok (Ok f.1) | None => Err (Lit "not found") end;
            fs_read path fs := match fs path with Some f => Ok f.2 | None => Err (Lit "not found") end;
            fs_content path fs := snd <$> fs path |}.
  intros path fs b. destruct (fs path) as [f|]; [|done]. by intros [= <-].
Defined.

Definition demo_history (n : nat) : DemoFs := fun path =>
  if decide (path = "/etc/rules.yaml") then Some (if n <? 3 then (5%Z, "abc") else (9%Z, "abcdef")) else None.

Lemma demo_honest path : honest_mtimes demo_history path.
Proof.
  unfold honest_mtimes, demo_history, fs_metadata, fs_content. cbn. split.
  - intros i t. case_decide; [|done]. intros [= <-]. by destruct (i <=? 2).
  - intros i j k t H. case_decide; [|done]. intros [= Hi] [= Hj].
    destruct (Nat.leb_spec i 2), (Nat.leb_spec j 2), (Nat.leb_spec k 2); cbn in *; first [done|lia|congruence].
Qed.

(** Documents that are never rewritten, in S3 and in the parameter store. *)
Definition Shelf (L V D : Type) : Type := L -> option (V * D).

#[export] Instance shelf_versions L V D : VersionedService (Shelf L V D) L V D.
Proof.
  refine {| sv_later s s' := s = s'; sees loc s s' v d := s = s' /\ s loc = Some (v, d) |}; naive_solver.
Defined.

#[export] Instance shelf_s3 : S3ConfigClient (Shelf (string * string) string Bytes) := {|
  head_object b k s := (match s (b, k) with Some (e, _) => Ok (Some e) | None => Err (Lit "NoSuchKey") end, s);
  get_config_object b k s :=
    (match s (b, k) with Some (e, d) => Ok (Some e, mkReader [d] None) | None => Err (Lit "NoSuchKey") end, s);
|}.

#[export] Instance shelf_s3_laws : S3ConfigLaws (Shelf (string * string) string Bytes).
Proof.
  refine {| s3c_versions := shelf_versions _ _ _ |}; try done.
  - intros b k s s' e. cbn. destruct (s (b, k)) as [[e' d]|] eqn:E; [|done]. intros [= -> <-]. by exists d.
  - intros b k s s' e body. cbn. destruct (s (b, k)) as [[e' d]|] eqn:E; [|done]. intros [= -> <- <-] _.
    split; [done|]. unfold reader_bytes. cbn. by rewrite ?str_app_nil_r.
Defined.

#[export] Instance shelf_ssm : SsmClient (Shelf string Z (option string)) := {|
  ssm_get_parameter n s := (Ok ((fun p => mkSsmParameter p.2 p.1) <$> s n), s);
|}.

#[export] Instance shelf_ssm_laws : SsmLaws (Shelf string Z (option string)).
Proof.
  refine {| ssm_versions := shelf_versions _ _ _ |}; [done|].
  intros n s s' p. cbn. destruct (s n) as [[v d]|] eqn:E; [|done]. by intros [= <- <-].
Defined.

Definition demo_file : FileSource demo_history := mkFileSource (FileConfigSource.new "/etc/rules.yaml") 0.

Lemma file_tag_sound_witness :
  fs_content "/etc/rules.yaml" (demo_history 2) = Some "abc".
Proof.
  exact (file_tag_sound demo_history demo_file (mkFileSource (fsrc demo_file) 2) (mkFileSource (fsrc demo_file) 2)
    (mkFileSource (fsrc demo_file) 3) "abc" (Mtime 5) (demo_honest _) eq_refl eq_refl (le_n 2) eq_refl).
Defined.

(** The first [get] reads the file, the second finds its version in force, the third, after the
    rewrite, reads it again. *)
Lemma reload_current_witness :
  let st := foldl (run_op 5 demo_compile) (ConfigStore.new demo_file, Metrics_default) [Get 0; Get 5] in
  exists value b, (ConfigStore.get 5 demo_compile 10 st).1 = Some value /\ demo_compile b = Ok value /\ value = 6.
Proof.
  pose proof (reload_current (Doc := file_document_source demo_history demo_honest) 5 demo_compile demo_file
    Metrics_default [Get 0; Get 5] 10) as H.
  cbv zeta in *. specialize (H eq_refl).
  assert ((ConfigStore.get 5 demo_compile 10
     (foldl (run_op 5 demo_compile) (ConfigStore.new demo_file, Metrics_default) [Get 0; Get 5])).1 = Some 6) as Hr
    by (vm_compute; reflexivity).
  destruct (ConfigStore.get 5 demo_compile 10
     (foldl (run_op 5 demo_compile) (ConfigStore.new demo_file, Metrics_default) [Get 0; Get 5])) as [r st'] eqn:Hg.
  cbn in Hr. subst r. destruct H as (value & b & Hv & Hb & _).
  - assert (m_counters st'.2 ConfigLoadErrors = 0%N) as ->; [|vm_compute; reflexivity].
    apply (f_equal (fun x => m_counters x.2.2 ConfigLoadErrors)) in Hg. cbn [snd] in Hg. rewrite <-Hg.
    vm_compute. reflexivity.
  - exists value, b. split; [exact Hv|]. split; [exact Hb|]. congruence.
Defined.
