(* ===== verification/Lambda.v ===== *)
(** * The Lambda binaries ([lambda-s3], [lambda-sns], [lambda-sqs], [lambda-eventbridge])

    The four composition roots: what a container is built from at its cold start ([init]),
    and what it does with each event ([invoke]).  The roots differ in the decoder and in the
    answer; [Trigger] is which one it is. *)

From S2P Require Import Prelude Model Json Path Regex Rules Reference Index Project Engine.
From S2P Require Import Settings Effects Metrics Ports Task Envelope Buffer Stream Cache Pipeline.
From S2P Require Import Accounting Source Footprint Objects Weave Batch Handle S3Store Decode Queue Sources.

(** ** The rules source *)

Section any_source.
Context {F : Type} {Fs : FileSystem F} (history : nat -> F).
Context (B : Type) {ConfS3 : S3ConfigClient B} (P : Type) {Ssm : SsmClient P}.

(** [Arc<dyn ConfigSource>] *)
Inductive AnySource : Type :=
  | FromSsm (s : Located SsmConfigSource P)
  | FromS3 (s : Located S3ConfigSource B)
  | FromFile (s : FileSource history).

Definition any_op {A} (ssm : Located SsmConfigSource P -> A * Located SsmConfigSource P)
    (s3 : Located S3ConfigSource B -> A * Located S3ConfigSource B)
    (file : FileSource history -> A * FileSource history) (s : AnySource) : A * AnySource :=
  match s with
  | FromSsm s => let '(r, s) := ssm s in (r, FromSsm s)
  | FromS3 s => let '(r, s) := s3 s in (r, FromS3 s)
  | FromFile s => let '(r, s) := file s in (r, FromFile s)
  end.

#[export] Instance any_config_source : ConfigSource AnySource := {|
  source_version := any_op source_version source_version source_version;
  source_fetch := any_op source_fetch source_fetch source_fetch;
|}.

(** A document source, if the three are. *)
Section document.
Context {Dssm : DocumentSource (Located SsmConfigSource P)} {Ds3 : DocumentSource (Located S3ConfigSource B)}.
Context {Dfile : DocumentSource (FileSource history)}.

Definition any_later (s s' : AnySource) : Prop :=
  match s, s' with
  | FromSsm s, FromSsm s' => later s s'
  | FromS3 s, FromS3 s' => later s s'
  | FromFile s, FromFile s' => later s s'
  | _, _ => False
  end.
Definition any_during (s s' : AnySource) (b : Bytes) : Prop :=
  match s, s' with
  | FromSsm s, FromSsm s' => during s s' b
  | FromS3 s, FromS3 s' => during s s' b
  | FromFile s, FromFile s' => during s s' b
  | _, _ => False
  end.
Definition any_tagged (s : AnySource) (b : Bytes) (v : VersionTag) : Prop :=
  match s with
  | FromSsm s => tagged s b v
  | FromS3 s => tagged s b v
  | FromFile s => tagged s b v
  end.

Lemma any_op_cases {A} ssm s3 file (s : AnySource) (a : A) s' :
  any_op ssm s3 file s = (a, s') ->
  match s with
  | FromSsm x => exists x', ssm x = (a, x') /\ s' = FromSsm x'
  | FromS3 x => exists x', s3 x = (a, x') /\ s' = FromS3 x'
  | FromFile x => exists x', file x = (a, x') /\ s' = FromFile x'
  end.
Proof.
  unfold any_op. destruct s as [x|x|x];
    [destruct (ssm x) as [? y]|destruct (s3 x) as [? y]|destruct (file x) as [? y]]; intros [= -> <-]; by exists y.
Qed.

Definition any_document_source : DocumentSource AnySource.
Proof.
  refine {| later := any_later; during := any_during; tagged := any_tagged |}.
  - intros [s|s|s]; apply later_refl.
  - intros [s1|s1|s1] [s2|s2|s2] [s3|s3|s3]; try done; apply later_trans.
  - intros [s|s|s] [s1|s1|s1] [s2|s2|s2] b; try done; apply during_later.
  - intros [s|s|s] [s1|s1|s1] b v; try done; apply tagged_later.
  - intros [s|s|s]; pose proof (version_later s) as H; cbn [source_version any_config_source any_op];
      destruct (source_version s); exact H.
  - intros [s|s|s]; pose proof (fetch_later s) as H; cbn [source_fetch any_config_source any_op];
      destruct (source_fetch s); exact H.
  - intros [s|s|s] s' b v H; cbn [source_version any_config_source] in H; apply any_op_cases in H as (x & H & ->);
      by apply version_tagged.
  - intros [s|s|s] s' b v H; cbn [source_fetch any_config_source] in H; apply any_op_cases in H as (x & H & ->);
      by apply fetch_tagged.
Defined.
End document.
End any_source.
Arguments FromSsm {F history B P}.
Arguments FromS3 {F history B P}.
Arguments FromFile {F history B P}.

(** ** Building the parts *)

(** The closure handed to [ConfigStore::new].  [engine_new] of a ruleset that parsed does not
    panic ([compile_rules_parsed]). *)
Definition compile_rules {R : RegexCrate} {Y : RulesCrates} (bytes : Bytes) : result ConfigError Engine :=
  rs ← parse bytes;
  match engine_new rs with
  | Some r => r
  | None => Err (CfgParse (Lit "panicked"))
  end.

Inductive Trigger : Type := OnS3 | OnSns | OnSqs | OnEventBridge.

Definition build_decoder {J : JsonCrate} {Cr : DecodeCrates} (t : Trigger) (settings : Settings) : EventDecoder :=
  match t with
  | OnS3 => s3_event_decoder
  | OnSns => sns_event_decoder
  | OnSqs => sqs_event_decoder (body_format (s_sqs settings))
  | OnEventBridge => eventbridge_decoder
  end.

(** What the sink prints for a snapshot emitted at [timestamp]. *)
Definition sink_emit {J : JsonCrate} (o : Observability) (timestamp : N) (s : MetricSnapshot) : list (Value Number) :=
  match metrics_mode o with
  | MmEmf => build_lines (namespace o) timestamp s
  | MmNone => []
  end.

Definition build_store (processing : Processing) : S3ObjectStore := from_settings USIZE_MAX processing.

(** The partial-batch response. *)
Definition batch_response {J : JsonCrate} (outcome : BatchOutcome) : Value Number :=
  VObject
    [("batchItemFailures",
      VArray (map (fun id => VObject [("itemIdentifier", VString id)]) (failed_ack_ids outcome)))].

(** ** A container *)

Inductive LambdaError : Type :=
  | LeSerialize (e : string)
  | LeCore (e : Exit CoreError).

Section container.
Context {J : JsonCrate} {SH : ShallowCrate} {R : RegexCrate} {G : GzipCrate} {Y : RulesCrates}.
Context {SC : SettingsCrate} {Cr : DecodeCrates}.
Context {F : Type} {Fs : FileSystem F} {history : nat -> F}.
Context {B : Type} {ConfS3 : S3ConfigClient B} {P : Type} {Ssm : SsmClient P}.
Context {S : Type} {Cl : S3Client S}.
(** [serde_json::to_vec] of the event. *)
Context (to_vec : Value Number -> result string Bytes).

Definition build_config_source (settings : Settings) (ssm : P) (s3 : B) :
    result ConfigError (AnySource history B P) :=
  u ← ConfigUri_parse (uri (s_rules settings));
  Ok (match u with
      | UriSsm path => FromSsm (mkLocated (mkSsmConfigSource path) ssm)
      | UriS3 bucket key => FromS3 (mkLocated (mkS3ConfigSource bucket key) s3)
      | UriFile path => FromFile (mkFileSource (FileConfigSource.new path) 0)
      end).

(** What the handler closure owns. *)
Record Lambda := mkLambda {
  l_pipeline : Pipeline;
  l_store : S3ObjectStore;
  l_decoder : EventDecoder;
  (** [Duration::from_secs(ttl_seconds)], in nanoseconds. *)
  l_ttl : N;
  l_world : World S (AnySource history B P);
}.

Definition l_settings (l : Lambda) : Settings := p_settings (l_pipeline l).

(** [main] up to [lambda_runtime::run]: the settings through the process's files and
    environment, the adapters at the services' states, the cache primed at [now]. *)
Definition init (t : Trigger) (read : string -> result string string) (env : string -> option string)
    (ssm : P) (s3 : B) (store : S) (now : N) : result ConfigError Lambda :=
  settings ← load read env;
  cfg_src ← build_config_source settings ssm s3;
  let '(cfg_store, metrics) := ConfigStore.prime compile_rules now (ConfigStore.new cfg_src, Metrics_default) in
  pipeline ← Pipeline_new settings;
  Ok (mkLambda pipeline (build_store (s_processing settings)) (build_decoder t settings)
        (ttl_seconds (s_rules settings) * 1000000000) (mkWorld (mkEnv store metrics) cfg_store [])).

Inductive Response : Type :=
  | RUnit
  | RBatch (document : Value Number).

Definition respond (t : Trigger) (outcome : BatchOutcome) : Response :=
  match t with OnSqs => RBatch (batch_response outcome) | _ => RUnit end.

(** The handler closure on one event. *)
Definition invoke (t : Trigger) (sched : BatchSchedule) (now : N) (event : Value Number) (l : Lambda) :
    result LambdaError Response * Lambda :=
  match to_vec event with
  | Err e => (Err (LeSerialize e), l)
  | Ok payload =>
      let '(r, w) := handle (St := s3_object_store (l_store l)) (D := l_decoder l) (l_ttl l) compile_rules
                       (l_pipeline l) sched now payload (l_world l) in
      (match r with Ok outcome => Ok (respond t outcome) | Err e => Err (LeCore e) end,
       mkLambda (l_pipeline l) (l_store l) (l_decoder l) (l_ttl l) w)
  end.

(** The binaries, by crate. *)
Definition lambda_s3_main := init OnS3.
Definition lambda_s3_handler := invoke OnS3.
Definition lambda_sns_main := init OnSns.
Definition lambda_sns_handler := invoke OnSns.
Definition lambda_sqs_main := init OnSqs.
Definition lambda_sqs_handler := invoke OnSqs.
Definition lambda_eventbridge_main := init OnEventBridge.
Definition lambda_eventbridge_handler := invoke OnEventBridge.

(** The life of a container: the events it serves, one after another. *)
Record Event := mkEvent { ev_sched : BatchSchedule; ev_now : N; ev_payload : Value Number }.

Definition serve (t : Trigger) (l : Lambda) (evs : list Event) : Lambda :=
  foldl (fun l ev => (invoke t (ev_sched ev) (ev_now ev) (ev_payload ev) l).2) l evs.
End container.
Arguments Lambda {R F} history B P S.

(** ** Lemmas *)

(** A ruleset that parses compiles, and whatever compiles is a ruleset that parsed. *)
Lemma compile_rules_parsed {R : RegexCrate} {Y : RulesCrates} bytes rs :
  parse bytes = Ok rs -> exists e, engine_new rs = Some (Ok e) /\ compile_rules bytes = Ok e.
Proof.
  intros H. destruct (parse_rule_set_valid bytes rs H) as [major Hv].
  destruct (engine_new_valid major rs Hv) as [e He]. exists e. split; [done|].
  unfold compile_rules. rewrite H. cbn. by rewrite He.
Qed.

Lemma compile_rules_ok {R : RegexCrate} {Y : RulesCrates} bytes e :
  compile_rules bytes = Ok e ->
  exists rs major, parse bytes = Ok rs /\ engine_new rs = Some (Ok e) /\ semver_major (rs_version rs) = Ok major.
Proof.
  unfold compile_rules. destruct (parse bytes) as [rs|] eqn:Hp; cbn; [|done].
  destruct (engine_new rs) as [[e'|]|] eqn:He; try done. intros [= <-].
  destruct (engine_new_inv rs e' He) as (major & _ & _ & Hm & _). by exists rs, major.
Qed.

(** An invocation touches the rules source through one [get] at most. *)
Lemma handle_config {J : JsonCrate} {SH : ShallowCrate} {R : RegexCrate} {G : GzipCrate} {S} {St : ObjectStore S}
    {C} {Src : ConfigSource C} {D : EventDecoder} ttl compile p sched now payload (w : World S C) :
  let w' := (handle ttl compile p sched now payload w).2 in
  w_config w' = w_config w \/
  w_config w' = (ConfigStore.get ttl compile now (w_config w, e_metrics (w_env w))).2.1.
Proof.
  cbv zeta.
  enough (wp (handle ttl compile p sched now payload) (fun _ w' => w_config w' = w_config w \/
     w_config w' = (ConfigStore.get ttl compile now (w_config w, e_metrics (w_env w))).2.1) w) as H by exact H.
  unfold handle. wp_step. wp_step.
  enough (wp (handle_inner ttl compile p sched now payload) (fun _ w' => w_config w' = w_config w \/
     w_config w' = (ConfigStore.get ttl compile now (w_config w, e_metrics (w_env w))).2.1) w) as H.
  { revert H. apply wp_mono. intros [a|[e|msg]] w' H; [| |exact H]; unfold emit_snapshot; repeat wp_step;
      by destruct (snapshot_and_reset (e_metrics (w_env w'))). }
  unfold handle_inner. destruct (decode payload) as [items|e]; [|by left].
  wp_step. unfold wp at 1, config_get. cbv beta.
  destruct (ConfigStore.get ttl compile now (w_config w, e_metrics (w_env w))) as [engine [config m]].
  cbn [fst snd]. set (w1 := mkWorld _ _ _).
  assert (wp (on_env (run_batch p sched engine items)) (fun _ w' => w_config w' = w_config w \/ w_config w' = config) w1)
    as Hrun by (unfold wp, on_env; subst w1; cbn [w_env];
      destruct (run_batch p sched engine items (mkEnv (e_store (w_env w)) m)); by right).
  destruct engine, (on_config_error (s_behavior (p_settings p))); [done|done|done|by right].
Qed.

(** Whether a record survives the rules as written. *)
Definition record_survives {J : JsonCrate} {R : RegexCrate} (major : N) (rules : list Rule) (text : string) : bool :=
  match from_str_value text with
  | Ok v => bool_decide (spec_decision major rules v = Keep)
  | Err _ => true
  end.

Lemma kept_by_rules {J : JsonCrate} {L : JsonLaws J} {R : RegexCrate} {RL : RegexLaws R} {Y : RulesCrates}
    rs e major records :
  engine_new rs = Some (Ok e) -> semver_major (rs_version rs) = Ok major -> engine_documented e = true ->
  kept e records = filter (fun text => record_survives major (rs_rules rs) text = true) records.
Proof.
  intros He Hm Hd. unfold kept. apply list_filter_iff. intros text. unfold survives, record_survives.
  rewrite (evaluate_raw_spec rs e major text He Hm Hd).
  destruct (from_str_value text) as [v|]; cbn; [|done].
  rewrite bool_decide_eq_true. by destruct (spec_decision major (rs_rules rs) v).
Qed.

Lemma batch_response_ids {J : JsonCrate} outcome :
  path_values [Key "batchItemFailures"; Wildcard; Key "itemIdentifier"] (batch_response outcome) = failed_ack_ids outcome.
Proof.
  unfold batch_response. cbn [path_values]. unfold obj_get. cbn [alist_get]. rewrite decide_True by done.
  induction (failed_ack_ids outcome) as [|id ids IH]; [done|]. cbn [map concat]. by rewrite IH.
Qed.

(** ** The life of a container *)

Section life.
Context {J : JsonCrate} {SH : ShallowCrate} {R : RegexCrate} {G : GzipCrate} {Y : RulesCrates}.
Context {SC : SettingsCrate} {Cr : DecodeCrates}.
Context {F : Type} {Fs : FileSystem F} {history : nat -> F}.
Context {B : Type} {ConfS3 : S3ConfigClient B} {P : Type} {Ssm : SsmClient P}.
Context {S : Type} {Cl : S3Client S}.
Context (to_vec : Value Number -> result string Bytes).

(** The containers there can be: started with some environment, then fed some events. *)
Definition container (t : Trigger) (l : Lambda history B P S) : Prop :=
  exists read env ssm s3 store now evs l0,
    init t read env ssm s3 store now = Ok l0 /\ l = serve to_vec t l0 evs.

(** What [init] establishes. *)
Record fitted (t : Trigger) (l : Lambda history B P S) : Prop := {
  ft_settings : settings_valid (l_settings l);
  ft_store : l_store l = build_store (s_processing (l_settings l));
  ft_decoder : l_decoder l = build_decoder t (l_settings l);
}.

Lemma load_valid read env s : load read env = Ok s -> settings_valid s.
Proof.
  unfold load. intros H. apply result_bind_ok in H as (bytes & _ & H).
  apply from_parts_inv in H as (d0 & d1 & _ & _ & Hv & ->). by apply validate_valid.
Qed.

Lemma init_inv t read env ssm s3 store now l :
  init t read env ssm s3 store now = Ok l ->
  fitted t l /\ exists src, l_world l =
    let st := ConfigStore.prime compile_rules now (ConfigStore.new src, Metrics_default) in
    mkWorld (mkEnv store st.2) st.1 [].
Proof.
  unfold init. intros H. apply result_bind_ok in H as (s & Hl & H). apply result_bind_ok in H as (src & Hs & H).
  destruct (ConfigStore.prime compile_rules now (ConfigStore.new src, Metrics_default)) as [cs m] eqn:Hp.
  apply result_bind_ok in H as (p & Hpn & [= <-]).
  assert (p_settings p = s) as Hps.
  { unfold Pipeline_new in Hpn. apply result_bind_ok in Hpn as (f & _ & [= <-]). done. }
  split; [|exists src; cbv zeta; by rewrite Hp].
  split; unfold l_settings; cbn [l_pipeline l_store l_decoder]; rewrite Hps; [by eapply load_valid|done|done].
Qed.

Lemma invoke_fitted t t' sched now event l : fitted t l -> fitted t (invoke to_vec t' sched now event l).2.
Proof.
  unfold invoke. intros H. destruct (to_vec event) as [payload|e]; [|done].
  destruct (handle _ _ _ _ _ _ _) as [r w]. destruct H as [H1 H2 H3]. by split.
Qed.

Lemma serve_ind (Q : Lambda history B P S -> Prop) t l evs :
  Q l -> (forall sched now event l, Q l -> Q (invoke to_vec t sched now event l).2) -> Q (serve to_vec t l evs).
Proof.
  intros H Hstep. revert l H. induction evs as [|ev evs IH]; intros l H; [done|]. by apply IH, Hstep.
Qed.

Lemma container_fitted t l : container t l -> fitted t l.
Proof.
  intros (read & env & ssm & s3 & store & now & evs & l0 & Hi & ->).
  apply serve_ind; [by apply init_inv in Hi as [? _]|]. intros. by apply invoke_fitted.
Qed.

Lemma build_store_part p :
  (5242880 <= Settings.multipart_part_bytes p)%N -> (5242880 <= S3Store.multipart_part_bytes (build_store p))%N.
Proof.
  intros H. unfold build_store, from_settings, checked_or_default. cbn [S3Store.multipart_part_bytes].
  destruct (_ <=? _)%N; [done|]. by vm_compute.
Qed.

Lemma fitted_part t l : fitted t l -> (5242880 <= S3Store.multipart_part_bytes (l_store l))%N.
Proof. intros [Hv -> _]. apply build_store_part, (sv_part _ Hv). Qed.

Lemma fitted_runnable t l : fitted t l -> runnable (l_pipeline l).
Proof. intros [Hv _ _]. by apply settings_valid_runnable. Qed.

(** The cached engine was compiled from a document of the rules source. *)
Definition rules_tagged {Doc : DocumentSource (AnySource history B P)} (l : Lambda history B P S) : Prop :=
  cache_tagged compile_rules (w_config (l_world l), e_metrics (w_env (l_world l))).

Lemma container_tagged {Doc : DocumentSource (AnySource history B P)} t l : container t l -> rules_tagged l.
Proof.
  intros (read & env & ssm & s3 & store & now & evs & l0 & Hi & ->). apply serve_ind.
  - apply init_inv in Hi as [_ [src Hw]]. unfold rules_tagged. rewrite Hw. cbn.
    intros c. apply (run_op_tagged 0 compile_rules (Prime now) (ConfigStore.new src, Metrics_default)). done.
  - intros sched now' event l Ht. unfold invoke. destruct (to_vec event) as [payload|e]; [|done].
    pose proof (handle_config (St := s3_object_store (l_store l)) (D := l_decoder l) (l_ttl l) compile_rules
      (l_pipeline l) sched now' payload (l_world l)) as H. cbv zeta in H.
    destruct (handle _ _ _ _ _ _ _) as [r w]. cbn [snd] in *. unfold rules_tagged in *. cbn [l_world].
    destruct H as [H|H]; rewrite H; [done|]. intros c Hc.
    apply (run_op_tagged (l_ttl l) compile_rules (Get now') _ Ht c Hc).
Qed.
End life.

(** ** Properties *)

(** C9: the rules document decides.  In every container, whatever it has served, the engine an
    invocation runs with was compiled from a document the rules source held, and that document
    decides which records survive: a record is left out exactly when it is JSON and some rule
    of the document, as written, has all its conditions hold on it.  This half holds of
    documents whose regexes use documented escapes only ([engine_documented]): a pattern that
    ends in the word boundary \> is filed under a literal no record carries, and keeps
    records its rule would drop.  Past the time to live the document is that of this
    very invocation, unless a load error was counted. *)
Theorem container_filters_by_rules {J : JsonCrate} {L : JsonLaws J} {SH : ShallowCrate} {R : RegexCrate}
    {RL : RegexLaws R} {G : GzipCrate} {Y : RulesCrates} {SC : SettingsCrate} {Cr : DecodeCrates}
    {F} {Fs : FileSystem F} {history : nat -> F} {B} {ConfS3 : S3ConfigClient B} {P} {Ssm : SsmClient P}
    {S} {Cl : S3Client S} {Doc : DocumentSource (AnySource history B P)} to_vec t (l : Lambda history B P S) now e :
  container to_vec t l ->
  let st := (w_config (l_world l), e_metrics (w_env (l_world l))) in
  let st' := (ConfigStore.get (l_ttl l) compile_rules now st).2 in
  engine_at (l_ttl l) compile_rules now (l_world l) = Some e ->
  exists b v rs major,
    tagged (cs_src st'.1) b v /\ parse b = Ok rs /\ semver_major (rs_version rs) = Ok major /\
    (ConfigStore.is_stale (l_ttl l) now st.1 = true ->
     m_counters st'.2 ConfigLoadErrors = m_counters st.2 ConfigLoadErrors ->
     during (cs_src st.1) (cs_src st'.1) b) /\
    (engine_documented e = true -> forall records,
       kept e records = filter (fun text => record_survives major (rs_rules rs) text = true) records).
Proof.
  intros Hc st st' He. apply (container_tagged to_vec (Doc := Doc)) in Hc. unfold rules_tagged in Hc. fold st in Hc.
  assert (exists c b, cs_cached st'.1 = Some c /\ compile_rules b = Ok (c_value c) /\
    tagged (cs_src st'.1) b (c_version c) /\
    (ConfigStore.is_stale (l_ttl l) now st.1 = true ->
     m_counters st'.2 ConfigLoadErrors = m_counters st.2 ConfigLoadErrors ->
     during (cs_src st.1) (cs_src st'.1) b)) as (c & b & Hcache & Hb & Ht & Hd).
  { assert (exists c, cs_cached st'.1 = Some c) as [c Hcache].
    { change (c_value <$> cs_cached st'.1 = Some e) in He. destruct (cs_cached st'.1) as [c|]; [by exists c|done]. }
    pose proof (run_op_tagged (l_ttl l) compile_rules (Get now) st Hc c) as Htag. cbn [run_op] in Htag. fold st' in Htag.
    destruct (Htag Hcache) as (b & Hb & Ht). subst st'. unfold ConfigStore.get in *. cbn [snd] in *.
    destruct (ConfigStore.is_stale (l_ttl l) now st.1) eqn:Hs; [|by exists c, b].
    destruct (refresh_confirms compile_rules now st Hc) as [[(_ & c' & b' & H1 & H2 & H3 & H4) _]|(_ & _ & H)].
    - by exists c', b'.
    - exists c, b. split_and!; try done. intros _ Hm. rewrite H in Hm. by apply load_error_counted in Hm. }
  change (c_value <$> cs_cached st'.1 = Some e) in He. rewrite Hcache in He. injection He as He. rewrite He in Hb.
  apply compile_rules_ok in Hb as (rs & major & Hp & Hn & Hm). exists b, (c_version c), rs, major.
  split_and!; try done. intros Hdoc records. by apply kept_by_rules.
Qed.

(** C8: no message of the queue is lost.  When the SQS binary answers an event, each message
    of the event is listed in the answer's [batchItemFailures], so that the queue keeps it,
    or its body decoded and each object it names that passes the key filter was processed
    without an error in this invocation. *)
Theorem sqs_response_loses_nothing {J : JsonCrate} {SH : ShallowCrate} {SL : ShallowLaws J SH} {R : RegexCrate}
    {G : GzipCrate} {GL : GzipLaws G} {Y : RulesCrates} {SC : SettingsCrate} {Cr : DecodeCrates}
    {F} {Fs : FileSystem F} {history : nat -> F} {B} {ConfS3 : S3ConfigClient B} {P} {Ssm : SsmClient P}
    {S} {Cl : S3Client S} {Laws : S3Laws S} to_vec (l l' : Lambda history B P S) sched now event answer :
  container to_vec OnSqs l -> invoke to_vec OnSqs sched now event l = (Ok answer, l') ->
  let p := l_pipeline l in
  let format := body_format (s_sqs (l_settings l)) in
  exists payload records env0 outs env1 document,
    to_vec event = Ok payload /\ sqs_event_of_slice payload = Ok records /\ answer = RBatch document /\
    let work := batch_work p 0 (omap (sqs_item format) records) in
    interleaved (St := s3_object_store (l_store l)) p (bs_streams sched)
      (engine_at (l_ttl l) compile_rules now (l_world l)) work env0 outs env1 /\
    e_store env0 = e_store (w_env (l_world l)) /\ e_store (w_env (l_world l')) = e_store env1 /\
    forall record, record ∈ records ->
      message_id record ∈ path_values [Key "batchItemFailures"; Wildcard; Key "itemIdentifier"] document \/
      (exists objects skipped, decode_body (body record) format = Ok (objects, skipped) /\
        forall o, o ∈ objects -> key_allowed p (or_key o) = true ->
          exists k x, work !! k = Some x /\ wk_object x = o /\ outs !! k = Some (Ok tt)).
Proof.
  intros Hc Hi p format. apply container_fitted in Hc. pose proof (fitted_part _ _ Hc) as Hpart.
  pose proof (fitted_runnable _ _ Hc) as Hrun. destruct Hc as [_ _ Hdec]. unfold invoke in Hi. destruct (to_vec event) as [payload|e] eqn:Hv; [|done].
  rewrite Hdec in Hi. cbn [build_decoder] in Hi. fold format p in Hi.
  destruct (handle _ _ _ _ _ _ _) as [r w] eqn:Hh. destruct r as [[ids]|e]; [|done]. injection Hi as <- <-.
  pose proof (s3_store_laws (l_store l) ltac:(lia)) as SLaws.
  apply (queue_loses_nothing (Laws := SLaws) format) in Hh as (records & env0 & outs & env1 & H1 & H2); [|done].
  exists payload, records, env0, outs, env1, (batch_response (mkBatchOutcome ids)).
  rewrite batch_response_ids. by split_and!.
Qed.

(** C40: the parts of every container's uploads.  Whatever the settings a container was started
    with, when its upload of a body succeeds each part but the last has exactly the size its
    store was built with from the settings, which is at least the 5 MiB S3 asks for; no part
    is larger and none is empty; they are numbered from 1 and together they are the body. *)
Theorem container_parts_accepted {J : JsonCrate} {SH : ShallowCrate} {R : RegexCrate} {G : GzipCrate}
    {Y : RulesCrates} {SC : SettingsCrate} {Cr : DecodeCrates} {F} {Fs : FileSystem F} {history : nat -> F}
    {B} {ConfS3 : S3ConfigClient B} {P} {Ssm : SsmClient P} {S} {Cl : S3Client S} {Laws : S3Laws S}
    to_vec t (l : Lambda history B P S) b k id body (s : S) up parts n s' :
  container to_vec t l -> uploads s !! id = Some up ->
  S3ObjectStore.upload_parts (l_store l) (Datatypes.S (String.length (reader_bytes body))) b k id body 1 [] 0 s =
    (Ok parts, n, s') ->
  let size := S3Store.multipart_part_bytes (l_store l) in
  l_store l = build_store (s_processing (l_settings l)) /\ (S3_MIN_MULTIPART_PART_BYTES <= size)%N /\
  exists up' bodies, uploads s' !! id = Some up' /\ parts_hold up' parts bodies /\
    map fst parts = seq 1 (length bodies) /\ str_join "" bodies = reader_bytes body /\
    (forall (i : nat) part, bodies !! i = Some part -> (0 < byte_len part <= size)%N /\
       ((i + 1 < length bodies)%nat -> byte_len part = size)).
Proof.
  intros Hc Hup Hrun size. apply container_fitted in Hc. pose proof (fitted_part _ _ Hc) as Hpart.
  split; [by destruct Hc|]. split; [exact Hpart|].
  destruct (upload_parts_numbered (l_store l) ltac:(lia) b k id body s up parts n s' Hup Hrun)
    as (up' & bodies & H1 & H2 & [H3 H3'] & H4 & H5).
  exists up', bodies. split_and!; [done|done|done|done|]. intros i part Hi.
  rewrite Forall_forall in H3. pose proof (H3 part (list_elem_of_lookup_2 _ _ _ Hi)) as Hl. unfold byte_len.
  subst size. split; [lia|]. intros Hlt. rewrite (H3' i part Hi Hlt). lia.
Qed.

(** ** Witnesses *)

(** The rules are a file; the events come from SQS. *)
Definition rules_history (_ : nat) : DemoFs := fun path =>
  if decide (path = "/etc/rules.yaml") then Some (5%Z, "rules.yaml") else None.

Lemma rules_honest path : honest_mtimes rules_history path.
Proof.
  split; [|done]. intros i t. unfold rules_history, fs_metadata. cbn [demo_fs]. case_decide; [|done]. by intros [= <-].
Qed.

Definition container_env (key : string) : option string :=
  if decide (key = "CT_DEST_BUCKET") then Some "siem"
  else if decide (key = "CT_KEY_PREFIX") then Some "filtered/"
  else if decide (key = "CT_SOURCE_INCLUDE_KEY_REGEX") then Some "^a\.json$"
  else if decide (key = "CT_SOURCE_EXCLUDE_KEY_REGEX") then Some "Digest"
  else if decide (key = "CT_RULES_URI") then Some "file:///etc/rules.yaml" else None.

Definition no_settings : SettingsCrate := Build_SettingsCrate (fun _ => Err "no file").

Abbreviation DemoLambda :=
  (Lambda (R := ref_regex) rules_history (Shelf (string * string) string Bytes) (Shelf string Z (option string))
     RefS3.service).

Definition demo_document_source : DocumentSource (AnySource rules_history (Shelf (string * string) string Bytes)
    (Shelf string Z (option string))) :=
  any_document_source rules_history (Shelf (string * string) string Bytes) (Shelf string Z (option string))
    (Dssm := ssm_document_source) (Ds3 := s3_document_source) (Dfile := file_document_source rules_history rules_honest).

Definition demo_init : result ConfigError DemoLambda :=
  init (J := demo_json) (Y := demo_yaml) (SC := no_settings) (Cr := demo_crates) OnSqs (fun _ => Err "no file")
    container_env (fun _ => None) (fun _ => None) (RefS3.mkService {[("trail", "a.json") := "three"]} ∅) 7.

(** A container, or one whose start failed; the next lemma says which. *)
Definition demo_lambda : DemoLambda :=
  match demo_init with
  | Ok l => l
  | Err _ => mkLambda demo_pipeline demo_s3 demo_decoder 0
               (mkWorld (mkEnv demo_service Metrics_default)
                  (ConfigStore.new (FromFile (mkFileSource (FileConfigSource.new "") 0))) [])
  end.

Lemma demo_init_ok : is_ok demo_init = true.
Proof. vm_compute. reflexivity. Defined.

Definition demo_to_vec (_ : Value (Number (JsonCrate := demo_json))) : result string Bytes := Ok "event".

Lemma demo_container :
  container (J := demo_json) (SH := demo_shallow) (G := ref_gzip) (Y := demo_yaml) (SC := no_settings)
    (Cr := demo_crates) demo_to_vec OnSqs demo_lambda.
Proof.
  exists (fun _ => Err "no file"), container_env, (fun _ => None), (fun _ => None),
    (RefS3.mkService {[("trail", "a.json") := "three"]} ∅), 7%N, [], demo_lambda.
  split; [|done]. transitivity demo_init; [reflexivity|]. pose proof demo_init_ok as H. unfold demo_lambda.
  destruct demo_init; [reflexivity|discriminate].
Defined.

Abbreviation demo_invocation :=
  (invoke (J := demo_json) (SH := demo_shallow) (G := ref_gzip) (Y := demo_yaml) demo_to_vec OnSqs
     demo_batch_sched 8 VNull demo_lambda).

Lemma sqs_response_loses_nothing_witness :
  exists document, demo_invocation.1 = Ok (RBatch document) /\
    path_values [Key "batchItemFailures"; Wildcard; Key "itemIdentifier"] document = ["m2"].
Proof.
  assert (match demo_invocation.1 with
          | Ok (RBatch d) => path_values [Key "batchItemFailures"; Wildcard; Key "itemIdentifier"] d = ["m2"]
          | _ => False
          end) as Hr by (vm_compute; reflexivity).
  destruct demo_invocation as [[answer|e] l'] eqn:Hi; [|destruct Hr]. cbn [fst] in *.
  destruct (sqs_response_loses_nothing (J := demo_json) (SH := demo_shallow) (SL := demo_shallow_laws demo_json)
    (G := ref_gzip) (Y := demo_yaml) (SC := no_settings) (Cr := demo_crates) demo_to_vec demo_lambda l'
    demo_batch_sched 8 VNull answer demo_container Hi)
    as (payload & records & env0 & outs & env1 & document & _ & _ & -> & _).
  exists document. split; [reflexivity|exact Hr].
Defined.

Lemma container_filters_by_rules_witness :
  exists e b rs major, engine_at (l_ttl demo_lambda) (compile_rules (Y := demo_yaml)) 8 (l_world demo_lambda) = Some e /\
    parse (Y := demo_yaml) b = Ok rs /\
    kept (J := demo_json) e ["r1"; "r2"; "r3"] =
    filter (fun text => record_survives (J := demo_json) major (rs_rules rs) text = true) ["r1"; "r2"; "r3"].
Proof.
  assert (match engine_at (l_ttl demo_lambda) (compile_rules (Y := demo_yaml)) 8 (l_world demo_lambda) with
          | Some e => engine_documented e | None => false end = true) as Hd by (vm_compute; reflexivity).
  destruct (engine_at (l_ttl demo_lambda) (compile_rules (Y := demo_yaml)) 8 (l_world demo_lambda)) as [e|] eqn:He;
    [|discriminate].
  destruct (container_filters_by_rules (J := demo_json) (SH := demo_shallow) (G := ref_gzip) (Y := demo_yaml)
    (SC := no_settings) (Cr := demo_crates) (Doc := demo_document_source) demo_to_vec OnSqs demo_lambda 8 e
    demo_container He) as (b & v & rs & major & _ & Hp & _ & _ & Hk).
  exists e, b, rs, major. split; [reflexivity|]. split; [exact Hp|]. exact (Hk Hd _).
Defined.

Lemma container_parts_accepted_witness :
  exists bodies, str_join "" bodies = "abcde" /\ length bodies = 1%nat.
Proof.
  destruct (container_parts_accepted (J := demo_json) (SH := demo_shallow) (G := ref_gzip) (Y := demo_yaml)
    (SC := no_settings) (Cr := demo_crates) demo_to_vec OnSqs demo_lambda "siem" "k" "u" (mkReader ["abc"; "de"] None)
    (RefS3.mkService ∅ {["u" := mkUpload ("siem", "k") ∅]}) (mkUpload ("siem", "k") ∅) [(1%nat, "tag")] 5
    (S3ObjectStore.upload_parts (l_store demo_lambda) 6 "siem" "k" "u" (mkReader ["abc"; "de"] None) 1 [] 0
       (RefS3.mkService ∅ {["u" := mkUpload ("siem", "k") ∅]})).2 demo_container)
    as (_ & _ & up' & bodies & _ & Hh & _ & Hj & _).
  - reflexivity.
  - assert (l_store demo_lambda = mkS3ObjectStore 8388608) as -> by (vm_compute; reflexivity). lazy. reflexivity.
  - exists bodies. split; [exact Hj|]. apply Forall2_length in Hh. cbn in Hh. congruence.
Defined.
