(* ===== verification/Local.v ===== *)
(** * Local files ([LocalObjectStore] and the path handling of [cli/src/main.rs])

    Rust's [std::path] on Unix as far as the command line uses it, the file operations of
    the standard library as a class with the laws they document, and the object store over
    them.  Paths are taken to be UTF-8, so [to_string_lossy] changes nothing. *)

From S2P Require Import Prelude Model Json Path Regex Rules Reference Index Project Engine.
From S2P Require Import Settings Effects Metrics Ports.

(** ** [std::path] *)

Inductive Component : Type :=
  | RootDir
  | CurDir
  | ParentDir
  | Normal (name : string).

#[export] Instance Component_eq_dec : EqDecision Component.
Proof. solve_decision. Defined.

#[export] Instance Component_countable : Countable Component.
Proof.
  refine (inj_countable' (fun c => match c with RootDir => inl 0 | CurDir => inl 1 | ParentDir => inl 2 | Normal n => inr n end)
    (fun x => match x with inl 0 => RootDir | inl 1 => CurDir | inl _ => ParentDir | inr n => Normal n end) _).
  by intros [].
Defined.

(** A piece between slashes; empty pieces and dots say nothing. *)
Definition piece_component (piece : string) : option Component :=
  if str_is_empty piece then None
  else if decide (piece = ".") then None
  else if decide (piece = "..") then Some ParentDir
  else Some (Normal piece).

(** [Path::components]: a dot in front of a relative path is kept. *)
Definition path_components (p : string) : list Component :=
  let pieces := split_char "/" p in
  if starts_with "/" p then RootDir :: omap piece_component pieces
  else match pieces with
       | piece :: rest => if decide (piece = ".") then CurDir :: omap piece_component rest
                          else omap piece_component pieces
       | [] => []
       end.

Definition ends_with_slash (p : string) : bool :=
  match rfind_char "/" p with
  | Some i => S i =? String.length p
  | None => false
  end.

(** [PathBuf::push], and [Path::join], which is a push on a copy. *)
Definition path_join (base p : string) : string :=
  if starts_with "/" p then p
  else if str_is_empty base || ends_with_slash base then base +:+ p
  else base +:+ "/" +:+ p.

(** Pieces that only separate, dropped from the end. *)
Fixpoint trim_pieces (pieces : list string) : list string :=
  match pieces with
  | [] => []
  | piece :: rest =>
      match trim_pieces rest with
      | [] => if str_is_empty piece || bool_decide (piece = ".") then [] else [piece]
      | rest => piece :: rest
      end
  end.

(** [Path::parent]: the text before the last component, separators trimmed. *)
Definition path_parent (p : string) : option string :=
  if starts_with "/" p then
    match trim_pieces (tail (split_char "/" p)) with
    | [] => None
    | pieces => Some ("/" +:+ str_join "/" (trim_pieces (removelast pieces)))
    end
  else
    let '(dot, pieces) :=
      match split_char "/" p with
      | piece :: rest => if decide (piece = ".") then ([piece], rest) else ([], piece :: rest)
      | [] => ([], [])
      end in
    match trim_pieces pieces with
    | [] => match dot with [] => None | _ => Some "" end
    | pieces => Some (str_join "/" (dot ++ trim_pieces (removelast pieces)))
    end.

(** The components of a path below another. *)
Fixpoint strip_components (base p : list Component) : option (list Component) :=
  match base, p with
  | [], _ => Some p
  | c :: base, d :: p => if decide (c = d) then strip_components base p else None
  | _ :: _, [] => None
  end.

(** The pieces behind the first [n] that are components. *)
Fixpoint drop_components (n : nat) (pieces : list string) : list string :=
  match n, pieces with
  | O, _ | _, [] => pieces
  | S n', piece :: rest =>
      match piece_component piece with
      | Some _ => drop_components n' rest
      | None => drop_components n rest
      end
  end.

(** Leading pieces that only separate, dropped. *)
Fixpoint trim_start_pieces (pieces : list string) : list string :=
  match pieces with
  | piece :: rest => match piece_component piece with None => trim_start_pieces rest | Some _ => pieces end
  | [] => []
  end.

(** [Path::strip_prefix]: the text behind the components of [base]. *)
Definition path_strip_prefix (base p : string) : option string :=
  _ ← strip_components (path_components base) (path_components p);
  let n := length (path_components base) in
  let pieces := split_char "/" p in
  let '(first, pieces) :=
    if starts_with "/" p then ("/", tail pieces)
    else match pieces with
         | piece :: rest => if decide (piece = ".") then ("./", rest) else ("", pieces)
         | [] => ("", [])
         end in
  match n with
  | O => Some (match trim_pieces pieces with
               | [] => if decide (first = "./") then "." else first
               | pieces => first +:+ str_join "/" pieces
               end)
  | S n' =>
      let behind := drop_components (if str_is_empty first then n else n') pieces in
      Some (str_join "/" (trim_pieces (trim_start_pieces behind)))
  end.

Example path_strip_prefix_examples :
  map (fun q => path_strip_prefix q.1 q.2)
    [("logs/", "logs/sub/x"); (".", "./x"); ("/a", "/a//b/c/"); ("./logs", "./logs/./x"); ("a", "ab/c"); ("a/b", "a/b")] =
  [Some "sub/x"; Some "x"; Some "b/c"; Some "x"; None; Some ""].
Proof. reflexivity. Qed.

(** [Path::file_name]. *)
Definition path_file_name (p : string) : option string :=
  match last (path_components p) with Some (Normal name) => Some name | _ => None end.

Example path_parent_examples :
  map path_parent ["a/b"; "a"; "/a"; "/"; ""; "."; "./a"; "a//b/"; "/a/./b"; "a/.."] =
  [Some "a"; Some ""; Some "/"; None; None; Some ""; Some "."; Some "a"; Some "/a"; Some "a"].
Proof. reflexivity. Qed.

(** ** The file operations *)

(** An [io::Error]: whether its kind is [NotFound], and its text. *)
Record IoError := mkIoError { io_not_found : bool; io_text : Msg }.

Class LocalFs (F : Type) := {
  lf_create_dir_all : string -> F -> result IoError unit * F;
  lf_read : string -> F -> result IoError Bytes;
  lf_open : string -> F -> result IoError Reader;
  lf_write : string -> Bytes -> F -> result IoError unit * F;
  lf_create : string -> F -> result IoError unit * F;
  (** The writes of [io::copy] to an open file. *)
  lf_append : string -> Bytes -> F -> result IoError unit * F;
  lf_rename : string -> string -> F -> result IoError unit * F;
  lf_remove_file : string -> F -> result IoError unit * F;
  lf_is_file : string -> F -> bool;
  lf_is_dir : string -> F -> bool;
  lf_exists : string -> F -> bool;
  lf_len : string -> F -> option N;
  lf_read_dir : string -> F -> result Msg (list (result Msg string));
  (** [fs::canonicalize(p).ok()] *)
  lf_canonicalize : string -> F -> option string;
}.

(** The bytes files hold and what the operations document of them.  A file is named by the
    components of its path, so that spellings of one path name one file; symbolic links,
    hard links and case folding are left out. *)
Class LocalFsLaws (F : Type) {Fs : LocalFs F} := {
  files : F -> gmap (list Component) Bytes;
  create_dir_all_files p fs : files (lf_create_dir_all p fs).2 = files fs;
  open_files p fs reader :
    lf_open p fs = Ok reader -> rd_error reader = None ->
    files fs !! path_components p = Some (reader_bytes reader);
  write_files p b fs :
    match (lf_write p b fs).1 with
    | Ok _ => files (lf_write p b fs).2 = <[path_components p := b]> (files fs)
    | Err _ => delete (path_components p) (files (lf_write p b fs).2) = delete (path_components p) (files fs)
    end;
  create_files p fs :
    match (lf_create p fs).1 with
    | Ok _ => files (lf_create p fs).2 = <[path_components p := ""]> (files fs)
    | Err _ => files (lf_create p fs).2 = files fs
    end;
  append_files p b fs old :
    files fs !! path_components p = Some old ->
    match (lf_append p b fs).1 with
    | Ok _ => files (lf_append p b fs).2 = <[path_components p := old +:+ b]> (files fs)
    | Err _ => delete (path_components p) (files (lf_append p b fs).2) = delete (path_components p) (files fs)
    end;
  rename_files p q fs b :
    files fs !! path_components p = Some b ->
    match (lf_rename p q fs).1 with
    | Ok _ => files (lf_rename p q fs).2 = <[path_components q := b]> (delete (path_components p) (files fs))
    | Err _ => files (lf_rename p q fs).2 = files fs
    end;
  remove_files p fs :
    match (lf_remove_file p fs).1 with
    | Ok _ => files (lf_remove_file p fs).2 = delete (path_components p) (files fs)
    | Err _ => files (lf_remove_file p fs).2 = files fs
    end;
}.

(** ** [LocalObjectStore] *)

Module LocalObjectStore.
Section store.
Context {F : Type} {Fs : LocalFs F} (pid : N).

Definition create_parent (key : string) (fs : F) : result StoreError unit * F :=
  match path_parent key with
  | Some parent =>
      if negb (str_is_empty parent) then
        let '(r, fs) := lf_create_dir_all parent fs in
        (map_err (fun e => Backend (Fmt "failed to create directory {parent:?}: {e}" [Lit parent; io_text e])) r, fs)
      else (Ok tt, fs)
  | None => (Ok tt, fs)
  end.

Definition io_error (key what : string) (e : IoError) : StoreError :=
  if io_not_found e then NotFound "" key
  else Backend (Fmt "failed to {what} {key:?}: {e}" [Lit what; Lit key; io_text e]).

Definition get (_ key : string) (fs : F) : result StoreError Bytes * F :=
  (map_err (io_error key "read") (lf_read key fs), fs).

Definition get_stream (_ key : string) (fs : F) : result StoreError Reader * F :=
  (map_err (io_error key "open") (lf_open key fs), fs).

Definition put (_ key : string) (body : Bytes) (_ : PutMeta) (fs : F) : result StoreError unit * F :=
  match create_parent key fs with
  | (Err e, fs) => (Err e, fs)
  | (Ok _, fs) => let '(r, fs) := lf_write key body fs in (map_err (io_error key "write") r, fs)
  end.

Definition partial (key : string) : string := key +:+ "." +:+ pretty pid +:+ ".partial".

(** [io::copy(&mut body, &mut file)]: what the body delivers is written, then its error, if
    it ends with one, stops the copy. *)
Definition copy (body : Reader) (path : string) (fs : F) : result Msg unit * F :=
  let '(r, fs) := lf_append path (reader_bytes body) fs in
  (_ ← map_err io_text r;
   match rd_error body with Some e => Err e | None => Ok tt end, fs).

Definition put_stream (_ key : string) (body : Reader) (_ : PutMeta) (fs : F) :
    result StoreError unit * N * F :=
  match create_parent key fs with
  | (Err e, fs) => (Err e, 0%N, fs)
  | (Ok _, fs) =>
      let partial := partial key in
      match lf_create partial fs with
      | (Err e, fs) => (Err (io_error partial "create" e), 0%N, fs)
      | (Ok _, fs) =>
          let n := byte_len (reader_bytes body) in
          match copy body partial fs with
          | (Ok _, fs) =>
              let '(r, fs) := lf_rename partial key fs in
              (map_err (io_error key "rename into") r, n, fs)
          | (Err e, fs) =>
              let fs := (lf_remove_file partial fs).2 in
              (Err (Backend (Fmt "streaming write to {key:?} aborted: {e}" [Lit key; e])), n, fs)
          end
      end
  end.
End store.
End LocalObjectStore.

(** The store of the process [pid]. *)
Definition local_object_store {F} {Fs : LocalFs F} (pid : N) : ObjectStore F := {|
  store_get := LocalObjectStore.get;
  store_get_stream := LocalObjectStore.get_stream;
  store_put := LocalObjectStore.put;
  store_put_stream := LocalObjectStore.put_stream pid;
|}.

(** ** Keys and destinations *)

(** [dir_prefix]: up to and including the last slash. *)
Definition dir_prefix (prefix : string) : string :=
  match rfind_char "/" prefix with
  | Some i => str_take (S i) prefix
  | None => ""
  end.

(** [trim_end_matches(c)]. *)
Fixpoint trim_end_char (c : ascii) (s : string) : string :=
  match s with
  | EmptyString => EmptyString
  | String a s' =>
      match trim_end_char c s' with
      | EmptyString => if decide (a = c) then EmptyString else String a EmptyString
      | t => String a t
      end
  end.

Definition join_key (prefix rel : string) : string :=
  if str_is_empty prefix then rel else trim_end_char "/" prefix +:+ "/" +:+ rel.

(** The loop of [contain_rel]. *)
Fixpoint contain_components (rel : string) (components : list Component) (safe : string) : result Msg string :=
  match components with
  | [] => Ok safe
  | Normal part :: components => contain_components rel components (path_join safe part)
  | _ :: _ => Err (Fmt "unsafe relative key {rel:?}: escapes the destination root" [Lit rel])
  end.

Definition contain_rel (rel : string) : result Msg string :=
  contain_components rel (path_components rel) "".

(** ** Lemmas: paths *)

Lemma split_char_cons_app c s t :
  split_char c (s +:+ String c t) = split_char c s ++ split_char c t.
Proof.
  induction s as [|a s IH]; cbn; [by rewrite decide_True|].
  change ((s +:+ String c t)) with (s +:+ String c t). case_decide as Ha; [by rewrite IH|].
  rewrite IH. pose proof (split_char_ne c s). by destruct (split_char c s).
Qed.

Lemma starts_with_app p s t : starts_with p s = true -> starts_with p (s +:+ t) = true.
Proof. rewrite !starts_with_spec. intros [u ->]. exists (u +:+ t). by rewrite str_app_assoc. Qed.

Lemma starts_with_slash_app s t : s <> "" -> starts_with "/" (s +:+ t) = starts_with "/" s.
Proof. destruct s as [|a s]; [done|]. intros _. unfold starts_with. cbn. by case_decide. Qed.

Definition comps_of (absolute : bool) (pieces : list string) : list Component :=
  if absolute then RootDir :: omap piece_component pieces
  else match pieces with
       | piece :: rest => if decide (piece = ".") then CurDir :: omap piece_component rest
                          else omap piece_component pieces
       | [] => []
       end.

Lemma path_components_eq p : path_components p = comps_of (starts_with "/" p) (split_char "/" p).
Proof. done. Qed.

Lemma comps_of_app absolute pieces more :
  pieces <> [] -> comps_of absolute (pieces ++ more) = comps_of absolute pieces ++ omap piece_component more.
Proof.
  intros Hne. unfold comps_of. destruct absolute; [by rewrite omap_app|].
  destruct pieces as [|piece pieces]; [done|]. cbn [app]. case_decide; [by rewrite omap_app|].
  change (piece :: pieces ++ more) with ((piece :: pieces) ++ more). by rewrite omap_app.
Qed.

(** A relative path that does not begin with a dot piece. *)
Definition plain_relative (p : string) : Prop :=
  starts_with "/" p = false /\ head (split_char "/" p) <> Some ".".

Lemma plain_components p : plain_relative p -> path_components p = omap piece_component (split_char "/" p).
Proof.
  intros [Hs Hd]. rewrite path_components_eq, Hs. unfold comps_of.
  destruct (split_char "/" p) as [|piece rest]; [done|]. rewrite decide_False; [done|]. cbn in Hd. congruence.
Qed.

Lemma ends_with_slash_inv p : ends_with_slash p = true -> exists q, p = q +:+ "/".
Proof.
  induction p as [|a p IH]; [done|]. unfold ends_with_slash. cbn [rfind_char].
  destruct (rfind_char "/" p) as [i|] eqn:Hr; cbn [String.length].
  - intros H. destruct IH as [q ->]; [unfold ends_with_slash; rewrite Hr; by rewrite <-H|]. by exists (String a q).
  - case_decide as Ha; [|done]. intros H. apply Nat.eqb_eq in H. destruct p; [|done]. exists "". by rewrite Ha.
Qed.

(** Joining a plain relative path appends its components. *)
Lemma components_join base p :
  plain_relative p -> path_components (path_join base p) = path_components base ++ path_components p.
Proof.
  intros Hp. rewrite (plain_components p Hp). destruct Hp as [Hs Hd]. unfold path_join. rewrite Hs.
  destruct (str_is_empty base) eqn:Hb.
  { destruct base; [|done]. cbn [orb]. rewrite <-plain_components by done. by destruct p. }
  assert (base <> "") as Hne by by intros ->. cbn [orb]. rewrite !path_components_eq.
  destruct (ends_with_slash base) eqn:He.
  - apply ends_with_slash_inv in He as [q ->]. rewrite starts_with_slash_app by done.
    rewrite str_app_assoc. change ("/" +:+ p) with (String "/" p). rewrite !split_char_cons_app.
    rewrite !comps_of_app by apply split_char_ne. cbn. by rewrite app_nil_r.
  - rewrite starts_with_slash_app by done. change ("/" +:+ p) with (String "/" p). rewrite split_char_cons_app.
    by rewrite comps_of_app by apply split_char_ne.
Qed.

(** A name between slashes that is neither a dot nor a double dot. *)
Definition plain_name (n : string) : Prop :=
  char_in "/" n = false /\ n <> "" /\ n <> "." /\ n <> "..".

Lemma piece_component_name piece : char_in "/" piece = false -> 
  match piece_component piece with Some (Normal n) => n = piece /\ plain_name piece | _ => True end.
Proof.
  intros Hc. unfold piece_component. destruct (str_is_empty piece) eqn:He; [done|].
  repeat case_decide; try done. split; [done|]. repeat split; try done. by intros ->.
Qed.

Lemma component_names p n : Normal n ∈ path_components p -> plain_name n.
Proof.
  rewrite path_components_eq. intros H.
  assert (exists pieces, Forall (fun piece => char_in "/" piece = false) pieces /\
    Normal n ∈ omap piece_component pieces) as (pieces & Hp & Hn).
  { assert (Forall (fun piece => char_in "/" piece = false) (split_char "/" p)) as Hall
      by (apply Forall_forall; apply split_char_pieces). unfold comps_of in H. destruct (starts_with "/" p).
    - apply elem_of_cons in H as [?|H]; [done|]. by exists (split_char "/" p).
    - destruct (split_char "/" p) as [|piece rest]; [by apply elem_of_nil in H|]. case_decide.
      + apply elem_of_cons in H as [?|H]; [done|]. exists rest. by inversion Hall.
      + by exists (piece :: rest). }
  apply list_elem_of_omap in Hn as (piece & Hin & Hc). rewrite Forall_forall in Hp.
  pose proof (piece_component_name piece (Hp piece Hin)) as H'. rewrite Hc in H'. by destruct H' as [-> ?].
Qed.

Lemma plain_name_relative n : plain_name n -> plain_relative n /\ path_components n = [Normal n].
Proof.
  intros (Hc & Hne & Hd & Hdd).
  assert (starts_with "/" n = false) as Hs.
  { destruct n as [|a n]; [done|]. unfold starts_with. cbn in *. apply orb_false_iff in Hc as [Ha _].
    apply bool_decide_eq_false in Ha. by rewrite decide_False by congruence. }
  assert (plain_relative n) as Hp.
  { split; [done|]. rewrite split_char_none by done. cbn. congruence. }
  split; [done|]. rewrite plain_components, split_char_none by done. cbn. unfold piece_component.
  destruct (str_is_empty n) eqn:He; [by destruct n|]. by rewrite !decide_False.
Qed.

Lemma plain_relative_join base n : plain_relative base -> plain_name n -> plain_relative (path_join base n).
Proof.
  intros [Hs Hd] Hn. pose proof (plain_name_relative n Hn) as [Hpn _]. destruct Hn as (Hc & _).
  unfold path_join. destruct Hpn as [Hns Hnd]. rewrite Hns.
  destruct (str_is_empty base) eqn:Hb; [by destruct base|]. assert (base <> "") as Hne by by intros ->. cbn [orb].
  assert (forall u v, head (split_char "/" u ++ v) = head (split_char "/" u)) as Hhead.
  { intros u v. pose proof (split_char_ne "/" u). by destruct (split_char "/" u). }
  unfold plain_relative. destruct (ends_with_slash base) eqn:He.
  - rewrite starts_with_slash_app by done. split; [done|]. apply ends_with_slash_inv in He as [q ->].
    rewrite str_app_assoc. change ("/" +:+ n) with (String "/" n). rewrite split_char_cons_app in *.
    rewrite Hhead in *. done.
  - rewrite starts_with_slash_app by done. split; [done|]. change ("/" +:+ n) with (String "/" n).
    by rewrite split_char_cons_app, Hhead.
Qed.

Lemma join_names base names :
  Forall plain_name names ->
  path_components (foldl path_join base names) = path_components base ++ map Normal names /\
  (plain_relative base -> plain_relative (foldl path_join base names)).
Proof.
  intros H. revert base. induction H as [|n names Hn _ IH]; intros base; cbn [foldl map]; [by rewrite app_nil_r|].
  destruct (IH (path_join base n)) as [-> Hr]. destruct (plain_name_relative n Hn) as [Hp Hc].
  rewrite (components_join base n Hp), Hc, <-app_assoc. split; [done|]. intros Hb. by apply Hr, plain_relative_join.
Qed.

Lemma contain_components_spec rel comps safe :
  match contain_components rel comps safe with
  | Ok p => exists names, comps = map Normal names /\ p = foldl path_join safe names
  | Err _ => exists c, c ∈ comps /\ forall n, c <> Normal n
  end.
Proof.
  revert safe. induction comps as [|c comps IH]; intros safe; cbn [contain_components]; [by exists []|].
  destruct c as [| | |n]; try (by eexists; split; [left|]).
  specialize (IH (path_join safe n)). destruct (contain_components rel comps (path_join safe n)).
  - destruct IH as (names & -> & ->). by exists (n :: names).
  - destruct IH as (c & Hc & Hn). exists c. split; [by right|done].
Qed.

Lemma contain_rel_spec rel :
  match contain_rel rel with
  | Ok p => exists names, path_components rel = map Normal names /\ plain_relative p /\
              path_components p = map Normal names
  | Err _ => exists c, c ∈ path_components rel /\ forall n, c <> Normal n
  end.
Proof.
  unfold contain_rel. pose proof (contain_components_spec rel (path_components rel) "") as H.
  destruct (contain_components _ _ _) as [p|e]; [|done]. destruct H as (names & Hc & ->). exists names.
  assert (Forall plain_name names) as Hn.
  { apply Forall_forall. intros n Hn. apply (component_names rel). rewrite Hc. by apply list_elem_of_fmap_2. }
  destruct (join_names "" names Hn) as [H1 H2]. split_and!; [done|by apply H2|by rewrite H1].
Qed.

Lemma split_char_snoc c s t :
  char_in c t = false ->
  exists ps l, split_char c s = ps ++ [l] /\ split_char c (s +:+ t) = ps ++ [l +:+ t].
Proof.
  intros Ht. induction s as [|a s IH].
  { exists [], "". change ("" +:+ t) with t. by rewrite (split_char_none c t Ht). }
  change (String a s +:+ t) with (String a (s +:+ t)). destruct IH as (ps & l & H1 & H2). cbn [split_char].
  case_decide as Ha; [exists ("" :: ps), l; by rewrite H1, H2|]. rewrite H1, H2. destruct ps as [|p ps]; cbn [app].
  - by exists [], (String a l).
  - by exists (String a p :: ps), l.
Qed.

(** A suffix without a slash, too long to be dots, makes another path. *)
Lemma components_suffix s t :
  char_in "/" t = false -> 2 < String.length t -> path_components (s +:+ t) <> path_components s.
Proof.
  intros Ht Hlen. rewrite !path_components_eq. destruct (decide (s = "")) as [->|Hs].
  { change ("" +:+ t) with t. assert (plain_name t) as Hn.
    { split_and!; [done|..]; intros ->; cbn in Hlen; lia. }
    destruct (plain_name_relative t Hn) as [_ H]. rewrite path_components_eq in H. by rewrite H. }
  rewrite starts_with_slash_app by done. destruct (split_char_snoc "/" s t Ht) as (ps & l & Hs' & ->).
  rewrite Hs'. assert (piece_component (l +:+ t) = Some (Normal (l +:+ t))) as Hlt.
  { assert (2 < String.length (l +:+ t)) by (rewrite str_length_app; lia). unfold piece_component.
    destruct (l +:+ t) as [|a u] eqn:E; [cbn in *; lia|]. cbn [str_is_empty].
    rewrite !decide_False; [done|..]; intros [= -> ->]; cbn in *; lia. }
  assert (l <> l +:+ t) as Hll.
  { intros H. apply (f_equal String.length) in H. rewrite str_length_app in H. lia. }
  assert (omap piece_component [l +:+ t] <> omap piece_component [l]) as Hne.
  { cbn. rewrite Hlt. unfold piece_component. repeat case_match; congruence. }
  destruct ps as [|piece ps].
  - cbn [app]. unfold comps_of. destruct (starts_with "/" s); [congruence|].
    rewrite decide_False by (intros E; rewrite E in Hlt; done). cbn. rewrite Hlt.
    case_decide; [done|]. cbn in Hne. by rewrite Hlt in Hne.
  - rewrite !comps_of_app by done. intros H. by apply app_inv_head in H.
Qed.

(** ** Lemmas: the local store *)

Section local.
Context {F : Type} {Fs : LocalFs F} {Laws : LocalFsLaws F} (pid : N).

Lemma create_parent_files key (fs : F) : files (LocalObjectStore.create_parent key fs).2 = files fs.
Proof.
  unfold LocalObjectStore.create_parent. destruct (path_parent key) as [parent|]; [|done].
  destruct (negb _); [|done]. pose proof (create_dir_all_files parent fs) as H.
  by destruct (lf_create_dir_all parent fs).
Qed.

Lemma partial_other key : path_components (LocalObjectStore.partial pid key) <> path_components key.
Proof.
  unfold LocalObjectStore.partial. apply components_suffix.
  - rewrite !char_in_app. by rewrite (str_all_not_in _ "/" _ (pretty_N_digits pid)).
  - rewrite !str_length_app. cbn. lia.
Qed.

(** The copy into a file that was just created: it, and nothing else, changes. *)
Lemma copy_files body p (fs : F) :
  files fs !! path_components p = Some "" ->
  match (LocalObjectStore.copy body p fs).1 with
  | Ok _ => rd_error body = None /\
      files (LocalObjectStore.copy body p fs).2 = <[path_components p := reader_bytes body]> (files fs)
  | Err _ => delete (path_components p) (files (LocalObjectStore.copy body p fs).2) =
             delete (path_components p) (files fs)
  end.
Proof.
  intros Hp. unfold LocalObjectStore.copy. pose proof (append_files p (reader_bytes body) fs "" Hp) as H.
  destruct (lf_append p (reader_bytes body) fs) as [[[]|e] fs']; cbn [fst snd] in *; [|done].
  cbn [map_err mbind result_bind]. destruct (rd_error body) as [e|]; cbn [fst snd]; [|done].
  rewrite H. by rewrite delete_insert_eq.
Qed.
End local.

(** ** A reference file system *)

(** Files by path; a directory is there when something is under it. *)
Abbreviation MemFs := (gmap (list Component) Bytes).

Module MemFs.
Definition not_found {A} (_ : string) : result IoError A := Err (mkIoError true (Lit "No such file or directory")).

(** The names below a directory. *)
Definition children (p : string) (fs : MemFs) : list string :=
  remove_dups (omap (fun e => match strip_components (path_components p) e.1 with
                              | Some (Normal name :: _) => Some name
                              | _ => None
                              end) (map_to_list fs)).
End MemFs.

#[export] Instance mem_fs : LocalFs MemFs := {|
  lf_create_dir_all _ fs := (Ok tt, fs);
  lf_read p fs := match fs !! path_components p with Some b => Ok b | None => MemFs.not_found p end;
  lf_open p fs := match fs !! path_components p with Some b => Ok (mkReader [b] None) | None => MemFs.not_found p end;
  lf_write p b fs := (Ok tt, <[path_components p := b]> fs);
  lf_create p fs := (Ok tt, <[path_components p := ""]> fs);
  lf_append p b fs :=
    match fs !! path_components p with
    | Some old => (Ok tt, <[path_components p := old +:+ b]> fs)
    | None => (MemFs.not_found p, fs)
    end;
  lf_rename p q fs :=
    match fs !! path_components p with
    | Some b => (Ok tt, <[path_components q := b]> (delete (path_components p) fs))
    | None => (MemFs.not_found p, fs)
    end;
  lf_remove_file p fs := (Ok tt, delete (path_components p) fs);
  lf_is_file p fs := bool_decide (is_Some (fs !! path_components p));
  lf_is_dir p fs := negb (bool_decide (MemFs.children p fs = []));
  lf_exists p fs := bool_decide (is_Some (fs !! path_components p)) || negb (bool_decide (MemFs.children p fs = []));
  lf_len p fs := byte_len <$> fs !! path_components p;
  lf_read_dir p fs := Ok (map (fun name => Ok (path_join p name)) (MemFs.children p fs));
  lf_canonicalize p fs := if bool_decide (is_Some (fs !! path_components p)) then Some p else None;
|}.

#[export] Instance mem_fs_laws : LocalFsLaws MemFs.
Proof.
  refine (Build_LocalFsLaws _ mem_fs (fun fs => fs) _ _ _ _ _ _ _).
  - done.
  - intros p fs reader. unfold lf_open, mem_fs, MemFs.not_found.
    destruct (fs !! path_components p) as [b|]; [|done]. by intros [= <-] _.
  - done.
  - done.
  - intros p b fs old H. cbn. by rewrite H.
  - intros p q fs b H. cbn. by rewrite H.
  - done.
Defined.

(** ** Properties *)

(** C28: a streamed local write is atomic.  [put_stream] succeeds only when the body was read to
    its end, and then the file holds exactly the body; on every failure, the body's own error
    included, the file is as it was before; and in either case nothing else changed but the
    partial file of this process beside it. *)
Theorem local_put_stream_atomic {F} {Fs : LocalFs F} {Laws : LocalFsLaws F} pid b key body meta (fs : F) :
  let '(r, _, fs') := LocalObjectStore.put_stream pid b key body meta fs in
  let path := path_components key in
  let partial := path_components (LocalObjectStore.partial pid key) in
  match r with
  | Ok _ => rd_error body = None /\ files fs' = <[path := reader_bytes body]> (delete partial (files fs))
  | Err _ => delete partial (files fs') = delete partial (files fs) /\ files fs' !! path = files fs !! path
  end.
Proof.
  unfold LocalObjectStore.put_stream. pose proof (create_parent_files key fs) as Hparent.
  pose proof (partial_other pid key) as Hne. set (p := LocalObjectStore.partial pid key) in *. cbv zeta.
  set (pp := path_components p) in *. set (path := path_components key) in *.
  assert (forall fs', delete pp (files fs') = delete pp (files fs) -> files fs' !! path = files fs !! path) as Hkey.
  { intros fs' H. apply (f_equal (fun m => m !! path)) in H. by rewrite !lookup_delete_ne in H. }
  destruct (LocalObjectStore.create_parent key fs) as [[[]|e] fs1]; cbn [snd] in *; [|by rewrite Hparent].
  pose proof (create_files p fs1) as Hcreate. destruct (lf_create p fs1) as [[[]|e] fs2]; cbn [fst snd] in *;
    [|by rewrite Hcreate, Hparent].
  pose proof (copy_files body p fs2) as Hcopy. fold pp in Hcreate, Hcopy.
  rewrite Hcreate, lookup_insert_eq in Hcopy. specialize (Hcopy eq_refl).
  destruct (LocalObjectStore.copy body p fs2) as [[[]|e] fs3]; cbn [fst snd] in *.
  - destruct Hcopy as [Herr H3]. rewrite insert_insert_eq, Hparent in H3.
    pose proof (rename_files p key fs3 (reader_bytes body)) as Hr. fold pp path in Hr.
    rewrite H3, lookup_insert_eq in Hr. specialize (Hr eq_refl). rewrite delete_insert_eq in Hr.
    destruct (lf_rename p key fs3) as [[[]|e] fs4]; cbn [fst snd map_err] in *; [done|].
    assert (delete pp (files fs4) = delete pp (files fs)) as Hd by (by rewrite Hr, delete_insert_eq).
    split; [done|by apply Hkey].
  - assert (delete pp (files (lf_remove_file p fs3).2) = delete pp (files fs)) as Hd.
    { rewrite delete_insert_eq, Hparent in Hcopy. pose proof (remove_files p fs3) as H. fold pp in H.
      destruct (lf_remove_file p fs3) as [[[]|e'] fs4]; cbn [fst snd] in *; rewrite H; [|done].
      by rewrite delete_delete_eq. }
    split; [done|by apply Hkey].
Qed.

(** ** Witness *)

(** A body that breaks off: the file keeps its old content. *)
Definition broken_body : Reader := mkReader ["ab"] (Some (Lit "connection reset")).

Lemma local_put_stream_atomic_witness :
  let '(r, _, fs') := LocalObjectStore.put_stream 7 "" "out/a" broken_body (mkPutMeta "t" "gzip")
                        ({[path_components "out/a" := "old"]} : MemFs) in
  is_ok r = false /\ fs' !! path_components "out/a" = Some "old".
Proof.
  pose proof (local_put_stream_atomic 7 "" "out/a" broken_body (mkPutMeta "t" "gzip")
    ({[path_components "out/a" := "old"]} : MemFs)) as H.
  assert (is_ok (LocalObjectStore.put_stream 7 "" "out/a" broken_body (mkPutMeta "t" "gzip")
    ({[path_components "out/a" := "old"]} : MemFs)).1.1 = false) as Hr by (vm_compute; reflexivity).
  destruct (LocalObjectStore.put_stream 7 "" "out/a" broken_body (mkPutMeta "t" "gzip")
    ({[path_components "out/a" := "old"]} : MemFs)) as [[r n] fs']. cbn [fst] in Hr.
  destruct r as [a|e]; [discriminate|]. split; [reflexivity|]. destruct H as [_ H]. exact H.
Defined.
