(* ===== verification/Filterer.v ===== *)
(** * The offline filter, one object ([Filterer] of [cli/src/main.rs])

    [filter] moves objects between local paths and S3 prefixes through the processors the
    Lambda runs.  [Filterer] is its per-object policy; [filter_mirrors_pipeline] shows that
    it is the pipeline's: over the stores of its two sides it leaves what [process_object]
    leaves, and fails when it fails. *)

From S2P Require Import Prelude Model Json Path Regex Rules Reference Index Project Engine.
From S2P Require Import Settings Effects Metrics Ports Task Envelope Buffer Stream Cache Pipeline.
From S2P Require Import Source S3Store Local.

(** ** Errors and output *)

(** [anyhow::Error], by what it was made from. *)
Inductive AnyError : Type :=
  | AnyMsg (m : Msg)
  | AnyCore (e : CoreError)
  | AnyStore (e : StoreError)
  | AnyConfig (e : ConfigError)
  | AnyContext (context : Msg) (e : AnyError).

(** The [Display]s of [core/src/error.rs]. *)
Definition store_error_to_string (e : StoreError) : Msg :=
  match e with
  | NotFound bucket key => Fmt "object not found: {bucket}/{key}" [Lit bucket; Lit key]
  | Backend m => Fmt "object store operation failed: {0}" [m]
  end.

Definition config_error_to_string (e : ConfigError) : Msg :=
  match e with
  | CfgSource m => Fmt "config source operation failed: {0}" [m]
  | CfgParse m => Fmt "failed to parse config: {0}" [m]
  end.

Definition core_error_to_string (e : CoreError) : Msg :=
  match e with
  | CoreStore e => store_error_to_string e
  | CoreConfig e => config_error_to_string e
  | CoreGzip m => Fmt "failed to decompress gzip: {0}" [m]
  | CoreJson m => Fmt "failed to parse JSON: {0}" [m]
  | CoreInternal m => Fmt "internal processing failure: {0}" [m]
  | ObjectTooLarge limit =>
      Fmt "object exceeds max_object_bytes ({limit} bytes), compressed or decompressed: buffer mode refuses to keep reading rather than risk OOM on an oversized or bomb-like object"
        [Lit (pretty limit)]
  | CoreDecode e => Fmt "failed to decode event payload: {0}" [decode_error_to_string e]
  | SelfTrigger b k =>
      Fmt "destination ({dest_bucket}/{dest_key}) equals source: refusing to process to avoid an infinite self-triggering loop"
        [Lit b; Lit k]
  | UnrecognizedObject b k =>
      Fmt "unrecognized object shape ({bucket}/{key}): on_unrecognized_object is 'error'" [Lit b; Lit k]
  end.

(** An error and the errors it wraps, outermost first. *)
Fixpoint error_chain (e : AnyError) : list Msg :=
  match e with
  | AnyMsg m => [m]
  | AnyCore (CoreDecode e) => [core_error_to_string (CoreDecode e); decode_error_to_string e]
  | AnyCore e => [core_error_to_string e]
  | AnyStore e => [store_error_to_string e]
  | AnyConfig e => [config_error_to_string e]
  | AnyContext context e => context :: error_chain e
  end.

(** [{e:#}] *)
Definition show_error (e : AnyError) : Msg := Fmt "{e:#}" (error_chain e).

(** What the process prints, line by line. *)
Inductive Line : Type :=
  | Stdout (m : Msg)
  | Stderr (m : Msg).

(** ** Locations *)

Inductive Location : Type :=
  | Local (path : string)
  | S3 (bucket prefix : string).

Module Location.
Definition parse (s : string) : result AnyError Location :=
  match strip_prefix "s3://" s with
  | Some rest =>
      let '(bucket, prefix) := default (rest, "") (split_once "/" rest) in
      if str_is_empty bucket then Err (AnyMsg (Fmt "invalid s3 uri {s:?}: missing bucket" [Lit s]))
      else Ok (S3 bucket prefix)
  | None => Ok (Local s)
  end.

Definition is_s3 (l : Location) : bool := match l with S3 _ _ => true | Local _ => false end.

Definition bucket (l : Location) : string := match l with Local _ => "" | S3 bucket _ => bucket end.

Definition display (l : Location) (key : string) : string :=
  match l with Local _ => key | S3 bucket _ => "s3://" +:+ bucket +:+ "/" +:+ key end.
End Location.

Record SrcObject := mkSrcObject {
  so_fetch : string;
  so_rel : string;
  so_size : option N;
}.

(** ** The configuration of a run *)

Record FilterConfig {R : RegexCrate} := mkFilterConfig {
  fc_processing : Processing;
  fc_keys : KeyFilter;
  fc_dry_run : bool;
  fc_on_unrecognized : OnUnrecognizedObject;
  fc_on_parse_error : OnParseError;
  fc_on_object_too_large : OnObjectTooLarge;
}.

Inductive Mode : Type := MdBuffer | MdStream.

Inductive CopyReason : Type := CrUnparsed | CrUnrecognized.

Definition copy_label (r : CopyReason) : string :=
  match r with CrUnparsed => "did not parse" | CrUnrecognized => "unrecognized shape" end.

Inductive ObjectOutcome : Type :=
  | OoWritten (at_ : string)
  | OoNothingKept
  | OoCopied (at_ : string) (why : CopyReason)
  | OoSkipped
  | OoDryRun.

(** The two stores a run can touch. *)
Record Stores (F S : Type) := mkStores { st_local : F; st_s3 : S }.
Arguments mkStores {F S}.
Arguments st_local {F S}.
Arguments st_s3 {F S}.

(** They, the counters and the output. *)
Record RunWorld (F S : Type) := mkRunWorld {
  rw_env : Env (Stores F S);
  rw_printed : list Line;
}.
Arguments mkRunWorld {F S}.
Arguments rw_env {F S}.
Arguments rw_printed {F S}.

(** [match io.await { .. }] where the errors are of another type. *)
Definition io_attempt {W E E' A} (io : Io W E A) : Io W E' (result E A) := fun w =>
  match io w with
  | (Ok a, w) => (Ok (Ok a), w)
  | (Err (Fail e), w) => (Ok (Err e), w)
  | (Err (Panic msg), w) => (Err (Panic msg), w)
  end.

Record Filterer {R : RegexCrate} := mkFilterer {
  f_engine : Engine;
  f_cfg : FilterConfig;
  f_src : Location;
  f_dst : Location;
  f_s3 : option S3ObjectStore;
}.

Section filter.
Context {J : JsonCrate} {SH : ShallowCrate} {R : RegexCrate} {G : GzipCrate} {SC : SettingsCrate}.
Context {F : Type} {Fs : LocalFs F} {S : Type} {Cl : S3Client S}.
(** [std::env::var(..).ok()] and [std::process::id()]. *)
Context (env : string -> option string) (pid : N).

(** [fs::read(path).with_context(..)] *)
Definition read_with_context (path : string) (fs : F) : result AnyError Bytes :=
  map_err (fun e => AnyContext (Fmt "failed to read {path:?}" [Lit path]) (AnyMsg (io_text e))) (lf_read path fs).

Definition load_and_validate_settings (path : option string) (fs : F) : result AnyError Settings :=
  bytes ← match path with
          | Some p => Some <$> read_with_context p fs
          | None => Ok None
          end;
  map_err AnyConfig (from_parts bytes env).

Definition config_resolve (path : option string) (fs : F) : result AnyError FilterConfig :=
  '(source, processing, behavior) ←
    match path with
    | Some p =>
        s ← load_and_validate_settings (Some p) fs;
        Ok (s_source s, s_processing s, s_behavior s)
    | None => Ok (Source_default, Processing_default, Behavior_default)
    end;
  keys ← map_err AnyConfig (KeyFilter_compile source);
  Ok {| fc_processing := processing;
        fc_keys := keys;
        fc_dry_run := dry_run behavior;
        fc_on_unrecognized := on_unrecognized_object behavior;
        fc_on_parse_error := on_parse_error behavior;
        fc_on_object_too_large := on_object_too_large behavior |}.

Definition config_select_mode (cfg : FilterConfig) (size : option N) : Mode :=
  match mode (fc_processing cfg) with
  | PmBuffer => MdBuffer
  | PmStream => MdStream
  | PmAuto =>
      match size with
      | Some sz => if (stream_threshold_bytes (fc_processing cfg) <? sz)%N then MdStream else MdBuffer
      | None => MdBuffer
      end
  end.

(** [S3ObjectStore::new]. *)
Definition build_s3_if_needed (src dst : Location) : option S3ObjectStore :=
  if Location.is_s3 src || Location.is_s3 dst then Some (mkS3ObjectStore DEFAULT_MULTIPART_PART_BYTES) else None.

(** ** The stores *)

Definition on_local {A} (op : F -> A * F) (s : Stores F S) : A * Stores F S :=
  let '(a, fs) := op (st_local s) in (a, mkStores fs (st_s3 s)).
Definition on_s3 {A} (op : S -> A * S) (s : Stores F S) : A * Stores F S :=
  let '(a, s3) := op (st_s3 s) in (a, mkStores (st_local s) s3).

Definition local_side : ObjectStore (Stores F S) :=
  let St := local_object_store pid in
  {| store_get b k := on_local (store_get b k);
     store_get_stream b k := on_local (store_get_stream b k);
     store_put b k body meta := on_local (store_put b k body meta);
     store_put_stream b k body meta := on_local (store_put_stream b k body meta) |}.

Definition s3_side (self : S3ObjectStore) : ObjectStore (Stores F S) :=
  let St := s3_object_store self in
  {| store_get b k := on_s3 (store_get b k);
     store_get_stream b k := on_s3 (store_get_stream b k);
     store_put b k body meta := on_s3 (store_put b k body meta);
     store_put_stream b k body meta := on_s3 (store_put_stream b k body meta) |}.

Abbreviation Cmd := (Io (RunWorld F S) AnyError).

(** [eprintln!] and [println!]. *)
Definition print {E} (line : Line) : Io (RunWorld F S) E unit :=
  io_modify (fun w => mkRunWorld (rw_env w) (rw_printed w ++ [line])).

Definition metric {E} (f : Metrics -> Metrics) : Io (RunWorld F S) E unit :=
  io_modify (fun w => mkRunWorld (mkEnv (e_store (rw_env w)) (f (e_metrics (rw_env w)))) (rw_printed w)).

(** A store operation; its error is the caller's to convert. *)
Definition store_op {E A} (op : Stores F S -> A * Stores F S) : Io (RunWorld F S) E A := fun w =>
  let '(a, s) := op (e_store (rw_env w)) in
  (Ok a, mkRunWorld (mkEnv s (e_metrics (rw_env w))) (rw_printed w)).

Section object.
Context (f : Filterer).

Abbreviation cfg := (f_cfg f).
Abbreviation src := (f_src f).
Abbreviation dst := (f_dst f).

(** [self.store(loc)]: [None] is the failed [expect]. *)
Definition filter_store (loc : Location) : option (ObjectStore (Stores F S)) :=
  match loc with
  | Local _ => Some local_side
  | S3 _ _ => s3_side <$> f_s3 f
  end.

Definition with_store {E A} (loc : Location) (k : ObjectStore (Stores F S) -> Io (RunWorld F S) E A) :
    Io (RunWorld F S) E A :=
  match filter_store loc with
  | Some St => k St
  | None => io_panic "s3 store built when a side is s3"
  end.

(** The closure [canonical]. *)
Definition canonical (p : string) (fs : F) : option string :=
  match lf_canonicalize p fs with
  | Some c => Some c
  | None =>
      parent ← path_parent p;
      parent ← lf_canonicalize parent fs;
      name ← path_file_name p;
      Some (path_join parent name)
  end.

Definition overwrites_source (src_key dst_key : string) (fs : F) : bool :=
  match src, dst with
  | S3 sb _, S3 db _ => bool_decide (sb = db) && bool_decide (src_key = dst_key)
  | Local _, Local _ =>
      match canonical src_key fs, canonical dst_key fs with
      | Some s, Some d => bool_decide (path_components s = path_components d)
      | _, _ => false
      end
  | _, _ => false
  end.

Definition fetch_capped (src_key : string) : Io (RunWorld F S) CoreError Bytes :=
  let limit := max_object_bytes (fc_processing cfg) in
  reader ← with_store src (fun St =>
    r ← store_op (store_get_stream (Location.bucket src) src_key);
    io_of_result (map_err CoreStore r));
  buf ← io_of_result (map_err (fun e => CoreStore (Backend (Fmt "reading {src_key}: {e}" [Lit src_key; e])))
                        (take_read_to_end (saturating_add_u64 limit 1) reader));
  if (limit <? byte_len buf)%N then io_fail (ObjectTooLarge limit) else mret buf.

Definition buffer_eval (src_key : string) :
    Io (RunWorld F S) CoreError (Bytes * result CoreError (Outcome * RecordTally)) :=
  bytes ← fetch_capped src_key;
  evaluated ← io_call (buffer_run bytes (f_engine f) (fc_processing cfg));
  mret (bytes, evaluated).

(** [self.store(&self.src).get_stream(..).await?] *)
Definition filter_open (src_key : string) : Cmd Reader :=
  with_store src (fun St =>
    r ← store_op (store_get_stream (Location.bucket src) src_key);
    io_of_result (map_err AnyStore r)).

Definition filter_stream_copy (src_key dst_key : string) : Cmd string :=
  reader ← filter_open src_key;
  with_store dst (fun St =>
    '(r, _) ← store_op (store_put_stream (Location.bucket dst) dst_key reader CANONICAL_META);
    _ ← io_of_result (map_err AnyStore r);
    mret (Location.display dst dst_key)).

Definition filter_put (dst_key : string) (bytes : Bytes) : Cmd string :=
  with_store dst (fun St =>
    r ← store_op (store_put (Location.bucket dst) dst_key bytes CANONICAL_META);
    _ ← io_of_result (map_err AnyStore r);
    mret (Location.display dst dst_key)).

(** [match bytes { Some(b) => self.put(..), None => self.stream_copy(..) }] *)
Definition forward (src_key dst_key : string) (bytes : option Bytes) : Cmd string :=
  match bytes with
  | Some b => filter_put dst_key b
  | None => filter_stream_copy src_key dst_key
  end.

Definition filter_copies_unparsable (e : CoreError) : bool :=
  match fc_on_parse_error cfg with
  | PeCopy => CoreError.is_unparsable_source e
  | PeError => false
  end.

Definition filter_copy_unparsable (src_key dst_key : string) (bytes : option Bytes) (error : CoreError)
    (dry_run : bool) : Cmd ObjectOutcome :=
  _ ← print (Stderr (Fmt ("  note: {src_key} did not parse ({error}); copying it verbatim (behavior.on_parse_error is " +:+
                             quoted "copy" +:+ ")")
                       [Lit src_key; core_error_to_string error]));
  _ ← metric (add_objects_copied_unparsed 1);
  if dry_run then mret OoDryRun
  else
    at_ ← forward src_key dst_key bytes;
    mret (OoCopied at_ CrUnparsed).

Definition filter_unrecognized (src_key dst_key : string) (bytes : option Bytes) : Cmd ObjectOutcome :=
  match fc_on_unrecognized cfg with
  | UoCopy =>
      _ ← metric (add_unrecognized_objects 1);
      at_ ← forward src_key dst_key bytes;
      mret (OoCopied at_ CrUnrecognized)
  | UoSkip => _ ← metric (add_unrecognized_objects 1); mret OoSkipped
  | UoError =>
      io_fail (AnyMsg (Fmt ("{src_key}: no Records array, and behavior.on_unrecognized_object is " +:+ quoted "error")
                         [Lit src_key]))
  end.

Definition filter_dry_run_stream (sched : Schedule) (src_key : string) : Cmd ObjectOutcome :=
  reader ← filter_open src_key;
  let '(outcome, scratch, _) :=
    stream_run sched reader (f_engine f) (fc_processing cfg) Metrics_default mkDiscardStore "" "" in
  outcome ← io_call outcome;
  let snapshot := (snapshot_and_reset scratch).1 in
  _ ← metric (add_bytes_in (ms_bytes_in snapshot));
  _ ← metric (add_records_in (ms_records_in snapshot));
  _ ← metric (add_records_kept (ms_records_kept snapshot));
  _ ← metric (add_records_dropped (ms_records_dropped snapshot));
  _ ← metric (add_parse_errors (ms_parse_errors snapshot));
  _ ← metric (fold_rule_drops (ms_rule_drops snapshot));
  match outcome with
  | Err e =>
      if filter_copies_unparsable e then filter_copy_unparsable src_key "" None e true
      else io_fail (AnyCore e)
  | Ok outcome =>
      _ ← match outcome with Unrecognized => metric (add_unrecognized_objects 1) | _ => mret tt end;
      mret OoDryRun
  end.

Definition filter_stream (sched : Schedule) (src_key dst_key : string) : Cmd ObjectOutcome :=
  reader ← filter_open src_key;
  result ← with_store dst (fun St => fun w =>
    let '(r, m, s) := stream_run sched reader (f_engine f) (fc_processing cfg) (e_metrics (rw_env w))
                        (e_store (rw_env w)) (Location.bucket dst) dst_key in
    io_call r (mkRunWorld (mkEnv s m) (rw_printed w)));
  match result with
  | Err e =>
      if filter_copies_unparsable e then filter_copy_unparsable src_key dst_key None e false
      else io_fail (AnyCore e)
  | Ok (Written None) => mret (OoWritten (Location.display dst dst_key))
  | Ok NothingKept => mret OoNothingKept
  | Ok Unrecognized => filter_unrecognized src_key dst_key None
  | Ok (Written (Some _)) => io_panic "stream_run never returns Written(Some(_))"
  end.

Definition filter_via_stream (sched : Schedule) (src_key dst_key : string) : Cmd ObjectOutcome :=
  if fc_dry_run cfg then filter_dry_run_stream sched src_key else filter_stream sched src_key dst_key.

(** The last arm of [Mode::Buffer]. *)
Definition filter_outcome (src_key dst_key : string) (bytes : option Bytes) (outcome : Outcome) :
    Cmd ObjectOutcome :=
  if fc_dry_run cfg then
    _ ← match outcome with Unrecognized => metric (add_unrecognized_objects 1) | _ => mret tt end;
    mret OoDryRun
  else
    match outcome with
    | Written (Some out) => at_ ← filter_put dst_key out; mret (OoWritten at_)
    | NothingKept => mret OoNothingKept
    | Unrecognized => filter_unrecognized src_key dst_key bytes
    | Written None => io_panic "buffer_run returns Written(Some(_)) when it writes"
    end.

Definition process (sched : Schedule) (src_key dst_key : string) (size : option N) : Cmd ObjectOutcome :=
  overwrites ← (fun w => (Ok (overwrites_source src_key dst_key (st_local (e_store (rw_env w)))), w));
  if negb (fc_dry_run cfg) && overwrites then
    io_fail (AnyMsg (Fmt "refusing to write {} over its own source: pick a destination that is not the source"
                       [Lit (Location.display dst dst_key)]))
  else
    match config_select_mode cfg size with
    | MdStream => filter_via_stream sched src_key dst_key
    | MdBuffer =>
        evaluated ← io_attempt (buffer_eval src_key);
        let '(bytes, result) :=
          match evaluated with
          | Ok (bytes, evaluated) => (Some bytes, evaluated)
          | Err e => (None, Err e)
          end in
        match result with
        | Err e =>
            match e, fc_on_object_too_large cfg with
            | ObjectTooLarge limit, TlStream =>
                _ ← print (Stderr (Fmt "  note: {src_key} exceeds max_object_bytes ({limit}); retrying via stream mode"
                                     [Lit src_key; Lit (pretty limit)]));
                filter_via_stream sched src_key dst_key
            | _, _ =>
                if filter_copies_unparsable e
                then filter_copy_unparsable src_key dst_key bytes e (fc_dry_run cfg)
                else io_fail (AnyCore e)
            end
        | Ok (outcome, tally) =>
            object_outcome ← filter_outcome src_key dst_key bytes outcome;
            _ ← metric (RecordTally.commit tally (f_engine f));
            mret object_outcome
        end
    end.
End object.
End filter.

(** ** Lemmas: counters both sides keep *)

(** What the pipeline and the filter count alike; the filter does not bill bytes or objects. *)
Definition tracked_counter (c : Counter) : bool :=
  match c with
  | RecordsIn | RecordsKept | RecordsDropped | ParseErrors | ObjectsCopiedUnparsed => true
  | _ => false
  end.

Definition tracked (m m' : Metrics) : Prop :=
  (forall c, tracked_counter c = true -> m_counters m c = m_counters m' c) /\ m_rule_drops m = m_rule_drops m'.

#[export] Instance tracked_equivalence : Equivalence tracked.
Proof.
  split.
  - by intros m.
  - intros m m' [H1 H2]. split; [|done]. intros c Hc. symmetry. by apply H1.
  - intros m1 m2 m3 [H1 H2] [H3 H4]. split; [|congruence]. intros c Hc. by rewrite H1, H3.
Qed.

#[export] Instance fetch_add_tracked c n : Proper (tracked ==> tracked) (fetch_add c n).
Proof.
  intros m m' [H1 H2]. split; [|done]. intros c' Hc. unfold fetch_add. cbn [m_counters].
  case_decide as Heq; [subst; by rewrite H1|by apply H1].
Qed.

#[export] Instance record_rule_drops_tracked name n : Proper (tracked ==> tracked) (record_rule_drops name n).
Proof.
  intros m m' [H1 H2]. unfold record_rule_drops. case_decide; [done|]. split; [done|]. cbn [m_rule_drops].
  by rewrite H2.
Qed.

Lemma foldl_tracked {A} (f : Metrics -> A -> Metrics) l :
  (forall x, Proper (tracked ==> tracked) (fun m => f m x)) -> Proper (tracked ==> tracked) (fun m => foldl f m l).
Proof. intros Hf. induction l as [|x l IH]; intros m m' H; [done|]. apply IH. by apply Hf. Qed.

#[export] Instance fold_rule_drops_tracked drops : Proper (tracked ==> tracked) (fold_rule_drops drops).
Proof. apply foldl_tracked. intros x m m' H. by apply record_rule_drops_tracked. Qed.

#[export] Instance commit_tracked {R : RegexCrate} t (e : Engine) : Proper (tracked ==> tracked) (RecordTally.commit t e).
Proof.
  intros m m' H. unfold RecordTally.commit, RecordTally.commit_drops. cbv zeta. apply foldl_tracked.
  - intros x m1 m2 Hm. destruct (rule_name e x.1); [by apply record_rule_drops_tracked|done].
  - unfold add_parse_errors, add_records_dropped, add_records_kept, add_records_in. by repeat apply fetch_add_tracked.
Qed.

Lemma fetch_add_untracked c n m m' :
  tracked_counter c = false -> tracked m m' -> tracked (fetch_add c n m) m'.
Proof.
  intros Hc [H1 H2]. split; [|done]. intros c' Hc'. unfold fetch_add. cbn [m_counters].
  rewrite decide_False; [by apply H1|]. intros ->. congruence.
Qed.

Lemma pump_input_tracked n input m m' :
  tracked m m' -> tracked (pump_input n input m).2 (pump_input n input m').2.
Proof.
  revert input m m'. induction n as [|n IH]; intros input m m' H; cbn [pump_input];
    destruct (read INPUT_CHUNK_BYTES input) as [[b|e] input']; try done;
    (destruct (str_is_empty b); [done|]).
  - by apply fetch_add_tracked.
  - assert (tracked (add_bytes_in (byte_len b) m) (add_bytes_in (byte_len b) m')) as H' by by apply fetch_add_tracked.
    specialize (IH input' _ _ H').
    by destruct (pump_input n input' (add_bytes_in _ m)), (pump_input n input' (add_bytes_in _ m')).
Qed.

(** The counters a run starts from only shift the counters it ends with. *)
Lemma stream_run_tracked {J : JsonCrate} {SH : ShallowCrate} {R : RegexCrate} {G : GzipCrate} {T} {St : ObjectStore T}
    sched input engine cfg m m' (s : T) b k :
  tracked m m' ->
  let '(r, m1, s1) := stream_run sched input engine cfg m s b k in
  let '(r', m1', s1') := stream_run sched input engine cfg m' s b k in
  r = r' /\ s1 = s1' /\ tracked m1 m1'.
Proof.
  intros H. unfold stream_run, stream_program. destruct (enc_new (gzip_level cfg)) as [encoder|].
  2:{ cbn. pose proof (pump_input_tracked (sch_accepts sched) input m m' H) as Hm. done. }
  unfold stream_joined_program. cbv zeta.
  destruct (match sch_panic sched with None => _ | Some _ => _ end) as [[raw blocking] all].
  generalize (if all then input_bound input else sch_accepts sched); intros accepts.
  pose proof (pump_input_tracked accepts input m m' H) as Hm. destruct (processing _ _ _) as [out pr]. run_step.
  destruct (store_put_stream _ _ _ _ s) as [[u c] s1].
  destruct blocking; [|by run_step]. destruct pr as [[[[w| |] bytes_out] tally]|e]; [destruct u| | |]; run_step;
    (split; [done|]); (split; [done|]); try done; apply commit_tracked; try done. by apply fetch_add_tracked.
Qed.

(** ** Lemmas: lockstep *)

(** The settings a pipeline has, as the filter keeps them. *)
Definition filter_config {R : RegexCrate} (p : Pipeline) : FilterConfig := {|
  fc_processing := s_processing (p_settings p);
  fc_keys := p_key_filter p;
  fc_dry_run := dry_run (s_behavior (p_settings p));
  fc_on_unrecognized := on_unrecognized_object (s_behavior (p_settings p));
  fc_on_parse_error := on_parse_error (s_behavior (p_settings p));
  fc_on_object_too_large := on_object_too_large (s_behavior (p_settings p));
|}.

(** Errors past the point where a retry is possible: the same error, or a store's, or the
    policy's under another text. *)
Inductive late_error : CoreError -> AnyError -> Prop :=
  | Late_core e : (forall limit, e <> ObjectTooLarge limit) -> late_error e (AnyCore e)
  | Late_store e e' : late_error (CoreStore e) (AnyStore e')
  | Late_unrecognized b k m : late_error (UnrecognizedObject b k) (AnyMsg m).

Inductive same_error : CoreError -> AnyError -> Prop :=
  | Same_core e : same_error e (AnyCore e)
  | Same_store e e' : same_error (CoreStore e) (AnyStore e')
  | Same_read e e' : same_error (CoreStore e) (AnyCore (CoreStore e'))
  | Same_unrecognized b k m : same_error (UnrecognizedObject b k) (AnyMsg m).

(** What a fetch fails with. *)
Inductive fetch_error : CoreError -> CoreError -> Prop :=
  | Fetch_store e e' : fetch_error (CoreStore e) (CoreStore e')
  | Fetch_too_large limit : fetch_error (ObjectTooLarge limit) (ObjectTooLarge limit).

Lemma late_same e e' : late_error e e' -> same_error e e'.
Proof. intros []; constructor. Qed.

Definition rel_exit {A B E'} (Re : CoreError -> E' -> Prop) (Ra : A -> B -> Prop)
    (r : result (Exit CoreError) A) (r' : result (Exit E') B) : Prop :=
  match r, r' with
  | Ok a, Ok b => Ra a b
  | Err (Fail e), Err (Fail e') => Re e e'
  | Err (Panic _), Err (Panic _) => True
  | _, _ => False
  end.

Lemma rel_exit_ok {A B E'} (Re : CoreError -> E' -> Prop) (Ra : A -> B -> Prop) r b :
  rel_exit Re Ra r (Ok b) -> exists a, r = Ok a.
Proof. destruct r as [a|[e|m]]; [by exists a|done..]. Qed.

Section sim.
Context {F S : Type} {St : ObjectStore (Stores F S)}.

(** The same stores, and the counters both keep. *)
Definition mirrors (w : Env (Stores F S)) (w' : RunWorld F S) : Prop :=
  e_store w = e_store (rw_env w') /\ tracked (e_metrics w) (e_metrics (rw_env w')).

(** From mirrored states, a task of the pipeline and a step of the filter end alike. *)
Definition sim {A B E'} (Re : CoreError -> E' -> Prop) (Ra : A -> B -> Prop)
    (t : Task A) (io' : Io (RunWorld F S) E' B) : Prop :=
  forall w w', mirrors w w' -> rel_exit Re Ra (t w).1 (io' w').1 /\ mirrors (t w).2 (io' w').2.

Context {E' : Type} (Re : CoreError -> E' -> Prop).

Lemma sim_ret {A B} (Ra : A -> B -> Prop) a b : Ra a b -> sim Re Ra (mret a) (mret b).
Proof. intros H w w' Hw. by split. Qed.

Lemma sim_fail {A B} (Ra : A -> B -> Prop) e e' : Re e e' -> sim Re Ra (task_fail e) (io_fail e').
Proof. intros H w w' Hw. by split. Qed.

Lemma sim_ret_bind {A B C} (Ra : A -> B -> Prop) (t : Task A) (c : C) (k : C -> Io (RunWorld F S) E' B) :
  sim Re Ra t (k c) -> sim Re Ra t (mret c ≫= k).
Proof. done. Qed.

Lemma sim_fail_bind {A B C} (Ra : A -> B -> Prop) e e' (k : C -> Io (RunWorld F S) E' B) :
  Re e e' -> sim Re Ra (task_fail e) (io_fail e' ≫= k).
Proof. intros H w w' Hw. by split. Qed.

Lemma sim_panic {A B} (Ra : A -> B -> Prop) m m' : sim Re Ra (task_panic m) (io_panic m').
Proof. intros w w' Hw. by split. Qed.

Lemma sim_call {A B C} (Ra : A -> B -> Prop) (r : result (Exit CoreError) C)
    (k : result CoreError C -> Task A) (k' : result CoreError C -> Io (RunWorld F S) E' B) :
  (forall x, sim Re Ra (k x) (k' x)) -> sim Re Ra (x ← task_call r; k x) (x ← io_call r; k' x).
Proof. intros H. rewrite task_call_eq. destruct r as [c|[e|m]]; [apply H|apply H|apply sim_panic]. Qed.

Lemma sim_bind {A B A' B'} (Ra : A -> B -> Prop) (Rb : A' -> B' -> Prop) t io' k k' :
  sim Re Ra t io' -> (forall a b, Ra a b -> sim Re Rb (k a) (k' b)) -> sim Re Rb (t ≫= k) (io' ≫= k').
Proof.
  intros H Hk w w' Hw. specialize (H w w' Hw). rewrite run_bind. unfold mbind, io_bind.
  destruct (run_task t w) as [[a|[e|m]] w1], (io' w') as [[b|[e'|m']] w1']; cbn [fst snd rel_exit] in *;
    try (by destruct H). destruct H as [Ha Hm]. by apply (Hk a b Ha).
Qed.

Lemma sim_map {A B C} (Ra : A -> B -> Prop) (Rc : A -> C -> Prop) t io' (g : B -> C) :
  sim Re Ra t io' -> (forall a b, Ra a b -> Rc a (g b)) -> sim Re Rc t (b ← io'; mret (g b)).
Proof.
  intros H Hg w w' Hw. specialize (H w w' Hw). unfold mbind, io_bind.
  destruct (run_task t w) as [[a|[e|m]] w1], (io' w') as [[b|[e'|m']] w1']; cbn [fst snd rel_exit] in *; try done.
  destruct H. split; [by apply Hg|done].
Qed.

Lemma sim_mono {A B} (Re' : CoreError -> E' -> Prop) (Ra Ra' : A -> B -> Prop) t io' :
  (forall e e', Re' e e' -> Re e e') -> (forall a b, Ra' a b -> Ra a b) -> sim Re' Ra' t io' -> sim Re Ra t io'.
Proof.
  intros He Ha H w w' Hw. destruct (H w w' Hw) as [H1 H2]. split; [|done].
  destruct (run_task t w).1 as [a|[e|m]], (io' w').1 as [b|[e'|m']]; cbn in *; auto.
Qed.

(** A count that is tracked, and those that are not, on either side. *)
Lemma sim_metric (g : Metrics -> Metrics) `{!Proper (tracked ==> tracked) g} :
  sim Re (fun _ _ => True) (count_metric g) (metric g).
Proof. intros w w' [Hs Hm]. split; [done|]. split; [done|]. cbn. auto. Qed.

Lemma sim_skip {A B} (Ra : A -> B -> Prop) c n t io' :
  tracked_counter c = false -> sim Re Ra t io' -> sim Re Ra (_ ← count_metric (fetch_add c n); t) io'.
Proof. intros Hc H w w' [Hs Hm]. apply H. split; [done|]. by apply fetch_add_untracked. Qed.

Lemma sim_last {B} (Ra : unit -> B -> Prop) c n b :
  tracked_counter c = false -> Ra tt b -> sim Re Ra (count_metric (fetch_add c n)) (mret b).
Proof. intros Hc Ha w w' [Hs Hm]. split; [done|]. split; [done|]. by apply fetch_add_untracked. Qed.

Lemma sim_skip_right {A B} (Ra : A -> B -> Prop) c n t (io' : Io (RunWorld F S) E' B) :
  tracked_counter c = false -> sim Re Ra t io' -> sim Re Ra t (_ ← metric (fetch_add c n); io').
Proof.
  intros Hc H w w' [Hs Hm]. apply H. split; [done|]. symmetry. apply fetch_add_untracked; [done|by symmetry].
Qed.

Lemma sim_print {A B} (Ra : A -> B -> Prop) line t (io' : Io (RunWorld F S) E' B) :
  sim Re Ra t io' -> sim Re Ra t (_ ← print line; io').
Proof. intros H w w' [Hs Hm]. by apply H. Qed.

(** One request on both sides. *)
Lemma sim_get_stream b k op : op = store_get_stream b k -> sim Re eq (get_stream b k) (store_op op).
Proof. intros -> w w' [Hs Hm]. cbn. unfold store_op. rewrite Hs. by destruct (store_get_stream _ _ _). Qed.

Lemma sim_put_request b k body meta op :
  op = store_put b k body meta -> sim Re eq (put b k body meta) (store_op op).
Proof. intros -> w w' [Hs Hm]. cbn. unfold store_op. rewrite Hs. by destruct (store_put _ _ _ _ _). Qed.

Lemma sim_put_stream b k body meta op :
  op = store_put_stream b k body meta -> sim Re eq (put_stream b k body meta) (store_op op).
Proof. intros -> w w' [Hs Hm]. cbn. unfold store_op. rewrite Hs. by destruct (store_put_stream _ _ _ _ _). Qed.
End sim.

(** ** Lemmas: the pipeline over the two sides *)

Section mirror.
Context {J : JsonCrate} {SH : ShallowCrate} {R : RegexCrate} {G : GzipCrate}.
Context {F : Type} {Fs : LocalFs F} {S : Type} {Cl : S3Client S} (pid : N).

Definition side (loc : Location) : ObjectStore (Stores F S) :=
  match loc with
  | Local _ => local_side pid
  | S3 _ _ => s3_side (mkS3ObjectStore DEFAULT_MULTIPART_PART_BYTES)
  end.

(** One store that reads from the source's side and writes to the destination's. *)
Definition sided_store (src dst : Location) : ObjectStore (Stores F S) := {|
  store_get := store_get (ObjectStore := side src);
  store_get_stream := store_get_stream (ObjectStore := side src);
  store_put := store_put (ObjectStore := side dst);
  store_put_stream := store_put_stream (ObjectStore := side dst);
|}.

Context (p : Pipeline) (f : Filterer).
Context (Hcfg : f_cfg f = filter_config p) (Hs3 : f_s3 f = build_s3_if_needed (f_src f) (f_dst f)).
Context (Hmissing : on_missing_object (s_behavior (p_settings p)) = MoError).

#[local] Instance two_sides : ObjectStore (Stores F S) := sided_store (f_src f) (f_dst f).

Abbreviation behavior := (s_behavior (p_settings p)).
Abbreviation src := (f_src f).
Abbreviation dst := (f_dst f).

Lemma store_src : filter_store pid f src = Some (side src).
Proof.
  unfold filter_store. rewrite Hs3. unfold build_s3_if_needed. by destruct src.
Qed.

Lemma store_dst : filter_store pid f dst = Some (side dst).
Proof.
  unfold filter_store. rewrite Hs3. unfold build_s3_if_needed. destruct dst; [done|]. cbn. by rewrite orb_true_r.
Qed.

Lemma with_src {E A} (k : ObjectStore (Stores F S) -> Io (RunWorld F S) E A) : with_store pid f src k = k (side src).
Proof. unfold with_store. by rewrite store_src. Qed.

Lemma with_dst {E A} (k : ObjectStore (Stores F S) -> Io (RunWorld F S) E A) : with_store pid f dst k = k (side dst).
Proof. unfold with_store. by rewrite store_dst. Qed.

(** Opening the source. *)
Lemma sim_opened {E'} (Re : CoreError -> E' -> Prop) (conv : StoreError -> E') src_key :
  (forall e e', Re (CoreStore e) (conv e')) ->
  sim Re (fun o reader => o = Some reader)
    (open_with_missing_policy p (Location.bucket src) src_key)
    (r ← store_op (store_get_stream (ObjectStore := side src) (Location.bucket src) src_key);
     io_of_result (map_err conv r)).
Proof.
  intros He. unfold open_with_missing_policy. eapply sim_bind; [by apply sim_get_stream|].
  intros r r' <-. rewrite Hmissing. destruct r as [reader|[b k|m]]; cbn [map_err io_of_result];
    [by apply sim_ret|by apply sim_fail..].
Qed.

Lemma sim_open src_key :
  sim late_error (fun o reader => o = Some reader)
    (open_with_missing_policy p (Location.bucket src) src_key) (filter_open pid f src_key).
Proof. unfold filter_open. rewrite with_src. apply sim_opened. intros. constructor. Qed.

Lemma sim_fetch src_key :
  sim fetch_error (fun o bytes => o = Some bytes)
    (fetch_with_missing_policy p (Location.bucket src) src_key) (fetch_capped pid f src_key).
Proof.
  unfold fetch_with_missing_policy, fetch_capped. cbv zeta. rewrite with_src, Hcfg. cbn [fc_processing filter_config].
  eapply sim_bind; [apply sim_opened; constructor|]. intros o reader ->.
  destruct (take_read_to_end _ reader) as [buf|e]; cbn [map_err io_of_result].
  - apply sim_ret_bind. destruct (_ <? _)%N; [apply sim_fail; constructor|by apply sim_ret].
  - apply sim_fail_bind. constructor.
Qed.

(** The end of a task: what the pipeline still bills, the filter does not. *)
Abbreviation ends := (sim late_error (fun (_ : unit) (_ : ObjectOutcome) => True)) (only parsing).

Lemma sim_put dst_key bytes :
  sim late_error (fun _ _ => True) (put_counted (Location.bucket dst) dst_key bytes) (filter_put pid f dst_key bytes).
Proof.
  unfold put_counted, filter_put. rewrite with_dst. cbv zeta. eapply sim_bind; [by apply sim_put_request|].
  intros r r' <-. destruct r as [[]|e]; cbn [map_err task_of_result io_of_result]; [by apply sim_last|].
  apply sim_fail_bind. constructor.
Qed.

Lemma sim_copied src_key dst_key size policy (g : string -> ObjectOutcome) :
  let object := mkObjectRef (Location.bucket src) src_key size in
  ends (copied ← stream_copy p object (Location.bucket dst) dst_key policy;
        if (copied : bool) then count_metric (add_objects_processed 1) else mret tt)
    (at_ ← filter_stream_copy pid f src_key dst_key; mret (g at_)).
Proof.
  cbv zeta. eapply (sim_bind _ (fun copied _ => copied = true)).
  - unfold stream_copy, filter_stream_copy. cbn [or_bucket or_key].
    eapply sim_bind; [apply sim_open|]. intros o reader ->. rewrite with_dst.
    eapply sim_bind; [by apply sim_put_stream|]. intros [r n] ? <-.
    assert (forall b : string, sim late_error (fun copied (_ : string) => copied = true)
      (_ ← task_of_result (map_err CoreStore r); _ ← count_metric (add_bytes_out n); mret true)
      (_ ← io_of_result (map_err AnyStore r); mret b)) as Hend.
    { intros b. destruct r as [[]|e]; [by apply sim_skip; [|apply sim_ret]|apply sim_fail_bind; constructor]. }
    unfold counting_reader. destruct policy; [destruct (0 <? n)%N|]; [apply sim_skip; [done|]|..]; apply Hend.
  - intros ? at_ ->. apply sim_last; done.
Qed.

Lemma sim_forward src_key dst_key size bytes (g : string -> ObjectOutcome) :
  let object := mkObjectRef (Location.bucket src) src_key size in
  ends (match bytes with
        | Some bytes =>
            _ ← put_counted (Location.bucket dst) dst_key bytes;
            count_metric (add_objects_processed 1)
        | None =>
            copied ← stream_copy p object (Location.bucket dst) dst_key AlreadyCounted;
            if (copied : bool) then count_metric (add_objects_processed 1) else mret tt
        end)
    (at_ ← forward pid f src_key dst_key bytes; mret (g at_)).
Proof.
  destruct bytes as [bytes|]; [|apply sim_copied]. eapply sim_bind; [apply sim_put|].
  intros ? at_ _. by apply sim_last.
Qed.

Lemma copies_same e : filter_copies_unparsable f e = copies_unparsable p e.
Proof. unfold filter_copies_unparsable, copies_unparsable. by rewrite Hcfg. Qed.

(** [bytes] is used by a live run alone. *)
Lemma sim_copy_unparsable src_key dst_key dst_bucket dst_key' size bytes bytes' e :
  (dry_run behavior = false -> dst_bucket = Location.bucket dst /\ dst_key' = dst_key /\ bytes' = bytes) ->
  let object := mkObjectRef (Location.bucket src) src_key size in
  ends (copy_unparsable p object dst_bucket dst_key' bytes')
    (filter_copy_unparsable pid f src_key dst_key bytes e (dry_run behavior)).
Proof.
  intros Hlive. cbv zeta. unfold copy_unparsable, filter_copy_unparsable. apply sim_print.
  eapply sim_bind; [apply sim_metric, _|]. intros _ _ _. destruct (dry_run behavior); [by apply sim_last|].
  destruct (Hlive eq_refl) as (-> & -> & ->). apply sim_forward.
Qed.

Lemma sim_settle (tally : RecordTally) (t : Task unit) (io' : Io (RunWorld F S) AnyError ObjectOutcome) :
  sim late_error (fun (_ : unit) (_ : ObjectOutcome) => True) t io' ->
  ends (_ ← t; _ ← count_metric (RecordTally.commit tally (f_engine f)); count_metric (add_objects_processed 1))
    (object_outcome ← io'; _ ← metric (RecordTally.commit tally (f_engine f)); mret object_outcome).
Proof.
  intros H. eapply sim_bind; [apply H|]. intros _ oo _. eapply sim_bind; [apply sim_metric, _|].
  intros _ _ _. by apply sim_last.
Qed.

(** The live outcome of buffer mode. *)
Lemma sim_live_outcome src_key dst_key size bytes outcome :
  dry_run behavior = false ->
  let object := mkObjectRef (Location.bucket src) src_key size in
  sim late_error (fun _ _ => True)
    (match outcome with
     | Written (Some out_bytes) => put_counted (Location.bucket dst) dst_key out_bytes
     | NothingKept => mret tt
     | Unrecognized =>
         _ ← count_metric (add_unrecognized_objects 1);
         apply_unrecognized_policy p object (Location.bucket dst) dst_key bytes
     | Written None => task_panic "buffer_run always returns Written(Some(_))"
     end)
    (filter_outcome pid f src_key dst_key (Some bytes) outcome).
Proof.
  intros Hdry. cbv zeta. unfold filter_outcome. rewrite Hcfg. cbn [fc_dry_run filter_config]. rewrite Hdry.
  destruct outcome as [[out|]| |].
  - by eapply sim_map; [apply sim_put|].
  - apply sim_panic.
  - by apply sim_ret.
  - apply sim_skip; [done|]. unfold apply_unrecognized_policy, filter_unrecognized. rewrite Hcfg.
    cbn [fc_on_unrecognized filter_config]. destruct (on_unrecognized_object behavior).
    + apply sim_skip_right; [done|]. by eapply sim_map; [apply sim_put|].
    + apply sim_skip_right; [done|]. by apply sim_ret.
    + apply sim_fail. constructor.
Qed.

(** The dry one. *)
Lemma sim_dry_outcome src_key dst_key bytes outcome :
  dry_run behavior = true ->
  sim late_error (fun _ _ => True)
    (match outcome with Unrecognized => count_metric (add_unrecognized_objects 1) | _ => mret tt end)
    (filter_outcome pid f src_key dst_key bytes outcome).
Proof.
  intros Hdry. unfold filter_outcome. rewrite Hcfg. cbn [fc_dry_run filter_config]. rewrite Hdry.
  destruct outcome as [o| |]; [by apply sim_ret|by apply sim_ret|].
  apply sim_skip_right; [done|]. by apply sim_last.
Qed.

(** ** Lemmas: the two modes *)

(** How a task of stream mode goes on from an error of the processor. *)
Lemma sim_stream_error src_key dst_key dst_bucket dst_key' size e :
  (dry_run behavior = false -> dst_bucket = Location.bucket dst /\ dst_key' = dst_key) ->
  let object := mkObjectRef (Location.bucket src) src_key size in
  sim same_error (fun _ _ => True)
    (if copies_unparsable p e then copy_unparsable p object dst_bucket dst_key' None else task_fail e)
    (if filter_copies_unparsable f e then filter_copy_unparsable pid f src_key dst_key None e (dry_run behavior)
     else io_fail (AnyCore e)).
Proof.
  intros Hlive. cbv zeta. rewrite copies_same. destruct (copies_unparsable p e).
  - eapply sim_mono; [apply late_same|done|]. apply sim_copy_unparsable. intros Hd. destruct (Hlive Hd). done.
  - apply sim_fail. by constructor.
Qed.

Lemma sim_stream_run sched reader dst_key :
  sim same_error eq
    (task_try (stream_program sched reader (f_engine f) (s_processing (p_settings p)) (Location.bucket dst) dst_key))
    (fun w => let '(r, m, s) := stream_run (H := side dst) sched reader (f_engine f) (s_processing (p_settings p))
                                  (e_metrics (rw_env w)) (e_store (rw_env w)) (Location.bucket dst) dst_key in
              io_call r (mkRunWorld (mkEnv s m) (rw_printed w))).
Proof.
  intros [s m] w' [Hs Hm]. cbn [e_store e_metrics] in Hs, Hm. subst s.
  pose proof (stream_run_tracked (St := two_sides) sched reader (f_engine f)
    (s_processing (p_settings p)) _ _ (e_store (rw_env w')) (Location.bucket dst) dst_key Hm) as H.
  rewrite run_try, (stream_run_upload (side dst) two_sides) by done.
  unfold stream_run, io_try, run_task, io_call in *. destruct (run _ (mkEnv _ m)) as [r [s1 m1]], (run _ (mkEnv _ (e_metrics (rw_env w')))) as [r' [s2 m2]].
  cbn [e_store e_metrics fst snd] in *. destruct H as (-> & -> & H). by destruct r' as [|[]].
Qed.

Lemma sim_via_stream sched src_key dst_key size :
  let object := mkObjectRef (Location.bucket src) src_key size in
  sim same_error (fun _ _ => True)
    (process_via_stream p sched (f_engine f) object (Location.bucket dst) dst_key)
    (filter_via_stream pid f sched src_key dst_key).
Proof.
  cbv zeta. unfold process_via_stream, filter_via_stream. rewrite Hcfg. cbn [fc_dry_run filter_config].
  pose proof (sim_stream_error src_key dst_key) as Herr. revert Herr.
  destruct (dry_run behavior) eqn:Hdry; intros Herr.
  - unfold process_dry_run_stream, filter_dry_run_stream. cbn [or_bucket or_key].
    eapply sim_bind; [eapply sim_mono; [apply late_same|intros a b H; exact H|apply sim_open]|]. intros o reader ->.
    rewrite Hcfg. cbn [fc_processing filter_config].
    destruct (stream_run sched reader (f_engine f) _ Metrics_default mkDiscardStore "" "") as [[outcome scratch] ds].
    apply sim_call. clear outcome. intros outcome. cbv zeta.
    do 6 (eapply sim_bind; [apply sim_metric, _|]; intros _ _ _).
    destruct outcome as [outcome|e]; [|by apply Herr]. eapply (sim_bind _ (fun _ _ => True)).
    + destruct outcome; [by apply sim_ret|by apply sim_ret|]. apply sim_metric, _.
    + intros _ _ _. by apply sim_last.
  - unfold process_stream, filter_stream. cbn [or_bucket or_key].
    eapply sim_bind; [eapply sim_mono; [apply late_same|intros a b H; exact H|apply sim_open]|]. intros o reader ->.
    rewrite with_dst, Hcfg. cbn [fc_processing filter_config].
    eapply sim_bind; [apply sim_stream_run|]. intros r r' <-.
    destruct r as [[[w|]| |]|e]; [apply sim_panic|by apply sim_last|by apply sim_last| |by apply Herr].
    apply sim_skip; [done|]. unfold filter_unrecognized. rewrite Hcfg. cbn [fc_on_unrecognized filter_config].
    destruct (on_unrecognized_object behavior).
    + apply sim_skip_right; [done|]. eapply sim_mono; [apply late_same|intros a b H; exact H|].
      apply (sim_copied src_key dst_key size).
    + apply sim_skip_right; [done|]. by apply sim_last.
    + apply sim_fail. constructor.
Qed.

(** Buffer mode on a fetched object, up to the retry. *)
Lemma sim_buffered src_key dst_key size bytes (result : result CoreError (Outcome * RecordTally)) :
  let object := mkObjectRef (Location.bucket src) src_key size in
  (forall limit, result <> Err (ObjectTooLarge limit)) ->
  ends (if dry_run behavior then
          match result with
          | Err e => if copies_unparsable p e then copy_unparsable p object "" "" None else task_fail e
          | Ok (outcome, tally) =>
              _ ← match outcome with Unrecognized => count_metric (add_unrecognized_objects 1) | _ => mret tt end;
              _ ← count_metric (RecordTally.commit tally (f_engine f));
              count_metric (add_objects_processed 1)
          end
        else
          match result with
          | Err e =>
              if copies_unparsable p e then copy_unparsable p object (Location.bucket dst) dst_key (Some bytes)
              else task_fail e
          | Ok (outcome, tally) =>
              _ ← match outcome with
                  | Written (Some out_bytes) => put_counted (Location.bucket dst) dst_key out_bytes
                  | NothingKept => mret tt
                  | Unrecognized =>
                      _ ← count_metric (add_unrecognized_objects 1);
                      apply_unrecognized_policy p object (Location.bucket dst) dst_key bytes
                  | Written None => task_panic "buffer_run always returns Written(Some(_))"
                  end;
              _ ← count_metric (RecordTally.commit tally (f_engine f));
              count_metric (add_objects_processed 1)
          end)
    (match result with
     | Err e =>
         if filter_copies_unparsable f e
         then filter_copy_unparsable pid f src_key dst_key (Some bytes) e (dry_run behavior)
         else io_fail (AnyCore e)
     | Ok (outcome, tally) =>
         object_outcome ← filter_outcome pid f src_key dst_key (Some bytes) outcome;
         _ ← metric (RecordTally.commit tally (f_engine f));
         mret object_outcome
     end).
Proof.
  cbv zeta. intros Hsmall. destruct result as [[outcome tally]|e].
  - destruct (dry_run behavior) eqn:Hdry; apply sim_settle; [by apply sim_dry_outcome|by apply sim_live_outcome].
  - rewrite copies_same. pose proof (fun b k bs => sim_copy_unparsable src_key dst_key b k size (Some bytes) bs e) as Hc.
    destruct (dry_run behavior) eqn:Hdry; (destruct (copies_unparsable p e); [by apply Hc|]);
      apply sim_fail; constructor; intros limit ->; by eapply Hsmall.
Qed.

(** Past the point of retry: the attempt of the pipeline is the task itself. *)
Lemma try_late {B} (t : Task unit) (io' : Io (RunWorld F S) AnyError B) (again : Task unit) w w' :
  sim late_error (fun _ _ => True) t io' -> mirrors w w' ->
  let r := (result ← task_try t; if retried_via_stream p result then again else task_of_result result) w in
  rel_exit same_error (fun _ _ => True) r.1 (io' w').1 /\ mirrors r.2 (io' w').2.
Proof.
  intros H Hw. specialize (H w w' Hw). rewrite run_bind, run_try. unfold io_try. cbv zeta.
  destruct (run_task t w) as [[[]|[e|m]] w1], (io' w') as [[b|[e'|m']] w1']; cbn [fst snd rel_exit] in *;
    try (by destruct H).
  destruct H as [He Hm]. assert (retried_via_stream (A := unit) p (Err e) = false) as ->.
  { unfold retried_via_stream. destruct e; try done. inversion He; subst. by destruct (H limit). }
  cbn. split; [by apply late_same|done].
Qed.

(** The four ways a buffered attempt starts: fetched, or not, and retried or not. *)
Lemma process_via_buffer_eq object dst_bucket dst_key :
  process_via_buffer p (f_engine f) object dst_bucket dst_key =
  (fetched ← fetch_with_missing_policy p (or_bucket object) (or_key object);
   match fetched with
   | None => mret tt
   | Some bytes =>
       result ← task_call (buffer_run bytes (f_engine f) (s_processing (p_settings p)));
       _ ← (if retried_via_stream p result then mret tt else count_metric (add_bytes_in (byte_len bytes)));
       if dry_run behavior then
         match result with
         | Err e => if copies_unparsable p e then copy_unparsable p object "" "" None else task_fail e
         | Ok (outcome, tally) =>
             _ ← match outcome with Unrecognized => count_metric (add_unrecognized_objects 1) | _ => mret tt end;
             _ ← count_metric (RecordTally.commit tally (f_engine f));
             count_metric (add_objects_processed 1)
         end
       else
         match result with
         | Err e =>
             if copies_unparsable p e then copy_unparsable p object dst_bucket dst_key (Some bytes)
             else task_fail e
         | Ok (outcome, tally) =>
             _ ← match outcome with
                 | Written (Some out_bytes) => put_counted dst_bucket dst_key out_bytes
                 | NothingKept => mret tt
                 | Unrecognized =>
                     _ ← count_metric (add_unrecognized_objects 1);
                     apply_unrecognized_policy p object dst_bucket dst_key bytes
                 | Written None => task_panic "buffer_run always returns Written(Some(_))"
                 end;
             _ ← count_metric (RecordTally.commit tally (f_engine f));
             count_metric (add_objects_processed 1)
         end
   end).
Proof. unfold process_via_buffer, process_dry_run, process_buffer. by destruct (dry_run behavior). Qed.

Lemma try_bind {A B} (t : Task A) (k : A -> Task unit) (tail : result CoreError unit -> Task B) w :
  (result ← task_try (t ≫= k); tail result) w =
  match t w with
  | (Ok a, w) => (result ← task_try (k a); tail result) w
  | (Err (Fail e), w) => tail (Err e) w
  | (Err (Panic msg), w) => (Err (Panic msg), w)
  end.
Proof.
  rewrite run_bind, run_try. unfold io_try. rewrite run_bind.
  destruct (run_task t w) as [[a|[e|m]] w1]; [|done..]. by rewrite run_bind, run_try.
Qed.

Lemma attempt_eval {A B C} (io : Io (RunWorld F S) CoreError A) (g : A -> result (Exit CoreError) B)
    (tail : result CoreError (A * result CoreError B) -> Io (RunWorld F S) AnyError C) w :
  (result ← io_attempt (a ← io; r ← io_call (g a); mret (a, r)); tail result) w =
  match io w with
  | (Ok a, w) =>
      match g a with
      | Ok b => tail (Ok (a, Ok b)) w
      | Err (Fail e) => tail (Ok (a, Err e)) w
      | Err (Panic msg) => (Err (Panic msg), w)
      end
  | (Err (Fail e), w) => tail (Err e) w
  | (Err (Panic msg), w) => (Err (Panic msg), w)
  end.
Proof.
  unfold io_attempt, mbind, io_bind, io_call. destruct (io w) as [[a|[e|m]] w1]; [|done..].
  by destruct (g a) as [b|[e|m]].
Qed.

Lemma bind_ask {A B} (g : RunWorld F S -> A) (k : A -> Io (RunWorld F S) AnyError B) w :
  ((fun w => (Ok (g w), w)) ≫= k) w = k (g w) w.
Proof. done. Qed.

Lemma same_mode size :
  config_select_mode (f_cfg f) size = match select_mode p size with ObBuffer => MdBuffer | ObStream => MdStream end.
Proof.
  unfold config_select_mode, select_mode. rewrite Hcfg. cbn [fc_processing filter_config].
  destruct (mode _); [|done|done]. destruct size as [sz|]; [|done]. by destruct (_ <? _)%N.
Qed.

(** Both retry an object too large for memory, or neither does. *)
Lemma too_large_again sched src_key dst_key size limit bytes w w' :
  mirrors w w' ->
  let e := ObjectTooLarge limit in
  let r := (if retried_via_stream (A := unit) p (Err e)
            then process_via_stream p sched (f_engine f) (mkObjectRef (Location.bucket src) src_key size)
                   (Location.bucket dst) dst_key
            else task_of_result (Err e)) w in
  let r' := (match on_object_too_large behavior with
             | TlStream =>
                 _ ← print (Stderr (Fmt "  note: {src_key} exceeds max_object_bytes ({limit}); retrying via stream mode"
                                      [Lit src_key; Lit (pretty limit)]));
                 filter_via_stream pid f sched src_key dst_key
             | TlError =>
                 if filter_copies_unparsable f e
                 then filter_copy_unparsable pid f src_key dst_key bytes e (dry_run behavior)
                 else io_fail (AnyCore e)
             end) w' in
  rel_exit same_error (fun _ _ => True) r.1 r'.1 /\ mirrors r.2 r'.2.
Proof.
  intros Hw. unfold retried_via_stream. cbv zeta. destruct (on_object_too_large behavior).
  - apply (sim_via_stream sched src_key dst_key size). destruct Hw. by split.
  - unfold filter_copies_unparsable. destruct (fc_on_parse_error (f_cfg f)); (split; [constructor|done]).
Qed.

(** An attempt that found the object too large after the fetch. *)
Lemma try_unparsed {B} (tail : result CoreError unit -> Task B) limit bytes copy copy' w :
  let e := ObjectTooLarge limit in
  (result ← task_try (_ ← (if retried_via_stream (A := Outcome * RecordTally) p (Err e) then mret tt
                         else count_metric (add_bytes_in (byte_len bytes)));
                      if dry_run behavior
                      then if copies_unparsable p e then copy else task_fail e
                      else if copies_unparsable p e then copy' else task_fail e); tail result) w =
  tail (Err e) (if retried_via_stream (A := Outcome * RecordTally) p (Err e) then w
                else mkEnv (e_store w) (add_bytes_in (byte_len bytes) (e_metrics w))).
Proof.
  cbv zeta. assert (copies_unparsable p (ObjectTooLarge limit) = false) as ->.
  { unfold copies_unparsable. by destruct (on_parse_error behavior). }
  destruct (retried_via_stream p _), (dry_run behavior); reflexivity.
Qed.

Lemma sim_process sched src_key dst_key size w w' :
  mirrors w w' ->
  dry_run behavior = true \/ overwrites_source f src_key dst_key (st_local (e_store (rw_env w'))) = false ->
  let r := process_object p sched (f_engine f) (mkObjectRef (Location.bucket src) src_key size)
             (Location.bucket dst) dst_key w in
  let r' := process pid f sched src_key dst_key size w' in
  rel_exit same_error (fun _ _ => True) r.1 r'.1 /\ mirrors r.2 r'.2.
Proof.
  intros Hw Hguard. cbv zeta. unfold process. rewrite !bind_ask.
  assert (negb (fc_dry_run (f_cfg f)) && overwrites_source f src_key dst_key (st_local (e_store (rw_env w'))) = false) as ->.
  { rewrite Hcfg. cbn [fc_dry_run filter_config]. destruct Hguard as [->| ->]; [done|apply andb_false_r]. }
  unfold process_object. cbn [or_size]. rewrite same_mode.
  destruct (select_mode p size); [|exact (sim_via_stream sched src_key dst_key size w w' Hw)].
  rewrite process_via_buffer_eq, try_bind. unfold buffer_eval. rewrite attempt_eval. cbn [or_bucket or_key].
  destruct (sim_fetch src_key w w' Hw) as [Hr Hm].
  destruct (fetch_with_missing_policy p (Location.bucket src) src_key w) as [[o|[e|m]] w1],
    (fetch_capped pid f src_key w') as [[bytes|[e'|m']] w1']; cbn [fst snd rel_exit] in *; try done.
  - subst o. rewrite Hcfg.
    cbn [fc_processing filter_config fc_on_object_too_large fc_dry_run]. rewrite task_call_eq.
    destruct (buffer_run bytes (f_engine f) (s_processing (p_settings p))) as [[outcome tally]|[e|msg]]; [| |by split].
    + pose proof (sim_buffered src_key dst_key size bytes (Ok (outcome, tally))) as Hb. cbv zeta in Hb.
      pose proof (sim_skip late_error _ BytesIn (byte_len bytes) _ _ eq_refl (Hb ltac:(done))) as Hb'.
      exact (try_late _ _ _ _ _ Hb' Hm).
    + pose proof (sim_buffered src_key dst_key size bytes (Err e)) as Hb. cbv zeta in Hb.
      destruct e as [e|e|e|e|e|limit|e|b k|b k];
        try (pose proof (sim_skip late_error _ BytesIn (byte_len bytes) _ _ eq_refl (Hb ltac:(done))) as Hb';
             exact (try_late _ _ _ _ _ Hb' Hm)).
      clear Hb. rewrite try_unparsed. apply too_large_again. destruct (retried_via_stream p _); [done|].
      destruct Hm as [Hs Hm]. split; [done|]. by apply fetch_add_untracked.
  - rewrite Hcfg. cbn [fc_on_object_too_large fc_dry_run filter_config].
    destruct Hr as [e e'|limit].
    + unfold filter_copies_unparsable. rewrite Hcfg. cbn [fc_on_parse_error filter_config].
      destruct (on_parse_error behavior); (split; [constructor|done]).
    + by apply too_large_again.
Qed.
End mirror.

(** A document [config_resolve] accepts is one production builds its pipeline from. *)
Lemma resolve_pipeline {R : RegexCrate} {SC : SettingsCrate} {F} {Fs : LocalFs F} env path (fs : F) cfg :
  config_resolve env (Some path) fs = Ok cfg ->
  exists bytes settings p, lf_read path fs = Ok bytes /\ from_parts (Some bytes) env = Ok settings /\
    Pipeline_new settings = Ok p /\ cfg = filter_config p /\ p_settings p = settings.
Proof.
  unfold config_resolve, load_and_validate_settings, read_with_context. intros H.
  destruct (lf_read path fs) as [bytes|e]; cbn [map_err mbind result_bind fmap result_fmap] in H; [|done].
  destruct (from_parts (Some bytes) env) as [s|e] eqn:Hs; cbn [map_err mbind result_bind] in H; [|done].
  destruct (KeyFilter_compile (s_source s)) as [keys|e] eqn:Hk; cbn [map_err mbind result_bind] in H; [|done].
  injection H as <-.
  exists bytes, s, (mkPipeline _ s keys). unfold Pipeline_new. rewrite Hk. by split_and!.
Qed.

(** Whatever settings a run resolves to, the encoder has their gzip level. *)
Lemma resolve_level {R : RegexCrate} {SC : SettingsCrate} {F} {Fs : LocalFs F} env path (fs : F) cfg :
  config_resolve env path fs = Ok cfg -> ~ no_level (fc_processing cfg).
Proof.
  intros H. unfold no_level. destruct path as [path|].
  - apply resolve_pipeline in H as (bytes & s & p & _ & Hs & _ & -> & <-).
    apply from_parts_inv in Hs as (d0 & d1 & _ & _ & Hv & Hd). pose proof (sv_gzip_level _ (validate_valid _ Hv)).
    cbn [fc_processing filter_config]. rewrite Hd. lia.
  - unfold config_resolve in H. cbn [mbind result_bind] in H.
    destruct (KeyFilter_compile Source_default) as [keys|e]; cbn [map_err mbind result_bind] in H; [|done].
    injection H as <-. cbn. unfold default_gzip_level. lia.
Qed.

(** ** Lemmas: nothing panics, at a level the encoder has *)

(** No run of it panics. *)
Definition safe {W E A} (io : Io W E A) : Prop := forall w msg, (io w).1 <> Err (Panic msg).

Section safe.
Context {W E : Type}.

Lemma safe_ret {A} (a : A) : safe (W := W) (E := E) (mret a).
Proof. by intros w msg. Qed.

Lemma safe_fail {A} (e : E) : safe (W := W) (A := A) (io_fail e).
Proof. by intros w msg. Qed.

Lemma safe_modify g : safe (W := W) (E := E) (io_modify g).
Proof. by intros w msg. Qed.

Lemma safe_of_result {A} (r : result E A) : safe (W := W) (io_of_result r).
Proof. by destruct r; intros w msg. Qed.

Lemma safe_bind {A B} (io : Io W E A) (k : A -> Io W E B) : safe io -> (forall a, safe (k a)) -> safe (io ≫= k).
Proof.
  intros H Hk w msg. specialize (H w). unfold mbind, io_bind. destruct (io w) as [[a|[e|m]] w1]; cbn in *.
  - apply Hk.
  - done.
  - intros _. by apply (H m).
Qed.

Lemma safe_ask {A} (g : W -> A * W) : safe (E := E) (fun w => let '(a, w) := g w in (Ok a, w)).
Proof. intros w msg. by destruct (g w). Qed.

Lemma safe_read {A} (g : W -> A) : safe (E := E) (fun w => (Ok (g w), w)).
Proof. by intros w msg. Qed.

Lemma safe_attempt {E' A} (io : Io W E A) : safe io -> safe (io_attempt (E' := E') io).
Proof.
  intros H w msg. specialize (H w). unfold io_attempt. destruct (io w) as [[a|[e|m]] w1]; cbn in *; [done|done|].
  intros _. by apply (H m).
Qed.

Lemma safe_try {A} (io : Io W E A) : safe io -> safe (io_try io).
Proof.
  intros H w msg. specialize (H w). unfold io_try. destruct (io w) as [[a|[e|m]] w1]; cbn in *; [done|done|].
  intros _. by apply (H m).
Qed.
End safe.

#[export] Hint Resolve safe_ret safe_fail safe_modify safe_of_result safe_bind safe_ask safe_read safe_attempt safe_try : safe.

Lemma stream_run_never_some {J : JsonCrate} {SH : ShallowCrate} {R : RegexCrate} {G : GzipCrate} {GL : GzipLaws G}
    {T} {St : ObjectStore T} sched input engine cfg m (s : T) b k bytes :
  (stream_run sched input engine cfg m s b k).1.1 <> Ok (Written (Some bytes)).
Proof.
  unfold stream_run, stream_program. destruct (enc_new (gzip_level cfg)) as [encoder|] eqn:Hnew; [|done].
  unfold stream_joined_program. cbv zeta. destruct (sch_panic sched) as [[n e]|].
  - destruct (processing _ _ _) as [out pr]. run_step. by destruct (store_put_stream _ _ _ _ s) as [[u c] s1].
  - pose proof (processing_spec engine _ encoder (extraction input) Hnew) as H.
    destruct (processing _ _ _) as [out pr]. run_step. destruct (store_put_stream _ _ _ _ s) as [[u c] s1].
    destruct pr as [[[[w| |] bytes_out] tally]|e]; [|done..]. destruct H as [-> _]. by destruct u.
Qed.

Section total.
Context {J : JsonCrate} {SH : ShallowCrate} {R : RegexCrate} {G : GzipCrate} {GL : GzipLaws G}.
Context {F : Type} {Fs : LocalFs F} {S : Type} {Cl : S3Client S} (pid : N).
Context (f : Filterer) (Hs3 : f_s3 f = build_s3_if_needed (f_src f) (f_dst f)).
Context (Hlevel : ~ no_level (fc_processing (f_cfg f))).

Lemma safe_call {W E E' A} (r : result (Exit E') A) : quiet r -> safe (W := W) (E := E) (io_call r).
Proof. intros H w msg. destruct r as [a|[e|m]]; [done|done|]. by destruct (H m). Qed.

Lemma safe_store_op {E A} (op : Stores F S -> A * Stores F S) : safe (E := E) (store_op op).
Proof. intros w msg. unfold store_op. by destruct (op _). Qed.

Lemma safe_open src_key : safe (filter_open pid f src_key).
Proof. unfold filter_open. rewrite with_src by done. auto using safe_store_op with safe. Qed.

Lemma safe_put dst_key bytes : safe (filter_put pid f dst_key bytes).
Proof. unfold filter_put. rewrite with_dst by done. auto 8 using safe_store_op with safe. Qed.

Lemma safe_forward src_key dst_key bytes : safe (forward pid f src_key dst_key bytes).
Proof.
  unfold forward, filter_stream_copy. destruct bytes; [apply safe_put|]. apply safe_bind; [apply safe_open|].
  intros reader. rewrite with_dst by done. apply safe_bind; [apply safe_store_op|]. intros [r n]. auto with safe.
Qed.

Lemma safe_unrecognized src_key dst_key bytes : safe (filter_unrecognized pid f src_key dst_key bytes).
Proof.
  unfold filter_unrecognized, metric.
  destruct (fc_on_unrecognized (f_cfg f)); auto using safe_forward with safe.
Qed.

Lemma safe_copy_unparsable src_key dst_key bytes e dry : safe (filter_copy_unparsable pid f src_key dst_key bytes e dry).
Proof. unfold filter_copy_unparsable, print, metric. destruct dry; auto 8 using safe_forward with safe. Qed.

Lemma safe_via_stream sched src_key dst_key : safe (filter_via_stream pid f sched src_key dst_key).
Proof.
  unfold filter_via_stream. destruct (fc_dry_run (f_cfg f)).
  - unfold filter_dry_run_stream, metric. apply safe_bind; [apply safe_open|]. intros reader.
    pose proof (stream_run_panics sched reader (f_engine f) (fc_processing (f_cfg f)) Metrics_default mkDiscardStore "" "") as Hq.
    destruct (stream_run _ _ _ _ _ mkDiscardStore _ _) as [[outcome scratch] ds].
    apply safe_bind; [by eapply safe_call, panics_if_quiet|]. clear Hq outcome. intros outcome. cbv zeta.
    do 6 (apply safe_bind; [apply safe_modify|]; intros _). destruct outcome as [[o| |]|e]; auto with safe.
    destruct (filter_copies_unparsable f e); auto using safe_copy_unparsable with safe.
  - unfold filter_stream. apply safe_bind; [apply safe_open|]. intros reader. rewrite with_dst by done.
    intros w msg. unfold mbind, io_bind.
    pose proof (fun bytes => stream_run_never_some (St := side pid (f_dst f)) sched reader (f_engine f)
      (fc_processing (f_cfg f)) (e_metrics (rw_env w)) (e_store (rw_env w)) (Location.bucket (f_dst f)) dst_key bytes) as H.
    pose proof (stream_run_panics (St := side pid (f_dst f)) sched reader (f_engine f)
      (fc_processing (f_cfg f)) (e_metrics (rw_env w)) (e_store (rw_env w)) (Location.bucket (f_dst f)) dst_key) as Hq.
    destruct (stream_run _ _ _ _ _ _ _ _) as [[r m] s]. cbn [fst] in H, Hq. unfold io_call.
    destruct r as [[[b|]| |]|[e|m']]; [by destruct (H b)|done|done|apply safe_unrecognized| |done].
    destruct (filter_copies_unparsable f e); [apply safe_copy_unparsable|done].
Qed.

(** The error arms of [Mode::Buffer]. *)
Lemma safe_error sched src_key dst_key bytes e :
  safe (match e, fc_on_object_too_large (f_cfg f) with
        | ObjectTooLarge limit, TlStream =>
            _ ← print (Stderr (Fmt "  note: {src_key} exceeds max_object_bytes ({limit}); retrying via stream mode"
                                 [Lit src_key; Lit (pretty limit)]));
            filter_via_stream pid f sched src_key dst_key
        | _, _ =>
            if filter_copies_unparsable f e
            then filter_copy_unparsable pid f src_key dst_key bytes e (fc_dry_run (f_cfg f))
            else io_fail (AnyCore e)
        end).
Proof.
  assert (safe (if filter_copies_unparsable f e
                then filter_copy_unparsable pid f src_key dst_key bytes e (fc_dry_run (f_cfg f))
                else io_fail (AnyCore e))) as H.
  { destruct (filter_copies_unparsable f e); [apply safe_copy_unparsable|apply safe_fail]. }
  destruct e; try exact H. destruct (fc_on_object_too_large (f_cfg f)); [|exact H].
  apply safe_bind; [apply safe_modify|]. intros _. apply safe_via_stream.
Qed.

Lemma safe_process sched src_key dst_key size : safe (process pid f sched src_key dst_key size).
Proof.
  unfold process. apply safe_bind; [apply safe_read|]. intros overwrites. destruct (_ && _); [apply safe_fail|].
  destruct (config_select_mode _ _); [|apply safe_via_stream].
  intros w msg. unfold buffer_eval. rewrite attempt_eval.
  assert (safe (fetch_capped pid f src_key)) as Hfetch.
  { unfold fetch_capped. cbv zeta. rewrite with_src by done. repeat (apply safe_bind; [|intros ?]);
      auto using safe_store_op with safe. by destruct (_ <? _)%N. }
  specialize (Hfetch w). destruct (fetch_capped pid f src_key w) as [[bytes|[e|m]] w1]; cbn [fst] in Hfetch;
    [| |by destruct (Hfetch m)].
  - pose proof (buffer_run_panics (f_engine f) bytes (fc_processing (f_cfg f))) as Hq.
    destruct (buffer_run bytes (f_engine f) (fc_processing (f_cfg f))) as [[outcome tally]|[e|m]] eqn:Hrun; [| |done].
    + apply safe_bind; [|unfold metric; auto with safe]. unfold filter_outcome, metric.
      destruct (fc_dry_run (f_cfg f)); [destruct outcome; auto with safe|].
      destruct outcome as [[out|]| |]; auto using safe_put, safe_unrecognized with safe.
      by apply buffer_run_tally in Hrun as [_ ?].
    + apply safe_error.
  - apply safe_error.
Qed.
End total.

(** ** Property *)

(** C11: the offline filter is the pipeline.  Take the pipeline production builds from the
    settings document the run was given, over a store that reads from the source's side and
    writes to the destination's, local or S3 in any combination.  The filter has no
    [on_missing_object]: a missing object is an error to it.  When the settings say so too,
    and the run is dry or the object is not its own destination, filtering the object leaves
    the two stores exactly as [process_object] leaves them, fails exactly when it fails and
    with the corresponding error, and counts the same records, parse errors, unparsed copies
    and rule drops. *)
Theorem filter_mirrors_pipeline {J : JsonCrate} {SH : ShallowCrate} {R : RegexCrate} {G : GzipCrate}
    {SC : SettingsCrate} {F} {Fs : LocalFs F} {S} {Cl : S3Client S} env pid path (fs : F) f :
  config_resolve env (Some path) fs = Ok (f_cfg f) ->
  f_s3 f = build_s3_if_needed (f_src f) (f_dst f) ->
  exists bytes settings p,
    lf_read path fs = Ok bytes /\ from_parts (Some bytes) env = Ok settings /\ Pipeline_new settings = Ok p /\
    forall sched src_key dst_key size (w : Env (Stores F S)) w',
      on_missing_object (s_behavior settings) = MoError -> mirrors w w' ->
      dry_run (s_behavior settings) = true \/
        overwrites_source f src_key dst_key (st_local (e_store (rw_env w'))) = false ->
      let object := mkObjectRef (Location.bucket (f_src f)) src_key size in
      let r := run_task (St := sided_store pid (f_src f) (f_dst f))
                 (process_object p sched (f_engine f) object (Location.bucket (f_dst f)) dst_key) w in
      let r' := process pid f sched src_key dst_key size w' in
      rel_exit same_error (fun _ _ => True) r.1 r'.1 /\ mirrors r.2 r'.2.
Proof.
  intros Hr Hs3. destruct (resolve_pipeline env path fs _ Hr) as (bytes & s & p & Hread & Hs & Hp & Hcfg & <-).
  exists bytes, (p_settings p), p. split_and!; [done..|]. intros. by apply sim_process.
Qed.

(** ** Witness *)

Definition demo_files : MemFs :=
  {[path_components "settings.yaml" := "doc"; path_components "in/a.json" := "three"]}.

Definition file_settings : SettingsCrate := Build_SettingsCrate (fun _ => Ok (mkDocument 1 demo_settings)).

Definition demo_resolved : result AnyError FilterConfig :=
  config_resolve (R := ref_regex) (SC := file_settings) (fun _ => None) (Some "settings.yaml") demo_files.

(** From a local file to a bucket. *)
Definition demo_filterer : Filterer (R := ref_regex) := {|
  f_engine := demo_engine;
  f_cfg := match demo_resolved with
           | Ok cfg => cfg
           | Err _ => mkFilterConfig _ Processing_default (mkKeyFilter ref_regex "" "") false UoCopy PeCopy TlStream
           end;
  f_src := Local "in/a.json";
  f_dst := S3 "siem" "a.json";
  f_s3 := Some (mkS3ObjectStore DEFAULT_MULTIPART_PART_BYTES);
|}.

Definition demo_stores : Stores MemFs RefS3.service := mkStores demo_files demo_service.

Abbreviation demo_process :=
  (process (J := demo_json) (SH := demo_shallow) (G := ref_gzip) 7 demo_filterer (mkSchedule 0 None) "in/a.json" "a.json"
     (Some 5%N) (mkRunWorld (mkEnv demo_stores Metrics_default) [])).

Lemma filter_mirrors_pipeline_witness :
  demo_process.1 = Ok (OoWritten "s3://siem/a.json") /\
  exists p, Pipeline_new demo_settings = Ok p /\
    (run_task (St := sided_store 7 (Local "in/a.json") (S3 "siem" "a.json"))
       (process_object (J := demo_json) (SH := demo_shallow) (G := ref_gzip) p (mkSchedule 0 None) demo_engine
          (mkObjectRef "" "in/a.json" (Some 5%N)) "siem" "a.json") (mkEnv demo_stores Metrics_default)).1 = Ok tt.
Proof.
  assert (demo_process.1 = Ok (OoWritten "s3://siem/a.json")) as Hrun by (vm_compute; reflexivity).
  split; [exact Hrun|].
  destruct (filter_mirrors_pipeline (J := demo_json) (SH := demo_shallow) (G := ref_gzip) (SC := file_settings)
    (S := RefS3.service) (fun _ => None) 7 "settings.yaml" demo_files demo_filterer)
    as (bytes & settings & p & _ & Hs & Hp & H); [vm_compute; reflexivity|reflexivity|].
  assert (settings = demo_settings) as ->.
  { vm_compute in Hs. vm_compute. congruence. }
  exists p. split; [exact Hp|].
  destruct (H (mkSchedule 0 None) "in/a.json" "a.json" (Some 5%N) (mkEnv demo_stores Metrics_default)
    (mkRunWorld (mkEnv demo_stores Metrics_default) [])) as [Hx _]; [reflexivity|by split|right; reflexivity|].
  cbv zeta in Hx. rewrite Hrun in Hx. apply rel_exit_ok in Hx as [[] Hx]. exact Hx.
Defined.
