(* ===== verification/Cli.v ===== *)
(** * The command line ([cli/src/main.rs])

    The four subcommands over the world they run in: the local files, S3, the parameter
    store and the output.  A run of [filter] attempts every object it enumerates and fails
    when one of them failed. *)

From S2P Require Import Prelude Model Json Path Regex Rules Reference Index Project Engine.
From S2P Require Import Settings Effects Metrics Ports Task Envelope Buffer Stream Cache Pipeline.
From S2P Require Import S3Store Sources Local Filterer.

(** [str::contains("://")]. *)
Definition has_scheme (uri : string) : bool := str_contains "://" uri.

(** [#[derive(Deserialize)] struct Sample]. *)
Class SampleCrate {J : JsonCrate} := { sample_from_slice : Bytes -> result string (list (Value Number)) }.

(** What the process runs in. *)
Record CliWorld (F S P : Type) := mkCliWorld {
  cw_run : RunWorld F S;
  cw_ssm : P;
}.
Arguments mkCliWorld {F S P}.
Arguments cw_run {F S P}.
Arguments cw_ssm {F S P}.

(** The counts of [cmd_filter]. *)
Record RunCounts := mkRunCounts {
  rc_written : nat;
  rc_fully_dropped : nat;
  rc_copied : nat;
  rc_skipped : nat;
  rc_failures : list (string * Msg);
}.

Inductive Command : Type :=
  | Validate (uri : string) (max_unindexed : option N)
  | Test (rules sample : string)
  | Filter (source dest rules : string) (settings : option string)
  | ValidateSettings (path : option string).

Definition show_nat (n : nat) : Msg := Lit (pretty (N.of_nat n)).
Definition show_N (n : N) : Msg := Lit (pretty n).

(** The [Debug] names of the settings printed. *)
Definition processing_mode_debug (m : ProcessingMode) : string :=
  match m with PmAuto => "Auto" | PmBuffer => "Buffer" | PmStream => "Stream" end.
Definition on_parse_error_debug (p : OnParseError) : string :=
  match p with PeCopy => "Copy" | PeError => "Error" end.
Definition on_object_too_large_debug (p : OnObjectTooLarge) : string :=
  match p with TlStream => "Stream" | TlError => "Error" end.

(** [sort_by(|a, b| a.rel.cmp(&b.rel))]: stable, here by insertion from the right. *)
Fixpoint insert_by_rel (x : SrcObject) (l : list SrcObject) : list SrcObject :=
  match l with
  | [] => [x]
  | y :: l' => if (so_rel x <=? so_rel y)%string then x :: l else y :: insert_by_rel x l'
  end.

Definition sort_by_rel (l : list SrcObject) : list SrcObject := foldr insert_by_rel [] l.

Section cli.
Context {J : JsonCrate} {SH : ShallowCrate} {R : RegexCrate} {G : GzipCrate} {Y : RulesCrates}.
Context {SC : SettingsCrate} {Sample : SampleCrate}.
Context {F : Type} {Fs : LocalFs F} {S : Type} {Cl : S3Client S} {ConfS3 : S3ConfigClient S}.
Context {P : Type} {Ssm : SsmClient P}.
Context (env : string -> option string) (pid : N).

Abbreviation Cli := (Io (CliWorld F S P) AnyError).

Definition on_run {E A} (io : Io (RunWorld F S) E A) : Io (CliWorld F S P) E A := fun w =>
  let '(r, run) := io (cw_run w) in (r, mkCliWorld run (cw_ssm w)).

Definition println (m : Msg) : Cli unit := on_run (print (Stdout m)).
Definition eprintln (m : Msg) : Cli unit := on_run (print (Stderr m)).

Definition local_files (w : CliWorld F S P) : F := st_local (e_store (rw_env (cw_run w))).

(** A computation that only reads local files. *)
Definition with_files {A} (g : F -> result AnyError A) : Cli A := fun w => io_of_result (g (local_files w)) w.

(** ** Rules *)

Definition load_rules_bytes (uri : string) : Cli Bytes :=
  if negb (has_scheme uri) then with_files (read_with_context uri)
  else
    u ← io_of_result (map_err AnyConfig (ConfigUri_parse uri));
    match u with
    | UriFile path => with_files (read_with_context path)
    | UriS3 bucket key =>
        r ← on_run (store_op (on_s3 (S3ConfigSource.fetch (mkS3ConfigSource bucket key))));
        '(bytes, _) ← io_of_result (map_err AnyConfig r);
        mret bytes
    | UriSsm path =>
        r ← (fun w => let '(r, p) := SsmConfigSource.fetch (mkSsmConfigSource path) (cw_ssm w) in
                      (Ok r, mkCliWorld (cw_run w) p));
        '(bytes, _) ← io_of_result (map_err AnyConfig r);
        mret bytes
    end.

Definition load_engine (uri : string) : Cli (Engine * RuleSet YamlMapping) :=
  bytes ← load_rules_bytes uri;
  rule_set ← io_of_result (map_err AnyConfig (Rules.parse bytes));
  match engine_new rule_set with
  | Some r => engine ← io_of_result (map_err AnyConfig r); mret (engine, rule_set)
  | None => io_panic "Engine::new on a ruleset that parsed"
  end.

(** ** [validate] *)

(** [None] is the out-of-range panic. *)
Definition explain_always_rule (rule_set : RuleSet YamlMapping) (rule_idx : nat) : option Msg :=
  rule ← rs_rules rule_set !! rule_idx;
  Some (match index_key_description rule_set rule_idx with
        | Some described =>
            Fmt "warning: rule {name:?} not indexed ({described} could not be reduced to a fixed set of literals): checked against every record"
              [Lit (r_name rule); Lit described]
        | None =>
            Fmt "warning: rule {name:?} not indexed (no eventSource or eventName condition): checked against every record"
              [Lit (r_name rule)]
        end).

(** [for &rule_idx in engine.always_rules()] *)
Fixpoint warn_always (rule_set : RuleSet YamlMapping) (always : list nat) : Cli unit :=
  match always with
  | [] => mret tt
  | rule_idx :: always =>
      match explain_always_rule rule_set rule_idx with
      | Some warning => _ ← eprintln warning; warn_always rule_set always
      | None => io_panic "index out of bounds"
      end
  end.

(** The share of rules without an index entry, rounded up. *)
Definition unindexed_percent (unindexed rule_count : nat) : N :=
  if decide (rule_count = 0) then 0
  else
    let scaled := N.min USIZE_MAX (N.of_nat unindexed * 100) in
    let d := N.of_nat rule_count in
    (scaled / d + (if (scaled mod d =? 0)%N then 0 else 1))%N.

Definition cmd_validate (uri : string) (max_unindexed : option N) : Cli unit :=
  '(engine, rule_set) ← load_engine uri;
  let rule_count := length (rs_rules rule_set) in
  let pattern_count := sum_list (map (fun r => length (r_matches r)) (rs_rules rule_set)) in
  _ ← println (Fmt "{rule_count} rules, {pattern_count} patterns compiled" [show_nat rule_count; show_nat pattern_count]);
  _ ← warn_always rule_set (always_rules engine);
  let unindexed := length (always_rules engine) in
  match max_unindexed with
  | Some ceiling =>
      let percent := unindexed_percent unindexed rule_count in
      if (ceiling <? percent)%N then
        io_fail (AnyMsg (Fmt "{unindexed} of {rule_count} rules ({percent}%) could not be indexed, exceeding --max-unindexed {ceiling}"
                           [show_nat unindexed; show_nat rule_count; show_N percent; show_N ceiling]))
      else mret tt
  | None => mret tt
  end.

(** ** [test] *)

(** The closure [pct], printed with one decimal. *)
Definition pct (n total : nat) : Msg :=
  if decide (total = 0) then Lit "0.0"
  else Fmt "{:.1}" [Fmt "n as f64 * 100.0 / total as f64" [show_nat n; show_nat total]].

(** The loop over the records; [None] is the out-of-range panic of [rule_name]. *)
Fixpoint test_records (engine : Engine) (i : nat) (records : list (Value Number)) (kept dropped : nat) :
    Cli (nat * nat) :=
  match records with
  | [] => mret (kept, dropped)
  | record :: records =>
      match evaluate engine record with
      | Keep =>
          _ ← println (Fmt "KEEP  record {}" [show_nat (i + 1)]);
          test_records engine (i + 1) records (kept + 1) dropped
      | Drop rule_idx =>
          match rule_name engine rule_idx with
          | Some name =>
              _ ← println (Fmt ("DROP  record {} (rule: " +:+ quoted "{}" +:+ ")") [show_nat (i + 1); Lit name]);
              test_records engine (i + 1) records kept (dropped + 1)
          | None => io_panic "index out of bounds"
          end
      end
  end.

(** [MultiGzDecoder::new(..).read_to_end(..)] *)
Definition decompress (gz_bytes : Bytes) : result Msg Bytes :=
  let '(out, err) := gunzip gz_bytes in match err with Some e => Err (Lit e) | None => Ok out end.

Definition cmd_test (rules_uri sample_path : string) : Cli unit :=
  '(engine, _) ← load_engine rules_uri;
  gz_bytes ← with_files (read_with_context sample_path);
  decompressed ← io_of_result (map_err (fun e => AnyContext (Fmt "failed to decompress {sample_path:?}" [Lit sample_path]) (AnyMsg e))
                                 (decompress gz_bytes));
  sample ← io_of_result (map_err (fun e => AnyContext (Fmt ("{sample_path:?} is not a valid {{" +:+ quoted "Records" +:+ ": [...]}} envelope")
                                                         [Lit sample_path]) (AnyMsg (Lit e)))
                           (sample_from_slice decompressed));
  '(kept, dropped) ← test_records engine 0 sample 0 0;
  let total := kept + dropped in
  println (Fmt "summary: {total} records, {kept} kept ({:.1}%), {dropped} dropped ({:.1}%)"
             [show_nat total; show_nat kept; pct kept total; show_nat dropped; pct dropped total]).

(** ** [validate-settings] *)

Definition cmd_validate_settings (path : option string) : Cli unit :=
  settings ← with_files (load_and_validate_settings env path);
  let p := s_processing settings in
  let b := s_behavior settings in
  _ ← println (Lit "settings OK");
  _ ← println (Fmt "  processing.mode:                   {:?}" [Lit (processing_mode_debug (mode p))]);
  _ ← println (Fmt "  processing.stream_threshold_bytes: {}" [show_N (stream_threshold_bytes p)]);
  _ ← println (Fmt "  processing.max_object_bytes:       {}" [show_N (max_object_bytes p)]);
  _ ← println (Fmt "  processing.multipart_part_bytes:   {}" [show_N (Settings.multipart_part_bytes p)]);
  _ ← println (Fmt "  processing.gzip_level:             {}" [show_N (gzip_level p)]);
  _ ← println (Fmt "  processing.object_concurrency:     {}" [show_N (object_concurrency p)]);
  _ ← println (Fmt "  processing.gzip_chunks:            {}" [show_N (gzip_chunks p)]);
  _ ← println (Fmt "  behavior.on_parse_error:           {:?}" [Lit (on_parse_error_debug (on_parse_error b))]);
  _ ← println (Fmt "  behavior.on_object_too_large:      {:?}" [Lit (on_object_too_large_debug (on_object_too_large b))]);
  _ ← println (Fmt "  destination.bucket:                {}" [Lit (bucket (s_destination settings))]);
  println (Fmt "  rules.uri:                         {}" [Lit (uri (s_rules settings))]).
(** ** [filter]: the source objects *)

(** [path.strip_prefix(root).unwrap_or(&path).to_string_lossy().replace(..)]: the backslash. *)
Definition local_rel (root path : string) : string :=
  replace_char "092" "/" (default path (path_strip_prefix root path)).

(** [collect_local]; [None] when the directories are nested deeper than [depth]. *)
Fixpoint collect_local (depth : nat) (root dir : string) (keys : KeyFilter) (fs : F) (out : list SrcObject) :
    option (result AnyError (list SrcObject)) :=
  match depth with
  | O => None
  | Datatypes.S depth =>
      match lf_read_dir dir fs with
      | Err e => Some (Err (AnyContext (Fmt "failed to read dir {dir:?}" [Lit dir]) (AnyMsg e)))
      | Ok entries =>
          foldl (fun acc entry =>
            match acc, entry with
            | Some (Ok _), Err e => Some (Err (AnyMsg e))
            | Some (Ok out), Ok path =>
                if lf_is_dir path fs then collect_local depth root path keys fs out
                else
                  let rel := local_rel root path in
                  Some (Ok (if KeyFilter_allows keys rel then out ++ [mkSrcObject path rel (lf_len path fs)] else out))
            | acc, _ => acc
            end) (Some (Ok out)) entries
      end
  end.

(** An S3 key as a source object. *)
Definition s3_src_object (dir k : string) : SrcObject := mkSrcObject k (default k (strip_prefix dir k)) None.

(** [enumerate]; [None] when [fuel] pages or nested directories were not enough. *)
Definition enumerate (fuel : nat) (src : Location) (keys : KeyFilter) (s3 : option S3ObjectStore) :
    Cli (option (list SrcObject)) :=
  match src with
  | Local root => fun w =>
      match collect_local fuel root root keys (local_files w) [] with
      | None => (Ok None, w)
      | Some (Ok objs) => (Ok (Some (sort_by_rel objs)), w)
      | Some (Err e) => (Err (Fail e), w)
      end
  | S3 bucket prefix =>
      match s3 with
      | None => io_panic "s3 store built when a side is s3"
      | Some _ =>
          r ← on_run (store_op (fun st =>
                match S3ObjectStore.list_keys fuel bucket prefix None [] (st_s3 st) with
                | Some (r, s) => (Some r, mkStores (st_local st) s)
                | None => (None, st)
                end));
          match r with
          | None => mret None
          | Some r =>
              listed ← io_of_result (map_err AnyStore r);
              let allowed := filter (fun k => KeyFilter_allows keys k = true) listed in
              mret (Some (sort_by_rel (map (s3_src_object (dir_prefix prefix)) allowed)))
          end
      end
  end.

(** ** [filter]: the destinations *)

Definition batch_dest_key (dst : Location) (rel : string) : result AnyError string :=
  match dst with
  | Local root => safe_rel ← map_err AnyMsg (contain_rel rel); Ok (path_join root safe_rel)
  | S3 _ prefix => Ok (join_key prefix rel)
  end.

Definition single_dest_key (dst : Location) : result AnyError string :=
  match dst with
  | Local path => Ok path
  | S3 _ prefix =>
      if str_is_empty prefix
      then Err (AnyMsg (Lit "s3 destination for a single file needs a key, not just a bucket"))
      else Ok prefix
  end.

(** ** [filter]: the run *)

(** The name an object goes by in the output. *)
Definition object_label (single_dst : option string) (obj : SrcObject) : string :=
  match single_dst with Some _ => so_fetch obj | None => so_rel obj end.

(** One object: its destination, then [process]. *)
Definition attempt (f : Filterer) (sched : Schedule) (single_dst : option string) (obj : SrcObject) :
    Io (RunWorld F S) AnyError ObjectOutcome :=
  match (match single_dst with Some key => Ok key | None => batch_dest_key (f_dst f) (so_rel obj) end) with
  | Ok dst_key => process pid f sched (so_fetch obj) dst_key (so_size obj)
  | Err e => io_fail e
  end.

(** The [match outcome]: the line printed, and the counts. *)
Definition report (label : string) (outcome : result AnyError ObjectOutcome) : Line :=
  match outcome with
  | Ok (OoWritten at_) => Stdout (Fmt "  {label} -> {at}" [Lit label; Lit at_])
  | Ok OoNothingKept => Stdout (Fmt "  {label} -> (all records dropped, nothing written)" [Lit label])
  | Ok (OoCopied at_ why) =>
      Stdout (Fmt "  {label} -> {at} ({}, copied verbatim)" [Lit label; Lit at_; Lit (copy_label why)])
  | Ok OoSkipped => Stdout (Fmt "  {label} -> (unrecognized shape, skipped)" [Lit label])
  | Ok OoDryRun => Stdout (Fmt "  {label} -> (dry run, nothing written)" [Lit label])
  | Err e => Stderr (Fmt "  {label} -> FAILED: {e:#}" [Lit label; show_error e])
  end.

Definition count_outcome (label : string) (outcome : result AnyError ObjectOutcome) (c : RunCounts) : RunCounts :=
  let '(mkRunCounts written fully_dropped copied skipped failures) := c in
  match outcome with
  | Ok (OoWritten _) => mkRunCounts (written + 1) fully_dropped copied skipped failures
  | Ok OoNothingKept => mkRunCounts written (fully_dropped + 1) copied skipped failures
  | Ok (OoCopied _ _) => mkRunCounts written fully_dropped (copied + 1) skipped failures
  | Ok OoSkipped => mkRunCounts written fully_dropped copied (skipped + 1) failures
  | Ok OoDryRun => c
  | Err e => mkRunCounts written fully_dropped copied skipped (failures ++ [(label, show_error e)])
  end.

(** [for obj in &objects]. *)
Fixpoint filter_objects (f : Filterer) (scheds : nat -> Schedule) (single_dst : option string) (done : nat)
    (objects : list SrcObject) (c : RunCounts) : Io (RunWorld F S) AnyError RunCounts :=
  match objects with
  | [] => mret c
  | obj :: objects =>
      let label := object_label single_dst obj in
      outcome ← io_try (attempt f (scheds done) single_dst obj);
      _ ← print (report label outcome);
      filter_objects f scheds single_dst (done + 1) objects (count_outcome label outcome c)
  end.

(** The summary and the exit. *)
Definition conclude (f : Filterer) (total : nat) (c : RunCounts) : Io (RunWorld F S) AnyError unit :=
  snap ← (fun w => let '(snap, m) := snapshot_and_reset (e_metrics (rw_env w)) in
                   (Ok snap, mkRunWorld (mkEnv (e_store (rw_env w)) m) (rw_printed w)));
  let failed := length (rc_failures c) in
  _ ← (if fc_dry_run (f_cfg f)
       then print (Stdout (Fmt "dry run: {} object(s) evaluated ({} unrecognized, {} failed), nothing written"
                             [show_nat total; show_N (ms_unrecognized_objects snap); show_nat failed]))
       else print (Stdout (Fmt "processed {} object(s): {written} written, {fully_dropped} fully dropped, {copied} copied verbatim, {skipped} skipped, {} failed"
                             [show_nat total; show_nat (rc_written c); show_nat (rc_fully_dropped c);
                              show_nat (rc_copied c); show_nat (rc_skipped c); show_nat failed])));
  _ ← print (Stdout (Fmt "records: {} in, {} kept, {} dropped"
                       [show_N (ms_records_in snap); show_N (ms_records_kept snap); show_N (ms_records_dropped snap)]));
  match rc_failures c with
  | [] => mret tt
  | failures =>
      _ ← print (Stderr (Fmt "{} object(s) failed:" [show_nat failed]));
      _ ← io_modify (fun w => mkRunWorld (rw_env w)
            (rw_printed w ++ map (fun q => Stderr (Fmt "  {label}: {err}" [Lit q.1; q.2])) failures));
      io_fail (AnyMsg (Fmt "{} of {} object(s) failed" [show_nat failed; show_nat total]))
  end.

(** The loop and what follows it, with fresh counters. *)
Definition run_filter (f : Filterer) (scheds : nat -> Schedule) (single_dst : option string) (objects : list SrcObject) :
    Io (RunWorld F S) AnyError unit :=
  _ ← metric (fun _ => Metrics_default);
  c ← filter_objects f scheds single_dst 0 objects (mkRunCounts 0 0 0 0 []);
  conclude f (length objects) c.

(** [cmd_filter]; [None] when [fuel] was not enough to enumerate the source. *)
Definition cmd_filter (fuel : nat) (scheds : nat -> Schedule) (source dest rules_uri : string)
    (settings_path : option string) : Cli (option unit) :=
  '(engine, _) ← load_engine rules_uri;
  cfg ← with_files (config_resolve env settings_path);
  src ← io_of_result (Location.parse source);
  dst ← io_of_result (Location.parse dest);
  let s3 := build_s3_if_needed src dst in
  single ← with_files (fun fs =>
    match src with
    | Local p =>
        if lf_is_file p fs then Ok (Some p)
        else if negb (lf_exists p fs) then Err (AnyMsg (Fmt "source path {p:?} does not exist" [Lit p]))
        else Ok None
    | S3 _ _ => Ok None
    end);
  objects ← match single with
            | Some p => with_files (fun fs => Ok (Some [mkSrcObject p "" (lf_len p fs)]))
            | None => enumerate fuel src (fc_keys cfg) s3
            end;
  match objects with
  | None => mret None
  | Some [] => _ ← println (Fmt "no in-scope objects found under {source}" [Lit source]); mret (Some tt)
  | Some objects =>
      single_dst ← match single with
                   | Some _ => io_of_result (Some <$> single_dest_key dst)
                   | None => mret None
                   end;
      _ ← on_run (run_filter (mkFilterer _ engine cfg src dst s3) scheds single_dst objects);
      mret (Some tt)
  end.

(** ** The process *)

Definition run_command (fuel : nat) (scheds : nat -> Schedule) (command : Command) : Cli (option unit) :=
  match command with
  | Validate uri max_unindexed => _ ← cmd_validate uri max_unindexed; mret (Some tt)
  | Test rules sample => _ ← cmd_test rules sample; mret (Some tt)
  | Filter source dest rules settings => cmd_filter fuel scheds source dest rules settings
  | ValidateSettings path => _ ← cmd_validate_settings path; mret (Some tt)
  end.

(** [main] past the argument parser: the exit code. *)
Definition main (fuel : nat) (scheds : nat -> Schedule) (command : Command) : Cli (option N) :=
  result ← io_try (run_command fuel scheds command);
  match result with
  | Ok (Some _) => mret (Some 0%N)
  | Ok None => mret None
  | Err e => _ ← eprintln (Fmt "error: {e:#}" [show_error e]); mret (Some 1%N)
  end.
End cli.

(** ** Lemmas: the run *)

Section run.
Context {J : JsonCrate} {SH : ShallowCrate} {R : RegexCrate} {G : GzipCrate} {GL : GzipLaws G}.
Context {F : Type} {Fs : LocalFs F} {S : Type} {Cl : S3Client S} (pid : N).
Context (f : Filterer) (scheds : nat -> Schedule) (single : option string).

Definition printed (line : Line) (w : RunWorld F S) : RunWorld F S := mkRunWorld (rw_env w) (rw_printed w ++ [line]).

(** Each object once, in order, from the world the one before it left, its line printed. *)
Inductive attempts : nat -> list SrcObject -> RunWorld F S -> list (result AnyError ObjectOutcome) -> RunWorld F S -> Prop :=
  | Attempts_nil n w : attempts n [] w [] w
  | Attempts_cons n obj objects w outcome w1 outcomes w2 :
      io_try (attempt pid f (scheds n) single obj) w = (Ok outcome, w1) ->
      attempts (n + 1) objects (printed (report (object_label single obj) outcome) w1) outcomes w2 ->
      attempts n (obj :: objects) w (outcome :: outcomes) w2.

Lemma attempts_length n objects w outcomes w' : attempts n objects w outcomes w' -> length outcomes = length objects.
Proof. induction 1; cbn; congruence. Qed.

Definition is_written (o : result AnyError ObjectOutcome) : bool := match o with Ok (OoWritten _) => true | _ => false end.
Definition is_dropped (o : result AnyError ObjectOutcome) : bool := match o with Ok OoNothingKept => true | _ => false end.
Definition is_copied (o : result AnyError ObjectOutcome) : bool := match o with Ok (OoCopied _ _) => true | _ => false end.
Definition is_skipped (o : result AnyError ObjectOutcome) : bool := match o with Ok OoSkipped => true | _ => false end.

Definition how_many {A} (p : A -> bool) (l : list A) : nat := length (filter (fun x => p x = true) l).

Lemma how_many_cons {A} (p : A -> bool) x l : how_many p (x :: l) = (if p x then 1 else 0) + how_many p l.
Proof. unfold how_many. rewrite filter_cons. by destruct (p x). Qed.

(** The failed objects and their errors. *)
Definition failures_of (objects : list SrcObject) (outcomes : list (result AnyError ObjectOutcome)) : list (string * Msg) :=
  omap (fun q : SrcObject * result AnyError ObjectOutcome =>
          match q.2 with Err e => Some (object_label single q.1, show_error e) | Ok _ => None end)
       (zip objects outcomes).

Lemma failures_none objects outcomes :
  length outcomes = length objects -> failures_of objects outcomes = [] <-> Forall (fun o => is_ok o = true) outcomes.
Proof.
  unfold failures_of. revert objects. induction outcomes as [|o outcomes IH]; intros [|obj objects]; cbn; intros H; try done.
  rewrite Forall_cons, <-(IH objects) by lia. destruct o; cbn; naive_solver.
Qed.

Context (Hs3 : f_s3 f = build_s3_if_needed (f_src f) (f_dst f)).
Context (Hlevel : ~ no_level (fc_processing (f_cfg f))).

Lemma attempt_safe sched obj : safe (attempt pid f sched single obj).
Proof.
  unfold attempt. destruct (match single with Some key => Ok key | None => _ end);
    [by apply safe_process|apply safe_fail].
Qed.

(** What the counts have become after some more outcomes. *)
Definition counts_after (objects : list SrcObject) (outcomes : list (result AnyError ObjectOutcome)) (c : RunCounts) : RunCounts :=
  mkRunCounts (rc_written c + how_many is_written outcomes) (rc_fully_dropped c + how_many is_dropped outcomes)
    (rc_copied c + how_many is_copied outcomes) (rc_skipped c + how_many is_skipped outcomes)
    (rc_failures c ++ failures_of objects outcomes).

Lemma counts_after_cons obj objects o outcomes c :
  counts_after (obj :: objects) (o :: outcomes) c = counts_after objects outcomes (count_outcome (object_label single obj) o c).
Proof.
  unfold counts_after. rewrite !how_many_cons. destruct c as [a b d e l].
  destruct o as [[| |? []| |]|]; cbn [count_outcome is_written is_dropped is_copied is_skipped rc_written rc_fully_dropped rc_copied rc_skipped rc_failures failures_of zip omap];
    f_equal; try lia; try done. by rewrite <-app_assoc.
Qed.

Lemma filter_objects_spec n objects c w :
  exists outcomes w', attempts n objects w outcomes w' /\
    filter_objects pid f scheds single n objects c w = (Ok (counts_after objects outcomes c), w').
Proof.
  revert n c w. induction objects as [|obj objects IH]; intros n c w; cbn [filter_objects].
  { exists [], w. split; [constructor|]. unfold counts_after. destruct c; cbn. by rewrite !Nat.add_0_r, app_nil_r. }
  pose proof (attempt_safe (scheds n) obj w) as Hsafe.
  assert (exists outcome w1, io_try (attempt pid f (scheds n) single obj) w = (Ok outcome, w1)) as (o & w1 & Ho).
  { unfold io_try. destruct (attempt _ _ _ _ _ w) as [[a|[e|m]] w1]; cbn in Hsafe; [eauto|eauto|]. by destruct (Hsafe m). }
  destruct (IH (n + 1) (count_outcome (object_label single obj) o c) (printed (report (object_label single obj) o) w1))
    as (os & w2 & Hat & Hrun).
  exists (o :: os), w2. split; [by econstructor|]. rewrite counts_after_cons, <-Hrun.
  unfold mbind at 1, io_bind at 1. by rewrite Ho.
Qed.
End run.

(** What [conclude] prints, and how it ends. *)
Lemma conclude_spec {R : RegexCrate} {F S} f total c (w : RunWorld F S) :
  exists lines, conclude f total c w =
    (match rc_failures c with
     | [] => Ok tt
     | failures => Err (Fail (AnyMsg (Fmt "{} of {} object(s) failed" [show_nat (length failures); show_nat total])))
     end,
     mkRunWorld (mkEnv (e_store (rw_env w)) (snapshot_and_reset (e_metrics (rw_env w))).2)
       (rw_printed w ++ lines ++
        match rc_failures c with
        | [] => []
        | failures =>
            Stderr (Fmt "{} object(s) failed:" [show_nat (length failures)])
            :: map (fun q => Stderr (Fmt "  {label}: {err}" [Lit q.1; q.2])) failures
        end)) /\
    (fc_dry_run (f_cfg f) = false ->
     Stdout (Fmt "processed {} object(s): {written} written, {fully_dropped} fully dropped, {copied} copied verbatim, {skipped} skipped, {} failed"
               [show_nat total; show_nat (rc_written c); show_nat (rc_fully_dropped c); show_nat (rc_copied c);
                show_nat (rc_skipped c); show_nat (length (rc_failures c))]) ∈ lines).
Proof.
  unfold conclude. destruct (snapshot_and_reset (e_metrics (rw_env w))) as [snap m] eqn:Hsnap.
  destruct (fc_dry_run (f_cfg f)), (rc_failures c) as [|q failures];
    unfold mbind, io_bind, print, io_modify; rewrite Hsnap; cbn [rw_env rw_printed e_store fst snd app];
    eexists [_; _]; (split; [by rewrite <-?app_assoc|]); try done; intros _; left.
Qed.

(** ** Lemmas: enumerating a source *)

(** The files below directories, in the order of the walk, and how deep they are nested. *)
Section walk.
Context {F : Type} {Fs : LocalFs F} (fs : F).

Inductive walks : nat -> string -> list string -> Prop :=
  | Walks_dir n dir paths found :
      lf_read_dir dir fs = Ok (map Ok paths) -> walks_all n paths found -> walks (S n) dir found
with walks_all : nat -> list string -> list string -> Prop :=
  | Walks_nil n : walks_all n [] []
  | Walks_sub n path paths found found' :
      lf_is_dir path fs = true -> walks n path found -> walks_all n paths found' ->
      walks_all n (path :: paths) (found ++ found')
  | Walks_file n path paths found :
      lf_is_dir path fs = false -> walks_all n paths found -> walks_all n (path :: paths) (path :: found).

Scheme walks_mut := Induction for walks Sort Prop
with walks_all_mut := Induction for walks_all Sort Prop.

Context {R : RegexCrate} (root : string) (keys : KeyFilter).

(** The source objects of files that are in scope. *)
Definition in_scope (found : list string) : list SrcObject :=
  filter (fun o => KeyFilter_allows keys (so_rel o) = true)
    (map (fun path => mkSrcObject path (local_rel root path) (lf_len path fs)) found).

Lemma collect_walks n dir found :
  walks n dir found ->
  forall m out, n <= m -> collect_local m root dir keys fs out = Some (Ok (out ++ in_scope found)).
Proof.
  intros H. induction H as [n dir paths found Hr _ IH|n|n path paths found found' Hd _ IH1 _ IH2|n path paths found Hd _ IH]
    using walks_mut with (P0 := fun n paths found _ => forall m out, n <= m ->
      foldl (fun acc entry =>
            match acc, entry with
            | Some (Ok _), Err e => Some (Err (AnyMsg e))
            | Some (Ok out), Ok path =>
                if lf_is_dir path fs then collect_local m root path keys fs out
                else
                  let rel := local_rel root path in
                  Some (Ok (if KeyFilter_allows keys rel then out ++ [mkSrcObject path rel (lf_len path fs)] else out))
            | acc, _ => acc
            end) (Some (Ok out)) (map Ok paths) = Some (Ok (out ++ in_scope found))); intros m out Hm.
  - destruct m as [|m]; [lia|]. cbn [collect_local]. rewrite Hr. apply IH. lia.
  - cbn. by rewrite app_nil_r.
  - cbn [map foldl]. rewrite Hd, IH1 by done. rewrite IH2 by done. unfold in_scope.
    by rewrite map_app, filter_app, app_assoc.
  - cbn [map foldl]. rewrite Hd. cbv zeta. rewrite IH by done. unfold in_scope. cbn [map]. rewrite filter_cons.
    cbn [so_rel]. destruct (KeyFilter_allows keys (local_rel root path)); [by rewrite <-app_assoc|done].
Qed.
End walk.

(** The order of the objects of a run. *)
Definition rel_le (x y : SrcObject) : Prop := (so_rel x <=? so_rel y)%string = true.

Lemma string_leb_total s t : (s <=? t)%string = true \/ (t <=? s)%string = true.
Proof.
  unfold String.leb. rewrite (String.compare_antisym t s). destruct (s ?= t)%string; cbn; auto.
Qed.

Lemma insert_by_rel_perm x l : insert_by_rel x l ≡ₚ x :: l.
Proof.
  induction l as [|y l IH]; cbn; [done|]. destruct (_ <=? _)%string; [done|]. rewrite IH. apply Permutation_swap.
Qed.

Lemma sort_by_rel_perm l : sort_by_rel l ≡ₚ l.
Proof. induction l as [|x l IH]; cbn; [done|]. by rewrite insert_by_rel_perm, IH. Qed.

Lemma sort_by_rel_sorted l : Sorted rel_le (sort_by_rel l).
Proof.
  assert (forall x l, Sorted rel_le l -> Sorted rel_le (insert_by_rel x l)) as Hins.
  { clear l. intros x l H. induction H as [|y l H IH Hh]; cbn; [by repeat constructor|].
    destruct (so_rel x <=? so_rel y)%string eqn:Hxy; [by repeat constructor|].
    constructor; [done|]. assert (rel_le y x) as Hyx by (destruct (string_leb_total (so_rel x) (so_rel y)); [congruence|done]).
    destruct l as [|z l]; cbn; [by constructor|]. destruct (so_rel x <=? so_rel z)%string; [by constructor|]. constructor.
    by inversion Hh. }
  induction l as [|x l IH]; cbn; [constructor|]. by apply Hins.
Qed.

(** ** Lemmas: the gate *)

Lemma unindexed_percent_spec u n c :
  u <= n -> (N.of_nat u * 100 <= USIZE_MAX)%N -> (unindexed_percent u n <= c)%N <-> u * 100 <= N.to_nat c * n.
Proof.
  intros Hu Hs. unfold unindexed_percent. case_decide as Hn; [subst; split; lia|]. cbv zeta.
  rewrite N.min_r by done. set (a := (N.of_nat u * 100)%N). set (d := N.of_nat n).
  assert (0 < d)%N as Hd by lia. pose proof (N.div_mod a d ltac:(lia)) as Hdm. pose proof (N.mod_lt a d ltac:(lia)) as Hlt.
  revert Hdm Hlt. generalize (a / d)%N (a mod d)%N. intros q r Hdm Hlt.
  assert (u * 100 <= N.to_nat c * n <-> (a <= c * d)%N) as -> by lia.
  destruct (r =? 0)%N eqn:Hr; [apply N.eqb_eq in Hr|apply N.eqb_neq in Hr]; split; intros H; nia.
Qed.

Section validate.
Context {R : RegexCrate} {Y : RulesCrates}.
Context {F : Type} {Fs : LocalFs F} {S : Type} {ConfS3 : S3ConfigClient S} {P : Type} {Ssm : SsmClient P}.

Lemma load_engine_inv uri (w w1 : CliWorld F S P) engine rule_set :
  load_engine uri w = (Ok (engine, rule_set), w1) -> engine_new rule_set = Some (Ok engine).
Proof.
  unfold load_engine, mbind, io_bind. destruct (load_rules_bytes uri w) as [[bytes|e] w2]; [|done].
  destruct (Rules.parse bytes) as [rs|e]; cbn [map_err io_of_result mret io_ret]; [|done].
  destruct (engine_new rs) as [[e|e]|] eqn:He; cbn [map_err io_of_result mret io_ret]; try done.
  by intros [= <- <- _].
Qed.

(** Rules checked against every record are rules of the document. *)
Lemma always_rules_in engine rule_set :
  engine_new rule_set = Some (Ok engine) ->
  Forall (fun i => i < length (rs_rules rule_set)) (always_rules engine) /\
  length (always_rules engine) <= length (rs_rules rule_set).
Proof.
  intros H. apply engine_new_inv in H as (major & compiled & paths & _ & Hc & Hwf & Hsame).
  apply Forall2_length in Hsame. apply collect_results_Forall2, Forall2_length in Hc.
  unfold always_rules. rewrite (ew_index _ _ Hwf), index_always_spec, length_map, Hc, Hsame. split.
  - apply Forall_forall. intros i Hi. apply list_elem_of_filter in Hi as [_ Hi]. apply elem_of_seq in Hi. lia.
  - etrans; [apply length_filter|]. by rewrite length_seq.
Qed.

Lemma warn_always_ok rule_set always (w : CliWorld F S P) :
  Forall (fun i => i < length (rs_rules rule_set)) always -> exists w', warn_always rule_set always w = (Ok tt, w').
Proof.
  intros H. revert w. induction H as [|i always Hi _ IH]; intros w; cbn [warn_always]; [by eexists|].
  unfold explain_always_rule. destruct (lookup_lt_is_Some_2 _ _ Hi) as [rule ->]. cbn [mbind option_bind].
  unfold mbind, io_bind, eprintln, on_run. destruct (print _ (cw_run w)) as [[[]|e] run] eqn:Hp; [apply IH|done].
Qed.
End validate.

(** ** Properties *)

(** C25: a run attempts every object.  Take a run with the configuration [config_resolve]
    yields, from a settings document or from the defaults, so that its gzip level is one the
    encoder has.  Whatever fails on the way, each object of the run is processed once, in
    order, from the state the one before it left; the run succeeds exactly when every object
    did, and otherwise ends with the number of those that failed, each of which was reported
    with its error; the summary counts every outcome; nothing panics. *)
Theorem filter_reports_every_object {J : JsonCrate} {SH : ShallowCrate} {R : RegexCrate} {G : GzipCrate}
    {GL : GzipLaws G} {SC : SettingsCrate} {F} {Fs : LocalFs F} {S} {Cl : S3Client S}
    env path (fs : F) pid f scheds single objects (w : RunWorld F S) :
  config_resolve env path fs = Ok (f_cfg f) ->
  f_s3 f = build_s3_if_needed (f_src f) (f_dst f) ->
  let '(r, w') := run_filter pid f scheds single objects w in
  exists outcomes w1,
    let start := mkRunWorld (mkEnv (e_store (rw_env w)) Metrics_default) (rw_printed w) in
    let failures := failures_of single objects outcomes in
    attempts pid f scheds single 0 objects start outcomes w1 /\ length outcomes = length objects /\
    e_store (rw_env w') = e_store (rw_env w1) /\
    (r = Ok tt <-> Forall (fun o => is_ok o = true) outcomes) /\
    (r <> Ok tt -> r = Err (Fail (AnyMsg (Fmt "{} of {} object(s) failed"
                                            [show_nat (length failures); show_nat (length objects)])))) /\
    (fc_dry_run (f_cfg f) = false ->
       Stdout (Fmt "processed {} object(s): {written} written, {fully_dropped} fully dropped, {copied} copied verbatim, {skipped} skipped, {} failed"
                 [show_nat (length objects); show_nat (how_many is_written outcomes); show_nat (how_many is_dropped outcomes);
                  show_nat (how_many is_copied outcomes); show_nat (how_many is_skipped outcomes);
                  show_nat (length failures)]) ∈ rw_printed w') /\
    Forall (fun q => Stderr (Fmt "  {label}: {err}" [Lit q.1; q.2]) ∈ rw_printed w') failures.
Proof.
  intros Hlevel%resolve_level Hs3. unfold run_filter. unfold mbind at 1, io_bind at 1, metric, io_modify.
  set (start := mkRunWorld _ _).
  destruct (filter_objects_spec pid f scheds single Hs3 Hlevel 0 objects (mkRunCounts 0 0 0 0 []) start)
    as (outcomes & w1 & Hat & Hrun).
  unfold mbind at 1, io_bind at 1. rewrite Hrun. pose proof (attempts_length _ _ _ _ _ _ _ _ _ Hat) as Hlen.
  pose proof (failures_none single objects outcomes Hlen) as Hnone.
  destruct (conclude_spec f (length objects) (counts_after single objects outcomes (mkRunCounts 0 0 0 0 [])) w1)
    as (lines & -> & Hsummary). revert Hsummary.
  unfold counts_after. cbn [rc_written rc_fully_dropped rc_copied rc_skipped rc_failures app]. rewrite !Nat.add_0_l.
  intros Hsummary. exists outcomes, w1. cbv zeta. cbn [rw_env rw_printed e_store].
  split_and!; [done|done|done| | | |].
  - destruct (failures_of single objects outcomes); [naive_solver|]. split; [done|]. intros H. by apply Hnone in H.
  - by destruct (failures_of single objects outcomes).
  - intros Hdry. apply elem_of_app. right. apply elem_of_app. left. by apply Hsummary.
  - destruct (failures_of single objects outcomes) as [|q failures]; [constructor|].
    apply Forall_forall. intros q' Hq. apply elem_of_app. right. apply elem_of_app. right. right.
    by apply (list_elem_of_fmap_2 (fun q : string * Msg => Stderr (Fmt "  {label}: {err}" [Lit q.1; q.2]))).
Qed.

(** C27: a batch stays under its destination.  A relative key taken from a source, hostile or
    not, is refused exactly when one of its components is not a plain name; otherwise the
    file written is the destination root followed by the names of the key. *)
Theorem batch_dest_contained root rel :
  match batch_dest_key (Local root) rel with
  | Ok key => exists names, path_components rel = map Normal names /\
      path_components key = path_components root ++ map Normal names
  | Err _ => exists c, c ∈ path_components rel /\ forall name, c <> Normal name
  end.
Proof.
  unfold batch_dest_key. pose proof (contain_rel_spec rel) as H. destruct (contain_rel rel) as [p|e]; cbn; [|done].
  destruct H as (names & Hc & Hp & Hn). exists names. split; [done|]. by rewrite components_join, Hn.
Qed.

(** C26: enumeration ends and finds every object.  With as much fuel as the source's directories
    are nested, or as S3 serves pages, [enumerate] returns the objects in scope, each once per
    file or key, sorted by their relative key; files are untouched. *)
Theorem enumerate_complete {R : RegexCrate} {F} {Fs : LocalFs F} {S} {Cl : S3Client S} {P} fuel src keys s3
    (w : CliWorld F S P) objects s' :
  (match src with
   | Local root => exists n found, n <= fuel /\ walks (local_files w) n root found /\
       objects = in_scope (local_files w) root keys found /\ s' = st_s3 (e_store (rw_env (cw_run w)))
   | S3 bucket prefix => is_Some s3 /\ exists listed,
       serves bucket prefix None (st_s3 (e_store (rw_env (cw_run w)))) listed s' fuel /\
       objects = map (s3_src_object (dir_prefix prefix)) (filter (fun k => KeyFilter_allows keys k = true) listed)
   end) ->
  exists found w', enumerate fuel src keys s3 w = (Ok (Some found), w') /\
    found ≡ₚ objects /\ Sorted rel_le found /\
    e_store (rw_env (cw_run w')) = mkStores (local_files w) s'.
Proof.
  destruct src as [root|bucket prefix].
  - intros (n & found & Hn & Hw & -> & ->). exists (sort_by_rel (in_scope (local_files w) root keys found)), w.
    unfold enumerate. rewrite (collect_walks _ _ _ _ _ _ Hw fuel [] Hn). cbn [app].
    split; [done|]. split; [apply sort_by_rel_perm|]. split; [apply sort_by_rel_sorted|].
    unfold local_files. by destruct (e_store (rw_env (cw_run w))).
  - intros ([self ->] & listed & Hs & ->).
    exists (sort_by_rel (map (s3_src_object (dir_prefix prefix)) (filter (fun k => KeyFilter_allows keys k = true) listed))).
    unfold enumerate, on_run, store_op, mbind, io_bind. rewrite (list_keys_serves _ _ _ _ _ _ _ [] Hs).
    eexists. split; [reflexivity|]. split; [apply sort_by_rel_perm|]. by split; [apply sort_by_rel_sorted|].
Qed.

(** The CI gate.  [validate] of a ruleset that loads never panics; with a ceiling it fails
    exactly when the rules checked against every record are more than that percentage of the
    rules, and without one it succeeds. *)
Theorem validate_gate {R : RegexCrate} {Y : RulesCrates} {F} {Fs : LocalFs F} {S} {ConfS3 : S3ConfigClient S}
    {P} {Ssm : SsmClient P} uri ceiling (w w1 : CliWorld F S P) engine rule_set :
  load_engine uri w = (Ok (engine, rule_set), w1) ->
  (N.of_nat (length (always_rules engine)) * 100 <= USIZE_MAX)%N ->
  let r := (cmd_validate uri ceiling w).1 in
  (forall msg, r <> Err (Panic msg)) /\
  (r = Ok tt <->
   match ceiling with
   | Some c => length (always_rules engine) * 100 <= N.to_nat c * length (rs_rules rule_set)
   | None => True
   end).
Proof.
  intros Hload Hsat. pose proof (load_engine_inv _ _ _ _ _ Hload) as He.
  destruct (always_rules_in _ _ He) as [Hin Hle].
  assert (exists m, (cmd_validate uri ceiling w).1 =
    match ceiling with
    | Some c => if (c <? unindexed_percent (length (always_rules engine)) (length (rs_rules rule_set)))%N
                then Err (Fail m) else Ok tt
    | None => Ok tt
    end) as [m Hr].
  { unfold cmd_validate, mbind at 1, io_bind at 1. rewrite Hload. cbv zeta.
    unfold mbind at 1, io_bind at 1, println at 1, on_run at 1, print, io_modify. set (w2 := mkCliWorld _ _).
    unfold mbind, io_bind. destruct (warn_always_ok rule_set _ w2 Hin) as [w3 ->].
    destruct ceiling as [c|]; [eexists|by exists (AnyMsg (Lit ""))]. by destruct (c <? _)%N. }
  cbv zeta. rewrite Hr. destruct ceiling as [c|]; [|by split]. rewrite <-(unindexed_percent_spec _ _ c Hle Hsat).
  destruct (N.ltb_spec c (unindexed_percent (length (always_rules engine)) (length (rs_rules rule_set))));
    (split; [done|]); split; intros; by try lia.
Qed.

(** ** Witnesses *)

(** Two objects, one of which would land outside the destination. *)
Definition escaping_objects : list SrcObject :=
  [mkSrcObject "in/a.json" "a.json" (Some 5%N); mkSrcObject "in/a.json" "../b.json" (Some 5%N)].

Definition local_filterer : Filterer (R := ref_regex) :=
  mkFilterer _ (f_engine demo_filterer) (f_cfg demo_filterer) (Local "in") (Local "out") None.

Abbreviation escaping_run :=
  (run_filter (J := demo_json) (SH := demo_shallow) (G := ref_gzip) 7 local_filterer (fun _ => mkSchedule 0 None) None
     escaping_objects (mkRunWorld (mkEnv demo_stores Metrics_default) [])).

Lemma filter_reports_every_object_witness :
  exists outcomes : list (result AnyError ObjectOutcome), length outcomes = 2 /\ ~ Forall (fun o => is_ok o = true) outcomes /\
    files (st_local (e_store (rw_env escaping_run.2))) !! path_components "out/a.json" = Some (envelope_body ["r3"]).
Proof.
  assert (config_resolve (SC := file_settings) (fun _ => None) (Some "settings.yaml") demo_files = Ok (f_cfg local_filterer))
    as Hres by (vm_compute; reflexivity).
  pose proof (filter_reports_every_object (J := demo_json) (SH := demo_shallow) (GL := ref_gzip_laws) (SC := file_settings)
    (S := RefS3.service) (fun _ => None) (Some "settings.yaml") demo_files 7
    local_filterer (fun _ => mkSchedule 0 None) None escaping_objects (mkRunWorld (mkEnv demo_stores Metrics_default) [])
    Hres eq_refl) as H.
  assert (escaping_run.1 <> Ok tt) as Hr by (vm_compute; discriminate).
  assert (files (st_local (e_store (rw_env escaping_run.2))) !! path_components "out/a.json" = Some (envelope_body ["r3"])) as Hw
    by (vm_compute; reflexivity).
  revert H Hr Hw. generalize escaping_run. intros [r w'] H Hr Hw. cbn [fst snd] in *.
  destruct H as (outcomes & w1 & _ & Hlen & _ & Hok & _). exists outcomes. split; [exact Hlen|]. split; [|exact Hw].
  intros Hall. apply Hr. by apply Hok.
Defined.

Lemma enumerate_complete_witness :
  exists w', enumerate (S := RefS3.service) 1 (Local "in") (mkKeyFilter ref_regex "^a\.json$" "Digest") None
      (mkCliWorld (mkRunWorld (mkEnv demo_stores Metrics_default) []) tt) =
    (Ok (Some [mkSrcObject "in/a.json" "a.json" (Some 5%N)]), w').
Proof.
  destruct (enumerate_complete (S := RefS3.service) 1 (Local "in") (mkKeyFilter ref_regex "^a\.json$" "Digest") None
    (mkCliWorld (mkRunWorld (mkEnv demo_stores Metrics_default) []) tt) [mkSrcObject "in/a.json" "a.json" (Some 5%N)]
    demo_service) as (found & w' & Hrun & Hperm & _).
  - exists 1, ["in/a.json"]. split; [lia|]. split.
    + apply (Walks_dir _ 0 "in" ["in/a.json"]); [vm_compute; reflexivity|]. apply Walks_file; [vm_compute; reflexivity|].
      apply Walks_nil.
    + split; vm_compute; reflexivity.
  - exists w'. rewrite Hrun. symmetry in Hperm. apply Permutation_singleton_l in Hperm as ->. reflexivity.
Defined.

(** Two rules, one without an event source or name: half of them are not indexed. *)
Definition half_yaml : RulesCrates :=
  table_rules
    [("half",
      mkWireRuleSet WireRuleV2 unit "2.0.0" None
        [mkWireRuleV2 "reads" [mkWireMatchV2 "eventName" None (Some "Get") None None false];
         mkWireRuleV2 "errors" [mkWireMatchV2 "errorCode" None None None (Some true) false]])].

Definition half_world : CliWorld MemFs (Shelf (string * string) string Bytes) (Shelf string Z (option string)) :=
  mkCliWorld (mkRunWorld (mkEnv (mkStores {[path_components "rules" := "half"]} (fun _ => None)) Metrics_default) [])
    (fun _ => None).

Lemma validate_gate_witness :
  (cmd_validate (R := ref_regex) (Y := half_yaml) "rules" (Some 33%N) half_world).1 <> Ok tt /\
  (cmd_validate (R := ref_regex) (Y := half_yaml) "rules" (Some 50%N) half_world).1 = Ok tt.
Proof.
  assert (match load_engine (R := ref_regex) (Y := half_yaml) "rules" half_world with
          | (Ok (engine, rs), _) => length (always_rules engine) = 1 /\ length (rs_rules rs) = 2
          | _ => False
          end) as Hload by (vm_compute; split; reflexivity).
  destruct (load_engine (R := ref_regex) (Y := half_yaml) "rules" half_world) as [[[engine rs]|e] w1] eqn:Hw;
    [|destruct Hload].
  destruct Hload as [Ha Hr]. split.
  - destruct (validate_gate (R := ref_regex) (Y := half_yaml) "rules" (Some 33%N) _ _ _ _ Hw) as [_ H].
    + rewrite Ha. vm_compute. discriminate.
    + rewrite H, Ha, Hr. vm_compute. lia.
  - destruct (validate_gate (R := ref_regex) (Y := half_yaml) "rules" (Some 50%N) _ _ _ _ Hw) as [_ H].
    + rewrite Ha. vm_compute. discriminate.
    + apply H. rewrite Ha, Hr. vm_compute. lia.
Defined.
