(* ===== verification/Backfill.v ===== *)
(** * Backfills: the offline filter between two buckets

    What [filter] from S3 to S3 leaves at its destinations, from the policy matrix of the
    pipeline ([Objects]) and the lockstep of the filter with it ([Filterer]). *)

From S2P Require Import Prelude Model Json Path Regex Rules Reference Index Project Engine.
From S2P Require Import Settings Effects Metrics Ports Task Envelope Buffer Stream Cache Pipeline.
From S2P Require Import Source Objects S3Store Local Filterer.

(** ** The store of a run between buckets *)

Section buckets.
Context {F : Type} {Fs : LocalFs F} {S : Type} {Cl : S3Client S} {Laws : S3Laws S}.

Lemma default_part_positive : (0 < DEFAULT_MULTIPART_PART_BYTES)%N.
Proof. by apply N.ltb_lt. Qed.

(** The service behind both sides. *)
Abbreviation service := (mkS3ObjectStore DEFAULT_MULTIPART_PART_BYTES).

(** A law of the service is one of the stores. *)
Definition bucket_laws pid b b' p p' :
  @StoreLaws (Stores F S) (sided_store pid (Filterer.S3 b p) (Filterer.S3 b' p')).
Proof.
  pose (laws := s3_store_laws service default_part_positive).
  refine (@Build_StoreLaws _ (sided_store pid (Filterer.S3 b p) (Filterer.S3 b' p')) (fun s => objects (st_s3 s)) _ _ _ _ _ _ _ _);
    cbn [store_get_stream store_put store_put_stream sided_store side s3_side]; unfold on_s3.
  - intros c k s. pose proof (get_stream_contents (StoreLaws := laws) c k (st_s3 s)) as H.
    by destruct (store_get_stream c k (st_s3 s)).
  - intros c k s reader. pose proof (get_stream_read (StoreLaws := laws) c k (st_s3 s) reader) as H.
    by destruct (store_get_stream c k (st_s3 s)).
  - intros c k s c' k'. pose proof (get_stream_missing (StoreLaws := laws) c k (st_s3 s) c' k') as H.
    by destruct (store_get_stream c k (st_s3 s)).
  - intros c k body meta s. pose proof (put_contents (StoreLaws := laws) c k body meta (st_s3 s)) as H.
    by destruct (store_put c k body meta (st_s3 s)).
  - intros c k body meta s. pose proof (put_stream_contents (StoreLaws := laws) c k body meta (st_s3 s)) as H.
    by destruct (store_put_stream c k body meta (st_s3 s)).
  - intros c k body meta s e. pose proof (put_stream_error (StoreLaws := laws) c k body meta (st_s3 s) e) as H.
    by destruct (store_put_stream c k body meta (st_s3 s)).
  - intros c k body meta s. pose proof (put_stream_read (StoreLaws := laws) c k body meta (st_s3 s)) as H.
    by destruct (store_put_stream c k body meta (st_s3 s)).
  - intros c k body meta s. pose proof (put_stream_bound (StoreLaws := laws) c k body meta (st_s3 s)) as H.
    by destruct (store_put_stream c k body meta (st_s3 s)).
Defined.

Lemma bucket_clean pid b b' p p' :
  (forall b k (s : S) reader, (get_object b k s).1 = Ok reader -> rd_error reader = None) ->
  forall c k (s : Stores F S) reader,
    (store_get_stream (ObjectStore := sided_store pid (Filterer.S3 b p) (Filterer.S3 b' p')) c k s).1 = Ok reader ->
    rd_error reader = None.
Proof.
  intros Hclean c k s reader. cbn [store_get_stream sided_store side s3_side s3_object_store]. unfold on_s3, S3ObjectStore.get_stream.
  pose proof (Hclean c k (st_s3 s)) as H. destruct (get_object c k (st_s3 s)) as [[rd|e] s']; cbn; [|done].
  intros [= <-]. by apply H.
Qed.
End buckets.

(** ** Property *)

(** C12: a backfill leaves what production would.  Take a live run between two buckets under a
    settings document whose [on_missing_object] is [error], the policy the filter itself has.
    Over a service whose bodies read to their end and an object whose size, stored and
    decompressed, is below 2^64, an object filtered without an error leaves at its
    destination, which is never its source, exactly what its bytes and the policies of that
    document call for: the envelope of the records no rule drops, nothing when every record
    is dropped, and for an unrecognized or unparsable object its bytes or nothing, as
    configured.  Nothing else changes, an object that fails changes nothing, and none
    panics. *)
Theorem filter_delivers {J : JsonCrate} {SH : ShallowCrate} {SL : ShallowLaws J SH} {R : RegexCrate}
    {G : GzipCrate} {GL : GzipLaws G} {SC : SettingsCrate} {F} {Fs : LocalFs F} {S} {Cl : S3Client S} {Laws : S3Laws S}
    env pid path (fs : F) f bytes settings sb sp db dp sched src_key dst_key size (w : RunWorld F S) :
  config_resolve env (Some path) fs = Ok (f_cfg f) ->
  lf_read path fs = Ok bytes -> from_parts (Some bytes) env = Ok settings ->
  on_missing_object (s_behavior settings) = MoError -> dry_run (s_behavior settings) = false ->
  f_src f = Filterer.S3 sb sp -> f_dst f = Filterer.S3 db dp ->
  f_s3 f = build_s3_if_needed (f_src f) (f_dst f) ->
  (forall b k (s : S) reader, (get_object b k s).1 = Ok reader -> rd_error reader = None) ->
  let before := objects (st_s3 (e_store (rw_env w))) in
  (forall src, before !! (sb, src_key) = Some src ->
     (byte_len src < U64_MAX)%N /\ (byte_len (gunzip src).1 < U64_MAX)%N) ->
  let '(r, w') := process pid f sched src_key dst_key size w in
  let after := objects (st_s3 (e_store (rw_env w'))) in
  match r with
  | Ok _ => (sb, src_key) <> (db, dst_key) /\ exists src, before !! (sb, src_key) = Some src /\
      (after = before /\ delivers (s_behavior settings) (f_engine f) src None \/
       exists body, after = <[(db, dst_key) := body]> before /\
         delivers (s_behavior settings) (f_engine f) src (Some body))
  | Err (Fail _) => after = before
  | Err (Panic _) => False
  end.
Proof.
  intros Hres Hread Hset Hmiss Hlive Hsrc Hdst Hs3 Hclean before Hsmall.
  destruct (resolve_pipeline env path fs _ Hres) as (bytes' & settings' & p & Hr & Hs & _ & Hcfg & <-).
  assert (settings = p_settings p) as -> by congruence. clear Hr Hs Hread Hset.
  destruct (overwrites_source f src_key dst_key (st_local (e_store (rw_env w)))) eqn:Hover.
  { unfold process. rewrite !bind_ask, Hover, Hcfg. cbn [fc_dry_run filter_config]. by rewrite Hlive. }
  assert ((sb, src_key) <> (db, dst_key)) as Hne.
  { unfold overwrites_source in Hover. rewrite Hsrc, Hdst in Hover. intros [= -> ->].
    by rewrite !bool_decide_eq_true_2 in Hover. }
  destruct (sim_process pid p f Hcfg Hs3 Hmiss sched src_key dst_key size (rw_env w) w) as [Hexit Hm];
    [by split|by right|]. unfold two_sides in Hexit, Hm. rewrite Hsrc, Hdst in Hexit, Hm. cbn [Location.bucket] in Hexit, Hm.
  pose (laws := bucket_laws pid sb db sp dp).
  pose proof (process_object_spec (Laws := laws) p sched (f_engine f) (mkObjectRef sb src_key size) db dst_key (rw_env w))
    as Hspec. unfold wp in Hspec.
  assert (reliable (Laws := laws) (mkObjectRef sb src_key size) (rw_env w)) as Hrel.
  { split; [|exact Hsmall]. intros b k s reader. apply (bucket_clean pid sb db sp dp Hclean). }
  destruct (process_object p sched _ _ _ _ (rw_env w)) as [r w1], (process pid f sched src_key dst_key size w) as [r' w1'].
  cbn [fst snd] in *. destruct Hm as [Hm _]. destruct Hspec as [Hc Hspec]. cbv zeta. rewrite <-Hm.
  destruct r as [[]|[e|m]], r' as [o|[e'|m']]; cbn [rel_exit counted counted_or_panic] in *; try done.
  2:{ apply resolve_level in Hres. rewrite Hcfg in Hres. by destruct Hc. }
  rewrite Hlive in Hspec. destruct Hspec as [_ Hspec]. split; [done|].
  destruct (Hspec Hrel) as [(_ & _ & H)|(src & H1 & H2)]; [congruence|]. by exists src.
Qed.

(** ** Witness *)

Definition bucket_stores : Stores MemFs RefS3.service :=
  mkStores demo_files (RefS3.mkService {[("trail", "a.json") := "three"]} ∅).

Definition bucket_filterer : Filterer (R := ref_regex) :=
  mkFilterer _ (f_engine demo_filterer) (f_cfg demo_filterer) (Filterer.S3 "trail" "") (Filterer.S3 "siem" "")
    (Some (mkS3ObjectStore DEFAULT_MULTIPART_PART_BYTES)).

Abbreviation bucket_run :=
  (process (J := demo_json) (SH := demo_shallow) (G := ref_gzip) 7 bucket_filterer (mkSchedule 0 None) "a.json" "a.json" None
     (mkRunWorld (mkEnv bucket_stores Metrics_default) [])).

Lemma filter_delivers_witness :
  exists body, RefS3.objects (st_s3 (e_store (rw_env bucket_run.2))) =
      <[("siem", "a.json") := body]> {[("trail", "a.json") := "three"]} /\
    delivers (J := demo_json) (SH := demo_shallow) (G := ref_gzip) (s_behavior demo_settings) demo_engine "three" (Some body).
Proof.
  assert (is_ok bucket_run.1 = true /\
    is_Some (RefS3.objects (st_s3 (e_store (rw_env bucket_run.2))) !! ("siem", "a.json"))) as [Hr Hw]
    by (split; [vm_compute; reflexivity|vm_compute; by eexists]).
  pose proof (filter_delivers (J := demo_json) (SH := demo_shallow) (SL := demo_shallow_laws demo_json) (G := ref_gzip)
    (SC := file_settings) (fun _ => None) 7 "settings.yaml" demo_files bucket_filterer "doc" demo_settings
    "trail" "" "siem" "" (mkSchedule 0 None) "a.json" "a.json" None (mkRunWorld (mkEnv bucket_stores Metrics_default) [])) as H.
  destruct bucket_run as [r w']. cbn [fst snd] in *.
  destruct r as [o|e]; [|done].
  destruct H as (_ & src & Hsrc & Hout).
  - vm_compute. reflexivity.
  - reflexivity.
  - vm_compute. reflexivity.
  - reflexivity.
  - reflexivity.
  - reflexivity.
  - reflexivity.
  - reflexivity.
  - intros b k s reader. cbn. destruct (RefS3.objects s !! (b, k)); [|done]. by intros [= <-].
  - intros src Hsrc. vm_compute in Hsrc. injection Hsrc as <-. by vm_compute.
  - vm_compute in Hsrc. injection Hsrc as <-. destruct Hout as [[Hsame _]|Hbody]; [|exact Hbody].
    exfalso. change (RefS3.objects (st_s3 (e_store (rw_env w'))) = {[("trail", "a.json") := "three"]}) in Hsame.
    rewrite Hsame in Hw. destruct Hw as [x Hx]. vm_compute in Hx. discriminate.
Defined.
