(* ===== verification/Text.v ===== *)
(** * Text: the string functions of the Rust standard library that the test kit reads with

    [String::from_utf8_lossy], [str::lines], [str::split_whitespace], [str::trim],
    [eq_ignore_ascii_case] and the search for a needle, over strings of bytes.  No code of the
    program. *)

From S2P Require Import Prelude.

(** ** Bytes *)

Definition in_range (lo hi : nat) (c : ascii) : bool := (lo <=? nat_of_ascii c) && (nat_of_ascii c <=? hi).

Definition is_ascii (c : ascii) : bool := in_range 0 127 c.

(** ASCII that is neither a control character nor a space. *)
Definition is_ascii_graphic (c : ascii) : bool := in_range 33 126 c.

Definition CR : ascii := "013".
Definition LF : ascii := "010".
Definition CRLF : string := String CR (String LF "").

Definition to_ascii_lowercase (c : ascii) : ascii :=
  if in_range 65 90 c then ascii_of_nat (nat_of_ascii c + 32) else c.

Fixpoint str_map (f : ascii -> ascii) (s : string) : string :=
  match s with EmptyString => EmptyString | String c s => String (f c) (str_map f s) end.

Definition eq_ignore_ascii_case (s t : string) : bool :=
  bool_decide (str_map to_ascii_lowercase s = str_map to_ascii_lowercase t).

(** ** UTF-8 *)

Definition REPLACEMENT : string := String "239" (String "191" (String "189" "")).

Definition is_continuation (c : ascii) : bool := in_range 128 191 c.

(** Whether [b] can follow [a] in a sequence of three bytes, and of four. *)
Definition second_of_three (a b : ascii) : bool :=
  (in_range 224 224 a && in_range 160 191 b) || (in_range 225 236 a && in_range 128 191 b) ||
  (in_range 237 237 a && in_range 128 159 b) || (in_range 238 239 a && in_range 128 191 b).

Definition second_of_four (a b : ascii) : bool :=
  (in_range 240 240 a && in_range 144 191 b) || (in_range 241 243 a && in_range 128 191 b) ||
  (in_range 244 244 a && in_range 128 143 b).

(** Each maximal beginning of a sequence that is not one becomes U+FFFD. *)
Fixpoint from_utf8_lossy (s : string) : string :=
  match s with
  | EmptyString => EmptyString
  | String a s1 =>
      if is_ascii a then String a (from_utf8_lossy s1)
      else match s1 with
           | EmptyString => REPLACEMENT
           | String b s2 =>
               if in_range 194 223 a then
                 if is_continuation b then String a (String b (from_utf8_lossy s2))
                 else REPLACEMENT +:+ from_utf8_lossy s1
               else if second_of_three a b then
                 match s2 with
                 | EmptyString => REPLACEMENT
                 | String c s3 =>
                     if is_continuation c then String a (String b (String c (from_utf8_lossy s3)))
                     else REPLACEMENT +:+ from_utf8_lossy s2
                 end
               else if second_of_four a b then
                 match s2 with
                 | EmptyString => REPLACEMENT
                 | String c s3 =>
                     if is_continuation c then
                       match s3 with
                       | EmptyString => REPLACEMENT
                       | String d s4 =>
                           if is_continuation d then String a (String b (String c (String d (from_utf8_lossy s4))))
                           else REPLACEMENT +:+ from_utf8_lossy s3
                       end
                     else REPLACEMENT +:+ from_utf8_lossy s2
                 end
               else REPLACEMENT +:+ from_utf8_lossy s1
           end
  end.

(** ** White space *)

(** [char::is_whitespace] of the character the text begins with: how many bytes of it come
    after the first. *)
Definition whitespace (s : string) : option nat :=
  match s with
  | EmptyString => None
  | String a s1 =>
      if in_range 9 13 a || in_range 32 32 a then Some 0
      else match s1 with
           | EmptyString => None
           | String b s2 =>
               if in_range 194 194 a && (in_range 133 133 b || in_range 160 160 b) then Some 1
               else match s2 with
                    | EmptyString => None
                    | String c _ =>
                        if (in_range 225 225 a && in_range 154 154 b && in_range 128 128 c) ||
                           (in_range 226 226 a && in_range 128 128 b &&
                              (in_range 128 138 c || in_range 168 169 c || in_range 175 175 c)) ||
                           (in_range 226 226 a && in_range 129 129 b && in_range 159 159 c) ||
                           (in_range 227 227 a && in_range 128 128 b && in_range 128 128 c)
                        then Some 2 else None
                    end
           end
  end.

Definition word (cur : string) : list string := if str_is_empty cur then [] else [cur].

(** [skip] bytes of a white space character are still to be passed over. *)
Fixpoint split_words (skip : nat) (cur s : string) : list string :=
  match s with
  | EmptyString => word cur
  | String c s' =>
      match skip with
      | S skip => split_words skip cur s'
      | O =>
          match whitespace s with
          | Some n => word cur ++ split_words n "" s'
          | None => split_words 0 (cur +:+ String c "") s'
          end
      end
  end.

Definition split_whitespace (s : string) : list string := split_words 0 "" s.

Fixpoint trim_start_from (skip : nat) (s : string) : string :=
  match s with
  | EmptyString => EmptyString
  | String _ s' =>
      match skip with
      | S skip => trim_start_from skip s'
      | O => match whitespace s with Some n => trim_start_from n s' | None => s end
      end
  end.

Fixpoint trim_end (s : string) : string :=
  match s with
  | EmptyString => EmptyString
  | String c s' => if str_is_empty (trim_start_from 0 s) then EmptyString else String c (trim_end s')
  end.

Definition trim (s : string) : string := trim_end (trim_start_from 0 s).

(** ** Lines and needles *)

(** A line ends at [LF]; a [CR] before it is part of the ending.  What follows the last [LF] is
    a line unless it is empty. *)
Definition strip_cr (s : string) : string := default s (strip_suffix_char CR s).

Definition lines (s : string) : list string :=
  let pieces := split_char LF s in
  map strip_cr (removelast pieces) ++
  match last pieces with Some piece => word piece | None => [] end.

(** [haystack.windows(needle.len()).position(|window| window == needle)] *)
Fixpoint find_str (needle haystack : string) : option nat :=
  if starts_with needle haystack then Some 0
  else match haystack with
       | EmptyString => None
       | String _ haystack => S <$> find_str needle haystack
       end.

(** [s.strip_suffix(suffix)] *)
Definition strip_suffix (suffix s : string) : option string :=
  let n := String.length s - String.length suffix in
  if bool_decide (str_drop n s = suffix) then Some (str_take n s) else None.

(** [{n:0width}] *)
Fixpoint zeros (n : nat) : string := match n with O => "" | S n => String "0" (zeros n) end.
Definition zero_padded (width : nat) (n : N) : string :=
  let digits := pretty n in zeros (width - String.length digits) +:+ digits.

(** ** Lemmas *)

Lemma str_all_app p s t : str_all p (s +:+ t) = str_all p s && str_all p t.
Proof. induction s as [|c s IH]; [done|]. cbn. by rewrite IH, andb_assoc. Qed.

Lemma str_all_impl (p q : ascii -> bool) s : (forall c, p c = true -> q c = true) -> str_all p s = true -> str_all q s = true.
Proof. intros Hpq. induction s as [|c s IH]; [done|]. cbn. intros H. bools. rewrite Hpq by done. by apply IH. Qed.

Lemma from_utf8_lossy_ascii s : str_all is_ascii s = true -> from_utf8_lossy s = s.
Proof. induction s as [|c s IH]; [done|]. cbn [str_all from_utf8_lossy]. intros H. bools. rewrite H. by rewrite IH. Qed.

Lemma graphic_ascii c : is_ascii_graphic c = true -> is_ascii c = true.
Proof. unfold is_ascii_graphic, is_ascii, in_range. intros. bools. apply andb_true_iff. rewrite !Nat.leb_le in *. lia. Qed.

(** A printing ASCII character is not white space. *)
Lemma graphic_word c s : is_ascii_graphic c = true -> whitespace (String c s) = None.
Proof.
  unfold is_ascii_graphic, whitespace, in_range. intros H. bools. rewrite !Nat.leb_le in *.
  assert (forall lo hi, (hi < 33 \/ 126 < lo)%nat -> (lo <=? nat_of_ascii c) && (nat_of_ascii c <=? hi) = false) as Hout.
  { intros lo hi Hb. apply andb_false_iff. rewrite !Nat.leb_gt. lia. }
  rewrite !Hout by lia. cbn. by destruct s as [|b [|d s]].
Qed.

Lemma split_words_graphic w cur s :
  str_all is_ascii_graphic w = true -> split_words 0 cur (w +:+ s) = split_words 0 (cur +:+ w) s.
Proof.
  revert cur. induction w as [|c w IH]; intros cur; [by rewrite str_app_nil_r|]. cbn [str_all]. intros H. bools.
  change (String c w +:+ s) with (String c (w +:+ s)). cbn [split_words]. rewrite graphic_word by done.
  rewrite IH by done. by rewrite str_app_assoc.
Qed.

(** Words and the spaces between them. *)
Lemma split_whitespace_word w s :
  w <> "" -> str_all is_ascii_graphic w = true -> split_whitespace (w +:+ String " " s) = w :: split_whitespace s.
Proof.
  intros Hne Hw. unfold split_whitespace. rewrite split_words_graphic by done.
  change ("" +:+ w) with w. cbn [split_words whitespace]. unfold word. by destruct w.
Qed.

Lemma trim_start_graphic c s : is_ascii_graphic c = true -> trim_start_from 0 (String c s) = String c s.
Proof. intros H. cbn [trim_start_from]. by rewrite graphic_word. Qed.

Lemma trim_end_graphic s : str_all is_ascii_graphic s = true -> trim_end s = s.
Proof.
  induction s as [|c s IH]; [done|]. cbn [str_all trim_end]. intros H. bools. rewrite trim_start_graphic by done.
  cbn. by rewrite IH.
Qed.

Lemma trim_graphic s : str_all is_ascii_graphic s = true -> trim s = s.
Proof.
  unfold trim. destruct s as [|c s]; [done|]. intros H. pose proof H as H'. cbn [str_all] in H'. bools.
  by rewrite trim_start_graphic, trim_end_graphic.
Qed.

Lemma trim_space s : trim (String " " s) = trim s.
Proof. done. Qed.

Lemma strip_cr_snoc s : strip_cr (s +:+ String CR "") = s.
Proof. unfold strip_cr. by rewrite (proj2 (strip_suffix_char_Some CR _ s) eq_refl). Qed.

(** Lines, each with its ending. *)
Definition with_endings (ls : list string) : string := str_join "" (map (fun l => l +:+ CRLF) ls).

Lemma with_endings_cons l ls : with_endings (l :: ls) = l +:+ CRLF +:+ with_endings ls.
Proof. unfold with_endings. cbn [map str_join]. destruct (map _ ls) eqn:E; [|by rewrite str_app_assoc]. by rewrite !str_app_nil_r. Qed.

Lemma with_endings_app ls ls' : with_endings (ls ++ ls') = with_endings ls +:+ with_endings ls'.
Proof. induction ls as [|l ls IH]; [done|]. cbn [app]. by rewrite !with_endings_cons, IH, !str_app_assoc. Qed.

Lemma lines_with_endings ls : Forall (fun l => char_in LF l = false) ls -> lines (with_endings ls) = ls.
Proof.
  intros H. unfold lines.
  assert (split_char LF (with_endings ls) = map (fun l => l +:+ String CR "") ls ++ [""]) as ->.
  { induction H as [|l ls Hl _ IH]; [done|]. rewrite with_endings_cons. unfold CRLF.
    change (l +:+ String CR (String LF "") +:+ with_endings ls) with (l +:+ String CR "" +:+ String LF (with_endings ls)).
    rewrite <-str_app_assoc, split_char_app, IH; [done|]. by rewrite char_in_app, Hl. }
  rewrite removelast_last, last_snoc. cbn. rewrite app_nil_r, map_map.
  induction ls as [|l ls IH]; [done|]. inversion H; subst. cbn [map]. by rewrite strip_cr_snoc, IH.
Qed.

(** *** The first occurrence of a needle *)

Lemma starts_with_longer p s t : starts_with p s = true -> starts_with p (s +:+ t) = true.
Proof. rewrite !starts_with_spec. intros [u ->]. exists (u +:+ t). by rewrite str_app_assoc. Qed.

Lemma find_str_bound n s i : find_str n s = Some i -> i + String.length n <= String.length s.
Proof.
  assert (forall s, starts_with n s = true -> String.length n <= String.length s) as Hs.
  { intros s' [u ->]%starts_with_spec. rewrite str_length_app. lia. }
  revert i. induction s as [|c s IH]; intros i; cbn [find_str]; destruct (starts_with n _) eqn:E;
    intros H; simplify_eq/=; try (apply Hs in E; cbn in *; lia).
  destruct (find_str n s) as [j|]; [|done]. injection H as <-. specialize (IH j eq_refl). lia.
Qed.

Lemma str_take_app_le k s t : k <= String.length s -> str_take k (s +:+ t) = str_take k s.
Proof.
  revert s. induction k as [|k IH]; intros [|c s] Hk; try done; cbn in Hk; [lia|].
  change (String c s +:+ t) with (String c (s +:+ t)). cbn [str_take]. rewrite IH by lia. done.
Qed.

Lemma str_drop_app_le k s t : k <= String.length s -> str_drop k (s +:+ t) = str_drop k s +:+ t.
Proof.
  revert s. induction k as [|k IH]; intros [|c s] Hk; try done; cbn in Hk; [lia|].
  change (String c s +:+ t) with (String c (s +:+ t)). cbn [str_drop]. rewrite IH by lia. done.
Qed.

(** What a text begins with does not depend on what follows it. *)
Lemma starts_with_prefix n s t : String.length n <= String.length s -> starts_with n (s +:+ t) = starts_with n s.
Proof.
  intros Hn. apply eq_true_iff_eq. split; [|apply starts_with_longer]. rewrite !starts_with_spec. intros [u Hu].
  exists (str_drop (String.length n) s). apply (f_equal (str_take (String.length n))) in Hu.
  rewrite str_take_app, str_take_app_le in Hu by done. rewrite <-Hu at 1. symmetry. apply str_take_drop.
Qed.

Lemma find_str_app n s t i : find_str n s = Some i -> find_str n (s +:+ t) = Some i.
Proof.
  revert i. induction s as [|c s IH]; intros i; cbn [find_str]; destruct (starts_with n _) eqn:E.
  - intros [= <-]. apply (starts_with_longer _ _ t) in E. destruct (EmptyString +:+ t); cbn [find_str]; by rewrite E.
  - done.
  - intros [= <-]. apply (starts_with_longer _ _ t) in E. change (String c s +:+ t) with (String c (s +:+ t)) in *.
    cbn [find_str]. by rewrite E.
  - intros H. destruct (find_str n s) as [j|] eqn:Ej; [|done]. injection H as <-.
    pose proof (find_str_bound _ _ _ Ej). rewrite <-(starts_with_prefix n (String c s) t) in E by (cbn; lia).
    change (String c s +:+ t) with (String c (s +:+ t)) in *. cbn [find_str]. by rewrite E, (IH j eq_refl).
Qed.

Lemma find_str_prefix n s t i :
  n <> "" -> find_str n (s +:+ t) = Some i -> i + String.length n <= String.length s -> find_str n s = Some i.
Proof.
  intros Hn. revert i. induction s as [|c s IH]; intros i H Hi.
  - destruct n; [done|]. cbn in Hi. lia.
  - assert (starts_with n (String c s +:+ t) = true -> starts_with n (String c s) = true) as Hs.
    { intros Hs. rewrite starts_with_prefix in Hs; [done|]. lia. }
    change (String c s +:+ t) with (String c (s +:+ t)) in *. cbn [find_str] in *.
    destruct (starts_with n (String c (s +:+ t))) eqn:E.
    + injection H as <-. by rewrite Hs.
    + destruct (find_str n (s +:+ t)) as [j|] eqn:Ej; [|done]. injection H as <-. cbn in Hi.
      rewrite (IH j eq_refl) by lia. destruct (starts_with n (String c s)) eqn:E'; [|done].
      apply (starts_with_longer _ _ t) in E'. change (String c s +:+ t) with (String c (s +:+ t)) in E'. congruence.
Qed.

(** The needle's first character is not in [l]. *)
Lemma find_str_skip c n l s : char_in c l = false -> find_str (String c n) (l +:+ s) = Nat.add (String.length l) <$> find_str (String c n) s.
Proof.
  induction l as [|d l IH]; intros Hl.
  - cbn. by destruct (find_str (String c n) s).
  - cbn [char_in] in Hl. bools. change (String d l +:+ s) with (String d (l +:+ s)). cbn [find_str].
    unfold starts_with. cbn [strip_prefix]. rewrite decide_False by congruence. rewrite IH by done.
    by destruct (find_str (String c n) s).
Qed.

Lemma starts_with_cons a b n s : starts_with (String a n) (String b s) = bool_decide (a = b) && starts_with n s.
Proof. unfold starts_with. cbn [strip_prefix]. case_decide; [by rewrite bool_decide_eq_true_2|by rewrite bool_decide_eq_false_2]. Qed.

(** A line ending before a line is not the empty line. *)
Lemma find_str_crlf d s :
  d <> CR -> find_str (CRLF +:+ CRLF) (CRLF +:+ String d s) = Nat.add 2 <$> find_str (CRLF +:+ CRLF) (String d s).
Proof.
  intros Hd. change (CRLF +:+ CRLF) with (String CR (String LF CRLF)).
  change (CRLF +:+ String d s) with (String CR (String LF (String d s))).
  assert (starts_with CRLF (String d s) = false) as Hs.
  { unfold CRLF. rewrite starts_with_cons. by rewrite bool_decide_eq_false_2 by congruence. }
  remember (String d s) as ds eqn:Hds. clear Hds. cbn [find_str]. rewrite !starts_with_cons, Hs, !andb_false_r.
  rewrite (bool_decide_eq_false_2 (CR = LF)) by done. cbn [andb]. by destruct (find_str _ ds).
Qed.

Lemma find_str_line l s :
  char_in CR l = false -> find_str (CRLF +:+ CRLF) (l +:+ s) = Nat.add (String.length l) <$> find_str (CRLF +:+ CRLF) s.
Proof. apply find_str_skip. Qed.

(** The first empty line comes after the lines that are not. *)
Lemma find_blank_line l ls s :
  Forall (fun l => l <> "" /\ char_in CR l = false) (l :: ls) ->
  find_str (CRLF +:+ CRLF) (with_endings (l :: ls) +:+ CRLF +:+ s) = Some (String.length (with_endings (l :: ls)) - 2).
Proof.
  revert l. induction ls as [|l' ls IH]; intros l H; inversion H as [|? ? [Hne Hl] Hls]; subst;
    rewrite with_endings_cons, !str_app_assoc;
    rewrite find_str_line by done.
  - change (with_endings [] +:+ CRLF +:+ s) with (CRLF +:+ s). rewrite <-(str_app_assoc CRLF CRLF s).
    assert (find_str (CRLF +:+ CRLF) ((CRLF +:+ CRLF) +:+ s) = Some 0) as -> by done.
    cbn. rewrite !str_length_app. cbn. f_equal. lia.
  - specialize (IH l' Hls). inversion Hls as [|? ? [Hne' Hl'] _]; subst. destruct l' as [|d l']; [done|].
    cbn [char_in] in Hl'. bools. rewrite with_endings_cons, !str_app_assoc in *.
    change (String d l' +:+ ?x) with (String d (l' +:+ x)) in *. rewrite find_str_crlf by congruence. rewrite IH. cbn.
    rewrite !str_length_app. cbn. f_equal. rewrite !str_length_app. cbn. lia.
Qed.

(** *** Suffixes *)

Lemma str_app_snoc_inj s t c d : s +:+ String c "" = t +:+ String d "" -> c = d.
Proof.
  revert t. induction s as [|a s IH]; intros [|b t] H; cbn in H; simplify_eq/=; try done.
  - by destruct t.
  - by destruct s.
  - by eapply IH.
Qed.

Lemma strip_suffix_app s t : strip_suffix t (s +:+ t) = Some s.
Proof.
  unfold strip_suffix. rewrite str_length_app, Nat.add_sub, str_drop_app, bool_decide_eq_true_2 by done.
  by rewrite str_take_app.
Qed.

Lemma strip_suffix_Some p s t : strip_suffix t s = Some p -> s = p +:+ t.
Proof.
  unfold strip_suffix. case_bool_decide as H; [|done]. intros [= <-]. rewrite <-H at 2. symmetry. apply str_take_drop.
Qed.

Lemma strip_prefix_app p s : strip_prefix p (p +:+ s) = Some s.
Proof. by apply strip_prefix_Some. Qed.
