(* ===== verification/RuntimeApi.v ===== *)
(** * The stand-in Lambda Runtime API ([testkit/src/runtime_api.rs])

    The server the end-to-end tests run a binary's [main] against: it hands out the queued
    events to successive polls and records what the function reports.  [read_request] frames
    HTTP/1.1 requests out of whatever pieces a socket delivers, [respond] answers one, and the
    connections, each a thread, share [State] under locks.  Last, the loop a test waits for
    outcomes in, and a whole session of a container of Lambda behind it. *)

From S2P Require Import Prelude Model Json Path Regex Rules Reference Index Project Engine.
From S2P Require Import Settings Effects Metrics Ports Text.

Module FakeRuntimeApi.

(** ** What a function reports *)

Inductive Outcome : Type :=
  | Response (request_id body : string)
  | Failure (request_id body : string)
  | InitError (body : string).

Definition outcome_body (o : Outcome) : string :=
  match o with Response _ body | Failure _ body | InitError body => body end.

(** ** The shared state *)

Record State := mkState {
  pending : list (string * string);
  outcomes : list Outcome;
  shutdown : bool;
}.

Definition request_id (i : nat) : string := "req-" +:+ pretty (N.of_nat i).

(** [to_string] is [serde_json::Value]'s. *)
Definition start {V} (to_string : V -> string) (events : list V) : State :=
  mkState (imap (fun i e => (request_id i, to_string e)) events) [] false.

(** [Drop]. *)
Definition drop_api (st : State) : State := mkState (pending st) (outcomes st) true.

(** ** Reading a request *)

(** What a connection's thread finds at its next read: bytes, a timeout, or the shutdown flag
    set.  Past the last, the peer has closed or the socket has failed. *)
Inductive Arrival : Type :=
  | Chunk (b : Bytes)
  | TimedOut
  | Stopping.

Fixpoint read_more (stream : list Arrival) (buf : Bytes) : option (Bytes * list Arrival) :=
  match stream with
  | [] => None
  | Stopping :: _ => None
  | TimedOut :: stream => read_more stream buf
  | Chunk b :: stream => if str_is_empty b then None else Some (buf +:+ b, stream)
  end.

(** The first loop, up to the empty line.  A read takes an arrival, so there are no more turns
    than arrivals. *)
Fixpoint read_head (turns : nat) (stream : list Arrival) (buf : Bytes) : option (nat * Bytes * list Arrival) :=
  match find_str (CRLF +:+ CRLF) buf with
  | Some pos => Some (pos + 4, buf, stream)
  | None =>
      match turns with
      | O => None
      | S turns => '(buf, stream) ← read_more stream buf; read_head turns stream buf
      end
  end.

(** The second loop, up to [n] bytes. *)
Fixpoint read_body (turns : nat) (stream : list Arrival) (buf : Bytes) (n : N) : option (Bytes * list Arrival) :=
  if (N.of_nat (String.length buf) <? n)%N then
    match turns with
    | O => None
    | S turns => '(buf, stream) ← read_more stream buf; read_body turns stream buf n
    end
  else Some (buf, stream).

Definition is_content_length (header : string * string) : bool :=
  eq_ignore_ascii_case (trim header.1) "content-length".

(** The first such header decides, and it counts for nothing if it does not parse. *)
Definition content_length (headers : list string) : N :=
  default 0%N
    (header ← find_first is_content_length (omap (split_once ":") headers);
     parse_uint USIZE_MAX (trim header.2)).

Abbreviation Request := (string * string * Bytes)%type.

(** [None] ends the connection; a length that overflows panics its thread, which does too.
    Bytes after the request are dropped with the buffer. *)
Definition read_request (stream : list Arrival) : option (Request * list Arrival) :=
  '(head_end, buf, stream) ← read_head (length stream) stream "";
  let head := lines (from_utf8_lossy (str_take head_end buf)) in
  request_line ← hd_error head;
  match split_whitespace request_line with
  | method :: path :: _ =>
      let content_length := content_length (tail head) in
      let end_ := (N.of_nat head_end + content_length)%N in
      if (USIZE_MAX <? end_)%N then None
      else
        '(buf, stream) ← read_body (length stream) stream buf end_;
        Some ((method, path, str_take (N.to_nat content_length) (str_drop head_end buf)), stream)
  | _ => None
  end.

(** ** Answering it *)

Definition NEXT : string := "/2018-06-01/runtime/invocation/next".
Definition INIT_ERROR : string := "/2018-06-01/runtime/init/error".

(** [None] while parked. *)
Definition next_event (st : State) : option (option (string * string) * State) :=
  if shutdown st then Some (None, st)
  else match pending st with
       | [] => None
       | event :: pending => Some (Some event, mkState pending (outcomes st) (shutdown st))
       end.

Definition strip_invocation (path suffix : string) : option string :=
  rest ← strip_prefix "/2018-06-01/runtime/invocation/" path;
  strip_suffix suffix rest.

(** [Date::now] plus the minute is [deadline_ms]. *)
Definition next_head (deadline_ms : N) (request_id payload : string) : string :=
  with_endings
    ["HTTP/1.1 200 OK";
     "Content-Type: application/json";
     "Content-Length: " +:+ pretty (N.of_nat (String.length payload));
     "Lambda-Runtime-Aws-Request-Id: " +:+ request_id;
     "Lambda-Runtime-Deadline-Ms: " +:+ pretty deadline_ms;
     "Lambda-Runtime-Invoked-Function-Arn: arn:aws:lambda:us-east-1:000000000000:function:testkit";
     "Lambda-Runtime-Trace-Id: Root=1-00000000-000000000000000000000000";
     ""].

Definition ACCEPTED : string := with_endings ["HTTP/1.1 202 Accepted"; "Content-Length: 0"; ""].
Definition NOT_FOUND : string := with_endings ["HTTP/1.1 404 Not Found"; "Content-Length: 0"; ""].

(** The [outcome] of a [POST]. *)
Definition reported (path body : string) : option Outcome :=
  if decide (path = INIT_ERROR) then Some (InitError body)
  else match strip_invocation path "/response" with
       | Some request_id => Some (Response request_id body)
       | None =>
           match strip_invocation path "/error" with
           | Some request_id => Some (Failure request_id body)
           | None => None
           end
       end.

Definition is_next (method path : string) : bool := bool_decide (method = "GET") && bool_decide (path = NEXT).

(** What is written, one text per [write_all], or [None] to drop the connection; the outer
    [None] is a poll that parks. *)
Definition respond (deadline_ms : N) (st : State) (request : Request) : option (option (list Bytes) * State) :=
  let '(method, path, body) := request in
  let body := from_utf8_lossy body in
  if is_next method path then
    '(event, st) ← next_event st;
    match event with
    | None => Some (None, st)
    | Some (request_id, payload) => Some (Some [next_head deadline_ms request_id payload; payload], st)
    end
  else if bool_decide (method = "POST") then
    match reported path body with
    | Some outcome => Some (Some [ACCEPTED], mkState (pending st) (outcomes st ++ [outcome]) (shutdown st))
    | None => Some (Some [NOT_FOUND], st)
    end
  else Some (Some [NOT_FOUND], st).

(** ** The connections *)

(** A thread of [handle_conn]: what its socket will deliver, the request it is at, and what it
    has written. *)
Record Conn := mkConn {
  cn_stream : list Arrival;
  cn_request : option Request;
  cn_sent : list Bytes;
  cn_open : bool;
}.

(** One turn of its loop, in two steps; [writes] says whether the peer takes what is written.
    [None] while it is parked, and once it has ended. *)
Definition handle_conn (writes : bool) (deadline_ms : N) (st : State) (c : Conn) : option (Conn * State) :=
  if cn_open c then
    match cn_request c with
    | None =>
        match read_request (cn_stream c) with
        | Some (request, stream) => Some (mkConn stream (Some request) (cn_sent c) true, st)
        | None => Some (mkConn [] None (cn_sent c) false, st)
        end
    | Some request =>
        '(reply, st) ← respond deadline_ms st request;
        match reply with
        | Some parts => Some (mkConn (cn_stream c) None (cn_sent c ++ parts) writes, st)
        | None => Some (mkConn (cn_stream c) None (cn_sent c) false, st)
        end
    end
  else None.

Record Server := mkServer {
  sv_state : State;
  sv_conns : list Conn;
}.

(** What a step does to the shared state. *)
Inductive Did : Type :=
  | Handed (event : string * string)
  | Reported (o : Outcome)
  | Nothing.

Definition did (st : State) (c : Conn) : Did :=
  match cn_request c with
  | Some (method, path, body) =>
      if is_next method path then
        match next_event st with Some (Some event, _) => Handed event | _ => Nothing end
      else if bool_decide (method = "POST") then
        match reported path (from_utf8_lossy body) with Some o => Reported o | None => Nothing end
      else Nothing
  | None => Nothing
  end.

(** Threads step in any order; [accept_loop] starts one per connection until the shutdown. *)
Inductive step : Server -> nat * Did -> Server -> Prop :=
  | step_conn writes deadline_ms i c c' st st' conns :
      conns !! i = Some c -> handle_conn writes deadline_ms st c = Some (c', st') ->
      step (mkServer st conns) (i, did st c) (mkServer st' (<[i := c']> conns))
  | step_accept stream st conns :
      shutdown st = false ->
      step (mkServer st conns) (length conns, Nothing) (mkServer st (conns ++ [mkConn stream None [] true]))
  | step_drop st conns : step (mkServer st conns) (length conns, Nothing) (mkServer (drop_api st) conns).

Inductive steps : Server -> list (nat * Did) -> Server -> Prop :=
  | steps_nil s : steps s [] s
  | steps_snoc s trace s' l s'' : steps s trace s' -> step s' l s'' -> steps s (trace ++ [l]) s''.

(** ** Waiting for outcomes *)

(** What one turn of [wait_for_outcomes] sees: the outcomes so far, whether the child has exited
    and with what, and whether the deadline has passed. *)
Record Observed := mkObserved {
  ob_outcomes : list Outcome;
  ob_exited : option string;
  ob_late : bool;
}.

Definition is_init_error (o : Outcome) : bool := match o with InitError _ => true | _ => false end.

(** [Err] is a panic, whose text begins so; [None] is a wait that is not over. *)
Fixpoint wait_for_outcomes (n : nat) (observed : list Observed) : option (result Msg (list Outcome)) :=
  match observed with
  | [] => None
  | ob :: observed =>
      if (n <=? length (ob_outcomes ob)) || existsb is_init_error (ob_outcomes ob) then Some (Ok (ob_outcomes ob))
      else match ob_exited ob with
           | Some status =>
               Some (Err (Fmt "lambda exited with {status} after reporting {} of {n} outcome(s)"
                            [Lit status; Lit (pretty (N.of_nat (length (ob_outcomes ob)))); Lit (pretty (N.of_nat n))]))
           | None =>
               if ob_late ob then
                 Some (Err (Fmt "timed out after {timeout:?} waiting for {n} outcome(s); got {}"
                              [Lit (pretty (N.of_nat n)); Lit (pretty (N.of_nat (length (ob_outcomes ob))))]))
               else wait_for_outcomes n observed
           end
  end.

Definition expect_one_response (observed : list Observed) : option (result Msg string) :=
  r ← wait_for_outcomes 1 observed;
  Some (outcomes ← r;
        match outcomes with
        | Response _ body :: _ => Ok body
        | _ => Err (Lit "expected a successful invocation")
        end).

(** [drain]: what the reads of a pipe add to the log, up to its end. *)
Fixpoint drain (reads : list Bytes) (log : string) : string :=
  match reads with
  | [] | EmptyString :: _ => log
  | chunk :: reads => drain reads (log +:+ from_utf8_lossy chunk)
  end.

(** ** Specification: a request on the wire *)

(** What a stream delivers before it goes quiet; the server is not stopped meanwhile. *)
Fixpoint delivered (stream : list Arrival) : option Bytes :=
  match stream with
  | [] => Some ""
  | Stopping :: _ => None
  | TimedOut :: stream => delivered stream
  | Chunk b :: stream => if str_is_empty b then None else rest ← delivered stream; Some (b +:+ rest)
  end.

(** A header line: printing ASCII and spaces. *)
Definition is_line_char (c : ascii) : bool := is_ascii_graphic c || bool_decide (c = " "%char).

Definition is_header_line (h : string) : bool := negb (str_is_empty h) && str_all is_line_char h.

Definition other_header (h : string) : bool :=
  match split_once ":" h with Some header => negb (is_content_length header) | None => true end.

(** The headers say the body is [n] bytes long: the first [Content-Length], however its name
    is capitalised, or, without one, no body. *)
Inductive declares : list string -> nat -> Prop :=
  | declares_none headers : forallb other_header headers = true -> declares headers 0
  | declares_length before name n after :
      forallb other_header before = true -> str_all is_ascii_graphic name = true -> char_in ":" name = false ->
      eq_ignore_ascii_case name "content-length" = true ->
      declares (before ++ (name +:+ ": " +:+ pretty (N.of_nat n)) :: after) n.

Definition request_head (method path : string) (headers : list string) : string :=
  with_endings ((method +:+ " " +:+ path +:+ " HTTP/1.1") :: headers) +:+ CRLF.

(** ** Lemmas: reading *)

Lemma read_more_delivers stream buf t :
  delivered stream = Some t -> t <> "" ->
  exists b t' stream', read_more stream buf = Some (buf +:+ b, stream') /\ t = b +:+ t' /\ delivered stream' = Some t' /\
    length stream' < length stream.
Proof.
  revert t. induction stream as [|[b| |] stream IH]; intros t; cbn [delivered read_more]; [by intros [= <-]| | |done].
  - destruct (str_is_empty b); [done|]. destruct (delivered stream) as [t'|] eqn:E; [|done]. intros [= <-] _.
    exists b, t', stream. split_and!; [done|done|done|cbn; lia].
  - intros H Ht. destruct (IH t H Ht) as (b & t' & stream' & ? & ? & ? & ?). exists b, t', stream'.
    split_and!; [done|done|done|cbn; lia].
Qed.

Lemma read_head_delivers turns stream buf t i :
  length stream <= turns -> delivered stream = Some t -> find_str (CRLF +:+ CRLF) (buf +:+ t) = Some i ->
  exists buf' t' stream', read_head turns stream buf = Some (i + 4, buf', stream') /\ delivered stream' = Some t' /\
    buf' +:+ t' = buf +:+ t /\ length stream' <= length stream /\ i + 4 <= String.length buf'.
Proof.
  revert stream buf t. induction turns as [|turns IH]; intros stream buf t Hn Hd Hf; cbn [read_head];
    destruct (find_str (CRLF +:+ CRLF) buf) as [pos|] eqn:E.
  1, 3: rewrite (find_str_app _ _ t _ E) in Hf; injection Hf as ->; pose proof (find_str_bound _ _ _ E);
    exists buf, t, stream; split_and!; (done || lia).
  - destruct stream; [|cbn in Hn; lia]. injection Hd as <-. rewrite str_app_nil_r in Hf. congruence.
  - destruct (read_more_delivers stream buf t Hd) as (b & t' & stream' & -> & -> & Hd' & Hlt).
    { intros ->. rewrite str_app_nil_r in Hf. congruence. }
    cbn [mbind option_bind]. destruct (IH stream' (buf +:+ b) t') as (buf2 & t2 & stream2 & Hr & ? & Happ & ? & ?);
      [lia|done|by rewrite str_app_assoc|].
    exists buf2, t2, stream2. rewrite Happ, str_app_assoc. split_and!; (done || lia).
Qed.

Lemma read_body_delivers turns stream buf t n :
  length stream <= turns -> delivered stream = Some t -> (n <= N.of_nat (String.length (buf +:+ t)))%N ->
  exists buf' t' stream', read_body turns stream buf n = Some (buf', stream') /\ delivered stream' = Some t' /\
    buf' +:+ t' = buf +:+ t /\ (n <= N.of_nat (String.length buf'))%N.
Proof.
  revert stream buf t. induction turns as [|turns IH]; intros stream buf t Hl Hd Hn; cbn [read_body];
    destruct (N.ltb_spec (N.of_nat (String.length buf)) n) as [Hlt|Hge].
  2, 4: exists buf, t, stream; split_and!; (done || lia).
  - destruct stream; [|cbn in Hl; lia]. injection Hd as <-. rewrite str_app_nil_r in Hn. lia.
  - destruct (read_more_delivers stream buf t Hd) as (b & t' & stream' & -> & -> & Hd' & Hls).
    { intros ->. rewrite str_app_nil_r in Hn. lia. }
    cbn [mbind option_bind]. destruct (IH stream' (buf +:+ b) t') as (buf2 & t2 & stream2 & Hr & ? & Happ & ?);
      [lia|done|by rewrite str_app_assoc|].
    exists buf2, t2, stream2. rewrite Happ, str_app_assoc. split_and!; (done || lia).
Qed.

(** ** Lemmas: the head *)

Lemma line_char c : is_line_char c = true -> is_ascii c = true /\ c <> CR /\ c <> LF.
Proof.
  unfold is_line_char. intros [H|H]%orb_true_iff.
  - split; [by apply graphic_ascii|]. by split; intros ->.
  - apply bool_decide_eq_true in H as ->. done.
Qed.

Lemma header_line h : is_header_line h = true -> h <> "" /\ char_in CR h = false /\ char_in LF h = false /\ str_all is_ascii h = true.
Proof.
  unfold is_header_line. intros H. bools. split_and!.
  - by intros ->.
  - apply (str_all_not_in is_line_char); [done|]. by vm_compute.
  - apply (str_all_not_in is_line_char); [done|]. by vm_compute.
  - eapply str_all_impl; [|done]. intros c Hc. by apply line_char.
Qed.

Lemma content_length_other headers rest :
  forallb other_header headers = true -> content_length (headers ++ rest) = content_length rest.
Proof.
  unfold content_length, other_header. intros H. do 2 f_equal.
  induction headers as [|h headers IH]; [done|]. cbn [forallb app omap list_omap] in *. bools.
  destruct (split_once ":" h) as [header|]; [|by apply IH]. cbn [find_first]. bools. rewrite H. by apply IH.
Qed.

Lemma pretty_graphic n : str_all is_ascii_graphic (pretty (n : N)) = true.
Proof.
  eapply str_all_impl; [|apply pretty_N_digits]. intros c. unfold is_ascii_digit, is_ascii_graphic, in_range.
  intros. bools. rewrite !Nat.leb_le in *. apply andb_true_iff. rewrite !Nat.leb_le. lia.
Qed.

Lemma declares_content_length headers n :
  declares headers n -> (N.of_nat n <= USIZE_MAX)%N -> content_length headers = N.of_nat n.
Proof.
  destruct 1 as [headers Ho|before name n after Ho Hg Hc He]; intros Hn.
  - rewrite <-(app_nil_r headers), content_length_other by done. done.
  - rewrite content_length_other by done. unfold content_length. cbn [omap list_omap].
    assert (split_once ":" (name +:+ ": " +:+ pretty (N.of_nat n)) = Some (name, " " +:+ pretty (N.of_nat n))) as ->.
    { unfold split_once. change (": " +:+ ?x) with (String ":" (" " +:+ x)). rewrite find_char_here by done. cbn [mbind option_bind].
      by rewrite str_take_app, str_drop_app_cons. }
    cbn [find_first]. unfold is_content_length. cbn [fst snd]. rewrite trim_graphic, He by done. cbn [mbind option_bind snd].
    change (" " +:+ ?x) with (String " " x). rewrite trim_space, trim_graphic, parse_uint_pretty by (done || apply pretty_graphic).
    done.
Qed.

(** What a request may be: its method and path have no space in them. *)
Record well_formed (method path : string) (headers : list string) (body : Bytes) : Prop := {
  wf_method : method <> "" /\ str_all is_ascii_graphic method = true;
  wf_path : path <> "" /\ str_all is_ascii_graphic path = true;
  wf_headers : forallb is_header_line headers = true;
  wf_length : declares headers (String.length body);
  wf_size : (N.of_nat (String.length (request_head method path headers +:+ body)) <= USIZE_MAX)%N;
}.

Section head.
Context (method path : string) (headers : list string) (body : Bytes) (Hwf : well_formed method path headers body).

Let request_line : string := method +:+ " " +:+ path +:+ " HTTP/1.1".

Lemma request_line_header : is_header_line request_line = true.
Proof.
  destruct Hwf as [[Hm Hmg] [Hp Hpg] _ _ _]. unfold is_header_line, request_line. apply andb_true_iff. split.
  - by destruct method.
  - rewrite !str_all_app, !andb_true_iff. assert (forall c, is_ascii_graphic c = true -> is_line_char c = true) as Hl.
    { intros c Hc. unfold is_line_char. by rewrite Hc. }
    split_and!; try done; by eapply str_all_impl.
Qed.

Lemma head_lines_all : Forall (fun l => is_header_line l = true) (request_line :: headers).
Proof. constructor; [apply request_line_header|]. apply forallb_Forall, (wf_headers _ _ _ _ Hwf). Qed.

Lemma head_end :
  find_str (CRLF +:+ CRLF) (request_head method path headers +:+ body) =
  Some (String.length (request_head method path headers) - 4) /\
  4 <= String.length (request_head method path headers).
Proof.
  unfold request_head. fold request_line. split.
  - rewrite str_app_assoc, find_blank_line.
    + rewrite str_length_app. f_equal. cbn. lia.
    + eapply Forall_impl; [apply head_lines_all|]. intros l Hl. by apply header_line in Hl as (? & ? & _ & _).
  - rewrite with_endings_cons, !str_length_app. cbn. lia.
Qed.

Lemma head_is_text : from_utf8_lossy (request_head method path headers) = with_endings ((request_line :: headers) ++ [""]).
Proof.
  rewrite with_endings_app. unfold request_head. fold request_line. apply from_utf8_lossy_ascii.
  rewrite str_all_app. apply andb_true_iff. split; [|done].
  induction head_lines_all as [|l ls Hl _ IH]; [done|]. rewrite with_endings_cons, !str_all_app, !andb_true_iff.
  apply header_line in Hl as (_ & _ & _ & Hl). by rewrite Hl.
Qed.

Lemma head_lines : lines (from_utf8_lossy (request_head method path headers)) = request_line :: headers ++ [""].
Proof.
  rewrite head_is_text. apply (lines_with_endings ((request_line :: headers) ++ [""])). apply Forall_app. split.
  - eapply Forall_impl; [apply head_lines_all|]. intros l Hl. by apply header_line in Hl as (_ & _ & ? & _).
  - by constructor.
Qed.

Lemma request_line_words : split_whitespace request_line = [method; path; "HTTP/1.1"].
Proof.
  destruct Hwf as [[Hm Hmg] [Hp Hpg] _ _ _]. unfold request_line.
  change (" " +:+ ?x) with (String " " x). rewrite split_whitespace_word by done.
  change (" HTTP/1.1") with (String " " "HTTP/1.1"). by rewrite split_whitespace_word.
Qed.

Lemma head_content_length : content_length (headers ++ [""]) = N.of_nat (String.length body).
Proof.
  rewrite <-(declares_content_length headers).
  - unfold content_length. rewrite omap_app. cbn. by rewrite app_nil_r.
  - apply Hwf.
  - pose proof (wf_size _ _ _ _ Hwf) as H. rewrite str_length_app in H. lia.
Qed.

Lemma read_request_delivers stream :
  delivered stream = Some (request_head method path headers +:+ body) ->
  exists stream', read_request stream = Some ((method, path, body), stream') /\ delivered stream' = Some "".
Proof.
  intros Hd. destruct head_end as [Hf H4]. pose proof (wf_size _ _ _ _ Hwf) as Hsize.
  destruct (read_head_delivers (length stream) stream "" _ _ (le_n _) Hd Hf) as (buf & t & stream1 & Hr & Hd1 & Happ & Hl & Hlen).
  change ("" +:+ ?x) with x in Happ. rewrite Nat.sub_add in Hr, Hlen by done.
  destruct (read_body_delivers (length stream1) stream1 buf t
              (N.of_nat (String.length (request_head method path headers)) + N.of_nat (String.length body)))
    as (buf2 & t2 & stream2 & Hr2 & Hd2 & Happ2 & Hlen2); [lia|done| |].
  { rewrite Happ, str_length_app. lia. }
  exists stream2. unfold read_request. rewrite Hr. cbn [mbind option_bind].
  assert (str_take (String.length (request_head method path headers)) buf = request_head method path headers) as ->.
  { rewrite <-(str_take_app_le _ buf t), Happ by lia. apply str_take_app. }
  rewrite head_lines. cbn [hd_error tail mbind option_bind]. rewrite request_line_words, head_content_length. cbv zeta.
  rewrite str_length_app in Hsize. rewrite (proj2 (N.ltb_ge _ _)) by lia. rewrite Hr2. cbn [mbind option_bind].
  rewrite Happ in Happ2. assert (t2 = "" /\ buf2 = request_head method path headers +:+ body) as [-> ->].
  { apply (f_equal String.length) in Happ2 as Hle. rewrite !str_length_app in Hle. destruct t2; [|cbn in Hle; lia].
    by rewrite str_app_nil_r in Happ2. }
  pose proof (str_take_app body "") as Hbody. rewrite str_app_nil_r in Hbody. by rewrite Nat2N.id, str_drop_app, Hbody.
Qed.
End head.

(** ** Lemmas: the shared state *)

Definition handed (d : Did) : option (string * string) := match d with Handed e => Some e | _ => None end.
Definition recorded (d : Did) : option Outcome := match d with Reported o => Some o | _ => None end.

Lemma next_event_takes st e st' :
  next_event st = Some (e, st') ->
  pending st = option_list e ++ pending st' /\ outcomes st' = outcomes st /\ shutdown st' = shutdown st.
Proof.
  unfold next_event. destruct (shutdown st) eqn:Hs; [by intros [= <- <-]|].
  destruct (pending st) as [|event rest] eqn:Hp; [done|]. by intros [= <- <-].
Qed.

(** A step takes what it hands out from the front of the queue, and appends what it records. *)
Lemma handle_conn_did writes deadline_ms st c c' st' :
  handle_conn writes deadline_ms st c = Some (c', st') ->
  pending st = option_list (handed (did st c)) ++ pending st' /\
  outcomes st' = outcomes st ++ option_list (recorded (did st c)) /\ shutdown st' = shutdown st.
Proof.
  unfold handle_conn, did. destruct (cn_open c); [|done]. destruct (cn_request c) as [[[method path] body]|].
  2:{ destruct (read_request (cn_stream c)) as [[request stream]|]; intros [= <- <-]; by rewrite app_nil_r. }
  unfold respond. destruct (is_next method path).
  - destruct (next_event st) as [[event st1]|] eqn:En; [|done]. apply next_event_takes in En as (Hp & Ho & Hs).
    cbn [mbind option_bind]. rewrite Hp.
    destruct event as [[id payload]|]; intros [= <- <-]; cbn; by rewrite ?Ho, ?Hs, app_nil_r.
  - destruct (bool_decide (method = "POST")).
    + destruct (reported path (from_utf8_lossy body)); cbn [mbind option_bind]; intros [= <- <-]; by rewrite ?app_nil_r.
    + cbn [mbind option_bind]. intros [= <- <-]. by rewrite app_nil_r.
Qed.

Lemma step_did s l s' :
  step s l s' ->
  pending (sv_state s) = option_list (handed l.2) ++ pending (sv_state s') /\
  outcomes (sv_state s') = outcomes (sv_state s) ++ option_list (recorded l.2).
Proof.
  destruct 1 as [writes deadline_ms i c c' st st' conns Hc Hh|stream st conns Hs|st conns]; cbn; rewrite ?app_nil_r; try done.
  by apply handle_conn_did in Hh as (? & ? & _).
Qed.

Lemma steps_did s trace s' :
  steps s trace s' ->
  pending (sv_state s) = omap handed trace.*2 ++ pending (sv_state s') /\
  outcomes (sv_state s') = outcomes (sv_state s) ++ omap recorded trace.*2.
Proof.
  induction 1 as [s|s trace s' l s'' _ [IH1 IH2] Hl]; [by rewrite app_nil_r|].
  destruct (step_did _ _ _ Hl) as [H1 H2]. rewrite fmap_app, !omap_app. cbn [fmap list_fmap omap list_omap]. split.
  - rewrite IH1, H1. destruct (handed l.2); by rewrite <-!app_assoc.
  - rewrite H2, IH2. destruct (recorded l.2); by rewrite <-!app_assoc.
Qed.

Lemma request_id_inj i j : request_id i = request_id j -> i = j.
Proof.
  unfold request_id. intros H. apply (inj String.append) in H || (injection H; clear H; intros H).
  apply (inj pretty) in H. lia.
Qed.

(** ** A function behind the API *)

(** The client of the runtime crate: the headers it sends, and what it reads an event from.
    [f] is the function it calls. *)
Class RuntimeClient := {
  poll_headers : list string;
  report_headers : Bytes -> list string;
  read_reply : list Bytes -> option (string * string);
}.

Class RuntimeClientLaws (C : RuntimeClient) : Prop := {
  poll_headers_ok : forallb is_header_line poll_headers = true /\ declares poll_headers 0;
  report_headers_ok body :
    forallb is_header_line (report_headers body) = true /\ declares (report_headers body) (String.length body);
  read_reply_next deadline_ms id payload :
    str_all is_ascii_graphic id = true -> read_reply [next_head deadline_ms id payload; payload] = Some (id, payload);
}.

Section session.
Context {C : RuntimeClient} {L W : Type} (f : W -> L -> string -> bool * string * L).

(** One request over a connection, and the answer. *)
Definition exchange (deadline_ms : N) (st : State) (stream : list Arrival) : option (list Bytes * State) :=
  '(request, _) ← read_request stream;
  '(reply, st) ← respond deadline_ms st request;
  parts ← reply;
  Some (parts, st).

Definition report_path (ok : bool) (id : string) : string :=
  "/2018-06-01/runtime/invocation/" +:+ id +:+ (if ok then "/response" else "/error").

(** A turn of the runtime's loop: how the socket cuts the two requests up, the time, and what
    the call of the function depends on. *)
Record Round := mkRound {
  rd_pieces : Bytes -> list Arrival;
  rd_deadline : N;
  rd_with : W;
}.

Definition round (rd : Round) (l : L) (st : State) : option (L * State) :=
  '(parts, st) ← exchange (rd_deadline rd) st (rd_pieces rd (request_head "GET" NEXT poll_headers));
  '(id, payload) ← read_reply parts;
  let '(ok, body, l) := f (rd_with rd) l payload in
  '(_, st) ← exchange (rd_deadline rd) st
               (rd_pieces rd (request_head "POST" (report_path ok id) (report_headers body) +:+ body));
  Some (l, st).

Fixpoint session (rounds : list Round) (l : L) (st : State) : option (L * State) :=
  match rounds with
  | [] => Some (l, st)
  | rd :: rounds => '(l, st) ← round rd l st; session rounds l st
  end.

(** What the function makes of the events, one after another. *)
Fixpoint calls (rounds : list Round) (events : list (string * string)) (l : L) : list Outcome * L :=
  match rounds, events with
  | rd :: rounds, (id, payload) :: events =>
      let '(ok, body, l) := f (rd_with rd) l payload in
      let '(outs, l) := calls rounds events l in
      ((if (ok : bool) then Response id body else Failure id body) :: outs, l)
  | _, _ => ([], l)
  end.

(** A request's path and body fit. *)
Definition reportable (id body : string) : Prop :=
  str_all is_ascii_graphic id = true /\ from_utf8_lossy body = body /\
  forall ok, (N.of_nat (String.length (request_head "POST" (report_path ok id) (report_headers body) +:+ body)) <= USIZE_MAX)%N.

Definition pieces_ok (rd : Round) : Prop := forall b, delivered (rd_pieces rd b) = Some b.

(** ** Lemmas: sessions *)

Context {CL : RuntimeClientLaws C}.

Lemma exchange_delivers deadline_ms st stream method path headers body :
  well_formed method path headers body -> delivered stream = Some (request_head method path headers +:+ body) ->
  exchange deadline_ms st stream =
  ('(reply, st) ← respond deadline_ms st (method, path, body); parts ← reply; Some (parts, st)).
Proof. intros Hwf Hd. unfold exchange. by destruct (read_request_delivers _ _ _ _ Hwf stream Hd) as (stream' & -> & _). Qed.

Lemma report_path_reported ok id body :
  reported (report_path ok id) body = Some (if ok then Response id body else Failure id body).
Proof.
  unfold reported, report_path. rewrite decide_False by (by intros ?).
  unfold strip_invocation. rewrite strip_prefix_app. cbn [mbind option_bind]. destruct ok; [by rewrite strip_suffix_app|].
  destruct (strip_suffix "/response" (id +:+ "/error")) as [p|] eqn:E; [|by rewrite strip_suffix_app].
  apply strip_suffix_Some in E. change "/error" with ("/erro" +:+ "r") in E. change "/response" with ("/respons" +:+ "e") in E.
  rewrite <-!str_app_assoc in E. by apply str_app_snoc_inj in E.
Qed.

Lemma poll_well_formed : (N.of_nat (String.length (request_head "GET" NEXT poll_headers)) <= USIZE_MAX)%N ->
  well_formed "GET" NEXT poll_headers "".
Proof. intros H. destruct poll_headers_ok. split; try done. by rewrite str_app_nil_r. Qed.

Lemma report_well_formed ok id body : reportable id body -> well_formed "POST" (report_path ok id) (report_headers body) body.
Proof.
  intros (Hid & _ & Hsize). destruct (report_headers_ok body). split; try done.
  split; [done|]. unfold report_path. rewrite !str_all_app, Hid. by destruct ok.
Qed.

Lemma round_reports rd l st id payload rest ok body l' :
  pieces_ok rd -> (N.of_nat (String.length (request_head "GET" NEXT poll_headers)) <= USIZE_MAX)%N ->
  shutdown st = false -> pending st = (id, payload) :: rest ->
  f (rd_with rd) l payload = (ok, body, l') -> reportable id body ->
  round rd l st =
  Some (l', mkState rest (outcomes st ++ [if ok then Response id body else Failure id body]) false).
Proof.
  intros Hp Hpoll Hs Hpend Hf Hr. unfold round.
  rewrite (exchange_delivers _ _ _ "GET" NEXT poll_headers ""); [|by apply poll_well_formed|by rewrite Hp, str_app_nil_r].
  assert (is_next "GET" NEXT = true) as Hn by done. unfold respond at 1. rewrite Hn. unfold next_event. rewrite Hs, Hpend.
  cbn [mbind option_bind]. rewrite read_reply_next by apply Hr. cbn [mbind option_bind]. rewrite Hf.
  rewrite (exchange_delivers _ _ _ "POST" (report_path ok id) (report_headers body) body); [|by apply report_well_formed|by rewrite Hp].
  unfold respond. destruct Hr as (_ & -> & _). cbn [is_next bool_decide]. rewrite report_path_reported. done.
Qed.

Lemma session_reports rounds events rest l st outs l' :
  Forall pieces_ok rounds -> (N.of_nat (String.length (request_head "GET" NEXT poll_headers)) <= USIZE_MAX)%N ->
  shutdown st = false -> pending st = events ++ rest -> length rounds = length events ->
  calls rounds events l = (outs, l') -> Forall (fun o => forall id body, o = Response id body \/ o = Failure id body -> reportable id body) outs ->
  session rounds l st = Some (l', mkState rest (outcomes st ++ outs) false).
Proof.
  intros Hp Hpoll. revert events l st outs. induction Hp as [|rd rounds Hrd _ IH]; intros [|[id payload] events] l st outs Hs Hpend Hlen Hc Ho;
    try done; cbn [calls session] in *.
  - injection Hc as <- <-. rewrite app_nil_r. destruct st. cbn in *. by subst.
  - destruct (f (rd_with rd) l payload) as [[ok body] l1] eqn:Ef. destruct (calls rounds events l1) as [outs1 l2] eqn:Ec.
    injection Hc as <- ->. inversion Ho as [|? ? Hb Ho']; subst.
    rewrite (round_reports rd l st id payload (events ++ rest) ok body l1); try done.
    2:{ apply Hb. destruct ok; auto. }
    cbn [mbind option_bind]. rewrite (IH events l1 _ outs1); cbn; try done; [|by injection Hlen].
    by rewrite <-app_assoc.
Qed.
End session.

(** *** Waiting *)

(** The wait is over at the first turn that sees enough, and fails only on a turn that sees the
    child gone or the time up. *)
Lemma wait_for_outcomes_ok n before ob after :
  Forall (fun ob => length (ob_outcomes ob) < n /\ existsb is_init_error (ob_outcomes ob) = false /\
                    ob_exited ob = None /\ ob_late ob = false) before ->
  n <= length (ob_outcomes ob) \/ existsb is_init_error (ob_outcomes ob) = true ->
  wait_for_outcomes n (before ++ ob :: after) = Some (Ok (ob_outcomes ob)).
Proof.
  intros Hb Hob. induction Hb as [|b before (Hn & Hi & He & Hl) _ IH]; cbn [app wait_for_outcomes].
  - destruct Hob as [H|H]; [by rewrite (proj2 (Nat.leb_le _ _) H)|by rewrite H, orb_true_r].
  - by rewrite (proj2 (Nat.leb_gt _ _) Hn), Hi, He, Hl.
Qed.

(** ** Properties *)

(** C35: each event is handed out once, in order.  However many connections there are and
    whatever the order their threads step in, the events handed out so far, in the order they
    were, are the front of the queue the test started with, under identifiers that differ; what
    has been recorded is what was reported, in order; and a thread waits only for an event
    while there is none and no shutdown. *)
Theorem api_serves_once {V} (to_string : V -> string) events trace s :
  steps (mkServer (start to_string events) []) trace s ->
  omap handed trace.*2 ++ pending (sv_state s) = imap (fun i e => (request_id i, to_string e)) events /\
  NoDup (omap handed trace.*2).*1 /\
  outcomes (sv_state s) = omap recorded trace.*2 /\
  forall i c writes deadline_ms, sv_conns s !! i = Some c -> cn_open c = true ->
    handle_conn writes deadline_ms (sv_state s) c = None ->
    (exists body, cn_request c = Some ("GET", NEXT, body)) /\ pending (sv_state s) = [] /\ shutdown (sv_state s) = false.
Proof.
  intros Hs. apply steps_did in Hs as [Hp Ho]. cbn [sv_state start pending outcomes app] in Hp, Ho.
  split_and!; [done| |done|].
  - assert (NoDup (imap (fun i e => (request_id i, to_string e)) events).*1) as Hnd.
    { apply NoDup_alt. intros i j x Hi Hj. rewrite !list_lookup_fmap, !list_lookup_imap in Hi, Hj.
      destruct (events !! i), (events !! j); simplify_eq/=. by apply request_id_inj. }
    rewrite Hp, fmap_app in Hnd. by apply NoDup_app in Hnd as [? _].
  - intros i c writes deadline_ms _ Hopen Hh. unfold handle_conn in Hh. rewrite Hopen in Hh.
    destruct (cn_request c) as [[[method path] body]|]; [|by destruct (read_request (cn_stream c)) as [[? ?]|]].
    unfold respond in Hh. destruct (is_next method path) eqn:Hn.
    + unfold is_next in Hn. bools. subst. unfold next_event in Hh.
      destruct (shutdown (sv_state s)); [done|]. destruct (pending (sv_state s)) as [|[id payload] rest]; [|done]. eauto.
    + destruct (bool_decide (method = "POST")); [|done]. by destruct (reported path (from_utf8_lossy body)).
Qed.

(** C36: framing.  A request is read whole and exactly, whatever pieces the socket delivers it in
    and however often the read times out in between: its method, its path and its body, the
    length of which is the first [Content-Length], in whatever case it is written. *)
Theorem request_framed method path headers body stream :
  well_formed method path headers body ->
  delivered stream = Some (request_head method path headers +:+ body) ->
  exists stream', read_request stream = Some ((method, path, body), stream') /\ delivered stream' = Some "".
Proof. intros Hwf. by apply read_request_delivers. Qed.

(** ** Witnesses *)

Definition demo_headers : list string := ["Host: 127.0.0.1:9001"; "content-LENGTH: 4"].

Lemma demo_well_formed : well_formed "POST" (report_path true "req-0") demo_headers "null".
Proof.
  split; [done|done|done| |vm_compute; discriminate].
  apply (declares_length ["Host: 127.0.0.1:9001"] "content-LENGTH" 4 []); done.
Defined.

(** Cut in the middle of a line ending, of the empty line and of the body. *)
Definition demo_stream : list Arrival :=
  let whole := request_head "POST" (report_path true "req-0") demo_headers +:+ "null" in
  [Chunk (str_take 60 whole); TimedOut; Chunk (str_slice 60 103 whole); TimedOut; TimedOut; Chunk (str_slice 103 106 whole);
   Chunk (str_drop 106 whole)].

Lemma request_framed_witness :
  exists stream', read_request demo_stream = Some (("POST", report_path true "req-0", "null"), stream') /\
    delivered stream' = Some "".
Proof.
  apply (request_framed "POST" (report_path true "req-0") demo_headers "null" demo_stream demo_well_formed).
  vm_compute. reflexivity.
Defined.

Definition demo_poll : list Arrival := [Chunk (request_head "GET" NEXT [])].

(** Two connections, both polled, two events. *)
Lemma demo_steps :
  exists trace s, steps (mkServer (start (fun e => e) ["a"; "b"]) []) trace s /\
    omap handed trace.*2 = [("req-0", "a"); ("req-1", "b")].
Proof.
  eexists _, _. split.
  - eapply steps_snoc; [eapply steps_snoc; [eapply steps_snoc; [eapply steps_snoc; [eapply steps_snoc; [eapply steps_snoc;
      [apply steps_nil|]|]|]|]|]|].
    + by apply (step_accept demo_poll).
    + by apply (step_accept demo_poll).
    + by eapply (step_conn true 60000 1); [reflexivity|vm_compute; reflexivity].
    + by eapply (step_conn true 60000 0); [reflexivity|vm_compute; reflexivity].
    + by eapply (step_conn true 60000 0); [reflexivity|cbn; reflexivity].
    + by eapply (step_conn true 60000 1); [reflexivity|cbn; reflexivity].
  - reflexivity.
Defined.

Lemma api_serves_once_witness :
  exists trace s, omap handed trace.*2 = [("req-0", "a"); ("req-1", "b")] /\ pending (sv_state s) = [] /\
    steps (mkServer (start (fun e => e) ["a"; "b"]) []) trace s.
Proof.
  destruct demo_steps as (trace & s & Hs & Ht). exists trace, s. split; [exact Ht|]. split; [|exact Hs].
  destruct (api_serves_once (fun e => e) ["a"; "b"] trace s Hs) as [H _]. rewrite Ht in H.
  destruct (pending (sv_state s)); [reflexivity|discriminate H].
Defined.
End FakeRuntimeApi.
