(* ===== verification/Wire.v ===== *)
(** * Wire: what the derived deserializers of the event decoders read ([core/src/decode/])

    Decode has [serde]'s derived deserializers as parameters.  Here is what they read: the
    structs as declared, field by field, over the [Tree] a JSON text or value is to them, and
    [WireLaws], that the parameters do so.  [serde]'s documentation says the rest: a field is
    looked up by its name, an unknown one is ignored, one that is missing is an error unless its
    type is [Option], one that is repeated is an error, and a struct can also be written as the
    array of its fields. *)

From S2P Require Import Prelude Model Json Path Regex Rules Reference Index Project Engine.
From S2P Require Import Settings Effects Metrics Ports Decode.

(** ** Trees *)

(** A number is what it is as a [u64]. *)
Inductive Tree : Type :=
  | TNull
  | TBool (b : bool)
  | TNum (n : option N)
  | TStr (s : string)
  | TArr (items : list Tree)
  | TObj (fields : list (string * Tree)).

Fixpoint tree_of_doc {F} (d : Doc F) : Tree :=
  match d with
  | DNull => TNull
  | DBool b => TBool b
  | DU64 n => TNum (Some n)
  | DI64 _ | DF64 _ => TNum None
  | DStr s => TStr s
  | DArr items => TArr (map tree_of_doc items)
  | DObj fields => TObj (map (fun kv => (kv.1, tree_of_doc kv.2)) fields)
  end.

Fixpoint tree_of_value {Nu} (as_u64 : Nu -> option N) (v : Value Nu) : Tree :=
  match v with
  | VNull => TNull
  | VBool b => TBool b
  | VNumber n => TNum (as_u64 n)
  | VString s => TStr s
  | VArray items => TArr (map (tree_of_value as_u64) items)
  | VObject fields => TObj (map (fun kv => (kv.1, tree_of_value as_u64 kv.2)) fields)
  end.

(** ** Derived readers *)

(** A field by its name: [Some None] when it is missing, [None] when it is there twice. *)
Definition read_field (fields : list (string * Tree)) (name : string) : option (option Tree) :=
  match filter (fun kv => kv.1 = name) fields with
  | [] => Some None
  | [(_, t)] => Some (Some t)
  | _ => None
  end.

(** The fields of a struct, in the order of its declaration. *)
Definition read_struct (names : list string) (t : Tree) : option (list (option Tree)) :=
  match t with
  | TObj fields => mapM (read_field fields) names
  | TArr items => if decide (length items = length names) then Some (map Some items) else None
  | _ => None
  end.

Definition required {A} (read : Tree -> option A) (t : option Tree) : option A := t ← t; read t.

(** [Option<A>] *)
Definition optional {A} (read : Tree -> option A) (t : option Tree) : option (option A) :=
  match t with
  | None | Some TNull => Some None
  | Some t => Some <$> read t
  end.

Definition read_string (t : Tree) : option string := match t with TStr s => Some s | _ => None end.
Definition read_u64 (t : Tree) : option N := match t with TNum n => n | _ => None end.
Definition read_vec {A} (read : Tree -> option A) (t : Tree) : option (list A) :=
  match t with TArr items => mapM read items | _ => None end.

(** A struct of one and of two fields. *)
Definition read1 {A} (name : string) (read : option Tree -> option A) (t : Tree) : option A :=
  fields ← read_struct [name] t;
  match fields with [a] => read a | _ => None end.

Definition read2 {A B} (name name' : string) (read : option Tree -> option A) (read' : option Tree -> option B)
    (t : Tree) : option (A * B) :=
  fields ← read_struct [name; name'] t;
  match fields with [a; b] => a ← read a; b ← read' b; Some (a, b) | _ => None end.

Definition read3 {A B C} (name name' name'' : string) (read : option Tree -> option A) (read' : option Tree -> option B)
    (read'' : option Tree -> option C) (t : Tree) : option (A * B * C) :=
  fields ← read_struct [name; name'; name''] t;
  match fields with [a; b; c] => a ← read a; b ← read' b; c ← read'' c; Some (a, b, c) | _ => None end.

(** ** The structs *)

Definition read_bucket : Tree -> option string := read1 "name" (required read_string).
Definition read_object : Tree -> option (string * option N) :=
  read2 "key" "size" (required read_string) (optional read_u64).
Definition read_s3_detail : Tree -> option (string * (string * option N)) :=
  read2 "bucket" "object" (required read_bucket) (required read_object).

Definition read_s3_record (t : Tree) : option S3Record :=
  '(event_name, (bucket, (key, size))) ←
    read2 "eventName" "s3" (optional read_string) (required read_s3_detail) t;
  Some (mkS3Record event_name bucket key size).

Definition read_s3_notification : Tree -> option (list S3Record) := read1 "Records" (required (read_vec read_s3_record)).

Definition read_sns_message : Tree -> option string := read1 "Message" (required read_string).
Definition read_sns_record : Tree -> option string := read1 "Sns" (required read_sns_message).
Definition read_sns_notification : Tree -> option (list string) := read1 "Records" (required (read_vec read_sns_record)).

Definition read_sqs_record (t : Tree) : option SqsRecord :=
  '(id, body) ← read2 "messageId" "body" (required read_string) (required read_string) t;
  Some (mkSqsRecord id body).
Definition read_sqs_event : Tree -> option (list SqsRecord) := read1 "Records" (required (read_vec read_sqs_record)).

Definition read_type_sniff : Tree -> option (option string) := read1 "Type" (optional read_string).

Definition read_eventbridge_detail : Tree -> option (string * string * (string * option N)) :=
  read3 "event-version" "bucket" "object" (required read_string) (required read_bucket) (required read_object).

Definition read_eventbridge (t : Tree) : option EventBridgeEvent :=
  '(detail_type, (version, bucket, (key, size))) ←
    read2 "detail-type" "detail" (required read_string) (required read_eventbridge_detail) t;
  Some (mkEventBridgeEvent detail_type version bucket key size).

(** ** The parameters of Decode, as documented *)

Definition agrees {A} (r : result string A) (o : option A) : Prop :=
  match o with Some a => r = Ok a | None => is_ok r = false end.

Class WireLaws {J : JsonCrate} (Cr : DecodeCrates) := {
  (** [Number::as_u64] *)
  number_as_u64 : Number -> option N;
  number_as_u64_of_u64 n : number_as_u64 (number_of_u64 n) = Some n;
  notification_reads v : agrees (s3_notification_of_value v) (read_s3_notification (tree_of_value number_as_u64 v));
  sns_reads text d : json_from_str text = Ok d -> agrees (sns_messages_of_slice text) (read_sns_notification (tree_of_doc d));
  sqs_reads text d : json_from_str text = Ok d -> agrees (sqs_event_of_slice text) (read_sqs_event (tree_of_doc d));
  message_reads text d : json_from_str text = Ok d -> agrees (sns_message_of_str text) (read_sns_message (tree_of_doc d));
  type_reads text d : json_from_str text = Ok d -> agrees (type_of_str text) (read_type_sniff (tree_of_doc d));
  eventbridge_reads text d : json_from_str text = Ok d -> agrees (eventbridge_of_slice text) (read_eventbridge (tree_of_doc d));
}.

(** ** Writing *)

(** [json!]'s objects: a map keeps its entries in the order of their keys. *)
Fixpoint insert_field {V} (kv : string * V) (fields : list (string * V)) : list (string * V) :=
  match fields with
  | [] => [kv]
  | kv' :: fields' => if String.leb kv.1 kv'.1 then kv :: fields else kv' :: insert_field kv fields'
  end.

Definition json_object {Nu} (fields : list (string * Value Nu)) : Value Nu := VObject (foldr insert_field [] fields).

Fixpoint in_key_order (keys : list string) : bool :=
  match keys with
  | k :: ((k' :: _) as keys) => String.leb k k' && in_key_order keys
  | _ => true
  end.

(** [Value::to_string]: the text, written in that order, parses back to the value.  This is
    promised of values whose numbers are integers and whose objects are maps. *)
Fixpoint plain {J : JsonCrate} (v : Value Number) : Prop :=
  match v with
  | VNumber n => exists u, n = number_of_u64 u /\ (u <= U64_MAX)%N
  | VArray items => (fix all l := match l with [] => True | v :: l => plain v /\ all l end) items
  | VObject fields => (NoDup fields.*1 /\ in_key_order fields.*1 = true) /\
      (fix all l := match l with [] => True | kv :: l => plain kv.2 /\ all l end) fields
  | _ => True
  end.

Class WriteCrate {J : JsonCrate} := { to_string : Value Number -> string }.

Class WriteLaws {J : JsonCrate} (W : WriteCrate) {Cr : DecodeCrates} {WL : WireLaws Cr} : Prop := {
  to_string_parses v : plain v -> exists d, json_from_str (to_string v) = Ok d /\ value_of d = v /\
    tree_of_doc d = tree_of_value number_as_u64 v;
}.

(** ** Lemmas *)

Lemma plain_array {J : JsonCrate} items : plain (VArray items) <-> Forall plain items.
Proof. cbn [plain]. induction items as [|v items IH]; [done|]. rewrite Forall_cons. by rewrite IH. Qed.

Lemma plain_object {J : JsonCrate} fields : 
  plain (VObject fields) <-> (NoDup fields.*1 /\ in_key_order fields.*1 = true) /\ Forall (fun kv => plain kv.2) fields.
Proof.
  cbn [plain]. apply and_iff_compat_l. induction fields as [|kv fields IH]; [done|]. rewrite Forall_cons. by rewrite IH.
Qed.

Lemma agrees_some {A} (r : result string A) o a : agrees r o -> o = Some a -> r = Ok a.
Proof. by intros H ->. Qed.

(** A struct whose one field is a list. *)
Lemma read_records {A} name (read : Tree -> option A) items :
  read1 name (required (read_vec read)) (TObj [(name, TArr items)]) = mapM read items.
Proof.
  unfold read1, read_struct. cbn [mapM]. unfold read_field. rewrite filter_cons_True by done. done.
Qed.
