(* ===== verification/RefJson.v ===== *)
(** * A JSON to evaluate the fixtures with

    An instance of the JSON parameters: a parser of compact JSON text (no space outside strings,
    the escapes of the quote and of the backslash, integers that are a [u64]), the writer it
    inverts, and the readers of [Wire] over it.  The witnesses of the theorems about payloads
    run on it; that it satisfies the laws is proved here. *)

From S2P Require Import Prelude Model Json Path Regex Rules Reference Index Project Engine.
From S2P Require Import Settings Effects Metrics Ports Envelope Decode Text Wire.

Abbreviation RefDoc := (Doc Empty_set).

Definition BACKSLASH : ascii := "\".
Definition DQUOTE : ascii := "034".

(** ** Writing *)

Fixpoint escape (s : string) : string :=
  match s with
  | EmptyString => ""
  | String c s => (if decide (c = DQUOTE \/ c = BACKSLASH) then String BACKSLASH (String c "") else String c "") +:+ escape s
  end.

Definition render_string (s : string) : string := String DQUOTE (escape s) +:+ String DQUOTE "".

Fixpoint render (d : RefDoc) : string :=
  match d with
  | DNull => "null"
  | DBool b => bool_to_string b
  | DU64 n => pretty n
  | DI64 z => pretty z
  | DF64 f => match f with end
  | DStr s => render_string s
  | DArr items => "[" +:+ str_join "," (map render items) +:+ "]"
  | DObj fields => "{" +:+ str_join "," (map (fun kv => render_string kv.1 +:+ ":" +:+ render kv.2) fields) +:+ "}"
  end.

(** ** Parsing *)

(** Past the opening quote. *)
Fixpoint parse_chars (s : string) : option (string * string) :=
  match s with
  | EmptyString => None
  | String c s =>
      if decide (c = DQUOTE) then Some ("", s)
      else if decide (c = BACKSLASH) then
        match s with
        | String e s =>
            if decide (e = DQUOTE \/ e = BACKSLASH) then '(t, rest) ← parse_chars s; Some (String e t, rest) else None
        | EmptyString => None
        end
      else '(t, rest) ← parse_chars s; Some (String c t, rest)
  end.

Fixpoint span_digits (s : string) : string * string :=
  match s with
  | String c t => if is_ascii_digit c then let '(ds, rest) := span_digits t in (String c ds, rest) else ("", s)
  | EmptyString => ("", "")
  end.

Fixpoint parse_keyword (table : list (string * RefDoc)) (s : string) : option (RefDoc * string) :=
  match table with
  | [] => None
  | (word, d) :: table => match strip_prefix word s with Some rest => Some (d, rest) | None => parse_keyword table s end
  end.

Definition keywords : list (string * RefDoc) := [("null", DNull); ("true", DBool true); ("false", DBool false)].

Definition char (c : ascii) (s : string) : option string :=
  match s with String c' s => if decide (c = c') then Some s else None | EmptyString => None end.

(** Items up to the closing bracket. *)
Fixpoint parse_list {A} (close : ascii) (item : string -> option (A * string)) (steps : nat) (s : string) :
    option (list A * string) :=
  match steps with
  | O => None
  | S steps =>
      '(a, s) ← item s;
      match char "," s with
      | Some s => '(l, rest) ← parse_list close item steps s; Some (a :: l, rest)
      | None => rest ← char close s; Some ([a], rest)
      end
  end.

(** Past the opening bracket; a list takes fewer items than it has characters. *)
Definition parse_bracket {A} (close : ascii) (item : string -> option (A * string)) (s : string) : option (list A * string) :=
  match char close s with
  | Some rest => Some ([], rest)
  | None => parse_list close item (S (String.length s)) s
  end.

Definition parse_string (s : string) : option (string * string) := s ← char DQUOTE s; parse_chars s.

Definition parse_field (value : string -> option (RefDoc * string)) (s : string) : option (string * RefDoc * string) :=
  '(k, s) ← parse_string s;
  s ← char ":" s;
  '(d, rest) ← value s;
  Some (k, d, rest).

(** [fuel] is the depth of the document. *)
Fixpoint parse_value (fuel : nat) (s : string) : option (RefDoc * string) :=
  match fuel, s with
  | S fuel, String c t =>
      if decide (c = DQUOTE) then '(x, rest) ← parse_string s; Some (DStr x, rest)
      else if decide (c = "["%char) then '(items, rest) ← parse_bracket "]" (parse_value fuel) t; Some (DArr items, rest)
      else if decide (c = "{"%char) then
        '(fields, rest) ← parse_bracket "}" (parse_field (parse_value fuel)) t; Some (DObj fields, rest)
      else if is_ascii_digit c then
        let '(digits, rest) := span_digits s in
        n ← parse_uint U64_MAX digits; Some (DU64 n, rest)
      else parse_keyword keywords s
  | _, _ => None
  end.

(** A document is no deeper than its text is long. *)
Definition parse_doc (text : string) : result string RefDoc :=
  match parse_value (String.length text) text with
  | Some (d, EmptyString) => Ok d
  | _ => Err "expected value"
  end.

(** ** The writer's text parses back *)

(** What the writer and the parser agree on. *)
Fixpoint printable (d : RefDoc) : Prop :=
  match d with
  | DI64 _ => False
  | DU64 n => (n <= U64_MAX)%N
  | DArr items => (fix all l := match l with [] => True | d :: l => printable d /\ all l end) items
  | DObj fields => (fix all l := match l with [] => True | kv :: l => printable kv.2 /\ all l end) fields
  | _ => True
  end.

Lemma printable_array items : printable (DArr items) <-> Forall printable items.
Proof. cbn [printable]. induction items as [|d items IH]; [done|]. rewrite Forall_cons. by rewrite IH. Qed.

Lemma printable_object fields : printable (DObj fields) <-> Forall (fun kv => printable kv.2) fields.
Proof. cbn [printable]. induction fields as [|d fields IH]; [done|]. rewrite Forall_cons. by rewrite IH. Qed.

(** What may follow a value. *)
Definition ends (rest : string) : Prop :=
  match rest with String c _ => is_ascii_digit c = false | EmptyString => True end.

Lemma parse_chars_escape s rest : parse_chars (escape s +:+ String DQUOTE rest) = Some (s, rest).
Proof.
  induction s as [|c s IH]; cbn [escape parse_chars String.append]; [by rewrite decide_True|].
  case_decide as Hc; cbn [String.append parse_chars].
  - rewrite decide_False by done. rewrite decide_True by done. rewrite decide_True by done. by rewrite IH.
  - rewrite !decide_False by naive_solver. by rewrite IH.
Qed.

Lemma span_digits_app ds rest : str_all is_ascii_digit ds = true -> ends rest -> span_digits (ds +:+ rest) = (ds, rest).
Proof.
  intros Hd Hr. induction ds as [|c ds IH]; cbn.
  - destruct rest as [|c rest]; [done|]. cbn in *. by rewrite Hr.
  - cbn in Hd. bools. by rewrite H, IH.
Qed.

Lemma parse_string_render s rest : parse_string (render_string s +:+ rest) = Some (s, rest).
Proof.
  unfold parse_string, render_string. rewrite str_app_assoc. cbn [String.append char]. rewrite decide_True by done.
  apply parse_chars_escape.
Qed.

Lemma render_head d : printable d -> exists c s, render d = String c s /\ c <> "]"%char.
Proof.
  destruct d as [|[]|n|z|[]|s|items|fields]; cbn; intros H; eauto; try done.
  destruct (pretty_N_cons n) as (c & s & -> & Hc). exists c, s. split; [done|]. intros ->. done.
Qed.

Lemma str_join_cons s l : l <> [] -> str_join "," (s :: l) = s +:+ "," +:+ str_join "," l.
Proof. by destruct l. Qed.

Lemma str_join_length_elem s l : s ∈ l -> String.length s <= String.length (str_join "," l).
Proof.
  induction l as [|t l IH]; [set_solver|]. intros [->|H]%elem_of_cons.
  - destruct l; cbn [str_join]; rewrite ?str_length_app; lia.
  - specialize (IH H). rewrite str_join_cons by (intros ->; set_solver). rewrite !str_length_app. lia.
Qed.

Lemma str_join_length_list l : length l <= S (String.length (str_join "," l)).
Proof. induction l as [|s [|t l] IH]; cbn [str_join length] in *; rewrite ?str_length_app; cbn in *; lia. Qed.

(** What [item] reads of [show]'s text. *)
Definition reads {A} (item : string -> option (A * string)) (show : A -> string) (a : A) : Prop :=
  forall rest, ends rest -> item (show a +:+ rest) = Some (a, rest).

Lemma parse_list_render {A} close item (show : A -> string) a l steps rest :
  close <> ","%char -> is_ascii_digit close = false -> Forall (reads item show) (a :: l) -> length l < steps ->
  parse_list close item steps (str_join "," (map show (a :: l)) +:+ String close rest) = Some (a :: l, rest).
Proof.
  intros Hc Hd. revert a steps. induction l as [|b l IH]; intros a [|steps] [Ha Hl]%Forall_cons Hs; cbn in Hs; try lia.
  - cbn [map str_join parse_list]. rewrite Ha by done. cbn [mbind option_bind char]. rewrite decide_False by done.
    by rewrite decide_True.
  - cbn [map]. rewrite str_join_cons by done. rewrite !str_app_assoc. cbn [parse_list]. rewrite Ha by done.
    cbn [mbind option_bind char String.append]. rewrite decide_True by done. cbn [map] in IH. by rewrite IH by (done || lia).
Qed.

Lemma parse_bracket_render {A} close item (show : A -> string) l rest :
  close <> ","%char -> is_ascii_digit close = false -> Forall (reads item show) l ->
  (forall a, a ∈ l -> exists c s, show a = String c s /\ c <> close) ->
  parse_bracket close item (str_join "," (map show l) +:+ String close rest) = Some (l, rest).
Proof.
  intros Hc Hd Hl Hh. unfold parse_bracket. destruct l as [|a l]; [by cbn; rewrite decide_True|].
  destruct (Hh a) as (c & s & Hs & Hcc); [set_solver|].
  assert (exists t, str_join "," (map show (a :: l)) = String c t) as [t Ht].
  { cbn [map]. rewrite Hs. destruct l; cbn; eauto. }
  assert (char close (str_join "," (map show (a :: l)) +:+ String close rest) = None) as ->.
  { rewrite Ht. cbn. by rewrite decide_False by congruence. }
  apply parse_list_render; [done..|]. rewrite str_length_app.
  pose proof (str_join_length_list (map show (a :: l))) as H. rewrite length_map in H. cbn [length] in *. lia.
Qed.

Definition render_field (kv : string * RefDoc) : string := render_string kv.1 +:+ ":" +:+ render kv.2.

Definition parses (d : RefDoc) : Prop :=
  forall fuel, printable d -> String.length (render d) <= fuel -> reads (parse_value fuel) render d.

Lemma parse_field_render fuel kv :
  parses kv.2 -> printable kv.2 -> String.length (render_field kv) <= fuel ->
  reads (parse_field (parse_value fuel)) render_field kv.
Proof.
  destruct kv as [k d]. unfold render_field. cbn [fst snd]. intros Hp Hq Hf rest He. rewrite !str_length_app in Hf.
  unfold parse_field. rewrite !str_app_assoc, parse_string_render. cbn [mbind option_bind String.append char].
  rewrite decide_True by done. cbn [mbind option_bind]. by rewrite (Hp fuel) by (done || lia).
Qed.

Lemma parse_number n fuel rest :
  (n <= U64_MAX)%N -> ends rest -> parse_value (S fuel) (pretty n +:+ rest) = Some (DU64 n, rest).
Proof.
  intros Hn He. pose proof (span_digits_app (pretty n) rest (pretty_N_digits n) He) as Hs.
  pose proof (parse_uint_pretty U64_MAX n Hn) as Hp. destruct (pretty_N_cons n) as (c & s & E & Hc). rewrite E in *.
  cbn [String.append parse_value] in *. rewrite !decide_False by (intros ->; done). rewrite Hc, Hs. by rewrite Hp.
Qed.

Lemma render_parses d : parses d.
Proof.
  induction d as [|[]|n|z|[]|s|items IH|fields IH] using Doc_ind'; intros [|fuel] Hp Hf rest He; try done;
    try (cbn in Hf; lia).
  - destruct (render_head _ Hp) as (c & s & E & _). rewrite E in Hf. cbn in Hf. lia.
  - by apply parse_number.
  - transitivity ('(x, rest) ← parse_string (render_string s +:+ rest); Some (DStr x, rest) : option (RefDoc * string));
      [reflexivity|]. by rewrite parse_string_render.
  - cbn [render] in *. rewrite !str_app_assoc. cbn [String.append parse_value]. rewrite decide_False, decide_True by done.
    rewrite (parse_bracket_render "]" _ render); [done..| |].
    + apply printable_array in Hp. rewrite !str_length_app in Hf. cbn in Hf. apply Forall_forall. intros d Hd.
      rewrite Forall_forall in IH, Hp. apply IH; auto.
      pose proof (str_join_length_elem (render d) (map render items) ltac:(apply list_elem_of_fmap; eauto)). lia.
    + intros d Hd. apply render_head. apply printable_array in Hp. rewrite Forall_forall in Hp. auto.
  - cbn [render] in *. rewrite !str_app_assoc. cbn [String.append parse_value]. rewrite !decide_False, decide_True by done.
    change (map _ fields) with (map render_field fields) in *.
    rewrite (parse_bracket_render "}" _ render_field); [done..| |].
    + apply printable_object in Hp. rewrite !str_length_app in Hf. cbn in Hf. apply Forall_forall. intros d Hd.
      rewrite Forall_forall in IH, Hp. apply parse_field_render; auto.
      pose proof (str_join_length_elem (render_field d) (map render_field fields) ltac:(apply list_elem_of_fmap; eauto)). lia.
    + intros d Hd. unfold render_field, render_string. cbn. eauto.
Qed.

Lemma parse_doc_render d : printable d -> parse_doc (render d) = Ok d.
Proof.
  intros H. unfold parse_doc. rewrite <-(str_app_nil_r (render d)) at 2. by rewrite (render_parses d _ H).
Qed.

(** ** The parameters *)

#[export] Instance ref_json : JsonCrate := {|
  F64 := Empty_set;
  Number := Z;
  number_of_u64 := Z.of_N;
  number_of_i64 z := z;
  number_from_f64 f := match f with end;
  number_to_string z := pretty z;
  json_from_str := parse_doc;
|}.

#[export] Instance ref_json_laws : JsonLaws ref_json.
Proof. split; [|done]. by intros [|n]. Qed.

Fixpoint doc_of (v : Value Z) : RefDoc :=
  match v with
  | VNull => DNull
  | VBool b => DBool b
  | VNumber z => if decide (0 <= z)%Z then DU64 (Z.to_N z) else DI64 z
  | VString s => DStr s
  | VArray items => DArr (map doc_of items)
  | VObject fields => DObj (map (fun kv => (kv.1, doc_of kv.2)) fields)
  end.

#[export] Instance ref_write : WriteCrate := {| to_string v := render (doc_of v) |}.

Definition as_u64 (z : Z) : option N := if decide (0 <= z)%Z then Some (Z.to_N z) else None.

(** A derived reader, as a [Result]. *)
Definition derived {A} (read : Tree -> option A) (t : Tree) : result string A := ok_or "missing field" (read t).
Definition derived_str {A} (read : Tree -> option A) (text : string) : result string A :=
  d ← parse_doc text; derived read (tree_of_doc d).

Definition hex_value (c : ascii) : option nat :=
  if in_range 48 57 c then Some (nat_of_ascii c - 48)
  else if in_range 65 70 c then Some (nat_of_ascii c - 55)
  else if in_range 97 102 c then Some (nat_of_ascii c - 87) else None.

(** Of ASCII bytes; a percent sign without two digits stands for itself. *)
Fixpoint percent_decode (s : string) : result string string :=
  match s with
  | EmptyString => Ok ""
  | String c t =>
      match t with
      | String a (String b u) =>
          match (if decide (c = "%"%char) then '(x, y) ← (x ← hex_value a; y ← hex_value b; Some (x, y)); Some (16 * x + y) else None) with
          | Some n => if n <? 128 then String (ascii_of_nat n) <$> percent_decode u else Err "invalid utf-8"
          | None => String c <$> percent_decode t
          end
      | _ => String c <$> percent_decode t
      end
  end.

#[export] Instance ref_decode : DecodeCrates := {|
  s3_notification_of_value v := derived read_s3_notification (tree_of_value as_u64 v);
  sns_messages_of_slice := derived_str read_sns_notification;
  sqs_event_of_slice := derived_str read_sqs_event;
  sns_message_of_str := derived_str read_sns_message;
  type_of_str := derived_str read_type_sniff;
  eventbridge_of_slice := derived_str read_eventbridge;
  percent_decode_utf8 := percent_decode;
|}.

Lemma derived_agrees {A} (read : Tree -> option A) t : agrees (derived read t) (read t).
Proof. unfold derived, agrees. by destruct (read t). Qed.

Lemma derived_str_agrees {A} (read : Tree -> option A) text d :
  parse_doc text = Ok d -> agrees (derived_str read text) (read (tree_of_doc d)).
Proof. intros H. unfold derived_str. rewrite H. apply derived_agrees. Qed.

#[export] Instance ref_wire_laws : WireLaws ref_decode.
Proof.
  refine (Build_WireLaws _ ref_decode as_u64 _ _ _ _ _ _ _); [|intros; apply (derived_agrees read_s3_notification)|
    intros text d H; by apply derived_str_agrees..].
  intros n. cbn. unfold as_u64. rewrite decide_True by lia. by rewrite N2Z.id.
Defined.

(** A map's pairs, put into a map one by one, stay as they are. *)
Lemma alist_insert_snoc {V} (k : string) (v : V) l : k ∉ l.*1 -> alist_insert k v l = l ++ [(k, v)].
Proof.
  induction l as [|[k' v'] l IH]; [done|]. cbn. intros H. rewrite decide_False by set_solver. by rewrite IH by set_solver.
Qed.

Lemma obj_of_pairs_nodup (kvs : list (string * Value Z)) : NoDup kvs.*1 -> obj_of_pairs (J := ref_json) kvs = kvs.
Proof.
  induction kvs as [|[k v] kvs IH] using rev_ind; [done|]. rewrite fmap_app. intros (Hn & Hk & _)%NoDup_app.
  etransitivity; [apply (obj_of_pairs_snoc (J := ref_json))|]. rewrite IH by done. apply alist_insert_snoc. intros H. by apply (Hk k H), list_elem_of_singleton.
Qed.

Lemma doc_of_printable v : plain v -> printable (doc_of v).
Proof.
  induction v as [|b|z|s|items IH|fields IH] using Value_ind'; intros H; try done.
  - cbn in H. destruct H as (u & -> & Hu). cbn. rewrite decide_True by lia. cbn. by rewrite N2Z.id.
  - apply plain_array in H. apply printable_array, Forall_map. rewrite Forall_forall in IH, H |- *. auto.
  - apply plain_object in H as [_ H]. apply printable_object, Forall_map. rewrite Forall_forall in IH, H |- *.
    intros kv Hkv. cbn. auto.
Qed.

Lemma value_of_doc v : plain v -> value_of (doc_of v) = v.
Proof.
  induction v as [|b|z|s|items IH|fields IH] using Value_ind'; intros H; try done.
  - cbn in H. destruct H as (u & -> & Hu). cbn. rewrite decide_True by lia. cbn. by rewrite N2Z.id.
  - apply plain_array in H. cbn. f_equal. rewrite map_map. rewrite <-(map_id items) at 2. apply map_ext_in.
    intros v Hv%list_elem_of_In. rewrite Forall_forall in IH, H. auto.
  - apply plain_object in H as [[Hn _] H]. cbn. rewrite map_map. f_equal. rewrite <-(obj_of_pairs_nodup fields) at 2 by done.
    f_equal. rewrite <-(map_id fields) at 2. apply map_ext_in. intros [k v] Hv%list_elem_of_In.
    rewrite Forall_forall in IH, H. cbn. f_equal. apply (IH _ Hv), (H _ Hv).
Qed.

Lemma tree_of_doc_of v : plain v -> tree_of_doc (doc_of v) = tree_of_value as_u64 v.
Proof.
  induction v as [|b|z|s|items IH|fields IH] using Value_ind'; intros H; try done.
  - cbn in H. destruct H as (u & -> & Hu). cbn. unfold as_u64. rewrite !decide_True by lia. done.
  - apply plain_array in H. cbn. f_equal. rewrite map_map. apply map_ext_in.
    intros v Hv%list_elem_of_In. rewrite Forall_forall in IH, H. auto.
  - apply plain_object in H as [Hn H]. cbn. f_equal. rewrite map_map. apply map_ext_in. intros [k v] Hv%list_elem_of_In.
    rewrite Forall_forall in IH, H. cbn. f_equal. apply (IH _ Hv), (H _ Hv).
Qed.

#[export] Instance ref_write_laws : WriteLaws ref_write.
Proof.
  split. intros v Hv. exists (doc_of v). split; [by apply parse_doc_render, doc_of_printable|].
  split; [by apply value_of_doc|by apply tree_of_doc_of].
Qed.

(** ** The shallow shape *)

Definition shape_of (d : RefDoc) : RawShape :=
  match d with
  | DArr items => RArr (map render items) (Ok tt)
  | DObj _ => RObj (Ok tt)
  | _ => RScalar (Ok tt) (Ok tt)
  end.

(** A read that fails is the parser's error, whatever came before it. *)
#[export] Instance ref_shallow : ShallowCrate := {|
  parse_shallow text tail :=
    match tail, parse_doc text with
    | Some e, _ => let e := mkJsonError true e in mkShallow (TScalar (Err e)) (Err e)
    | None, Ok (DObj fields) => mkShallow (TMap (map (fun kv => (kv.1, shape_of kv.2)) fields) (Ok tt)) (Ok tt)
    | None, Ok (DArr items) => mkShallow (TSeq (map shape_of items) (Ok tt)) (Ok tt)
    | None, Ok _ => mkShallow (TScalar (Ok tt)) (Ok tt)
    | None, Err e => let e := mkJsonError false e in mkShallow (TScalar (Err e)) (Err e)
    end;
|}.

Lemma shape_of_clean d : shape_clean (shape_of d) = true.
Proof. by destruct d. Qed.

#[export] Instance ref_shallow_laws : ShallowLaws ref_json ref_shallow.
Proof.
  split.
  - intros text d H. cbn in *. rewrite H. destruct d as [| | | |[]| |items|fields]; try done; cbn; rewrite andb_true_r;
      apply forallb_Forall, Forall_map, Forall_forall; intros; apply shape_of_clean.
  - done.
Qed.
