(* ===== verification/Fixtures.v ===== *)
(** * The fixtures of the tests ([testkit/src/fixtures.rs])

    The payloads the end-to-end tests feed the binaries, and the CloudTrail body whose
    survivors they expect.  The theorems say what the tests take for granted: every builder
    makes an event its decoder reads as the one object it names, and the survivors a fixture
    declares are those the ruleset leaves. *)

From S2P Require Import Prelude Model Json Path Regex Rules Reference Index Project Engine.
From S2P Require Import Settings Effects Metrics Ports Task Envelope Buffer Stream Cache Pipeline.
From S2P Require Import Accounting Source Footprint Objects Weave Batch Handle S3Store Decode Queue Sources Lambda.
From S2P Require Import Text Wire RefJson.

(** ** Rulesets *)

Definition text_lines (ls : list string) : string := str_join (String LF "") ls +:+ String LF "".

Definition quote (s : string) : string := QUOTE +:+ s +:+ QUOTE.

Definition one_rule (name pattern : string) : string :=
  String LF "" +:+
  text_lines
    ["version: 1.0.0";
     "rules:";
     "  - name: " +:+ name;
     "    matches:";
     "      - field_name: eventName";
     "        regex: " +:+ quote pattern].

Definition DROP_DECRYPT_RULES : string := one_rule "Drop Decrypt" "^Decrypt$".
Definition KEEP_ALL_RULES : string := one_rule "Drop nothing" "^__never_matches__$".

Definition compile_engine {R : RegexCrate} {Y : RulesCrates} (b : Bytes) : result ConfigError Engine := compile_rules b.

(** ** gzip *)

(** [None] is a panic: a level the encoder does not have, or a failed [expect]. *)
Definition gzip_bytes {G : GzipCrate} (body : Bytes) (level : N) : option Bytes :=
  encoder ← enc_new level;
  match encoder ← enc_write body encoder; enc_finish encoder with Ok gz => Some gz | Err _ => None end.

Definition gunzip_all {G : GzipCrate} (input : Bytes) : option Bytes :=
  match gunzip input with (out, None) => Some out | (_, Some _) => None end.

(** ** Records *)

Definition record_json (idx : nat) (event_name : string) : string :=
  "{" +:+ quote "eventName" +:+ ":" +:+ quote event_name +:+ "," +:+
  quote "eventSource" +:+ ":" +:+ quote "signin.amazonaws.com" +:+ "," +:+
  quote "eventID" +:+ ":" +:+ quote (zero_padded 10 (N.of_nat idx)) +:+ "}".

Definition fixture_name (i : nat) : string := if (i mod 5 =? 0)%nat then "Decrypt" else "ConsoleLogin".

(** The two vectors of the loop. *)
Definition fixture_records (count : nat) : list string := map (fun i => record_json i (fixture_name i)) (seq 0 count).

Definition fixture_survivors (count : nat) : list string :=
  omap (fun i => if decide (fixture_name i = "Decrypt") then None else Some (record_json i (fixture_name i))) (seq 0 count).

Definition records_text (records : list string) : Bytes :=
  "{" +:+ quote "Records" +:+ ":[" +:+ str_join "," records +:+ "]}".

Definition cloudtrail_body (count : nat) : Bytes * Bytes :=
  (records_text (fixture_records count), records_text (fixture_survivors count)).

(** ** Events *)

Section events.
Context {J : JsonCrate} {W : WriteCrate}.

Definition s3_event (bucket key : string) (size : N) : Value Number :=
  json_object [("Records", VArray [json_object [("s3", json_object
    [("bucket", json_object [("name", VString bucket)]);
     ("object", json_object [("key", VString key); ("size", VNumber (number_of_u64 size))])])]])].

(** One record of an SQS event. *)
Definition sqs_fixture_record (message_id body : string) : Value Number :=
  json_object [("messageId", VString message_id); ("receiptHandle", VString "receipt"); ("body", VString body);
           ("attributes", json_object []); ("messageAttributes", json_object []); ("eventSource", VString "aws:sqs")].

Definition sns_envelope (message : string) : Value Number :=
  json_object [("Type", VString "Notification"); ("MessageId", VString "sns-message-id");
           ("TopicArn", VString "arn:aws:sns:us-east-1:000000000000:ct"); ("Message", VString message)].

Definition sqs_event_with_s3_body (message_id bucket key : string) (size : N) : Value Number :=
  json_object [("Records", VArray [sqs_fixture_record message_id (to_string (s3_event bucket key size))])].

Definition sqs_event_with_sns_body (message_id bucket key : string) (size : N) : Value Number :=
  json_object [("Records", VArray
    [sqs_fixture_record message_id (to_string (sns_envelope (to_string (s3_event bucket key size))))])].

Definition sqs_event_from_bodies (bodies : list string) : Value Number :=
  json_object [("Records", VArray (imap (fun i body => sqs_fixture_record ("m-" +:+ pretty (N.of_nat i)) body) bodies))].

Definition sns_fixture_record (message : string) : Value Number :=
  json_object [("EventSource", VString "aws:sns"); ("Sns", sns_envelope message)].

Definition sns_event_from_messages (messages : list string) : Value Number :=
  json_object [("Records", VArray (map sns_fixture_record messages))].

Definition sns_event (bucket key : string) (size : N) : Value Number :=
  json_object [("Records", VArray [sns_fixture_record (to_string (s3_event bucket key size))])].

Definition eventbridge_event (bucket key : string) (size : N) : Value Number :=
  json_object
    [("version", VString "0"); ("id", VString "eb-event-id"); ("detail-type", VString "Object Created");
     ("source", VString "aws.s3"); ("account", VString "000000000000"); ("region", VString "us-east-1");
     ("detail", json_object
       [("version", VString "0"); ("event-version", VString "1.0"); ("bucket", json_object [("name", VString bucket)]);
        ("object", json_object [("key", VString key); ("size", VNumber (number_of_u64 size))])])].

(** The event of each trigger that names one object; [id] is SQS's message. *)
Definition fixture_event (t : Trigger) (wrapped : bool) (id bucket key : string) (size : N) : Value Number :=
  match t with
  | OnS3 => s3_event bucket key size
  | OnSns => sns_event bucket key size
  | OnSqs => if wrapped then sqs_event_with_sns_body id bucket key size else sqs_event_with_s3_body id bucket key size
  | OnEventBridge => eventbridge_event bucket key size
  end.
End events.

(** ** Settings *)

Definition base_settings (dest_bucket rules_uri : string) : Settings :=
  mkSettings Source_default (mkDestination dest_bucket "") Processing_default Behavior_default Sqs_default
    (mkRulesSettings rules_uri 300) Observability_default.

(** ** Lemmas: the trees of the events *)

(** The maps, in key order. *)
Section maps.
Context {J : JsonCrate} {W : WriteCrate}.

Lemma s3_event_map b k n : s3_event b k n =
  VObject [("Records", VArray [VObject [("s3", VObject
    [("bucket", VObject [("name", VString b)]);
     ("object", VObject [("key", VString k); ("size", VNumber (number_of_u64 n))])])]])].
Proof. reflexivity. Qed.

Lemma sqs_record_map id body : sqs_fixture_record id body =
  VObject [("attributes", VObject []); ("body", VString body); ("eventSource", VString "aws:sqs");
           ("messageAttributes", VObject []); ("messageId", VString id); ("receiptHandle", VString "receipt")].
Proof. reflexivity. Qed.

Lemma sns_envelope_map m : sns_envelope m =
  VObject [("Message", VString m); ("MessageId", VString "sns-message-id");
           ("TopicArn", VString "arn:aws:sns:us-east-1:000000000000:ct"); ("Type", VString "Notification")].
Proof. reflexivity. Qed.

Lemma sns_record_map m : sns_fixture_record m = VObject [("EventSource", VString "aws:sns"); ("Sns", sns_envelope m)].
Proof. reflexivity. Qed.

Lemma eventbridge_map b k n : eventbridge_event b k n =
  VObject
    [("account", VString "000000000000");
     ("detail", VObject
       [("bucket", VObject [("name", VString b)]); ("event-version", VString "1.0");
        ("object", VObject [("key", VString k); ("size", VNumber (number_of_u64 n))]); ("version", VString "0")]);
     ("detail-type", VString "Object Created"); ("id", VString "eb-event-id"); ("region", VString "us-east-1");
     ("source", VString "aws.s3"); ("version", VString "0")].
Proof. reflexivity. Qed.

(** The records of an SQS event, and the messages of an SNS event. *)
Definition sqs_records (records : list SqsRecord) : Value Number :=
  VObject [("Records", VArray (map (fun r => sqs_fixture_record (message_id r) (body r)) records))].

Lemma sns_messages_map messages :
  sns_event_from_messages messages = VObject [("Records", VArray (map sns_fixture_record messages))].
Proof. reflexivity. Qed.
End maps.

Section trees.
Context {J : JsonCrate} {W : WriteCrate} {Cr : DecodeCrates} {WL : WireLaws Cr}.

Lemma s3_event_tree b k n :
  tree_of_value number_as_u64 (s3_event b k n) =
  TObj [("Records", TArr [TObj [("s3", TObj
    [("bucket", TObj [("name", TStr b)]); ("object", TObj [("key", TStr k); ("size", TNum (Some n))])])]])].
Proof. rewrite s3_event_map. cbn. by rewrite number_as_u64_of_u64. Qed.

Lemma eventbridge_reading b k n :
  read_eventbridge (tree_of_value number_as_u64 (eventbridge_event b k n)) =
  Some (mkEventBridgeEvent "Object Created" "1.0" b k (Some n)).
Proof. rewrite eventbridge_map. cbn [tree_of_value map fst snd]. by rewrite number_as_u64_of_u64. Qed.

Ltac names_differ := apply (bool_decide_unpack _); vm_compute; reflexivity.
Ltac plain_value := cbn [plain]; repeat first [exact I | reflexivity | names_differ | split | by eexists].

Lemma s3_event_plain b k n : (n <= U64_MAX)%N -> plain (s3_event b k n).
Proof. intros H. rewrite s3_event_map. plain_value. Qed.

Lemma eventbridge_event_plain b k n : (n <= U64_MAX)%N -> plain (eventbridge_event b k n).
Proof. intros H. rewrite eventbridge_map. plain_value. Qed.

Lemma sns_envelope_plain m : plain (sns_envelope m).
Proof. rewrite sns_envelope_map. plain_value. Qed.

Lemma records_plain values : Forall plain values -> plain (VObject [("Records", VArray values)]).
Proof. intros H. rewrite plain_object. split; [split; [names_differ|done]|]. constructor; [|done]. by apply plain_array. Qed.

Lemma sqs_records_plain records : plain (sqs_records records).
Proof.
  apply records_plain, Forall_map, Forall_forall. intros r _. cbv beta. rewrite sqs_record_map. plain_value.
Qed.

Lemma sns_messages_plain messages : plain (sns_event_from_messages messages).
Proof.
  rewrite sns_messages_map. apply records_plain, Forall_map, Forall_forall. intros m _.
  rewrite sns_record_map, sns_envelope_map. plain_value.
Qed.

Lemma sqs_records_tree records :
  read_sqs_event (tree_of_value number_as_u64 (sqs_records records)) = Some records.
Proof.
  unfold sqs_records, read_sqs_event. cbn [tree_of_value map fst snd]. rewrite read_records, map_map.
  induction records as [|[id b] records IH]; [done|]. cbn [map mapM]. rewrite sqs_record_map. by rewrite IH.
Qed.

Lemma sns_messages_tree messages :
  read_sns_notification (tree_of_value number_as_u64 (sns_event_from_messages messages)) = Some messages.
Proof.
  rewrite sns_messages_map. unfold read_sns_notification. cbn [tree_of_value map fst snd]. rewrite read_records, map_map.
  induction messages as [|m messages IH]; [done|]. cbn [map mapM]. rewrite sns_record_map, sns_envelope_map. by rewrite IH.
Qed.
End trees.

(** ** Lemmas: what the decoders make of them *)

Section decoding.
Context {J : JsonCrate} {W : WriteCrate} {Cr : DecodeCrates} {WL : WireLaws Cr} {L : WriteLaws W}.

Lemma sqs_records_decode records format :
  SqsEventDecoder_decode format (to_string (sqs_records records)) = Ok (omap (sqs_item format) records).
Proof.
  destruct (to_string_parses _ (sqs_records_plain records)) as (d & Hd & _ & Ht). unfold SqsEventDecoder_decode.
  pose proof (sqs_reads _ d Hd) as H. rewrite Ht, sqs_records_tree in H. by rewrite H.
Qed.

Lemma sns_messages_decode messages :
  SnsEventDecoder_decode (to_string (sns_event_from_messages messages)) = sns_items messages [].
Proof.
  destruct (to_string_parses _ (sns_messages_plain messages)) as (d & Hd & _ & Ht). unfold SnsEventDecoder_decode.
  pose proof (sns_reads _ d Hd) as H. rewrite Ht, sns_messages_tree in H. by rewrite H.
Qed.

Lemma s3_event_parse b k n key :
  (n <= U64_MAX)%N -> decode_form_urlencoded_key k = Ok key ->
  parse_s3_notification (to_string (s3_event b k n)) = Ok ([mkObjectRef b key (Some n)], false).
Proof.
  intros Hn Hk. destruct (to_string_parses _ (s3_event_plain b k n Hn)) as (d & Hd & Hv & Ht).
  unfold parse_s3_notification, from_str_value. rewrite Hd. cbn [fmap result_fmap map_err mbind result_bind]. rewrite Hv.
  rewrite decide_False by done. pose proof (notification_reads (s3_event b k n)) as H. rewrite s3_event_tree in H.
  rewrite H. cbn [map_err mbind result_bind s3_objects]. cbn. by rewrite Hk.
Qed.

Lemma s3_event_no_sns b k n : (n <= U64_MAX)%N -> looks_like_sns_notification (to_string (s3_event b k n)) = false.
Proof.
  intros Hn. destruct (to_string_parses _ (s3_event_plain b k n Hn)) as (d & Hd & Hv & Ht).
  unfold looks_like_sns_notification. pose proof (type_reads _ d Hd) as H. rewrite Ht, s3_event_tree in H. by rewrite H.
Qed.

Lemma sns_envelope_unwraps m :
  looks_like_sns_notification (to_string (sns_envelope m)) = true /\ unwrap_sns (to_string (sns_envelope m)) = Ok m.
Proof.
  destruct (to_string_parses _ (sns_envelope_plain m)) as (d & Hd & Hv & Ht). split.
  - unfold looks_like_sns_notification. pose proof (type_reads _ d Hd) as H. rewrite Ht, sns_envelope_map in H. by rewrite H.
  - unfold unwrap_sns. pose proof (message_reads _ d Hd) as H. rewrite Ht, sns_envelope_map in H. by rewrite H.
Qed.

(** The body of an SQS message, bare or in an SNS envelope, in a format that takes it. *)
Lemma fixture_body_decodes (wrapped : bool) b k n key format :
  (n <= U64_MAX)%N -> decode_form_urlencoded_key k = Ok key -> format = SfAuto \/ format = (if wrapped then SfSns else SfS3) ->
  let event := to_string (s3_event b k n) in
  decode_body (if (wrapped : bool) then to_string (sns_envelope event) else event) format =
  Ok ([mkObjectRef b key (Some n)], false).
Proof.
  intros Hn Hk Hf event. pose proof (s3_event_parse b k n key Hn Hk) as Hp. pose proof (s3_event_no_sns b k n Hn) as Hs.
  destruct (sns_envelope_unwraps event) as [Hl Hu]. unfold decode_body, event in *.
  destruct wrapped, Hf as [-> | ->]; rewrite ?Hl, ?Hu, ?Hs; exact Hp.
Qed.

Lemma eventbridge_decodes b k n :
  (n <= U64_MAX)%N ->
  EventBridgeDecoder_decode (to_string (eventbridge_event b k n)) = Ok [SourceItem.new None [mkObjectRef b k (Some n)]].
Proof.
  intros Hn. destruct (to_string_parses _ (eventbridge_event_plain b k n Hn)) as (d & Hd & Hv & Ht).
  unfold EventBridgeDecoder_decode. pose proof (eventbridge_reads _ d Hd) as H. rewrite Ht, eventbridge_reading in H.
  by rewrite H.
Qed.

(** The acknowledgement and the key an event is decoded with. *)
Definition fixture_ack (t : Trigger) (id : string) : option string := match t with OnSqs => Some id | _ => None end.

(** EventBridge names a key as it is, S3 encodes it. *)
Definition named_key (t : Trigger) (k key : string) : Prop :=
  match t with OnEventBridge => key = k | _ => decode_form_urlencoded_key k = Ok key end.

Definition format_takes (t : Trigger) (wrapped : bool) (s : Settings) : Prop :=
  t = OnSqs -> body_format (s_sqs s) = SfAuto \/ body_format (s_sqs s) = (if wrapped then SfSns else SfS3).

Lemma fixture_decodes t wrapped settings id b k n key :
  (n <= U64_MAX)%N -> format_takes t wrapped settings ->
  named_key t k key ->
  decode (EventDecoder := build_decoder t settings) (to_string (fixture_event t wrapped id b k n)) =
  Ok [SourceItem.new (fixture_ack t id) [mkObjectRef b key (Some n)]].
Proof.
  intros Hn Hf Hk. destruct t; cbn [build_decoder decode s3_event_decoder sns_event_decoder sqs_event_decoder eventbridge_decoder].
  - unfold S3EventDecoder_decode. cbn [fixture_event]. by rewrite (s3_event_parse b k n key Hn Hk).
  - change (fixture_event OnSns wrapped id b k n) with (sns_event_from_messages [to_string (s3_event b k n)]).
    rewrite sns_messages_decode. cbn [sns_items].
    by rewrite (s3_event_parse b k n key Hn Hk).
  - pose proof (fixture_body_decodes wrapped b k n key _ Hn Hk (Hf eq_refl)) as Hb. cbv zeta in Hb. cbn [fixture_event].
    assert ((if wrapped then sqs_event_with_sns_body id b k n else sqs_event_with_s3_body id b k n) =
            sqs_records [mkSqsRecord id (if wrapped then to_string (sns_envelope (to_string (s3_event b k n))) else to_string (s3_event b k n))])
      as -> by by destruct wrapped.
    rewrite sqs_records_decode. cbn [omap list_omap]. unfold sqs_item. cbn [Decode.body]. rewrite Hb. done.
  - cbn in Hk. subst key. by apply eventbridge_decodes.
Qed.
End decoding.

(** ** Lemmas: a ruleset of one rule *)

Section one_rule.
Context {J : JsonCrate} {JL : JsonLaws J} {R : RegexCrate} {RL : RegexLaws R} {Y : RulesCrates}.

(** What the YAML of [one_rule] says. *)
Definition says_one_rule (name pattern : string) : Prop :=
  exists raw, yaml_rule_set (one_rule name pattern) = Ok (mkWireRuleSet _ _ "1.0.0" None [raw]) /\
    yaml_rule_v1 raw = Ok (mkWireRuleV1 name [mkWireMatchV1 "eventName" pattern]) /\
    semver_major "1.0.0" = Ok 1%N.

Lemma one_rule_parses name pattern rs :
  says_one_rule name pattern -> parse (one_rule name pattern) = Ok rs ->
  rs = mkRuleSet _ "1.0.0" None [mkRule name [mkMatch "eventName" (MRegex pattern) false]] /\ semver_major (rs_version rs) = Ok 1%N.
Proof.
  intros (raw & Hy & Hr & Hv) Hp. unfold parse in Hp. rewrite Hy in Hp. cbn [mbind result_bind map_err wrs_version wrs_rules wrs_meta] in Hp.
  rewrite Hv in Hp. cbn [mbind result_bind map_err] in Hp. rewrite decide_True in Hp by done.
  unfold lower_rule_v1 in Hp. cbn [collect_results] in Hp. rewrite Hr in Hp. cbn in Hp.
  apply result_bind_ok in Hp as ([] & _ & [= <-]). done.
Qed.

(** Its one condition, compiled. *)
Lemma one_rule_compiled name pattern rs e :
  rs = mkRuleSet _ "1.0.0" None [mkRule name [mkMatch "eventName" (MRegex pattern) false]] ->
  engine_new rs = Some (Ok e) ->
  exists re, regex_build REGEX_SIZE_LIMIT pattern = Ok re /\
    (escapes_documented pattern = true -> engine_documented e = true).
Proof.
  intros -> He. apply engine_new_inv in He as (major & compiled & paths & _ & Hc & _ & Hs). cbn [rs_rules collect_results] in Hc.
  apply result_bind_ok in Hc as (cr & Hcr & [= <-]). apply result_bind_ok in Hcr as (ms & Hms & [= <-]).
  cbn [r_matches collect_results] in Hms. apply result_bind_ok in Hms as (cm & Hcm & [= <-]).
  apply result_bind_ok in Hcm as (op & Hop & Hcm). apply result_bind_ok in Hcm as (path & _ & [= <-]).
  cbn [m_op compile_op] in Hop. destruct (regex_build REGEX_SIZE_LIMIT pattern) as [re|] eqn:Hb; [|done].
  cbn in Hop. injection Hop as <-. exists re. split; [done|]. intros Hdoc.
  apply Forall2_cons_inv_l in Hs as (cr' & rest & [_ Hm] & Hl & He). apply Forall2_nil_inv_l in Hl as ->.
  apply Forall2_cons_inv_l in Hm as (cm' & rest & (_ & Ho & _) & Hl & Hcm). apply Forall2_nil_inv_l in Hl as ->.
  unfold engine_documented. rewrite He. cbn [forallb]. rewrite Hcm. cbn [forallb]. rewrite <-Ho. cbn [cm_op op_documented].
  by rewrite (regex_build_as_str _ _ _ Hb), Hdoc.
Qed.

(** The rule drops a record whose [eventName] matches, and nothing else. *)
Lemma one_rule_survives name pattern e :
  says_one_rule name pattern -> compile_engine (one_rule name pattern) = Ok e -> escapes_documented pattern = true ->
  exists re, regex_build REGEX_SIZE_LIMIT pattern = Ok re /\ forall text v, from_str_value text = Ok v ->
    survives e text = negb (existsb (regex_is_match re) (option_list (resolve v "eventName"))).
Proof.
  intros Hy He Hdoc. apply compile_rules_ok in He as (rs & major & Hp & Hn & Hm).
  destruct (one_rule_parses name pattern rs Hy Hp) as [-> Hv]. rewrite Hv in Hm. injection Hm as <-.
  destruct (one_rule_compiled name pattern _ e eq_refl Hn) as (re & Hb & Hd). exists re. split; [done|].
  intros text v Ht. unfold survives. rewrite (evaluate_raw_spec _ e 1 text Hn Hv (Hd Hdoc)), Ht. cbn [fmap result_fmap].
  unfold spec_decision. cbn [rs_rules position]. unfold rule_holds. cbn [r_matches forallb]. unfold condition_holds.
  cbn [m_op m_negate condition_values m_field]. rewrite Hb, xorb_false_r, andb_true_r. unfold condition_values.
  rewrite decide_True by done. cbn [m_field]. by destruct (existsb _ _).
Qed.
End one_rule.

(** ** What [serde_json] documents of objects whose strings need no escape *)

Definition plain_char (c : ascii) : bool := in_range 32 126 c && negb (bool_decide (c = DQUOTE) || bool_decide (c = BACKSLASH)).

Definition flat_field (kv : string * string) : string := quote kv.1 +:+ ":" +:+ quote kv.2.
Definition flat_text (fields : list (string * string)) : string := "{" +:+ str_join "," (map flat_field fields) +:+ "}".
Definition flat (fields : list (string * string)) : bool :=
  forallb (fun kv => str_all plain_char kv.1 && str_all plain_char kv.2) fields.

Class FlatLaws {J : JsonCrate} {SH : ShallowCrate} : Prop := {
  flat_parses fields : flat fields = true -> json_from_str (flat_text fields) = Ok (DObj (map (fun kv => (kv.1, DStr kv.2)) fields));
  flat_records rows : Forall (fun fields => flat fields = true) rows ->
    parse_shallow (records_text (map flat_text rows)) None =
    mkShallow (TMap [("Records", RArr (map flat_text rows) (Ok tt))] (Ok tt)) (Ok tt);
}.
Arguments FlatLaws : clear implicits.

(** The fields of [record_json]. *)
Definition record_fields (idx : nat) (event_name : string) : list (string * string) :=
  [("eventName", event_name); ("eventSource", "signin.amazonaws.com"); ("eventID", zero_padded 10 (N.of_nat idx))].

Lemma record_json_flat idx name : record_json idx name = flat_text (record_fields idx name).
Proof.
  unfold record_json, flat_text, record_fields, flat_field, quote. cbn [map str_join fst snd]. by rewrite !str_app_assoc.
Qed.

Lemma digit_plain c : is_ascii_digit c = true -> plain_char c = true.
Proof. destruct c as [[] [] [] [] [] [] [] []]; vm_compute; congruence. Qed.

Lemma zeros_plain n : str_all plain_char (zeros n) = true.
Proof. by induction n. Qed.

Lemma record_fields_flat idx name : str_all plain_char name = true -> flat (record_fields idx name) = true.
Proof.
  intros H. unfold flat, record_fields. cbn [forallb fst snd]. rewrite H. unfold zero_padded. rewrite str_all_app, zeros_plain.
  rewrite (str_all_impl _ _ _ digit_plain (pretty_N_digits _)). done.
Qed.

(** The record's name decides, whatever the ruleset of one rule is. *)
Section survivors.
Context {J : JsonCrate} {JL : JsonLaws J} {R : RegexCrate} {RL : RegexLaws R} {Y : RulesCrates} {SH : ShallowCrate}
  {FL : FlatLaws J SH}.

Lemma record_survives_name rule literal e idx name :
  says_one_rule rule ("^" +:+ literal +:+ "$") -> compile_engine (one_rule rule ("^" +:+ literal +:+ "$")) = Ok e ->
  escapes_documented ("^" +:+ literal +:+ "$") = true -> literal_of literal = Some literal -> str_all plain_char name = true ->
  survives e (record_json idx name) = negb (bool_decide (name = literal)).
Proof.
  intros Hy He Hd Hl Hn. destruct (one_rule_survives _ _ e Hy He Hd) as (re & Hb & Hs).
  rewrite record_json_flat. pose proof (flat_parses _ (record_fields_flat idx name Hn)) as Hp.
  erewrite Hs by (unfold from_str_value; rewrite Hp; reflexivity).
  assert (forall d, d = DObj (map (fun kv => (kv.1, DStr kv.2)) (record_fields idx name)) ->
    resolve (value_of d) "eventName" = Some name) as Hr by by intros ? ->.
  rewrite (Hr _ eq_refl). change (option_list (Some name)) with [name]. cbn [existsb].
  by rewrite (regex_anchored_literal re literal literal name (regex_build_as_str _ _ _ Hb) Hl), orb_false_r.
Qed.

Lemma fixture_name_plain i : str_all plain_char (fixture_name i) = true.
Proof. unfold fixture_name. by case_match. Qed.

Lemma kept_fixtures e : (forall i name, str_all plain_char name = true ->
    survives e (record_json i name) = negb (bool_decide (name = "Decrypt"))) ->
  forall count, kept e (fixture_records count) = fixture_survivors count.
Proof.
  intros He count. unfold kept, fixture_records, fixture_survivors. induction (seq 0 count) as [|i l IH]; [done|].
  cbn [map omap list_omap]. rewrite filter_cons. rewrite He by apply fixture_name_plain.
  destruct (decide (fixture_name i = "Decrypt")) as [Hd|Hd].
  - rewrite bool_decide_eq_true_2 by done. rewrite decide_False by done. exact IH.
  - rewrite bool_decide_eq_false_2 by done. rewrite decide_True by done. f_equal. exact IH.
Qed.

Lemma kept_all e : (forall i, survives e (record_json i (fixture_name i)) = true) ->
  forall count, kept e (fixture_records count) = fixture_records count.
Proof.
  intros He count. unfold kept, fixture_records. induction (seq 0 count) as [|i l IH]; [done|].
  cbn [map]. rewrite filter_cons_True by apply He. f_equal. exact IH.
Qed.

Lemma fixture_records_shape count :
  parse_shallow (records_text (fixture_records count)) None =
  mkShallow (TMap [("Records", RArr (fixture_records count) (Ok tt))] (Ok tt)) (Ok tt).
Proof.
  assert (fixture_records count = map flat_text (map (fun i => record_fields i (fixture_name i)) (seq 0 count))) as ->.
  { unfold fixture_records. rewrite map_map. apply map_ext. intros i. apply record_json_flat. }
  apply flat_records, Forall_map, Forall_forall. intros i _. apply record_fields_flat, fixture_name_plain.
Qed.

Lemma fixture_survivors_none count : fixture_survivors count = [] <-> (count <= 1)%nat.
Proof.
  split; [|by destruct count as [|[]]; cbn; intros; try lia].
  destruct count as [|[|n]]; intros H; try lia. discriminate.
Qed.
End survivors.

Section delivery.
Context {J : JsonCrate} {SH : ShallowCrate} {R : RegexCrate} {G : GzipCrate} {GL : GzipLaws G}.

Lemma gzip_bytes_gunzip body level gz : gzip_bytes body level = Some gz -> gunzip gz = (body, None).
Proof.
  unfold gzip_bytes. destruct (enc_new level) as [new|] eqn:Hn; [|done]. cbn [mbind option_bind].
  destruct (enc_write body new) as [enc|] eqn:Hw; [|done]. cbn [mbind result_bind].
  destruct (enc_finish enc) as [tail|] eqn:Hf; [|done]. intros [= <-]. apply (gzip_compress_roundtrip body level).
  unfold gzip_compress. rewrite Hn, Hw. cbn [mbind result_bind map_err]. by rewrite Hf.
Qed.

(** A source whose envelope both readers take is filtered, and nothing else. *)
Lemma clean_delivers b e src body rs out :
  gunzip src = (body, None) -> parse_shallow body None = mkShallow (TMap [("Records", RArr rs (Ok tt))] (Ok tt)) (Ok tt) ->
  delivers b e src out <->
  match out with
  | None => kept e rs = []
  | Some gz => kept e rs <> [] /\ gunzip gz = (envelope_body (kept e rs), None)
  end.
Proof.
  intros Hg Hp.
  assert (parse_envelope (parse_shallow body None) = Some rs) as He by by rewrite Hp.
  assert (visit_envelope (parse_shallow body None) = (rs, Ok true)) as Hv.
  { rewrite Hp. unfold visit_envelope. cbn. by rewrite ?app_nil_r. }
  assert (source_records src rs) as Hs by (exists body; split; [done|]; by left).
  assert (forall rs', source_records src rs' -> rs' = rs) as Hrs.
  { intros rs' (body' & Hg' & H). rewrite Hg in Hg'. injection Hg' as <-. destruct H as [H|H]; congruence. }
  assert (~ source_unrecognized src) as Hu.
  { intros (body' & sent & Hg' & _ & H). rewrite Hg in Hg'. injection Hg' as <-. congruence. }
  assert (~ source_unparsable src) as Hn.
  { intros [H|(body' & Hg' & H)]; [by rewrite Hg in H|]. rewrite Hg in Hg'. injection Hg' as <-.
    destruct H as [[H _]|H]; [congruence|by rewrite Hv in H]. }
  split.
  - intros H. inversion H as [rs' gz Hr Hk Hz|rs' Hr Hk|Hr _|Hr _|Hr _]; subst; try done; apply Hrs in Hr as ->; auto.
  - destruct out as [gz|]; [intros [Hk Hz]; by econstructor|intros Hk; by eapply Dv_nothing_kept].
Qed.
End delivery.

Lemma gunzip_all_ok {G : GzipCrate} gz x : gunzip gz = (x, None) <-> gunzip_all gz = Some x.
Proof. unfold gunzip_all. destruct (gunzip gz) as [y [err|]]; split; congruence. Qed.

(** What is delivered under each of the two rulesets. *)
Section rulesets.
Context {J : JsonCrate} {JL : JsonLaws J} {R : RegexCrate} {RL : RegexLaws R} {Y : RulesCrates} {SH : ShallowCrate}
  {FL : FlatLaws J SH} {G : GzipCrate} {GL : GzipLaws G}.

Lemma drop_decrypt_delivers count level src b e out :
  gzip_bytes (cloudtrail_body count).1 level = Some src ->
  says_one_rule "Drop Decrypt" "^Decrypt$" -> compile_engine DROP_DECRYPT_RULES = Ok e ->
  delivers b e src out <->
  match out with
  | None => (count <= 1)%nat
  | Some gz => (1 < count)%nat /\ gunzip_all gz = Some (cloudtrail_body count).2
  end.
Proof.
  intros Hz%gzip_bytes_gunzip Hy He. cbn [cloudtrail_body fst snd] in *.
  rewrite (clean_delivers b e src _ _ out Hz (fixture_records_shape count)).
  rewrite (kept_fixtures e); [|intros i name Hn; by apply (record_survives_name "Drop Decrypt")].
  destruct out as [gz|]; rewrite fixture_survivors_none; [|done]. rewrite <-gunzip_all_ok, Nat.lt_nge. done.
Qed.

Lemma keep_all_delivers count level src b e out :
  gzip_bytes (cloudtrail_body count).1 level = Some src ->
  says_one_rule "Drop nothing" "^__never_matches__$" -> compile_engine KEEP_ALL_RULES = Ok e ->
  delivers b e src out <->
  match out with
  | None => count = O
  | Some gz => count <> O /\ gunzip_all gz = Some (cloudtrail_body count).1
  end.
Proof.
  intros Hz%gzip_bytes_gunzip Hy He. cbn [cloudtrail_body fst snd] in *.
  rewrite (clean_delivers b e src _ _ out Hz (fixture_records_shape count)). rewrite (kept_all e).
  2:{ intros i. rewrite (record_survives_name "Drop nothing" "__never_matches__") by (done || apply fixture_name_plain).
      unfold fixture_name. by case_match. }
  destruct out as [gz|]; [rewrite <-gunzip_all_ok|]; destruct count; naive_solver.
Qed.
End rulesets.

(** ** Properties *)

(** An object as an event names it, and the key the decoder should make of it. *)
Record NamedObject := mkNamed { no_bucket : string; no_written : string; no_size : N; no_key : string }.

Section batches.
Context {J : JsonCrate} {W : WriteCrate} {Cr : DecodeCrates} {WL : WireLaws Cr} {L : WriteLaws W}.

Definition nameable (o : NamedObject) : Prop :=
  (no_size o <= U64_MAX)%N /\ decode_form_urlencoded_key (no_written o) = Ok (no_key o).
Definition reference (o : NamedObject) : ObjectRef := mkObjectRef (no_bucket o) (no_key o) (Some (no_size o)).
Definition notice (o : NamedObject) : string := to_string (s3_event (no_bucket o) (no_written o) (no_size o)).

Lemma notice_parses o : nameable o -> parse_s3_notification (notice o) = Ok ([reference o], false).
Proof. intros [Hn Hk]. by apply s3_event_parse. Qed.

Lemma sns_items_notices os items :
  Forall nameable os -> sns_items (map notice os) items = Ok (items ++ map (fun o => SourceItem.new None [reference o]) os).
Proof.
  intros H. revert items. induction H as [|o os Ho _ IH]; intros items; cbn [map sns_items]; [by rewrite app_nil_r|].
  rewrite (notice_parses o Ho). cbn [mbind result_bind]. rewrite IH, <-app_assoc. done.
Qed.

Lemma sqs_item_notice format id o :
  format = SfAuto \/ format = SfS3 -> nameable o ->
  sqs_item format (mkSqsRecord id (notice o)) = Some (SourceItem.new (Some id) [reference o]).
Proof.
  intros Hf [Hn Hk]. pose proof (fixture_body_decodes false (no_bucket o) (no_written o) (no_size o) (no_key o) format Hn Hk Hf) as H.
  cbv zeta iota in H. unfold sqs_item. cbn [Decode.body message_id]. unfold notice. by rewrite H.
Qed.

(** The records [sqs_event_from_bodies] numbers from [k]. *)
Definition numbered (k : nat) (bodies : list string) : list SqsRecord :=
  imap (fun i body => mkSqsRecord ("m-" +:+ pretty (N.of_nat (k + i))) body) bodies.

Lemma sqs_from_bodies bodies : sqs_event_from_bodies bodies = sqs_records (numbered 0 bodies).
Proof.
  unfold sqs_event_from_bodies, sqs_records, numbered.
  change (json_object [(?k, ?v)]) with (VObject [(k, v)]). do 4 f_equal. symmetry.
  exact (fmap_imap (fun i body => mkSqsRecord ("m-" +:+ pretty (N.of_nat (0 + i))) body)
           (fun r => sqs_fixture_record (message_id r) (Decode.body r)) bodies).
Qed.

Lemma numbered_items format k os :
  format = SfAuto \/ format = SfS3 -> Forall nameable os ->
  omap (sqs_item format) (numbered k (map notice os)) =
  imap (fun i o => SourceItem.new (Some ("m-" +:+ pretty (N.of_nat (k + i)))) [reference o]) os.
Proof.
  intros Hf H. revert k. induction H as [|o os Ho _ IH]; intros k; [done|]. unfold numbered. cbn [map imap omap list_omap].
  rewrite sqs_item_notice by done. f_equal. specialize (IH (S k)). unfold numbered in IH.
  etransitivity; [etransitivity; [|exact IH]|]; [f_equal|]; apply imap_ext; intros; unfold compose; by rewrite <-Nat.add_succ_comm.
Qed.
End batches.

(** What the end-to-end tests rely on.  Each builder's event, written as JSON, is decoded
    by its trigger's decoder into one item that names exactly the object the test gave, its key
    as the event's encoding of it decodes, and, on SQS, carries the message's id.  A batch of
    SQS messages decodes to an item per message, in order, each with its own id, and a batch of
    SNS messages to an item per message. *)
Theorem fixture_events_decode {J : JsonCrate} {W : WriteCrate} {Cr : DecodeCrates} {WL : WireLaws Cr} {L : WriteLaws W}
    settings :
  (forall t wrapped id b k n key, (n <= U64_MAX)%N -> format_takes t wrapped settings -> named_key t k key ->
    decode (EventDecoder := build_decoder t settings) (to_string (fixture_event t wrapped id b k n)) =
    Ok [SourceItem.new (fixture_ack t id) [mkObjectRef b key (Some n)]]) /\
  (forall os, format_takes OnSqs false settings -> Forall nameable os ->
    decode (EventDecoder := build_decoder OnSqs settings) (to_string (sqs_event_from_bodies (map notice os))) =
    Ok (imap (fun i o => SourceItem.new (Some ("m-" +:+ pretty (N.of_nat i))) [reference o]) os)) /\
  (forall os, Forall nameable os ->
    decode (EventDecoder := build_decoder OnSns settings) (to_string (sns_event_from_messages (map notice os))) =
    Ok (map (fun o => SourceItem.new None [reference o]) os)).
Proof.
  split; [intros; by apply fixture_decodes|]. split; intros os.
  - intros Hf H. cbn [build_decoder decode sqs_event_decoder]. rewrite sqs_from_bodies, sqs_records_decode.
    f_equal. by apply (numbered_items _ 0); [apply Hf|].
  - intros H. cbn [build_decoder decode sns_event_decoder]. rewrite sns_messages_decode. by apply (sns_items_notices os []).
Qed.

(** The survivors a fixture declares are those the program should keep.  Under the tests'
    ruleset that drops [Decrypt], the gzip of [cloudtrail_body]'s records is delivered as its
    second component and as nothing else: an object whose bytes decompress to it, or no object
    when the fixture has fewer than two records.  Under the ruleset that never matches, the
    whole body is. *)
Theorem fixture_survivors_correct {J : JsonCrate} {JL : JsonLaws J} {R : RegexCrate} {RL : RegexLaws R} {Y : RulesCrates}
    {SH : ShallowCrate} {FL : FlatLaws J SH} {G : GzipCrate} {GL : GzipLaws G} count level src b :
  gzip_bytes (cloudtrail_body count).1 level = Some src ->
  (forall e out, says_one_rule "Drop Decrypt" "^Decrypt$" -> compile_engine DROP_DECRYPT_RULES = Ok e ->
    delivers b e src out <->
    match out with
    | None => (count <= 1)%nat
    | Some gz => (1 < count)%nat /\ gunzip_all gz = Some (cloudtrail_body count).2
    end) /\
  (forall e out, says_one_rule "Drop nothing" "^__never_matches__$" -> compile_engine KEEP_ALL_RULES = Ok e ->
    delivers b e src out <->
    match out with
    | None => count = O
    | Some gz => count <> O /\ gunzip_all gz = Some (cloudtrail_body count).1
    end).
Proof.
  intros Hz. split; intros e out Hy He; [by eapply drop_decrypt_delivers|by eapply keep_all_delivers].
Qed.

(** ** Witnesses *)

Lemma escape_plain s : str_all plain_char s = true -> escape s = s.
Proof.
  induction s as [|c s IH]; [done|]. cbn [str_all escape]. unfold plain_char. intros H. bools. rewrite IH by done.
  by rewrite decide_False by naive_solver.
Qed.

Lemma render_string_plain s : str_all plain_char s = true -> render_string s = quote s.
Proof. intros H. unfold render_string. by rewrite escape_plain. Qed.

Lemma flat_text_render fields :
  flat fields = true -> flat_text fields = render (DObj (map (fun kv => (kv.1, DStr kv.2)) fields)).
Proof.
  intros H. unfold flat_text. cbn [render]. rewrite map_map. do 3 f_equal. apply map_ext_in. intros [k v] Hin.
  unfold flat in H. rewrite forallb_forall in H. specialize (H _ Hin). cbn [fst snd] in *. bools.
  unfold flat_field. cbn [render fst snd]. by rewrite !render_string_plain.
Qed.

#[export] Instance ref_flat_laws : FlatLaws ref_json ref_shallow.
Proof.
  assert (forall fields, printable (DObj (map (fun kv : string * string => (kv.1, DStr kv.2)) fields))) as Hp.
  { intros fields. apply printable_object, Forall_map, Forall_forall. done. }
  split.
  - intros fields H. cbn [json_from_str ref_json]. rewrite flat_text_render by done. by apply parse_doc_render.
  - intros rows H. set (ds := map (fun fields => DObj (map (fun kv : string * string => (kv.1, DStr kv.2)) fields)) rows : list RefDoc).
    assert (map flat_text rows = map render ds) as ->.
    { unfold ds. rewrite map_map. apply map_ext_in. intros fields Hf%list_elem_of_In. rewrite Forall_forall in H.
      apply flat_text_render, H, Hf. }
    assert (records_text (map render ds) = render (DObj [("Records", DArr ds)])) as ->.
    { unfold records_text. cbn [render map str_join fst snd]. rewrite render_string_plain by done. unfold quote. by rewrite !str_app_assoc. }
    cbn [parse_shallow ref_shallow]. rewrite parse_doc_render; [done|]. apply printable_object. constructor; [|done].
    apply printable_array. unfold ds. apply Forall_map, Forall_forall. intros; apply Hp.
Qed.

(** The two rulesets, as the YAML reads them. *)
Definition fixture_rules : RulesCrates :=
  table_rules
    (map (fun '(name, pattern) =>
       (one_rule name pattern,
        mkWireRuleSet WireRuleV2 unit "1.0.0" None
          [mkWireRuleV2 name [mkWireMatchV2 "eventName" (Some pattern) None None None false]]))
       [("Drop Decrypt", "^Decrypt$"); ("Drop nothing", "^__never_matches__$")]).

Definition fixture_engine (rules : string) : Engine :=
  match compile_engine (Y := fixture_rules) rules with Ok e => e | Err _ => engine_or_empty None end.

Definition fixture_settings : Settings := base_settings "siem" "file:///rules.yaml".

Definition fixture_objects : list NamedObject := [mkNamed "trail" "a%2Bb.json" 12 "a+b.json"; mkNamed "trail" "c+d.json" 0 "c d.json"].

Lemma fixture_events_decode_witness :
  decode (EventDecoder := build_decoder OnSqs fixture_settings)
    (to_string (fixture_event OnSqs true "m1" "trail" "a+b.json" 12)) =
    Ok [SourceItem.new (Some "m1") [mkObjectRef "trail" "a b.json" (Some 12%N)]] /\
  decode (EventDecoder := build_decoder OnSqs fixture_settings)
    (to_string (sqs_event_from_bodies (map notice fixture_objects))) =
    Ok [SourceItem.new (Some "m-0") [mkObjectRef "trail" "a+b.json" (Some 12%N)];
        SourceItem.new (Some "m-1") [mkObjectRef "trail" "c d.json" (Some 0%N)]] /\
  decode (EventDecoder := build_decoder OnSns fixture_settings)
    (to_string (sns_event_from_messages (map notice fixture_objects))) =
    Ok [SourceItem.new None [mkObjectRef "trail" "a+b.json" (Some 12%N)];
        SourceItem.new None [mkObjectRef "trail" "c d.json" (Some 0%N)]].
Proof.
  destruct (fixture_events_decode (J := ref_json) (L := ref_write_laws) fixture_settings) as (H1 & H2 & H3).
  assert (Forall nameable fixture_objects) as Hn by (repeat constructor; done).
  split; [|split].
  - apply H1; [done| |reflexivity]. intros _. left. reflexivity.
  - rewrite (H2 fixture_objects); [reflexivity| |exact Hn]. intros _. left. reflexivity.
  - by rewrite (H3 fixture_objects).
Defined.

Lemma fixture_survivors_correct_witness :
  exists gz, delivers (G := ref_gzip) Behavior_default (fixture_engine DROP_DECRYPT_RULES) (cloudtrail_body 3).1 (Some gz) /\
    gunzip_all (G := ref_gzip) gz = Some (records_text [record_json 1 "ConsoleLogin"; record_json 2 "ConsoleLogin"]).
Proof.
  destruct (fixture_survivors_correct (J := ref_json) (Y := fixture_rules) (G := ref_gzip) 3 6 (cloudtrail_body 3).1
    Behavior_default eq_refl) as [H _].
  exists (cloudtrail_body 3).2. split; [|reflexivity].
  apply (H (fixture_engine DROP_DECRYPT_RULES) (Some (cloudtrail_body 3).2)).
  - exists (mkWireRuleV2 "Drop Decrypt" [mkWireMatchV2 "eventName" (Some "^Decrypt$") None None None false]).
    split; [vm_compute; reflexivity|]. split; reflexivity.
  - vm_compute. reflexivity.
  - split; [lia|reflexivity].
Defined.
