(* ===== verification/Harness.v ===== *)
(** * The binaries behind the runtime API ([testkit], [lambda-*/tests])

    What the end-to-end tests put together: a container of a Lambda binary, driven by the
    runtime API of [RuntimeApi] with the events of [Fixtures].  The theorems say what such a
    test may expect: the outcomes the API records, in order, are the handler's answers to the
    queued events, and an object a notification names reaches its destination filtered. *)

From S2P Require Import Prelude Model Json Path Regex Rules Reference Index Project Engine.
From S2P Require Import Settings Effects Metrics Ports Task Envelope Buffer Stream Cache Pipeline.
From S2P Require Import Accounting Source Footprint Objects Weave Batch Handle Concurrent S3Store Decode Queue Sources Lambda.
From S2P Require Import Text RuntimeApi Wire RefJson Fixtures.
Import FakeRuntimeApi.

(** ** A container behind the API *)

Section behind.
Context {J : JsonCrate} {W : WriteCrate} {SH : ShallowCrate} {R : RegexCrate} {G : GzipCrate} {Y : RulesCrates}.
Context {SC : SettingsCrate} {Cr : DecodeCrates}.
Context {F : Type} {Fs : FileSystem F} {history : nat -> F}.
Context {B : Type} {ConfS3 : S3ConfigClient B} {P : Type} {Ssm : SsmClient P}.
Context {S : Type} {Cl : S3Client S}.
Context (to_vec : Value Number -> result string Bytes).
(** How the runtime crate writes an answer, and what it says of a payload it cannot read. *)
Context (answer : result LambdaError (Lambda.Response (J := J)) -> string) (unreadable : string -> string).

(** The runtime crate reads the event, calls the handler and reports. *)
Definition container_call (t : Trigger) (w : BatchSchedule * N) (l : Lambda history B P S) (payload : string) :
    bool * string * Lambda history B P S :=
  match from_str_value payload with
  | Err e => (false, unreadable e, l)
  | Ok event => let '(r, l) := invoke to_vec t w.1 w.2 event l in (is_ok r, answer r, l)
  end.

(** What the API records of an answer. *)
Definition outcome_of (id : string) (r : result LambdaError Lambda.Response) : Outcome :=
  if is_ok r then Response id (answer r) else Failure id (answer r).

(** The events as the container sees them. *)
Definition round_events (rounds : list (Round (W := BatchSchedule * N))) (values : list (Value Number)) : list Event :=
  zip_with (fun rd v => mkEvent (rd_with rd).1 (rd_with rd).2 v) rounds values.

(** The answer to the event number [i]. *)
Definition answer_to (t : Trigger) (l : Lambda history B P S) (evs : list Event) (i : nat) (ev : Event) :
    result LambdaError Lambda.Response :=
  (invoke to_vec t (ev_sched ev) (ev_now ev) (ev_payload ev) (serve to_vec t l (take i evs))).1.

(** ** Lemmas: a session *)

Context {WL : WireLaws Cr} {WrL : WriteLaws W}.

Lemma answer_to_cons t l ev evs i ev' :
  answer_to t l (ev :: evs) (Datatypes.S i) ev' =
  answer_to t (invoke to_vec t (ev_sched ev) (ev_now ev) (ev_payload ev) l).2 evs i ev'.
Proof. done. Qed.

(** The queue from the event number [k] on. *)
Definition queued (k : nat) (values : list (Value Number)) : list (string * string) :=
  imap (fun i v => (request_id (k + i), to_string v)) values.

Lemma calls_container t rounds values l k :
  Forall plain values -> length rounds = length values ->
  let evs := round_events rounds values in
  calls (container_call t) rounds (queued k values) l =
  (imap (fun i ev => outcome_of (request_id (k + i)) (answer_to t l evs i ev)) evs, serve to_vec t l evs).
Proof.
  intros Hv. revert rounds l k. induction Hv as [|v values Hv _ IH]; intros [|rd rounds] l k Hlen; try done.
  unfold queued, round_events. cbn [imap zip_with calls]. rewrite Nat.add_0_r.
  unfold container_call at 1. destruct (to_string_parses v Hv) as (d & Hd & Hval & _). unfold from_str_value. rewrite Hd.
  cbn [fmap result_fmap]. rewrite Hval.
  destruct (invoke to_vec t (rd_with rd).1 (rd_with rd).2 v l) as [r l1] eqn:Hi.
  specialize (IH rounds l1 (Datatypes.S k) ltac:(by injection Hlen)). unfold queued in IH.
  assert (imap ((fun i v => (request_id (k + i), to_string v)) ∘ Datatypes.S) values =
          imap (fun i v => (request_id (Datatypes.S k + i), to_string v)) values) as ->.
  { apply imap_ext. intros i x _. unfold compose. by rewrite Nat.add_succ_comm. }
  rewrite IH. fold (round_events rounds values). set (evs := round_events rounds values).
  assert (forall ev i, answer_to t l (mkEvent (rd_with rd).1 (rd_with rd).2 v :: evs) (Datatypes.S i) ev = answer_to t l1 evs i ev)
    as Hs by (intros; rewrite answer_to_cons; cbn [ev_sched ev_now ev_payload]; by rewrite Hi).
  f_equal; [|cbn; by rewrite Hi]. f_equal.
  - unfold outcome_of, answer_to. cbn [take serve foldl ev_sched ev_now ev_payload]. by rewrite Hi.
  - apply imap_ext. intros i x _. unfold compose. by rewrite Hs, Nat.add_succ_comm.
Qed.
End behind.

(** ** Lemmas: one notification *)

(** Bodies that arrive whole from S3 are read whole. *)
Lemma s3_clean_reads {S} {Cl : S3Client S} self :
  (forall b k (s : S) reader, (get_object b k s).1 = Ok reader -> rd_error reader = None) ->
  clean_reads (S := S) (St := s3_object_store self).
Proof.
  intros H b k s reader. cbn [store_get_stream s3_object_store]. unfold S3ObjectStore.get_stream.
  specialize (H b k s reader). destruct (get_object b k s) as [[reader'|err] s']; cbn; [|done]. intros [= ->]. by apply H.
Qed.

Section notification.
Context {R : RegexCrate} (p : Pipeline).

(** The work of a notification that names one object. *)
Lemma fixture_work ack object :
  key_allowed p (or_key object) = true ->
  batch_work p 0 [SourceItem.new ack [object]] =
  [mkWork 0 object (bucket (s_destination (p_settings p))) (dest_key_of p object)].
Proof. intros Hk. cbn [batch_work]. unfold item_work. cbn. rewrite decide_True by done. done. Qed.

(** Its verdict: nothing failed, or the object did. *)
Lemma fixture_verdict ack object o r :
  key_allowed p (or_key object) = true -> batch_verdict p [SourceItem.new ack [object]] [o] r ->
  (is_ok o = true /\ r = Ok (mkBatchOutcome [])) \/
  (is_ok o = false /\ ((exists e, r = Err (Fail e)) \/ exists id, ack = Some id /\ r = Ok (mkBatchOutcome [id]))).
Proof.
  intros Hk Hv. unfold batch_verdict in Hv. rewrite fixture_work in Hv by done.
  destruct Hv as [(e & (i & before & after & Hl & _) & ->)|[Hn ->]]; destruct o as [[]|err].
  - by destruct before.
  - right. split; [done|]. left. eauto.
  - by left.
  - right. split; [done|]. right. revert Hn. cbn. unfold item_isolated. cbn [lookup list_lookup]. cbn.
    destruct (isolated p (SourceItem.new ack [object])) eqn:Hi; [|done]. intros _.
    apply isolated_ack in Hi as [id Hid]. cbn in Hid. subst ack. exists id. split; [done|]. done.
Qed.
End notification.

(** ** Properties *)

(** C10: what a test reads off the runtime API.  A container that serves the queued events
    through the API, the requests cut into whatever pieces, is handed each of them in order,
    and the API records an outcome per event, under the event's identifier: the handler's answer
    to that event after the events before it, a response when the handler returned and a failure
    when it did not.  Nothing stays queued. *)
Theorem session_answers {J : JsonCrate} {W : WriteCrate} {SH : ShallowCrate} {R : RegexCrate} {G : GzipCrate}
    {Y : RulesCrates} {SC : SettingsCrate} {Cr : DecodeCrates} {WL : WireLaws Cr} {WrL : WriteLaws W}
    {F} {Fs : FileSystem F} {history : nat -> F} {B} {ConfS3 : S3ConfigClient B} {P} {Ssm : SsmClient P}
    {S} {Cl : S3Client S} {C : RuntimeClient} {CL : RuntimeClientLaws C} to_vec answer unreadable t
    rounds values (l : Lambda history B P S) :
  Forall plain values -> length rounds = length values -> Forall pieces_ok rounds ->
  (N.of_nat (String.length (request_head "GET" NEXT poll_headers)) <= USIZE_MAX)%N ->
  let evs := round_events rounds values in
  (forall i ev, evs !! i = Some ev -> reportable (request_id i) (answer (answer_to to_vec t l evs i ev))) ->
  exists st, session (container_call to_vec answer unreadable t) rounds l (start to_string values) =
    Some (serve to_vec t l evs, st) /\
    pending st = [] /\ length (outcomes st) = length values /\
    forall i ev, evs !! i = Some ev ->
      outcomes st !! i = Some (outcome_of answer (request_id i) (answer_to to_vec t l evs i ev)).
Proof.
  intros Hv Hlen Hp Hpoll evs Hr.
  pose proof (calls_container to_vec answer unreadable t rounds values l 0 Hv Hlen) as Hc. fold evs in Hc. cbv zeta in Hc.
  set (outs := imap _ evs) in Hc.
  exists (mkState [] outs false). split; [|split; [done|split]]; cbn [outcomes].
  - apply (session_reports (container_call to_vec answer unreadable t) rounds (queued 0 values) [] l
      (start to_string values) outs); try done.
    + unfold start, queued. cbn [pending]. by rewrite app_nil_r.
    + unfold queued. by rewrite length_imap.
    + apply Forall_forall. intros o (i & ev & -> & Hev)%elem_of_lookup_imap id body Ho.
      pose proof (Hr i ev Hev) as H. unfold outcome_of in Ho. cbn [Nat.add] in Ho.
      destruct (is_ok _); destruct Ho as [[= <- <-]|[= <- <-]]; done.
  - unfold outs, evs, round_events. rewrite length_imap, length_zip_with. lia.
  - intros i ev Hev. unfold outs. by rewrite list_lookup_imap, Hev.
Qed.

(** C3: what the notification tests assert of the binaries.  A container started for a trigger
    is handed the event of that trigger which names an object holding a gzip of
    [cloudtrail_body]; the ruleset in effect drops [Decrypt].  When the answer reports no
    failure, the destination holds an object that decompresses to the declared survivors (it
    is as it was when there are none); when it reports one, as an error or, on SQS, as the
    message's id in the batch response, the destination is as it was. *)
Theorem notification_delivers {J : JsonCrate} {JL : JsonLaws J} {W : WriteCrate} {SH : ShallowCrate} {SL : ShallowLaws J SH}
    {FL : FlatLaws J SH} {R : RegexCrate} {RL : RegexLaws R} {G : GzipCrate} {GL : GzipLaws G} {Y : RulesCrates}
    {SC : SettingsCrate} {Cr : DecodeCrates} {WL : WireLaws Cr} {WrL : WriteLaws W}
    {F} {Fs : FileSystem F} {history : nat -> F} {B} {ConfS3 : S3ConfigClient B} {P} {Ssm : SsmClient P}
    {S} {Cl : S3Client S} {Laws : S3Laws S} t wrapped id b k n key e count level src
    (l l' : Lambda history B P S) sched now r :
  let to_vec v := Ok (to_string v) in
  let p := l_pipeline l in
  let object := mkObjectRef b key (Some n) in
  let dest := (bucket (s_destination (p_settings p)), dest_key_of p object) in
  let held (l : Lambda history B P S) := objects (e_store (w_env (l_world l))) in
  container to_vec t l -> (n <= U64_MAX)%N -> format_takes t wrapped (l_settings l) -> named_key t k key ->
  says_one_rule "Drop Decrypt" "^Decrypt$" -> compile_engine DROP_DECRYPT_RULES = Ok e ->
  engine_at (l_ttl l) compile_rules now (l_world l) = Some e ->
  key_allowed p key = true -> is_self_trigger p object = false -> dry_run (s_behavior (p_settings p)) = false ->
  (forall b k s reader, (get_object b k s).1 = Ok reader -> rd_error reader = None) ->
  gzip_bytes (cloudtrail_body count).1 level = Some src -> held l !! (b, key) = Some src ->
  (byte_len src < U64_MAX)%N -> (byte_len (cloudtrail_body count).1 < U64_MAX)%N ->
  invoke to_vec t sched now (fixture_event t wrapped id b k n) l = (r, l') ->
  r = Ok (Lambda.respond t (mkBatchOutcome [])) /\
    (if count <=? 1 then held l' !! dest = held l !! dest
     else exists gz, held l' !! dest = Some gz /\ gunzip_all gz = Some (cloudtrail_body count).2)%nat \/
  held l' !! dest = held l !! dest /\
    ((exists err, r = Err (LeCore (Fail err))) \/ t = OnSqs /\ r = Ok (Lambda.respond t (mkBatchOutcome [id]))).
Proof.
  intros to_vec p object dest held Hc Hn Hf Hk Hy He Heng Hkey Hself Hdry Hclean Hz Hsrc Hs1 Hs2 Hi.
  apply container_fitted in Hc. pose proof (fitted_part _ _ Hc) as Hpart. pose proof (fitted_runnable _ _ Hc) as Hrun. destruct Hc as [_ _ Hdec].
  unfold invoke, to_vec in Hi. rewrite Hdec in Hi.
  pose proof (fixture_decodes t wrapped (l_settings l) id b k n key Hn Hf Hk) as Hd.
  pose (SLaws := s3_store_laws (l_store l) ltac:(lia)).
  pose proof (handle_settles (Laws := SLaws) (D := build_decoder t (l_settings l)) (l_ttl l) compile_rules p sched now
    _ _ e (l_world l) Hrun Hd Heng) as H.
  pose proof (gzip_bytes_gunzip _ _ _ Hz) as Hgz. rewrite fixture_work in H by done. fold p object in Hi.
  destruct (handle (St := s3_object_store (l_store l)) (l_ttl l) compile_rules p sched now _ (l_world l)) as [r0 w'].
  injection Hi as <- <-. destruct H as (outs & Hlen & Hv & Hset).
  - constructor; [|done]. intros Ht. change (is_self_trigger p object = true) in Ht. congruence.
  - done.
  - by apply s3_clean_reads.
  - intros x ->%list_elem_of_singleton src' Hsrc'. cbn [work_source wk_object or_bucket or_key fst snd] in Hsrc'.
    assert (src' = src) as -> by (change (held l !! (b, key) = Some src') in Hsrc'; congruence). by rewrite Hgz.
  - by intros x y ->%list_elem_of_singleton ->%list_elem_of_singleton _.
  - destruct outs as [|o [|]]; try done.
    specialize (Hset 0 _ o eq_refl eq_refl ltac:(right; by intros [|j] y)). unfold settled in Hset.
    cbn [contents SLaws s3_store_laws e_store w_env work_dest work_source wk_dest_bucket wk_dest_key wk_object or_bucket or_key] in Hset.
    destruct (fixture_verdict p (fixture_ack t id) object o r0 Hkey Hv) as [[Ho ->]|[Ho Hr]].
    + left. split; [done|]. destruct o as [[]|]; [|done].
      destruct Hset as [(Hno & _)|(src' & Hsrc' & Hdel)].
      { change (held l !! (b, key) = None) in Hno. congruence. }
      assert (src' = src) as -> by (change (held l !! (b, key) = Some src') in Hsrc'; congruence).
      pose proof (fun out => drop_decrypt_delivers count level src (s_behavior (p_settings p)) e out Hz Hy He) as Hdrop.
      destruct Hdel as [[Hsame Hdel]|(body & Hafter & Hdel)]; apply Hdrop in Hdel.
      * rewrite (proj2 (Nat.leb_le count 1) Hdel). exact Hsame.
      * destruct Hdel as [Hlt Hgz']. rewrite (proj2 (Nat.leb_gt count 1) Hlt). by exists body.
    + right. destruct o as [|err]; [done|]. split; [exact Hset|].
      destruct Hr as [(err' & ->)|(id' & Hid & ->)]; [left; by exists err'|]. right.
      destruct t; try done. by injection Hid as <-.
Qed.

(** ** Witnesses *)

(** A client that sends what it must, and reads the identifier off its header. *)
#[export] Instance ref_client : RuntimeClient := {|
  poll_headers := ["Host: 127.0.0.1:9001"];
  report_headers body := ["Content-Length: " +:+ pretty (N.of_nat (String.length body))];
  read_reply parts :=
    match parts with
    | [reply; payload] =>
        id ← head (omap (strip_prefix "Lambda-Runtime-Aws-Request-Id: ") (lines reply)); Some (id, payload)
    | _ => None
    end;
|}.

Lemma digit_line c : is_ascii_digit c = true -> is_line_char c = true.
Proof. destruct c as [[] [] [] [] [] [] [] []]; vm_compute; congruence. Qed.

#[export] Instance ref_client_laws : RuntimeClientLaws ref_client.
Proof.
  split.
  - split; [reflexivity|]. by constructor.
  - intros body. cbn [report_headers ref_client]. split.
    + cbn [forallb]. rewrite andb_true_r. unfold is_header_line. rewrite str_all_app.
      by rewrite (str_all_impl _ _ _ digit_line (pretty_N_digits _)).
    + by apply (declares_length [] "Content-Length" (String.length body) []).
  - intros deadline_ms id payload Hid. cbn [read_reply ref_client]. unfold next_head. rewrite lines_with_endings.
    + done.
    + assert (forall p n, char_in LF p = false -> char_in LF (p +:+ pretty (n : N)) = false) as Hn.
      { intros p n Hp. rewrite char_in_app, Hp. by apply (str_all_not_in _ _ _ (pretty_N_digits n)). }
      repeat constructor; try apply Hn; try done. by apply (str_all_not_in _ _ _ Hid).
Qed.

Definition fixture_env (key : string) : option string :=
  if decide (key = "CT_RULES_URI") then Some "ssm:///rules" else container_env key.

Definition fixture_parameters : Shelf string Z (option string) := fun name =>
  if decide (name = "/rules") then Some (1%Z, Some DROP_DECRYPT_RULES) else None.

Definition fixture_service : RefS3.service := RefS3.mkService {[("trail", "a.json") := (cloudtrail_body 3).1]} ∅.

Definition fixture_init : result ConfigError DemoLambda :=
  init (J := ref_json) (Y := fixture_rules) (SC := no_settings) (Cr := ref_decode) OnSqs (fun _ => Err "no file")
    fixture_env fixture_parameters (fun _ => None) fixture_service 7.

Definition fixture_lambda : DemoLambda := match fixture_init with Ok l => l | Err _ => demo_lambda end.

Definition json_to_vec (v : Value Z) : result string Bytes := Ok (to_string v).

Abbreviation fixture_invocation :=
  (invoke (J := ref_json) (SH := ref_shallow) (G := ref_gzip) (Y := fixture_rules) json_to_vec OnSqs demo_batch_sched 8
     (fixture_event OnSqs true "m1" "trail" "a.json" 64) fixture_lambda).

Lemma fixture_container :
  container (J := ref_json) (SH := ref_shallow) (G := ref_gzip) (Y := fixture_rules) (SC := no_settings)
    (Cr := ref_decode) json_to_vec OnSqs fixture_lambda.
Proof.
  exists (fun _ => Err "no file"), fixture_env, fixture_parameters, (fun _ => None), fixture_service, 7%N, [], fixture_lambda.
  split; [|done]. transitivity fixture_init; [reflexivity|].
  assert (is_ok fixture_init = true) as H by (vm_compute; reflexivity). unfold fixture_lambda.
  destruct fixture_init; [reflexivity|discriminate].
Defined.

(** The event as the queue of the API hands it to the container. *)
Definition fixture_round : Round (W := BatchSchedule * N) := mkRound (fun b => if str_is_empty b then [] else [Chunk b]) 60000 (demo_batch_sched, 8%N).

Definition fixture_answer (r : result LambdaError (Lambda.Response (J := ref_json))) : string :=
  match r with Ok (RBatch document) => to_string document | Ok RUnit => "null" | Err _ => "{}" end.

Definition fixture_message : Value Z := fixture_event (J := ref_json) OnSqs true "m1" "trail" "a.json" 64.

Lemma fixture_plain : plain fixture_message.
Proof. apply (sqs_records_plain [mkSqsRecord "m1" _]). Qed.

Lemma session_answers_witness :
  exists l st, session (container_call (J := ref_json) (SH := ref_shallow) (G := ref_gzip) (Y := fixture_rules)
      json_to_vec fixture_answer id OnSqs) [fixture_round] fixture_lambda (start to_string [fixture_message]) = Some (l, st) /\
    outcomes st = [Response "req-0" (to_string (VObject [("batchItemFailures", VArray [])]))].
Proof.
  pose proof (session_answers (J := ref_json) (SH := ref_shallow) (G := ref_gzip) (Y := fixture_rules) (SC := no_settings)
    (Cr := ref_decode) json_to_vec fixture_answer id OnSqs [fixture_round] [fixture_message] fixture_lambda) as H.
  assert (fixture_answer fixture_invocation.1 = to_string (VObject [("batchItemFailures", VArray [])]) /\
          is_ok fixture_invocation.1 = true) as [Ha Hok] by (vm_compute; split; reflexivity).
  destruct H as (st & Hs & _ & Hlen & Ho).
  - constructor; [exact fixture_plain|constructor].
  - reflexivity.
  - constructor; [|constructor]. intros []; cbn; by rewrite ?str_app_nil_r.
  - vm_compute. discriminate.
  - intros [|i] ev; [|done]. intros [= <-]. change (answer_to _ _ _ _ _ _) with fixture_invocation.1. rewrite Ha.
    split; [reflexivity|]. split; [reflexivity|]. intros []; vm_compute; discriminate.
  - eexists _, st. split; [exact Hs|]. specialize (Ho 0 _ eq_refl).
    unfold outcome_of in Ho. change (answer_to _ _ _ _ _ _) with fixture_invocation.1 in Ho. rewrite Ha, Hok in Ho.
    destruct (outcomes st) as [|o [|]]; [discriminate Hlen| |discriminate Hlen]. 
    apply (inj Some) in Ho. rewrite Ho. reflexivity.
Defined.

Lemma notification_delivers_witness :
  exists gz, objects (e_store (w_env (l_world fixture_invocation.2))) !! ("siem", "filtered/a.json") = Some gz /\
    gunzip_all (G := ref_gzip) gz = Some (records_text [record_json 1 "ConsoleLogin"; record_json 2 "ConsoleLogin"]).
Proof.
  assert (match fixture_invocation.1 with Ok (RBatch (VObject [(_, VArray [])])) => True | _ => False end) as Hr
    by (vm_compute; exact I).
  assert (match engine_at (l_ttl fixture_lambda) (compile_rules (Y := fixture_rules)) 8 (l_world fixture_lambda) with
          | Some _ => true | None => false end = true) as He by (vm_compute; reflexivity).
  destruct fixture_invocation as [r l'] eqn:Hi. cbn [fst snd] in *.
  destruct (notification_delivers (J := ref_json) (SH := ref_shallow) (G := ref_gzip) (Y := fixture_rules) (SC := no_settings)
    (Cr := ref_decode) OnSqs true "m1" "trail" "a.json" 64 "a.json" (fixture_engine DROP_DECRYPT_RULES) 3 6
    (cloudtrail_body 3).1 fixture_lambda l' demo_batch_sched 8 r) as [[_ H]|[_ [[err ->]|[_ ->]]]].
  - exact fixture_container.
  - discriminate.
  - intros _. left. vm_compute. reflexivity.
  - reflexivity.
  - exists (mkWireRuleV2 "Drop Decrypt" [mkWireMatchV2 "eventName" (Some "^Decrypt$") None None None false]).
    split; [vm_compute; reflexivity|]. split; reflexivity.
  - vm_compute. reflexivity.
  - vm_compute. reflexivity.
  - vm_compute. reflexivity.
  - vm_compute. reflexivity.
  - vm_compute. reflexivity.
  - intros b k s reader. cbn. destruct (RefS3.objects s !! (b, k)); [|discriminate]. intros [= <-]. reflexivity.
  - reflexivity.
  - vm_compute. reflexivity.
  - vm_compute. reflexivity.
  - vm_compute. reflexivity.
  - exact Hi.
  - exact H.
  - destruct Hr.
  - destruct Hr.
Defined.
