(* ===== verification/Ministack.v ===== *)
(** * The clients of the live tests ([testkit/src/ministack.rs]) and the child's environment

    What the tests ask of the emulated services, and the environment
    [LambdaProcess::spawn] starts a binary in.  The services are parameters; a panic is an
    [Err].  The theorem is that the binaries see, in that environment, the settings the
    in-process tests build by hand. *)

From S2P Require Import Prelude Model Json Path Regex Rules Reference Index Project Engine.
From S2P Require Import Settings Effects Metrics Ports Task Envelope Buffer Stream Cache Pipeline.
From S2P Require Import Accounting Source Footprint Objects Weave Batch Handle S3Store Decode Queue Sources Lambda.
From S2P Require Import Text Wire RefJson Fixtures.

(** ** The environment of a binary *)

Definition ENDPOINT : string := "http://127.0.0.1:4566".
Definition REGION : string := "us-east-1".
Definition ACCESS_KEY : string := "test".
Definition SECRET_KEY : string := "test".

Definition lambda_env (dest_bucket rules_uri : string) : list (string * string) :=
  [("AWS_ENDPOINT_URL", ENDPOINT); ("AWS_REGION", REGION); ("AWS_ACCESS_KEY_ID", ACCESS_KEY);
   ("AWS_SECRET_ACCESS_KEY", SECRET_KEY); ("AWS_EC2_METADATA_DISABLED", "true"); ("CT_DEST_BUCKET", dest_bucket);
   ("CT_RULES_URI", rules_uri); ("RUST_LOG", "info")].

(** [LambdaProcess::spawn]: the calls of [Command::env] after [env_clear]. *)
Definition spawn_env (runtime_api : string) (extra_env : list (string * string)) : list (string * string) :=
  [("PATH", "/usr/bin:/bin"); ("HOME", "/tmp"); ("AWS_LAMBDA_RUNTIME_API", runtime_api);
   ("AWS_LAMBDA_FUNCTION_NAME", "cloudtrail-rs-testkit"); ("AWS_LAMBDA_FUNCTION_VERSION", "$LATEST");
   ("AWS_LAMBDA_FUNCTION_MEMORY_SIZE", "512"); ("AWS_LAMBDA_LOG_GROUP_NAME", "/aws/lambda/cloudtrail-rs");
   ("AWS_LAMBDA_LOG_STREAM_NAME", "testkit")] ++ extra_env.

(** [Command::env] overwrites. *)
Definition child_env (calls : list (string * string)) (key : string) : option string :=
  alist_get key (foldl (fun env kv => alist_insert kv.1 kv.2 env) [] calls).

(** ** The services *)

Inductive CreateBucketError : Type :=
  | BucketAlreadyOwnedByYou
  | BucketAlreadyExists
  | OtherCreateError (shown : Msg).

(** [NotificationConfiguration], for [s3:ObjectCreated:*]. *)
Inductive Notification : Type :=
  | NotifyQueue (queue_arn : string)
  | NotifyTopic (topic_arn : string)
  | NotifyEventBridge.

Inductive ParameterType : Type := PlainString | SecureString.

(** [Q] is the state of the services other than S3; the writes overwrite. *)
Class TestServices (S Q : Type) := {
  create_bucket : string -> S -> result CreateBucketError unit * S;
  head_object : string -> string -> S -> result Msg unit * S;
  delete_object_call : string -> string -> S -> result Msg unit * S;
  (** [PutObject] without metadata. *)
  put_bare_object : string -> string -> Bytes -> S -> result Msg unit * S;
  create_queue : string -> Q -> result Msg (option string) * Q;
  queue_arn_attribute : string -> Q -> result Msg (option string) * Q;
  purge : string -> Q -> result Msg unit * Q;
  receive_message : string -> N -> N -> Q -> result Msg (list (option string)) * Q;
  put_bucket_notification : string -> Notification -> S -> result Msg unit * S;
  put_ssm_parameter : string -> string -> ParameterType -> Q -> result Msg Z * Q;
  create_topic : string -> Q -> result Msg (option string) * Q;
  subscribe : string -> string -> string -> Q -> result Msg unit * Q;
  put_rule : string -> string -> Q -> result Msg unit * Q;
  put_targets : string -> list (string * string) -> Q -> result Msg unit * Q;
}.

Module Ministack.
Section ministack.
Context {S Q : Type} {Cl : S3Client S} {Ts : TestServices S Q}.

Definition failed {A} (what : string) (names : list string) (e : Msg) : result Msg A :=
  Err (Fmt (what +:+ "({..}) failed: {e:?}") (map Lit names ++ [e])).

Definition ensure_bucket (bucket : string) (s : S) : result Msg unit * S :=
  let '(r, s) := create_bucket bucket s in
  (match r with
   | Ok _ | Err BucketAlreadyOwnedByYou | Err BucketAlreadyExists => Ok tt
   | Err (OtherCreateError e) => failed "create_bucket" [bucket] e
   end, s).

(** [send().await.unwrap_or_else(|e| panic!(..))] *)
Definition sent {A T} (what : string) (names : list string) (call : result Msg A * T) : result Msg A * T :=
  let '(r, t) := call in (match r with Ok a => Ok a | Err e => failed what names e end, t).

Definition put_parameter (name value : string) (q : Q) : result Msg unit * Q :=
  let '(r, q) := sent "put_parameter" [name] (put_ssm_parameter name value PlainString q) in (_ ← r; Ok tt, q).

Definition put_secure_parameter (name value : string) (q : Q) : result Msg Z * Q :=
  sent "put_parameter" [name] (put_ssm_parameter name value SecureString q).

Definition put_object (bucket key : string) (body : Bytes) (s : S) : result Msg unit * S :=
  sent "put_object" [bucket; key] (put_bare_object bucket key body s).

Definition get_object (bucket key : string) (s : S) : result Msg Bytes * S :=
  let '(r, s) := S3Store.get_object bucket key s in
  (match r with
   | Ok out => map_err (fun e => Fmt "reading object body: {e:?}" [e]) (read_to_end out)
   | Err NoSuchKey => failed "get_object" [bucket; key] (Lit "NoSuchKey")
   | Err (OtherGetError e) => failed "get_object" [bucket; key] e
   end, s).

Definition object_exists (bucket key : string) (s : S) : bool * S :=
  let '(r, s) := head_object bucket key s in (is_ok r, s).

(** The result is dropped. *)
Definition delete_object (bucket key : string) (s : S) : S := (delete_object_call bucket key s).2.

(** The loop of [list_keys]; [None] when [fuel] pages were not enough. *)
Fixpoint list_keys (fuel : nat) (bucket prefix : string) (token : option string) (keys : list string) (s : S) :
    option (result Msg (list string) * S) :=
  match fuel with
  | O => None
  | Datatypes.S fuel =>
      match list_objects_v2 bucket prefix token s with
      | (Err e, s) => Some (failed "list_objects_v2" [bucket; prefix] e, s)
      | (Ok out, s) =>
          let keys := keys ++ omap id (lp_keys out) in
          match lp_next_token out with
          | None => Some (Ok keys, s)
          | token => list_keys fuel bucket prefix token keys s
          end
      end
  end.

Definition ensure_queue (name : string) (q : Q) : result Msg (string * string) * Q :=
  match create_queue name q with
  | (Err e, q) => (failed "create_queue" [name] e, q)
  | (Ok None, q) => (Err (Lit "CreateQueue must return a URL"), q)
  | (Ok (Some url), q) =>
      match queue_arn_attribute url q with
      | (Err e, q) => (failed "get_queue_attributes" [name] e, q)
      | (Ok None, q) => (Err (Lit "queue must have a QueueArn"), q)
      | (Ok (Some arn), q) => (Ok (url, arn), q)
      end
  end.

Definition purge_queue (queue_url : string) (q : Q) : result Msg unit * Q :=
  sent "purge_queue" [queue_url] (purge queue_url q).

Definition notify_queue (bucket queue_arn : string) (s : S) : result Msg unit * S :=
  sent "notify_queue" [bucket] (put_bucket_notification bucket (NotifyQueue queue_arn) s).

Definition notify_topic (bucket topic_arn : string) (s : S) : result Msg unit * S :=
  sent "notify_topic" [bucket] (put_bucket_notification bucket (NotifyTopic topic_arn) s).

Definition notify_eventbridge (bucket : string) (s : S) : result Msg unit * S :=
  sent "notify_eventbridge" [bucket] (put_bucket_notification bucket NotifyEventBridge s).

Definition ensure_topic (name : string) (q : Q) : result Msg string * Q :=
  let '(r, q) := sent "create_topic" [name] (create_topic name q) in
  (arn ← r; ok_or (Lit "CreateTopic must return an ARN") arn, q).

Definition subscribe_queue (topic_arn queue_arn : string) (q : Q) : result Msg unit * Q :=
  sent "subscribe" [topic_arn; queue_arn] (subscribe topic_arn "sqs" queue_arn q).

Definition ensure_rule_to_queue (name pattern queue_arn : string) (q : Q) : result Msg unit * Q :=
  match sent "put_rule" [name] (put_rule name pattern q) with
  | (Ok _, q) => sent "put_targets" [name] (put_targets name [("1", queue_arn)] q)
  | failure => failure
  end.

(** The loop of [drain_queue]; [turns] is how often it sees the deadline ahead. *)
Fixpoint drain (turns : nat) (queue_url : string) (expected : nat) (bodies : list string) (q : Q) :
    result Msg (list string) * Q :=
  match turns with
  | O => (Ok bodies, q)
  | Datatypes.S turns =>
      if (length bodies <? expected)%nat then
        match receive_message queue_url 10 2 q with
        | (Err e, q) => (failed "receive_message" [queue_url] e, q)
        | (Ok out, q) => drain turns queue_url expected (bodies ++ omap id out) q
        end
      else (Ok bodies, q)
  end.

Definition drain_queue (turns : nat) (queue_url : string) (expected : nat) (q : Q) : result Msg (list string) * Q :=
  match drain turns queue_url expected [] q with
  | (Ok bodies, q) =>
      (if (length bodies =? expected)%nat then Ok bodies
       else Err (Fmt "expected {expected} message(s) on {queue_url} within {timeout:?}, got {}: {bodies:#?}"
                   (map Lit (pretty (N.of_nat expected) :: queue_url :: pretty (N.of_nat (length bodies)) :: bodies))), q)
  | (Err e, q) => (Err e, q)
  end.
End ministack.
End Ministack.

(** ** Specification *)

(** What a queue hands out poll by poll. *)
Inductive polled {S Q} {Ts : TestServices S Q} (queue_url : string) : Q -> list (list string) -> Q -> Prop :=
  | polled_nil q : polled queue_url q [] q
  | polled_cons q out q1 outs q2 :
      receive_message queue_url 10 2 q = (Ok out, q1) -> polled queue_url q1 outs q2 ->
      polled queue_url q (omap id out :: outs) q2.

(** ** Lemmas *)

Section lemmas.
Context {S Q : Type} {Cl : S3Client S} {Ts : TestServices S Q}.

(** While the listing of a truncated page is the only one with a token, the test's listing is
    the store's. *)
Lemma list_keys_complete bucket prefix token (s : S) keys s' n acc :
  serves bucket prefix token s keys s' n ->
  (forall token s out s1, list_objects_v2 bucket prefix token s = (Ok out, s1) ->
     lp_is_truncated out <> Some true -> lp_next_token out = None) ->
  Ministack.list_keys n bucket prefix token acc s = Some (Ok (acc ++ keys), s').
Proof.
  intros H Hpage. revert acc. induction H as [token s out s' Hl Hend|token s out next s1 keys s' n Hl Hn Ht H IH]; intros acc;
    cbn [Ministack.list_keys]; rewrite Hl.
  - assert (lp_next_token out = None) as -> by (destruct Hend as [H|H]; [done|by eapply Hpage]). done.
  - rewrite Hn, app_assoc. apply IH.
Qed.

(** A drain ends with everything that was received, in the order of arrival. *)
Lemma drain_polled turns url expected bodies (q : Q) r q' :
  Ministack.drain turns url expected bodies q = (Ok r, q') ->
  exists outs, polled url q outs q' /\ r = bodies ++ concat outs.
Proof.
  revert bodies q. induction turns as [|turns IH]; intros bodies q; cbn [Ministack.drain].
  - intros [= -> <-]. exists []. split; [constructor|]. by rewrite app_nil_r.
  - destruct (length bodies <? expected)%nat.
    2:{ intros [= -> <-]. exists []. split; [constructor|]. by rewrite app_nil_r. }
    destruct (receive_message url 10 2 q) as [[out|e] q1] eqn:Hr; [|done]. intros H.
    destruct (IH _ _ H) as (outs & Hp & ->). exists (omap id out :: outs). split; [by econstructor|].
    cbn [concat]. by rewrite app_assoc.
Qed.

Lemma drain_queue_exact turns url expected (q : Q) bodies q' :
  Ministack.drain_queue turns url expected q = (Ok bodies, q') ->
  length bodies = expected /\ exists outs, polled url q outs q' /\ bodies = concat outs.
Proof.
  unfold Ministack.drain_queue. destruct (Ministack.drain turns url expected [] q) as [[r|e] q1] eqn:Hd; [|done].
  destruct (Nat.eqb_spec (length r) expected) as [Hl|]; [|done]. intros [= -> <-]. split; [done|].
  by apply drain_polled in Hd as (outs & Hp & ->); exists outs.
Qed.

(** The last call for a variable decides. *)
Lemma child_env_app calls key value : child_env (calls ++ [(key, value)]) key = Some value.
Proof. unfold child_env. rewrite foldl_app. cbn. by rewrite alist_get_insert, decide_True. Qed.
End lemmas.

(** ** Properties *)

(** The end-to-end tests and the in-process ones run under the same settings.  A binary
    started as the tests start it, with the environment of [lambda_env], loads exactly
    [base_settings]: no variable the harness sets for the SDK or the runtime is read as a
    setting, and nothing else differs from the defaults. *)
Theorem spawned_settings {R : RegexCrate} {SC : SettingsCrate} read runtime_api dest rules_uri :
  dest <> "" -> (exists f, KeyFilter_compile Source_default = Ok f) ->
  load read (child_env (spawn_env runtime_api (lambda_env dest rules_uri))) = Ok (base_settings dest rules_uri).
Proof.
  intros Hd Hk. unfold load. change (child_env _ "SETTINGS_URI") with (@None string). cbn [mbind result_bind].
  apply from_parts_inv. eexists _, _. split; [reflexivity|]. split; [reflexivity|].
  split; [|reflexivity]. apply valid_validate; [reflexivity|]. split; try (cbn; lia); done.
Qed.

(** ** Witness *)

Lemma spawned_settings_witness :
  load (R := ref_regex) (SC := no_settings) (fun _ => Err "no file")
    (child_env (spawn_env "127.0.0.1:9001" (lambda_env "siem" "ssm:///rules"))) =
  Ok (base_settings "siem" "ssm:///rules").
Proof.
  apply (spawned_settings (R := ref_regex) (SC := no_settings)); [discriminate|]. eexists. vm_compute. reflexivity.
Defined.
