(* ===== verification/Corpus.v ===== *)
(** * The corpus ([core/src/testing/corpus.rs])

    The realistic records the tests filter, the helpers that make objects of them, and the guard
    that keeps real account numbers out.  A record's text is written here with an apostrophe for
    each quotation mark ([json] puts them back); the free-text notes of a record are left out.
    A panic is [None]. *)

From S2P Require Import Prelude Model Json Path Regex Rules Reference Index Project Engine.
From S2P Require Import Settings Effects Metrics Ports Task Envelope Buffer Text.

(** ** Data *)

Record CorpusRecord := mkCorpusRecord {
  co_name : string;
  co_event_source : string;
  co_event_name : string;
  co_json : string;
  co_event_id : string;
  co_request_id : string;
}.

Record CorpusKey := mkCorpusKey { ck_key : string; ck_accepted_by_default : bool }.

Definition json (text : string) : string := replace_char "'" "034" text.

Definition ALLOWED_ACCOUNT_IDS : list string := ["123456789012"; "210987654321"; "000000000000"].

Definition RECORDS : list CorpusRecord :=
  [mkCorpusRecord "sts-assume-role-service-role" "sts.amazonaws.com" "AssumeRole"
     (json "{'eventVersion':'1.09','userIdentity':{'type':'AssumedRole','principalId':'AROAEXAMPLEID123456:aws-sdk-session-1717171717','arn':'arn:aws:sts::123456789012:assumed-role/service-role/pipeline-runner/aws-sdk-session-1717171717','accountId':'123456789012','accessKeyId':'ASIAEXAMPLEKEY12345','sessionContext':{'sessionIssuer':{'type':'Role','principalId':'AROAEXAMPLEID123456','arn':'arn:aws:iam::123456789012:role/service-role/pipeline-runner','accountId':'123456789012','userName':'pipeline-runner'},'attributes':{'creationDate':'2026-07-29T09:14:22Z','mfaAuthenticated':'false'}}},'eventTime':'2026-07-29T09:14:23Z','eventSource':'sts.amazonaws.com','eventName':'AssumeRole','awsRegion':'eu-west-1','sourceIPAddress':'192.0.2.44','userAgent':'aws-sdk-go/1.55.5 (go1.22.4; linux; amd64)','requestParameters':{'roleArn':'arn:aws:iam::123456789012:role/service-role/deploy','roleSessionName':'aws-sdk-1717171717','durationSeconds':3600},'responseElements':{'credentials':{'accessKeyId':'ASIAEXAMPLEKEY67890','expiration':'Jul 29, 2026 10:14:23 AM','sessionToken':'IQoJb3JpZ2luX2VjEXAMPLETOKEN'},'assumedRoleUser':{'assumedRoleId':'AROAEXAMPLEID654321:aws-sdk-1717171717','arn':'arn:aws:sts::123456789012:assumed-role/deploy/aws-sdk-1717171717'}},'requestID':'b1c2d3e4-f5a6-4b7c-8d9e-0f1a2b3c4d5e','eventID':'5f2a8c1e-3d47-4b9a-8e1f-6c0d2a4b7e93','readOnly':true,'resources':[{'accountId':'123456789012','type':'AWS::IAM::Role','ARN':'arn:aws:iam::123456789012:role/service-role/deploy'}],'eventType':'AwsApiCall','managementEvent':true,'recipientAccountId':'123456789012','eventCategory':'Management','tlsDetails':{'tlsVersion':'TLSv1.3','cipherSuite':'TLS_AES_128_GCM_SHA256','clientProvidedHostHeader':'sts.eu-west-1.amazonaws.com'}}")
     "5f2a8c1e-3d47-4b9a-8e1f-6c0d2a4b7e93" "b1c2d3e4-f5a6-4b7c-8d9e-0f1a2b3c4d5e";
   mkCorpusRecord "sts-assume-role-with-web-identity-irsa" "sts.amazonaws.com" "AssumeRoleWithWebIdentity"
     (json "{'eventVersion':'1.08','userIdentity':{'type':'WebIdentityUser','principalId':'arn:aws:iam::123456789012:oidc-provider/oidc.eks.eu-west-1.amazonaws.com/id/EXAMPLED539D4633E53DE1B71EXAMPLE:sts.amazonaws.com:system:serviceaccount:prod:checkout','userName':'system:serviceaccount:prod:checkout','identityProvider':'arn:aws:iam::123456789012:oidc-provider/oidc.eks.eu-west-1.amazonaws.com/id/EXAMPLED539D4633E53DE1B71EXAMPLE'},'eventTime':'2026-07-29T09:15:02Z','eventSource':'sts.amazonaws.com','eventName':'AssumeRoleWithWebIdentity','awsRegion':'eu-west-1','sourceIPAddress':'198.51.100.17','userAgent':'aws-sdk-java/2.25.11 Linux/5.10.220 OpenJDK_64-Bit_Server_VM/21.0.3','requestParameters':{'roleArn':'arn:aws:iam::123456789012:role/prod-eks-checkout-irsa-role','roleSessionName':'checkout-7f9c4b8d6-x2klm','durationSeconds':3600},'responseElements':{'subjectFromWebIdentityToken':'system:serviceaccount:prod:checkout','audience':'sts.amazonaws.com','provider':'arn:aws:iam::123456789012:oidc-provider/oidc.eks.eu-west-1.amazonaws.com/id/EXAMPLED539D4633E53DE1B71EXAMPLE'},'requestID':'7d8e9f00-1122-4334-9556-778899aabbcc','eventID':'9c4e7b20-1a68-4f3d-b5c7-2e8a09d1f4b6','readOnly':true,'resources':[{'accountId':'123456789012','type':'AWS::IAM::Role','ARN':'arn:aws:iam::123456789012:role/prod-eks-checkout-irsa-role'}],'eventType':'AwsApiCall','managementEvent':true,'recipientAccountId':'123456789012','eventCategory':'Management'}")
     "9c4e7b20-1a68-4f3d-b5c7-2e8a09d1f4b6" "7d8e9f00-1122-4334-9556-778899aabbcc";
   mkCorpusRecord "kms-decrypt-from-eks" "kms.amazonaws.com" "Decrypt"
     (json "{'eventVersion':'1.09','userIdentity':{'type':'AssumedRole','principalId':'AROAEXAMPLEID999999:i-0abc123def4567890','arn':'arn:aws:sts::123456789012:assumed-role/eks-node-group/i-0abc123def4567890','accountId':'123456789012','accessKeyId':'ASIAEXAMPLEKEY99999','sessionContext':{'sessionIssuer':{'type':'Role','principalId':'AROAEXAMPLEID999999','arn':'arn:aws:iam::123456789012:role/eks-node-group','accountId':'123456789012','userName':'eks-node-group'},'attributes':{'creationDate':'2026-07-29T06:02:11Z','mfaAuthenticated':'false'}}},'eventTime':'2026-07-29T09:15:44Z','eventSource':'kms.amazonaws.com','eventName':'Decrypt','awsRegion':'eu-west-1','sourceIPAddress':'eks.amazonaws.com','userAgent':'eks.amazonaws.com','requestParameters':{'encryptionContext':{'aws:eks:cluster-name':'prod-euw1','kubernetes.io/namespace':'kube-system','aws:secretsmanager:secret':'prod/db/password'},'encryptionAlgorithm':'SYMMETRIC_DEFAULT'},'responseElements':null,'requestID':'aabbccdd-eeff-4011-a223-34455667788a','eventID':'1b3d5f70-9a2c-4e6b-8d0f-3a5c7e9b1d2f','readOnly':true,'resources':[{'accountId':'123456789012','type':'AWS::KMS::Key','ARN':'arn:aws:kms:eu-west-1:123456789012:key/1234abcd-12ab-34cd-56ef-1234567890ab'}],'eventType':'AwsApiCall','managementEvent':true,'recipientAccountId':'123456789012','eventCategory':'Management'}")
     "1b3d5f70-9a2c-4e6b-8d0f-3a5c7e9b1d2f" "aabbccdd-eeff-4011-a223-34455667788a";
   mkCorpusRecord "ec2-describe-launch-template-versions" "ec2.amazonaws.com" "DescribeLaunchTemplateVersions"
     (json "{'eventVersion':'1.09','userIdentity':{'type':'AssumedRole','principalId':'AROAEXAMPLEIDNODEGRP:EKS','arn':'arn:aws:sts::123456789012:assumed-role/AWSServiceRoleForAmazonEKSNodegroup/EKS','accountId':'123456789012','accessKeyId':'ASIAEXAMPLEKEYNODEG','sessionContext':{'sessionIssuer':{'type':'Role','principalId':'AROAEXAMPLEIDNODEGRP','arn':'arn:aws:iam::123456789012:role/aws-service-role/eks-nodegroup.amazonaws.com/AWSServiceRoleForAmazonEKSNodegroup','accountId':'123456789012','userName':'AWSServiceRoleForAmazonEKSNodegroup'},'attributes':{'creationDate':'2026-07-29T09:00:00Z','mfaAuthenticated':'false'}},'invokedBy':'eks-nodegroup.amazonaws.com'},'eventTime':'2026-07-29T09:16:01Z','eventSource':'ec2.amazonaws.com','eventName':'DescribeLaunchTemplateVersions','awsRegion':'eu-west-1','sourceIPAddress':'eks-nodegroup.amazonaws.com','userAgent':'eks-nodegroup.amazonaws.com','requestParameters':{'launchTemplateId':'lt-0a1b2c3d4e5f67890','maxResults':200,'versionsSet':{'items':[{'version':'3'}]}},'responseElements':null,'requestID':'11223344-5566-4778-899a-abbccddeeff0','eventID':'3e6a9c12-4b7d-4a80-9c3e-5f1b8d2a6c40','readOnly':true,'eventType':'AwsApiCall','managementEvent':true,'recipientAccountId':'123456789012','eventCategory':'Management'}")
     "3e6a9c12-4b7d-4a80-9c3e-5f1b8d2a6c40" "11223344-5566-4778-899a-abbccddeeff0";
   mkCorpusRecord "s3-get-object-terraform-state" "s3.amazonaws.com" "GetObject"
     (json "{'eventVersion':'1.10','userIdentity':{'type':'AssumedRole','principalId':'AROAEXAMPLEIDTFCI01:terraform-run-abc123','arn':'arn:aws:sts::123456789012:assumed-role/terraform-ci/terraform-run-abc123','accountId':'123456789012','accessKeyId':'ASIAEXAMPLEKEYTFCI0','sessionContext':{'sessionIssuer':{'type':'Role','principalId':'AROAEXAMPLEIDTFCI01','arn':'arn:aws:iam::123456789012:role/terraform-ci','accountId':'123456789012','userName':'terraform-ci'},'attributes':{'creationDate':'2026-07-29T09:10:00Z','mfaAuthenticated':'false'}}},'eventTime':'2026-07-29T09:16:30Z','eventSource':'s3.amazonaws.com','eventName':'GetObject','awsRegion':'eu-west-1','sourceIPAddress':'192.0.2.201','userAgent':'APN/1.0 HashiCorp/1.0 Terraform/1.9.2 (+https://www.terraform.io) aws-sdk-go/1.44.122','requestParameters':{'bucketName':'tfstate-prod-euw1','Host':'tfstate-prod-euw1.s3.eu-west-1.amazonaws.com','key':'env/prod/network/terraform.tfstate'},'responseElements':null,'additionalEventData':{'SignatureVersion':'SigV4','CipherSuite':'TLS_AES_128_GCM_SHA256','bytesTransferredIn':0,'AuthenticationMethod':'AuthHeader','x-amz-id-2':'EXAMPLEqWm1sQ1TppAaDL0F0k7ZoRnBLQdVcRZ2E4hDwaBDeExAmPlE=','bytesTransferredOut':184320,'SSEApplied':'SSE_S3'},'requestID':'EXAMPLE7A1C3E5900','eventID':'7a1c3e59-2d84-4f16-b7a0-9c5e3b1d8f24','readOnly':true,'resources':[{'type':'AWS::S3::Object','ARN':'arn:aws:s3:::tfstate-prod-euw1/env/prod/network/terraform.tfstate'},{'accountId':'123456789012','type':'AWS::S3::Bucket','ARN':'arn:aws:s3:::tfstate-prod-euw1'}],'eventType':'AwsApiCall','managementEvent':false,'recipientAccountId':'123456789012','eventCategory':'Data'}")
     "7a1c3e59-2d84-4f16-b7a0-9c5e3b1d8f24" "EXAMPLE7A1C3E5900";
   mkCorpusRecord "signin-console-login-mfa" "signin.amazonaws.com" "ConsoleLogin"
     (json "{'eventVersion':'1.08','userIdentity':{'type':'IAMUser','principalId':'AIDAEXAMPLEUSERID01','arn':'arn:aws:iam::123456789012:user/break-glass','accountId':'123456789012','userName':'break-glass'},'eventTime':'2026-07-29T09:17:12Z','eventSource':'signin.amazonaws.com','eventName':'ConsoleLogin','awsRegion':'us-east-1','sourceIPAddress':'198.51.100.203','userAgent':'Mozilla/5.0 (Macintosh; Intel Mac OS X 10_15_7) AppleWebKit/605.1.15 (KHTML, like Gecko) Version/17.5 Safari/605.1.15','requestParameters':null,'responseElements':{'ConsoleLogin':'Success'},'additionalEventData':{'LoginTo':'https://eu-west-1.console.aws.amazon.com/console/home?region=eu-west-1&state=hashArgs','MobileVersion':'No','MFAIdentifier':'arn:aws:iam::123456789012:mfa/break-glass','MFAUsed':'Yes'},'requestID':'d4e5f6a7-b8c9-40d1-92e3-f4a5b6c7d8e9','eventID':'c8f4a260-7b13-4e95-a2d6-0b8e4c1f7a35','readOnly':false,'eventType':'AwsConsoleSignIn','managementEvent':true,'recipientAccountId':'123456789012','eventCategory':'Management','tlsDetails':{'tlsVersion':'TLSv1.3','cipherSuite':'TLS_AES_128_GCM_SHA256','clientProvidedHostHeader':'signin.aws.amazon.com'}}")
     "c8f4a260-7b13-4e95-a2d6-0b8e4c1f7a35" "d4e5f6a7-b8c9-40d1-92e3-f4a5b6c7d8e9";
   mkCorpusRecord "logs-put-log-events-from-lambda" "logs.amazonaws.com" "PutLogEvents"
     (json "{'eventVersion':'1.09','userIdentity':{'type':'AssumedRole','principalId':'AROAEXAMPLEIDLAMBDA1:api-handler','arn':'arn:aws:sts::123456789012:assumed-role/api-handler-role/api-handler','accountId':'123456789012','accessKeyId':'ASIAEXAMPLEKEYLAMBD','sessionContext':{'sessionIssuer':{'type':'Role','principalId':'AROAEXAMPLEIDLAMBDA1:aws-lambda-api-handler','arn':'arn:aws:iam::123456789012:role/api-handler-role','accountId':'123456789012','userName':'api-handler-role'},'attributes':{'creationDate':'2026-07-29T09:12:00Z','mfaAuthenticated':'false'}}},'eventTime':'2026-07-29T09:17:45Z','eventSource':'logs.amazonaws.com','eventName':'PutLogEvents','awsRegion':'eu-west-1','sourceIPAddress':'192.0.2.99','userAgent':'aws-sdk-nodejs/2.1691.0 linux/v20.15.0 exec-env/AWS_Lambda_nodejs20.x','requestParameters':{'logGroupName':'/aws/lambda/api-handler','logStreamName':'2026/07/29/[$LATEST]a1b2c3d4e5f64758697a8b9c0d1e2f30','sequenceToken':'49590000000000000000000000000000000000000000000000000001'},'responseElements':{'nextSequenceToken':'49590000000000000000000000000000000000000000000000000002'},'requestID':'f0e1d2c3-b4a5-4968-8778-695a4b3c2d1e','eventID':'2d9b6f83-5c07-4a21-8e4b-1f3a7d0c9e56','readOnly':false,'eventType':'AwsApiCall','managementEvent':false,'recipientAccountId':'123456789012','eventCategory':'Data'}")
     "2d9b6f83-5c07-4a21-8e4b-1f3a7d0c9e56" "f0e1d2c3-b4a5-4968-8778-695a4b3c2d1e";
   mkCorpusRecord "iam-create-user-security-relevant" "iam.amazonaws.com" "CreateUser"
     (json "{'eventVersion':'1.09','userIdentity':{'type':'IAMUser','principalId':'AIDAEXAMPLEADMIN001','arn':'arn:aws:iam::123456789012:user/platform-admin','accountId':'123456789012','accessKeyId':'AKIAEXAMPLEADMIN001','sessionContext':{'attributes':{'creationDate':'2026-07-29T08:55:00Z','mfaAuthenticated':'true'}}},'eventTime':'2026-07-29T09:18:03Z','eventSource':'iam.amazonaws.com','eventName':'CreateUser','awsRegion':'us-east-1','sourceIPAddress':'198.51.100.14','userAgent':'aws-cli/2.17.9 Python/3.11.9 Darwin/24.5.0 source/arm64','requestParameters':{'userName':'contractor-jw','tags':[{'key':'owner','value':'platform'},{'key':'expires','value':'2026-10-01'}]},'responseElements':{'user':{'path':'/','userName':'contractor-jw','userId':'AIDAEXAMPLECONTRACT','arn':'arn:aws:iam::123456789012:user/contractor-jw','createDate':'Jul 29, 2026 9:18:03 AM'}},'requestID':'9a8b7c6d-5e4f-4321-a098-7b6c5d4e3f2a','eventID':'6b0d2f47-8a91-4c35-b6e8-4d2c9f0a7b13','readOnly':false,'eventType':'AwsApiCall','managementEvent':true,'recipientAccountId':'123456789012','eventCategory':'Management'}")
     "6b0d2f47-8a91-4c35-b6e8-4d2c9f0a7b13" "9a8b7c6d-5e4f-4321-a098-7b6c5d4e3f2a";
   mkCorpusRecord "escapes-and-unicode" "lambda.amazonaws.com" "Invoke"
     (json "{'eventVersion':'1.09','userIdentity':{'type':'AssumedRole','principalId':'AROAEXAMPLEIDINVOKE1:caller','arn':'arn:aws:sts::123456789012:assumed-role/invoker/caller','accountId':'123456789012','accessKeyId':'ASIAEXAMPLEKEYINVOK'},'eventTime':'2026-07-29T09:18:41Z','eventSource':'lambda.amazonaws.com','eventName':'Invoke','awsRegion':'eu-central-1','sourceIPAddress':'192.0.2.7','userAgent':'aws-cli/2.17.9 Python/3.11.9 Linux/6.8.0 exec-env/CloudShell','errorCode':'InvalidParameterValueException','errorMessage':'Der Wert \'payload\' ist ung\u00fcltig — expected JSON, got: {\'a\':\'b\\\\c\'}\tsee https:\/\/example.com\/docs ☁ 日本語 😀','requestParameters':{'functionName':'arn:aws:lambda:eu-central-1:123456789012:function:report-générateur','invocationType':'RequestResponse','qualifier':'$LATEST'},'responseElements':null,'requestID':'c3d4e5f6-a7b8-4c90-b1d2-e3f4a5b6c7d8','eventID':'8e5c1a94-0f62-4d78-9b31-7a6e2c4f0d85','readOnly':false,'eventType':'AwsApiCall','managementEvent':false,'recipientAccountId':'123456789012','eventCategory':'Data'}")
     "8e5c1a94-0f62-4d78-9b31-7a6e2c4f0d85" "c3d4e5f6-a7b8-4c90-b1d2-e3f4a5b6c7d8";
   mkCorpusRecord "numeric-edge-cases" "cloudwatch.amazonaws.com" "PutMetricData"
     (json "{'eventVersion':'1.09','userIdentity':{'type':'AWSService','invokedBy':'monitoring.amazonaws.com'},'eventTime':'2026-07-29T09:19:07Z','eventSource':'cloudwatch.amazonaws.com','eventName':'PutMetricData','awsRegion':'eu-west-1','sourceIPAddress':'monitoring.amazonaws.com','userAgent':'monitoring.amazonaws.com','requestParameters':{'namespace':'Prod/Checkout','metricData':[{'metricName':'Latency','value':1.0,'unit':'Milliseconds'},{'metricName':'Ratio','value':1.5e-7,'unit':'None'},{'metricName':'Drift','value':-0.0,'unit':'None'},{'metricName':'Precise','value':0.1000000000000000055511151231257827,'unit':'None'},{'metricName':'Counter','value':9007199254740993,'unit':'Count'}]},'responseElements':null,'requestID':'5a6b7c8d-9e0f-4a1b-8c2d-3e4f5a6b7c8d','eventID':'4f7b0d26-9c58-4e13-a740-2b9d6f8c1e07','readOnly':false,'eventType':'AwsApiCall','managementEvent':false,'recipientAccountId':'123456789012','eventCategory':'Data'}")
     "4f7b0d26-9c58-4e13-a740-2b9d6f8c1e07" "5a6b7c8d-9e0f-4a1b-8c2d-3e4f5a6b7c8d";
   mkCorpusRecord "additional-event-data-as-json-string" "elasticfilesystem.amazonaws.com" "NewClientConnection"
     (json "{'eventVersion':'1.08','userIdentity':{'type':'AWSAccount','principalId':'AROAEXAMPLEIDEFS001:session','accountId':'210987654321'},'eventTime':'2026-07-29T09:19:33Z','eventSource':'elasticfilesystem.amazonaws.com','eventName':'NewClientConnection','awsRegion':'eu-west-1','sourceIPAddress':'192.0.2.130','userAgent':'elasticfilesystem.amazonaws.com','requestParameters':null,'responseElements':null,'additionalEventData':'{\'AWSAccountId\':\'210987654321\',\'MountTargetId\':\'fsmt-0a1b2c3d\',\'ClientIpAddress\':\'192.0.2.130\',\'Permissions\':\'ReadWrite\'}','requestID':'e1f2a3b4-c5d6-4e78-9a0b-1c2d3e4f5a6b','eventID':'0a3c8e71-6d24-4b59-8f07-5c1e9a2b4d68','readOnly':true,'eventType':'AwsServiceEvent','managementEvent':true,'recipientAccountId':'123456789012','eventCategory':'Management'}")
     "0a3c8e71-6d24-4b59-8f07-5c1e9a2b4d68" "e1f2a3b4-c5d6-4e78-9a0b-1c2d3e4f5a6b";
   mkCorpusRecord "cross-account-recipient" "guardduty.amazonaws.com" "GetFindings"
     (json "{'eventVersion':'1.09','userIdentity':{'type':'AssumedRole','principalId':'AROAEXAMPLEIDSECOPS1:secops','arn':'arn:aws:sts::210987654321:assumed-role/security-audit/secops','accountId':'210987654321','accessKeyId':'ASIAEXAMPLEKEYSECOP','sessionContext':{'sessionIssuer':{'type':'Role','principalId':'AROAEXAMPLEIDSECOPS1','arn':'arn:aws:iam::210987654321:role/security-audit','accountId':'210987654321','userName':'security-audit'},'attributes':{'creationDate':'2026-07-29T09:00:00Z','mfaAuthenticated':'true'}}},'eventTime':'2026-07-29T09:20:15Z','eventSource':'guardduty.amazonaws.com','eventName':'GetFindings','awsRegion':'eu-west-1','sourceIPAddress':'198.51.100.88','userAgent':'aws-cli/2.17.9 Python/3.11.9 Linux/6.8.0','requestParameters':{'detectorId':'1a2b3c4d5e6f7a8b9c0d1e2f3a4b5c6d','findingIds':['7f8e9d0c1b2a3948576655443322110f']},'responseElements':null,'requestID':'0f1e2d3c-4b5a-4695-8778-89a0b1c2d3e4','eventID':'b2e6d049-3f81-4a27-95c0-8d4b1f7a3e62','readOnly':true,'eventType':'AwsApiCall','managementEvent':true,'recipientAccountId':'123456789012','eventCategory':'Management'}")
     "b2e6d049-3f81-4a27-95c0-8d4b1f7a3e62" "0f1e2d3c-4b5a-4695-8778-89a0b1c2d3e4";
   mkCorpusRecord "insight-record" "ec2.amazonaws.com" "RunInstances"
     (json "{'eventVersion':'1.08','eventTime':'2026-07-29T09:21:00Z','awsRegion':'eu-west-1','eventID':'d7c3b8f5-2a46-4019-8e7d-6b0a5c3f9e14','eventType':'AwsCloudTrailInsight','recipientAccountId':'123456789012','sharedEventID':'a1b2c3d4-e5f6-4708-9a1b-2c3d4e5f6a7b','eventCategory':'Insight','eventSource':'ec2.amazonaws.com','eventName':'RunInstances','requestID':'8b7a6959-4837-4261-b504-3f2e1d0c9b8a','insightDetails':{'state':'Start','eventSource':'ec2.amazonaws.com','eventName':'RunInstances','insightType':'ApiCallRateInsight','insightContext':{'statistics':{'baseline':{'average':0.0166666667},'insight':{'average':41.0},'insightDuration':5,'baselineDuration':10080},'attributions':[{'attribute':'userIdentityArn','insight':[{'value':'arn:aws:sts::123456789012:assumed-role/autoscaler/scale-out','average':41.0}],'baseline':[{'value':'arn:aws:sts::123456789012:assumed-role/autoscaler/scale-out','average':0.0142857143}]}]}}}")
     "d7c3b8f5-2a46-4019-8e7d-6b0a5c3f9e14" "8b7a6959-4837-4261-b504-3f2e1d0c9b8a";
   mkCorpusRecord "minimal-legacy-record" "support.amazonaws.com" "DescribeTrustedAdvisorChecks"
     (json "{'eventVersion':'1.02','userIdentity':{'type':'Root','principalId':'123456789012','arn':'arn:aws:iam::123456789012:root','accountId':'123456789012'},'eventTime':'2026-07-29T09:21:38Z','eventSource':'support.amazonaws.com','eventName':'DescribeTrustedAdvisorChecks','awsRegion':'us-east-1','sourceIPAddress':'192.0.2.1','userAgent':'console.amazonaws.com','requestID':'2c3d4e5f-6a7b-4c8d-9e0f-1a2b3c4d5e6f','eventID':'f5a1e73c-8b09-4d62-a418-3c7e5b2d9f06','eventType':'AwsApiCall','recipientAccountId':'123456789012'}")
     "f5a1e73c-8b09-4d62-a418-3c7e5b2d9f06" "2c3d4e5f-6a7b-4c8d-9e0f-1a2b3c4d5e6f"].

Definition KEYS : list CorpusKey :=
  [mkCorpusKey "AWSLogs/123456789012/CloudTrail/eu-west-1/2026/07/29/123456789012_CloudTrail_eu-west-1_20260729T0915Z_a1B2c3D4e5F6g7H8.json.gz" true;
   mkCorpusKey "AWSLogs/o-a1b2c3d4e5/123456789012/CloudTrail/eu-west-1/2026/07/29/123456789012_CloudTrail_eu-west-1_20260729T0915Z_Z9y8X7w6V5u4T3s2.json.gz" true;
   mkCorpusKey "prefix/with/custom/root/AWSLogs/123456789012/CloudTrail/us-east-1/2026/07/29/123456789012_CloudTrail_us-east-1_20260729T0920Z_QqWwEeRrTtYyUuIi.json.gz" true;
   mkCorpusKey "AWSLogs/123456789012/CloudTrail-Digest/eu-west-1/2026/07/29/123456789012_CloudTrail-Digest_eu-west-1_prod_eu-west-1_20260729T091500Z.json.gz" false;
   mkCorpusKey "AWSLogs/123456789012/CloudTrail-Insight/eu-west-1/2026/07/29/123456789012_CloudTrail-Insight_eu-west-1_20260729T0921Z_InSiGhT0123456789.json.gz" false;
   mkCorpusKey "AWSLogs/123456789012/CloudTrail/eu-west-1/2026/07/29/" false;
   mkCorpusKey "AWSLogs/123456789012/CloudTrail/eu-west-1/2026/07/29/123456789012_CloudTrail_eu-west-1_20260729T0915Z_a1B2c3D4e5F6g7H8.json" false].

(** ** Objects made of the corpus *)

Definition envelope_of (bodies : list string) : string :=
  "{" +:+ QUOTE +:+ "Records" +:+ QUOTE +:+ ":[" +:+ str_join "," bodies +:+ "]}".

Definition envelope (records : list CorpusRecord) : string := envelope_of (map co_json records).

Definition full_envelope : string := envelope RECORDS.

Definition envelope_where (keep : CorpusRecord -> bool) : option string :=
  match filter (fun r => keep r = true) RECORDS with
  | [] => None
  | kept => Some (envelope kept)
  end.

Definition find (name : string) : option CorpusRecord := snd <$> list_find (fun r => co_name r = name) RECORDS.

(** [text.replace(from, to)]; [skip] characters belong to the occurrence just replaced. *)
Fixpoint replace_from (skip : nat) (from to text : string) : string :=
  match text with
  | EmptyString => EmptyString
  | String c rest =>
      match skip with
      | S skip => replace_from skip from to rest
      | O => if starts_with from text then to +:+ replace_from (String.length from - 1) from to rest
             else String c (replace_from 0 from to rest)
      end
  end.
Definition replace (from to text : string) : string := replace_from 0 from to text.

Definition contains (needle text : string) : bool := match find_str needle text with Some _ => true | None => false end.

Definition synthetic_id (tag : string) (idx : nat) : string :=
  tag +:+ zero_padded 6 (N.of_nat idx) +:+ "-0000-4000-8000-" +:+ zero_padded 12 (N.of_nat idx).

Definition with_unique_ids (record : CorpusRecord) (idx : nat) : option string :=
  if contains (co_event_id record) (co_json record) then
    let out := replace (co_event_id record) (synthetic_id "ev" idx) (co_json record) in
    if contains (co_request_id record) (co_json record)
    then Some (replace (co_request_id record) (synthetic_id "rq" idx) out)
    else None
  else None.

Definition scale_records (count : nat) : option (list string) :=
  mapM (fun i => r ← RECORDS !! (i mod length RECORDS); with_unique_ids r i) (seq 0 count).

Definition scale_envelope (count : nat) : option string := envelope_of <$> scale_records count.

(** ** Account numbers *)

Definition if_twelve (run : string) : list string := if (String.length run =? 12) then [run] else [].

Fixpoint digit_runs (current text : string) : list string :=
  match text with
  | EmptyString => if_twelve current
  | String ch text =>
      if is_ascii_digit ch then digit_runs (current +:+ String ch "") text
      else if_twelve current ++ digit_runs "" text
  end.
Definition twelve_digit_runs (text : string) : list string := digit_runs "" text.

Definition unexpected_in (name text : string) : list string :=
  omap (fun candidate => if decide (candidate ∈ ALLOWED_ACCOUNT_IDS) then None else Some (name +:+ ": " +:+ candidate))
    (twelve_digit_runs text).

Definition unexpected_account_ids : list string :=
  concat (map (fun r => unexpected_in (co_name r) (co_json r)) RECORDS) ++
  concat (map (fun k => unexpected_in (ck_key k) (ck_key k)) KEYS).

(** ** Specification *)

(** [run] stands in [text] as a whole run of digits: no digit before it, none after. *)
Definition ends_in_digit (s : string) : Prop := exists p c, s = p +:+ String c "" /\ is_ascii_digit c = true.
Definition starts_in_digit (s : string) : Prop := exists c q, s = String c q /\ is_ascii_digit c = true.

Definition digit_run (text run : string) : Prop :=
  exists before after, text = before +:+ run +:+ after /\ str_all is_ascii_digit run = true /\
    ~ ends_in_digit before /\ ~ starts_in_digit after.

(** ** Lemmas *)

Lemma not_ends_nil : ~ ends_in_digit "".
Proof. intros (p & c & H & _). by destruct p. Qed.

Lemma not_starts_nil : ~ starts_in_digit "".
Proof. by intros (c & q & H & _). Qed.

Lemma not_ends_cons c p : ~ ends_in_digit (String c p) -> ~ ends_in_digit p.
Proof. intros H (q & d & -> & Hd). apply H. by exists (String c q), d. Qed.

Lemma ends_all_digits p : str_all is_ascii_digit p = true -> p <> "" -> ends_in_digit p.
Proof.
  induction p as [|c p IH]; [done|]. intros H _. cbn in H. bools. destruct p as [|d p].
  - by exists "", c.
  - destruct IH as (q & e & -> & He); [done|done|]. by exists (String c q), e.
Qed.

Lemma starts_all_digits q : str_all is_ascii_digit q = true -> q <> "" -> starts_in_digit q.
Proof. destruct q as [|c q]; [done|]. intros H _. cbn in H. bools. by exists c, q. Qed.

(** The run in progress [cur], then a character that is none of its digits: the run is [cur],
    or it comes after that character. *)
Lemma run_splits cur c text before run after :
  str_all is_ascii_digit cur = true -> is_ascii_digit c = false -> str_all is_ascii_digit run = true -> run <> "" ->
  ~ ends_in_digit before -> ~ starts_in_digit after ->
  cur +:+ String c text = before +:+ run +:+ after ->
  (before = "" /\ run = cur) \/ exists before', before = cur +:+ String c before' /\ text = before' +:+ run +:+ after.
Proof.
  revert before run. induction cur as [|a cur IH]; intros before run Hcur Hc Hrun Hne Hb Ha Heq; cbn in Hcur.
  - destruct before as [|b before].
    + destruct run as [|r run]; [done|]. cbn in Heq. injection Heq as -> _. cbn in Hrun. bools. congruence.
    + right. exists before. cbn in Heq. by injection Heq as <- ->.
  - bools. destruct before as [|b before].
    + left. split; [done|]. destruct run as [|r run]; [done|]. cbn in Heq. injection Heq as <- Heq. f_equal.
      cbn in Hrun. bools. destruct (decide (run = "")) as [->|Hr].
      * destruct cur as [|d cur]; [done|]. exfalso. cbn in *. bools. apply Ha. exists d, (cur +:+ String c text). by rewrite <-Heq.
      * destruct (IH "" run) as [[_ Hcur]|(before' & Hb' & _)]; try done;
          first [apply not_ends_nil|by destruct cur].
    + cbn in Heq. injection Heq as <- Heq. pose proof (not_ends_cons _ _ Hb) as Hb'. destruct (decide (before = "")) as [->|Hn].
      * exfalso. apply Hb. by exists "", a.
      * destruct (IH before run) as [[-> _]|(before' & -> & ->)]; try done. right. by exists before'.
Qed.

Lemma ends_after p c q : is_ascii_digit c = false -> ends_in_digit (p +:+ String c q) -> ends_in_digit q.
Proof.
  intros Hc (r & d & H & Hd). revert q r H. induction p as [|a p IH]; intros q [|b r] H; cbn in H.
  - injection H as -> _. congruence.
  - injection H as _ ->. by exists r, d.
  - injection H as _ H. by destruct p.
  - injection H as _ H. by eapply IH.
Qed.

Lemma if_twelve_elem run cur : run ∈ if_twelve cur <-> run = cur /\ String.length run = 12.
Proof.
  unfold if_twelve. destruct (Nat.eqb_spec (String.length cur) 12) as [H|H].
  - rewrite list_elem_of_singleton. split; [by intros ->|by intros [-> _]].
  - split; [by intros ?%not_elem_of_nil|by intros [-> ?]].
Qed.

Lemma whole_run cur run : str_all is_ascii_digit cur = true -> digit_run cur run -> run = cur.
Proof.
  intros Hcur (before & after & -> & _ & Hb & Ha). rewrite !str_all_app in Hcur. bools.
  assert (before = "") as -> by (destruct (decide (before = "")); [done|]; by destruct Hb; apply ends_all_digits).
  assert (after = "") as -> by (destruct (decide (after = "")); [done|]; by destruct Ha; apply starts_all_digits).
  by rewrite str_app_nil_r.
Qed.

Lemma digit_runs_spec text cur run :
  str_all is_ascii_digit cur = true ->
  run ∈ digit_runs cur text <-> String.length run = 12 /\ digit_run (cur +:+ text) run.
Proof.
  revert cur. induction text as [|c text IH]; intros cur Hcur; cbn [digit_runs].
  - rewrite str_app_nil_r, if_twelve_elem. split.
    + intros [-> Hl]. split; [done|]. exists "", "". rewrite str_app_nil_r.
      split_and!; [done|done|apply not_ends_nil|apply not_starts_nil].
    + intros [Hl H]. by apply whole_run in H.
  - destruct (is_ascii_digit c) eqn:Hc.
    { rewrite IH by (rewrite str_all_app, Hcur; cbn; by rewrite Hc). by rewrite str_app_assoc. }
    rewrite elem_of_app, if_twelve_elem, IH by done. cbn [String.append]. split.
    + intros [[-> Hl]|[Hl (before & after & -> & Hr & Hb & Ha)]]; (split; [done|]).
      * exists "", (String c text). split_and!; [done|done|apply not_ends_nil|]. intros (d & q & [= <- _] & Hd). congruence.
      * exists (cur +:+ String c before), after. split_and!; [by rewrite str_app_assoc|done| |done].
        intros H. by apply Hb, (ends_after cur c).
    + intros [Hl (before & after & Heq & Hr & Hb & Ha)].
      destruct (run_splits cur c text before run after) as [[_ ->]|(before' & -> & ->)]; try done; [by intros ->|by left|].
      right. split; [done|]. exists before', after. split_and!; try done. intros (p & d & -> & Hd). apply Hb.
      exists (cur +:+ String c p), d. by rewrite str_app_assoc.
Qed.

(** What the guard lets through. *)
Lemma unexpected_in_none name text run :
  unexpected_in name text = [] -> String.length run = 12 -> digit_run text run -> run ∈ ALLOWED_ACCOUNT_IDS.
Proof.
  unfold unexpected_in, twelve_digit_runs. intros Hn Hl Hr.
  assert (run ∈ digit_runs "" text) as Hin by by apply digit_runs_spec.
  revert Hn. induction Hin as [x l|x y l Hin IH]; cbn; case_decide; done || auto.
Qed.

(** A copy of a record loses its identifiers, whatever they are replaced by. *)
Lemma records_have_ids :
  forallb (fun r => contains (co_event_id r) (co_json r) && contains (co_request_id r) (co_json r)) RECORDS = true.
Proof. vm_compute. reflexivity. Qed.

Lemma with_unique_ids_some r idx : r ∈ RECORDS -> is_Some (with_unique_ids r idx).
Proof.
  intros H. pose proof records_have_ids as Hall. rewrite forallb_forall in Hall. apply list_elem_of_In, Hall in H.
  bools. unfold with_unique_ids. by rewrite H, H0.
Qed.

(** ** Properties *)

(** The corpus is safe to publish and to use.  Every whole run of exactly twelve digits in
    the text of a record or in a key, which is what an account number looks like, is one of the
    documentation's; the guard finds any other text's as well.  No assertion of
    [scale_records] fails, however many records are asked for, and names are unique. *)
Theorem corpus_usable :
  (forall text run, run ∈ twelve_digit_runs text <-> String.length run = 12 /\ digit_run text run) /\
  (forall r run, r ∈ RECORDS -> String.length run = 12 -> digit_run (co_json r) run -> run ∈ ALLOWED_ACCOUNT_IDS) /\
  (forall k run, k ∈ KEYS -> String.length run = 12 -> digit_run (ck_key k) run -> run ∈ ALLOWED_ACCOUNT_IDS) /\
  (forall count, exists texts, scale_records count = Some texts /\ length texts = count) /\
  NoDup (map co_name RECORDS).
Proof.
  assert (unexpected_account_ids = []) as Hu by (vm_compute; reflexivity). apply app_nil in Hu as [Hr Hk].
  assert (forall {A} (l : list (list A)) x, concat l = [] -> x ∈ l -> x = []) as Hnil.
  { intros A l x Hl Hx. induction Hx as [x l|x y l Hx IH]; cbn in Hl; apply app_nil in Hl as [? ?]; auto. }
  split_and!.
  - intros text run. by apply digit_runs_spec.
  - intros r run Hin. apply (unexpected_in_none (co_name r)). apply (Hnil _ _ _ Hr). apply list_elem_of_fmap. eauto.
  - intros k run Hin. apply (unexpected_in_none (ck_key k)). apply (Hnil _ _ _ Hk). apply list_elem_of_fmap. eauto.
  - intros count. unfold scale_records. destruct (mapM _ (seq 0 count)) as [texts|] eqn:E.
    + exists texts. split; [done|]. apply mapM_Some, Forall2_length in E. by rewrite <-E, length_seq.
    + exfalso. apply mapM_None in E. apply Exists_exists in E as (i & _ & Hi).
      destruct (lookup_lt_is_Some_2 RECORDS (i mod length RECORDS)) as [r Hr']; [by apply Nat.mod_upper_bound|].
      rewrite Hr' in Hi. cbn in Hi. destruct (with_unique_ids_some r i) as [t Ht]; [by eapply list_elem_of_lookup_2|].
      congruence.
  - apply (bool_decide_unpack _). vm_compute. reflexivity.
Qed.
